(* ===== verification/_CoqProject ===== *)
-Q . S2P
Prelude.v
Log.v
TinyPack.v
TinyPackTest.v
Chunk.v
MemBlock.v
MemInv.v
MemSpec.v
MemTest.v
Mux.v
MuxSpec.v
MuxTest.v
MuxNet.v
MuxNetSpec.v
Message.v
Bridge.v
CmdCenter.v
Rpc.v
CenterLoop.v
Filter.v
Machine.v
Tinylibc.v
Scout.v
Mission.v
Seccomp.v
Sandbox.v
Sha2.v
Sha2Spec.v
Sha2Unrolled.v
Otypes.v
Ogl.v
OglMerge.v
OglTree.v
OglHash.v
OglSpec.v
OglMergeSpec.v
OglClone.v
OglStore.v
OglCollect.v
OglCommit.v
OglReopen.v
OglTest.v
Ptrace.v
Loader.v
LoaderSpec.v
FlightDeck.v
FlightSpec.v
Exec.v
