(* ===== verification/Prelude.v ===== *)
(** * MoSingAr: a verification development

    MoSingAr runs a program in a sandbox on another machine: system calls that
    touch files are trapped in the process and made by a process outside of it.
    This development models the C++ code under src/ that does this, and proves
    what its parts promise each other.

    ** The program and its parts

    The Carrier (loader/main.cpp, carrier.cpp) is the process the user starts.
    In it, the Command Center (loader/cmdcenter.cpp) starts a mission: it forks,
    attaches to the child and lets the flight deck (loader/flightdeck.cpp) take
    a scout off.  The flight deck reads libmosingar.so, an ELF file, lays out a
    block with the loader (loader/loader.cpp) and its arguments, and runs it in
    the child with the tracing tools (loader/ptracetools.cpp).  The loader maps
    and relocates the library and calls its init functions, of which bootstrap
    (sandbox/bootstrap.cpp) makes the trampoline page, the allocator and the
    scout (sandbox/scout.cpp).  The scout opens a channel to the Command Center
    and installs the handler of SIGSYS (sandbox/seccomp.cpp) and the seccomp
    filter (sandbox/filter.cpp).  From then on the filter traps system calls on
    paths; the handler passes them to the bridge (sandbox/bridge.cpp), which
    packs a request (toolkits/tinypack.h), sends it (toolkits/msghelper.cpp) and
    waits for the reply of the Command Center.  Code inside the sandboxed process
    has its own small C library (sandbox/tinylibc.cpp) and allocator
    (sandbox/tinymalloc.cpp).  Two further libraries are to carry the system
    over a network: mux (mux/mux.cpp), channels over one transport, and oglfs
    (oglfs/ogl.cpp), a content-addressed store of directory trees.

    ** The files

    A definition has the name of the function it models, the C++ class in front
    where two would clash.

    - [Prelude]: outcomes, the state monad [ST] over them, integers at their
      width, bytes and little-endian numbers, tactics and the hint database
      [mosingar].  An [assert], [abort], undefined behaviour that the models
      notice, or waiting for ever is a value of type [fault].
    - [Log] (toolkits/log.h): [_I2STR] writes the decimal representation of a
      number.
    - [TinyPack] (toolkits/tinypack.h): the value traits as type classes, the
      packing and unpacking chains.  For every list of fields of the message
      types ([fty]), with the bytes written out: encoding and decoding are
      inverse; without fixed buffers, whose size is not checked, decoding any
      bytes stays inside them and every strict prefix is recognised.
    - [Message] (toolkits/msghelper.cpp): messages with descriptors.
    - [Bridge] (sandbox/bridge.cpp) and [CmdCenter] (loader/cmdcenter.cpp): the
      two ends of every request.  [CenterLoop]: the list of scouts and the
      message loop.  [Rpc] joins both ends by a socket pair: access, unlink,
      stat, lstat, openat, fstat and readlink of the sandboxed program return
      what the Command Center's own call returns.  [Exec], the last file, runs
      [handle_exec] on the models of the tracing tools and of the flight deck:
      a program that is executed in the sandbox is let go only when
      [scout_takeoff] has reported success for it, unless PTRACE_SETOPTIONS has
      failed ([exec_unseen]).
    - [Filter] (sandbox/filter.cpp): the BPF program and a machine for it; its
      verdict on every call.  [Machine]: registers, memory and the instructions
      of the assembly files.  [Scout] (sandbox/scout.cpp, bootstrap.cpp): the
      preparation of a process, and its descriptors.  [Seccomp]
      (sandbox/seccomp.cpp and the .S files): the signal handler, the fake
      frames of vfork and execve.  [Sandbox]: the filter traps what the handler
      handles, and a trapped call continues with the Command Center's result.
    - [Tinylibc] (sandbox/tinylibc.cpp): the memory routines do what the other
      models take them to do; the wrappers.
    - [Chunk], [MemBlock] (sandbox/tinymalloc.cpp): the bitmap of a chunk and the
      block with its lists over a shared store of chunk headers.  [MemInv] has
      the invariant, [MemSpec] the promise of malloc and free to clients with
      small blocks, and the run in which it breaks for large ones.
    - [Mission] (cmdcenter::start_mission, loader/carrier.cpp, main.cpp): two
      processes as interleaved state machines; the program does not run before
      the scout is there, and does run when nothing fails; the SIGCHLD handler.
    - [Ptrace] (loader/ptracetools.cpp), [Loader] (loader/loader.cpp) and
      [FlightDeck] (loader/flightdeck.cpp, shellcode.S): running code in a
      stopped process, loading the library, parsing it and laying out the
      shellcode.  [LoaderSpec]: the loader builds the reference image and
      changes nothing else.  [FlightSpec]: what the flight deck injects is what
      the loader's theorem asks for, and the flags arrive in the library.
    - [Mux] (mux/mux.h, mux.cpp) and [MuxSpec]: channel numbers, framing,
      routing, the opening and closing handshakes, a refused open, the transfer
      of a stream between two muxes, and sequence numbers up to their
      wrap-around.  [MuxNet] is an abstract machine of two endpoints with the
      packets that are under way in both directions, and its invariant;
      [MuxNetSpec] shows that two muxes follow it step by step, whatever the
      interleaving: no assertion fails, what arrives is a prefix of what was
      sent, and once everything is delivered it is all of it.  Two things are
      outside of these runs because the code goes wrong there: a path that the
      peer refuses ([MuxSpec.refused_open_aborts]) and closing a stream, which
      deletes a [StreamChannel] as a [Channel] ([MuxSpec.close_stream_channel]).
    - [Otypes] (oglfs/otypes.h), [Ogl], [OglMerge] (oglfs/ogl.h, ogl.cpp): the
      bytes of directory objects, the tree as a heap of entries that point to
      each other, commit, find, diff, clone and merge.  [OglTree]: the invariant
      of the tree and its marks.  [OglHash]: hash codes are those of whole
      contents.  [OglSpec]: diff, paths and references, and what commit and
      merge lose.  [OglMergeSpec]: merge as a three-way merge of contents.
      [OglClone]: clone ends and copies whole trees; what a merge adds cannot
      always be committed.
      [OglStore]: a directory that is dumped and loaded again, and
      what is lost when it is dumped once more.  [OglCollect] and [OglCommit]
      follow the two passes of commit, which collects the modified directories
      and then dumps them from the leaves up: after it the root's hash code
      stands for the whole tree.  [OglReopen]: opening the repository again
      shows the tree that was committed, if the files still hold its objects.
      [store_obj] and [load_obj] take the path of an object from a string that
      has been destroyed, which is undefined; what the freed characters read as
      is a parameter ([stale] of [repo_os], [dangling_path]), and nothing is
      assumed of it but that it does not change ([freed]) and that files of
      these names can be written.  The theorems on
      commit say what holds for any such reading, and what more holds when the
      objects have not met in one file; [OglReopen.commit_mixes_objects] is a
      run in which they do.
    - [Sha2] (3rd-parties/sha2-1.0.1): SHA-256, whose first eight bytes are the
      hash codes of oglfs.  [Sha2Spec] has the algorithm of FIPS 180-4 as a
      reference and shows that the streaming code computes it.  [Sha2Unrolled]:
      the variant of the compression with unrolled rounds is the same function.

    ** How the parts are joined

    What a part needs of the kernel, or of a part in another process, is a type
    class of operations ([sockets], [files], [cc_os], [tracer], [scout_os],
    [ptrace_os], [trampoline_os] and others) over a world of its own; where a
    theorem relies on what they do, a second class has their laws
    ([fd_kernel], the laws of the tracee and of the library's file, [exec_laws]
    of ptrace and waitpid), with an instance in the witness.  No law is about
    code under src/.  [malloc] is a parameter of the messaging models,
    the compiled machine code of the flight deck, and the uninitialised padding
    of link objects of the store.
    The end-to-end theorems of [Rpc], [Sandbox] and [FlightSpec] instantiate
    the interface of one model with the operations of another.

    ** Integers, fuel and bounds

    Machine integers are of type Z; [u32], [s32], [u64] and [s64] are applied
    where the code's types wrap.  Recursion that C++ does with a loop has fuel
    only where no structure is at hand.  Walks of linked lists have one more
    than the number of objects in the store, which a list without a cycle cannot
    exceed ([MemBlock.chain_length], [OglTree.parents_length]); running out
    means a cyclic list, an endless loop in the code.  The BPF machine has the
    length of the program, as jumps only go forward.  The depth of
    [_alloc_small] is bounded by the assertion in [alloc_chunk], and
    [MemSpec.alloc_small_ready] shows that it is enough.  The loop over the
    blocks of [SHA256_Update] has one more than the length of the data, commit
    one more than the number of entries, of which it visits each at most once
    ([OglCollect.collect_spec]), and [_I2STR] has the ten digits of an int.
    The theorems on every run of two muxes are for fewer than 2^30 actions and
    packets, so that no number wraps around; what happens when one does is
    [MuxSpec.seq_lockstep].  There the users do not call the mux from within a
    listener, and packets arrive whole; what a part of a packet does is
    [MuxSpec.ReceiveRaw_partial_packet].
    Loops that wait for
    the world (waitpid, the message loop) have fuel as an argument, and their
    theorems hold for any.

    ** What is not modelled

    The text that perror and printf write, and what the debugging macros of
    toolkits/log.h write with [_I2STR], have no effect on the rest; _E, _EI and _EA of
    toolkits/errhandle.h appear as the branches they expand to.
    operator new and delete only call malloc and free.
    ogl_repo::make_temp only calls mkstemp.  Of the SHA-2 library, SHA-384 and
    SHA-512 are not called by the program, and its command-line programs are
    not built.  The programs under playground/ are experiments.  Of the test
    programs those that run without another process are modelled, in [MuxTest],
    [OglTest], [MemTest] and [TinyPackTest]: they pass on the models, that of
    oglfs when the freed path strings are intact.
    Threads do not appear in the
    code; the SIGCHLD handler is modelled as a function, not as an interruption
    of main. *)

From Stdlib Require Export ZArith Lia.
From Stdlib Require Import Strings.Byte.
From stdpp Require Export prelude gmap strings list fin_maps numbers.

Open Scope Z_scope.
Abbreviation byte := Corelib.Init.Byte.byte.
Abbreviation NUL := Corelib.Init.Byte.x00.

(** ** Outcomes

    A C++ call either returns, or the process stops: an [assert] fails,
    [abort]/[ABORT] is called, or the call has undefined behaviour that the
    models detect (an access outside a buffer, a [delete] of an object that
    was not allocated with [new]), or it waits for something that cannot
    happen any more. *)
Inductive fault : Type :=
| AssertFailed (condition : string)
| Aborted (message : string)
| Undefined (what : string)
| Blocked (what : string).

Inductive outcome (A : Type) : Type :=
| Ok (a : A)
| Fault (f : fault).
Arguments Ok {A} a.
Arguments Fault {A} f.

#[export] Instance fault_eq_dec : EqDecision fault.
Proof. solve_decision. Defined.

#[export] Instance outcome_ret : MRet outcome := fun A a => Ok a.
#[export] Instance outcome_bind : MBind outcome := fun A B f m =>
  match m with Ok a => f a | Fault e => Fault e end.

#[export] Instance outcome_fmap : FMap outcome := fun A B f m =>
  match m with Ok a => Ok (f a) | Fault e => Fault e end.

(** [assert(b)], with the source text of the condition. *)
Definition cassert (b : bool) (condition : string) : outcome unit :=
  if b then Ok tt else Fault (AssertFailed condition).

(** ** State with outcomes *)
Definition ST (S A : Type) : Type := S → outcome (A * S).

#[export] Instance ST_ret {S} : MRet (ST S) := fun A a s => Ok (a, s).
#[export] Instance ST_bind {S} : MBind (ST S) := fun A B f m s =>
  match m s with Ok (a, s') => f a s' | Fault e => Fault e end.

Definition get {S} : ST S S := fun s => Ok (s, s).
Definition put {S} (s : S) : ST S unit := fun _ => Ok (tt, s).
Definition gets {S A} (f : S → A) : ST S A := fun s => Ok (f s, s).
Definition modify {S} (f : S → S) : ST S unit := fun s => Ok (tt, f s).
Definition lift {S A} (m : outcome A) : ST S A := fun s =>
  match m with Ok a => Ok (a, s) | Fault e => Fault e end.
Definition sassert {S} (b : bool) (condition : string) : ST S unit :=
  lift (cassert b condition).

(** ** Machine integers (x86_64: [int] is 32 bits, [long] and [size_t] 64) *)
Definition u32 (z : Z) : Z := z mod 2 ^ 32.
Definition u64 (z : Z) : Z := z mod 2 ^ 64.
Definition s32 (z : Z) : Z := if u32 z <? 2 ^ 31 then u32 z else u32 z - 2 ^ 32.
Definition s64 (z : Z) : Z := if u64 z <? 2 ^ 63 then u64 z else u64 z - 2 ^ 64.

(** Signed [int] addition, whose overflow is undefined behaviour. *)
Definition int_add (a b : Z) : outcome Z :=
  if bool_decide (- 2 ^ 31 ≤ a + b < 2 ^ 31) then Ok (a + b)
  else Fault (Undefined "signed overflow").

(** [(x + 7) & ~0x7] *)
Definition round8 (x : Z) : Z := Z.land (x + 7) (Z.lnot 7).

(** ** Bytes *)
#[export] Instance byte_eq_dec : EqDecision byte := Byte.byte_eq_dec.

Definition Z_of_byte (b : byte) : Z := Z.of_N (Byte.to_N b).
Definition byte_of_Z (z : Z) : byte :=
  match Byte.of_N (Z.to_N (z mod 256)) with Some b => b | None => NUL end.

(** Little-endian object representation of an [n]-byte integer. *)
Fixpoint le_bytes (n : nat) (z : Z) : list byte :=
  match n with
  | O => []
  | S n => byte_of_Z z :: le_bytes n (z / 256)
  end.
Fixpoint le_Z (l : list byte) : Z :=
  match l with
  | [] => 0
  | b :: l => Z_of_byte b + 256 * le_Z l
  end.

(** [memcpy(dst + pos, src, length src)] on a buffer, which must hold the
    whole range. *)
Definition write_at {A} (dst : list A) (pos : Z) (src : list A) : outcome (list A) :=
  if bool_decide (0 ≤ pos ∧ pos + Z.of_nat (length src) ≤ Z.of_nat (length dst))
  then Ok (take (Z.to_nat pos) dst ++ src ++ drop (Z.to_nat pos + length src) dst)
  else Fault (Undefined "write outside the buffer").

(** [memcpy(_, src + pos, n)]. *)
Definition read_at {A} (src : list A) (pos n : Z) : outcome (list A) :=
  if bool_decide (0 ≤ pos ∧ 0 ≤ n ∧ pos + n ≤ Z.of_nat (length src))
  then Ok (take (Z.to_nat n) (drop (Z.to_nat pos) src))
  else Fault (Undefined "read outside the buffer").

(** The integers below [n], to check finite ranges by evaluation. *)
Lemma forall_below (P : Z → bool) (lo n : nat) :
  forallb (fun k => P (Z.of_nat k)) (seq lo n) = true →
  ∀ z, Z.of_nat lo ≤ z < Z.of_nat lo + Z.of_nat n → P z = true.
Proof.
  rewrite forallb_forall. intros H z Hz. rewrite <-(Z2Nat.id z) by lia.
  apply H, in_seq. lia.
Qed.

(** ** Lemmas on outcomes and state *)
Lemma outcome_bind_Ok {A B} (f : A → outcome B) (m : outcome A) (b : B) :
  m ≫= f = Ok b ↔ ∃ a, m = Ok a ∧ f a = Ok b.
Proof. destruct m; simpl; naive_solver. Qed.

Lemma outcome_bind_step {A B} (f : A → outcome B) (m : outcome A) (a : A) :
  m = Ok a → m ≫= f = f a.
Proof. by intros ->. Qed.

Lemma cassert_Ok b c u : cassert b c = Ok u ↔ b = true.
Proof. destruct b, u; simpl; naive_solver. Qed.

Lemma ST_bind_Ok {S A B} (f : A → ST S B) (m : ST S A) s b s' :
  (m ≫= f) s = Ok (b, s') ↔ ∃ a s1, m s = Ok (a, s1) ∧ f a s1 = Ok (b, s').
Proof.
  unfold mbind, ST_bind. destruct (m s) as [[a s1]|e]; [|naive_solver].
  split; [eauto|]. intros (a' & s1' & [= <- <-] & H). exact H.
Qed.

Lemma ST_bind_step {S A B} (f : A → ST S B) (m : ST S A) s a s1 :
  m s = Ok (a, s1) → (m ≫= f) s = f a s1.
Proof. unfold mbind, ST_bind. intros ->. reflexivity. Qed.

Lemma ST_bind_fault {S A B} (f : A → ST S B) (m : ST S A) s e :
  m s = Fault e → (m ≫= f) s = Fault e.
Proof. unfold mbind, ST_bind. intros ->. reflexivity. Qed.

Lemma sassert_Ok {S} b c (s : S) r : sassert b c s = Ok r ↔ b = true ∧ r = (tt, s).
Proof. unfold sassert, lift. destruct b; simpl; naive_solver. Qed.

(** ** Lemmas on machine integers *)
Lemma u32_range z : 0 ≤ u32 z < 2 ^ 32.
Proof. apply Z.mod_pos_bound. lia. Qed.
Lemma u64_range z : 0 ≤ u64 z < 2 ^ 64.
Proof. apply Z.mod_pos_bound. lia. Qed.
Lemma u32_small z : 0 ≤ z < 2 ^ 32 → u32 z = z.
Proof. apply Z.mod_small. Qed.
Lemma u64_small z : 0 ≤ z < 2 ^ 64 → u64 z = z.
Proof. apply Z.mod_small. Qed.
Lemma s32_small z : - 2 ^ 31 ≤ z < 2 ^ 31 → s32 z = z.
Proof.
  intros H. unfold s32, u32. destruct (decide (0 ≤ z)).
  - rewrite Z.mod_small by lia. destruct (Z.ltb_spec z (2 ^ 31)); lia.
  - assert (z mod 2 ^ 32 = z + 2 ^ 32) as ->.
    { symmetry. apply Z.mod_unique with (-1); lia. }
    destruct (Z.ltb_spec (z + 2 ^ 32) (2 ^ 31)); lia.
Qed.
Lemma s32_range z : - 2 ^ 31 ≤ s32 z < 2 ^ 31.
Proof. unfold s32. pose proof (u32_range z). destruct (Z.ltb_spec (u32 z) (2 ^ 31)); lia. Qed.
Lemma s64_u64 z : s64 (u64 z) = s64 z.
Proof. unfold s64, u64. by rewrite Z.mod_mod. Qed.
Lemma s64_small z : - 2 ^ 63 ≤ z < 2 ^ 63 → s64 z = z.
Proof.
  intros H. unfold s64, u64. destruct (decide (0 ≤ z)).
  - rewrite Z.mod_small by lia. destruct (Z.ltb_spec z (2 ^ 63)); lia.
  - assert (z mod 2 ^ 64 = z + 2 ^ 64) as ->.
    { symmetry. apply Z.mod_unique with (-1); lia. }
    destruct (Z.ltb_spec (z + 2 ^ 64) (2 ^ 63)); lia.
Qed.
Lemma s32_u32 z : s32 (u32 z) = s32 z.
Proof. unfold s32, u32. by rewrite Z.mod_mod by lia. Qed.

Lemma int_add_small a b : - 2 ^ 31 ≤ a + b < 2 ^ 31 → int_add a b = Ok (a + b).
Proof. intros H. unfold int_add. by rewrite bool_decide_true. Qed.

Lemma land_lnot_pow2 n x : 0 ≤ n → Z.land x (Z.lnot (2 ^ n - 1)) = 2 ^ n * (x / 2 ^ n).
Proof.
  intros Hn. rewrite <-Z.ldiff_land.
  replace (2 ^ n - 1) with (Z.ones n) by (rewrite Z.ones_equiv; lia).
  rewrite Z.ldiff_ones_r, Z.shiftl_mul_pow2, Z.shiftr_div_pow2 by lia. lia.
Qed.
Lemma round8_eq x : round8 x = 8 * ((x + 7) / 8).
Proof. exact (land_lnot_pow2 3 (x + 7) ltac:(lia)). Qed.
Lemma round8_spec x : x ≤ round8 x < x + 8 ∧ round8 x mod 8 = 0.
Proof.
  rewrite round8_eq. split.
  - pose proof (Z.div_mod (x + 7) 8). pose proof (Z.mod_pos_bound (x + 7) 8). lia.
  - rewrite Z.mul_comm. apply Z.mod_mul. lia.
Qed.

Lemma round8_id n : n mod 8 = 0 → round8 n = n.
Proof.
  intros H. rewrite round8_eq. pose proof (Z.div_mod n 8 ltac:(lia)) as Hd. rewrite H in Hd.
  rewrite Hd at 1. replace (8 * (n / 8) + 0 + 7) with (7 + n / 8 * 8) by lia.
  rewrite Z.div_add by lia. change (7 / 8) with 0. lia.
Qed.

(** Bounded search for the least number with a property. *)
Lemma nat_first (P : nat → Prop) `{∀ n, Decision (P n)} (n : nat) :
  (∃ j : nat, (j < n)%nat ∧ P j ∧ ∀ i : nat, (i < j)%nat → ¬ P i) ∨
  (∀ j : nat, (j < n)%nat → ¬ P j).
Proof.
  induction n as [|n [(j & Hj & H1 & H2)|IH]]; [right; lia|left; exists j; eauto with lia|].
  destruct (decide (P n)) as [Hp|Hp]; [left; exists n; eauto with lia|].
  right. intros j Hj. destruct (decide (j = n)) as [->|]; [done|apply IH; lia].
Qed.

(** ** Lemmas on bytes *)
Lemma Z_of_byte_range b : 0 ≤ Z_of_byte b < 256.
Proof. unfold Z_of_byte. pose proof (Byte.to_N_bounded b). lia. Qed.
Lemma Z_of_byte_of_Z z : Z_of_byte (byte_of_Z z) = z mod 256.
Proof.
  unfold Z_of_byte, byte_of_Z.
  pose proof (Z.mod_pos_bound z 256 ltac:(lia)).
  destruct (Byte.of_N (Z.to_N (z mod 256))) as [b|] eqn:E.
  - apply Byte.to_of_N in E. rewrite E. lia.
  - apply Byte.of_N_None_iff in E. lia.
Qed.
Lemma byte_of_Z_of_byte b : byte_of_Z (Z_of_byte b) = b.
Proof.
  unfold byte_of_Z. pose proof (Z_of_byte_range b).
  rewrite Z.mod_small by done. unfold Z_of_byte. rewrite N2Z.id, Byte.of_to_N. done.
Qed.

Lemma byte_of_Z_mod z : byte_of_Z (z mod 256) = byte_of_Z z.
Proof. unfold byte_of_Z. by rewrite Z.mod_mod by lia. Qed.

Lemma length_le_bytes n z : length (le_bytes n z) = n.
Proof. revert z. induction n; simpl; auto. Qed.
Lemma le_Z_le_bytes n z : le_Z (le_bytes n z) = z mod 256 ^ (Z.of_nat n).
Proof.
  revert z. induction n as [|n IH]; intros z.
  - simpl. by rewrite Z.mod_1_r.
  - cbn [le_bytes le_Z]. rewrite IH, Z_of_byte_of_Z, Nat2Z.inj_succ, Z.pow_succ_r by lia.
    rewrite Z.rem_mul_r by lia. lia.
Qed.
Lemma le_bytes_le_Z l : le_bytes (length l) (le_Z l) = l.
Proof.
  induction l as [|b l IH]; [done|]. cbn [length le_bytes le_Z].
  pose proof (Z_of_byte_range b). f_equal.
  - rewrite <-byte_of_Z_mod, (Z.mul_comm 256), Z.mod_add, byte_of_Z_mod by lia.
    apply byte_of_Z_of_byte.
  - rewrite (Z.mul_comm 256), Z.div_add, Z.div_small, Z.add_0_l by lia. done.
Qed.
Lemma le_Z_range l : 0 ≤ le_Z l < 256 ^ (Z.of_nat (length l)).
Proof.
  induction l as [|b l IH]; [simpl; lia|]. cbn [length le_Z].
  rewrite Nat2Z.inj_succ, Z.pow_succ_r by lia. pose proof (Z_of_byte_range b). lia.
Qed.

Lemma write_at_app {A} (a b c src : list A) :
  length b = length src →
  write_at (a ++ b ++ c) (Z.of_nat (length a)) src = Ok (a ++ src ++ c).
Proof.
  intros Hb. unfold write_at. rewrite bool_decide_true by (rewrite !length_app; lia).
  rewrite Nat2Z.id, take_app_length, <-Hb, <-(length_app a b), (app_assoc a b c), drop_app_length. done.
Qed.
Lemma read_at_app {A} (a b c : list A) :
  read_at (a ++ b ++ c) (Z.of_nat (length a)) (Z.of_nat (length b)) = Ok b.
Proof.
  unfold read_at. rewrite bool_decide_true by (rewrite !length_app; lia).
  by rewrite !Nat2Z.id, drop_app_length, take_app_length.
Qed.
Lemma read_at_all {A} (l : list A) n : Z.of_nat (length l) = n → read_at l 0 n = Ok l.
Proof.
  intros <-. pose proof (read_at_app [] l []) as H.
  simpl in H. by rewrite app_nil_r in H.
Qed.
Lemma read_at_length {A} (src : list A) p n r :
  read_at src p n = Ok r → Z.of_nat (length r) = n.
Proof.
  unfold read_at. case_bool_decide; [|done]. intros [= <-].
  rewrite length_take, length_drop. lia.
Qed.

(** [strlen] on the bytes a [char*] points to; the models' buffers end with
    the last byte that may be read. *)
Fixpoint strlen (l : list byte) : Z :=
  match l with
  | [] => 0
  | b :: l => if decide (b = NUL) then 0 else 1 + strlen l
  end.
Lemma strlen_range l : 0 ≤ strlen l ≤ Z.of_nat (length l).
Proof. induction l as [|b l IH]; simpl; [lia|]. case_decide; lia. Qed.
Lemma strlen_app s t : NUL ∉ s → strlen (s ++ NUL :: t) = Z.of_nat (length s).
Proof.
  induction s as [|b s IH]; intros Hs; [done|].
  cbn [app strlen length]. rewrite not_elem_of_cons in Hs. destruct Hs.
  case_decide; [congruence|]. rewrite IH by done. lia.
Qed.

(** ** Automation *)
Create HintDb mosingar discriminated.
Create Rewrite HintDb mosingar.
Create Rewrite HintDb packet.
#[export] Hint Resolve u32_range u64_range Z_of_byte_range le_Z_range : mosingar.
#[export] Hint Rewrite @length_app @length_take @length_drop length_le_bytes : mosingar.

(** Split a successful run of a [do]-block into its steps. *)
Ltac inv_ok H :=
  lazymatch type of H with
  | (_ ≫= _) _ = Ok (_, _) =>
      let H1 := fresh "Hs" in apply ST_bind_Ok in H as (? & ? & H1 & H); inv_ok H1; inv_ok H
  | _ ≫= _ = Ok _ =>
      let H1 := fresh "Hs" in apply outcome_bind_Ok in H as (? & H1 & H); inv_ok H1; inv_ok H
  | sassert _ _ _ = Ok _ => apply sassert_Ok in H as [? H]; simplify_eq
  | cassert _ _ = Ok _ => apply cassert_Ok in H
  | Ok _ = Ok _ => injection H as H; simplify_eq
  | _ => idtac
  end.

(** ** Computations that respect a preorder on states *)
Section Preserves.
Context {S : Type} (R : relation S) `{!PreOrder R}.

Definition preserves {A} (m : ST S A) : Prop := ∀ s a s', m s = Ok (a, s') → R s s'.

Lemma preserves_ret {A} (a : A) : preserves (mret a).
Proof. intros s b s' [= _ <-]. reflexivity. Qed.
Lemma preserves_bind {A B} (m : ST S A) (f : A → ST S B) :
  preserves m → (∀ a, preserves (f a)) → preserves (m ≫= f).
Proof.
  intros Hm Hf s b s' (a & s1 & H1 & H2)%ST_bind_Ok. etrans; [by eapply Hm|by eapply Hf].
Qed.
Lemma preserves_gets {A} (f : S → A) : preserves (gets f).
Proof. intros s b s' [= _ <-]. reflexivity. Qed.
Lemma preserves_lift {A} (m : outcome A) : preserves (lift m).
Proof. intros s b s'. unfold lift. destruct m; [|done]. intros [= _ <-]. reflexivity. Qed.
Lemma preserves_sassert b c : preserves (sassert b c).
Proof. apply preserves_lift. Qed.
Lemma preserves_modify (f : S → S) : (∀ s, R s (f s)) → preserves (modify f).
Proof. intros Hf s b s' [= _ <-]. apply Hf. Qed.
Lemma preserves_fault {A} e : preserves (A:=A) (fun _ => Fault e).
Proof. intros s b s' [=]. Qed.
End Preserves.
Create HintDb preserve discriminated.
#[export] Hint Resolve preserves_ret preserves_gets preserves_lift preserves_sassert
  preserves_fault : preserve.

(** Split a [do]-block into its calls, each solved by the [preserve] hints. *)
Ltac preserve :=
  repeat first
    [ progress intros
    | solve [eauto 2 with preserve]
    | apply (preserves_bind _)
    | match goal with |- preserves _ (match ?x with _ => _ end) => destruct x end ].

#[global] Arguments le_bytes : simpl never.
#[global] Arguments le_Z : simpl never.
#[global] Arguments strlen : simpl never.

(** Run the next step of an outcome [do]-block whose head is a value. *)
Ltac ostep := cbn [mbind mret fmap outcome_bind outcome_ret outcome_fmap].

(** Run the next step of a stateful [do]-block. *)
Ltac mstep :=
  unfold mbind at 1; unfold ST_bind at 1;
  cbn [lift sassert cassert gets get modify put mret ST_ret fst snd].
