(* ===== verification/Log.v ===== *)
(** * The log macros (toolkits/log.h)

    [_I2STR(x, b)] writes an [int] as decimal digits into a buffer: the digits
    come out with the last one first and are then reversed in place.  It is
    what the handlers of the sandbox can use, where printf may not be called.
    Pointers into the buffer are indices. *)

From S2P Require Import Prelude.
From Stdlib Require Import Init.Byte.

(** ["0123456789"[i]] *)
Definition digit_at (i : Z) : outcome byte :=
  if (0 <=? i) && (i <? 10) then Ok (byte_of_Z (48 + i)) else Fault (Undefined "index outside the string").

(** [while (_i2str_x)], at most [n] times; [Z.quot] and [Z.rem] are the
    division of C. *)
Fixpoint digit_loop (n : nat) (x v : Z) (b : list byte) : outcome (list byte * Z) :=
  if x =? 0 then Ok (b, v) else
  match n with
  | O => Fault (Undefined "out of fuel")
  | S n =>
      d ← digit_at (Z.rem x 10);
      b ← write_at b v [d];
      digit_loop n (Z.quot x 10) (v + 1) b
  end.
(** [while (_i2str_l < _i2str_v)] *)
Fixpoint swap_loop (n : nat) (l v : Z) (b : list byte) : outcome (list byte) :=
  if negb (l <? v) then Ok b else
  match n with
  | O => Fault (Undefined "out of fuel")
  | S n =>
      p ← read_at b l 1;
      q ← read_at b v 1;
      b ← write_at b l q;
      b ← write_at b v p;
      swap_loop n (l + 1) (v - 1) b
  end.

(** Negating the least [int] is undefined behaviour. *)
Definition int_opp (x : Z) : outcome Z := int_add 0 (- x).

Definition I2STR (x : Z) (b : list byte) : outcome (list byte) :=
  let x := s32 x in
  if x =? 0 then
    b ← write_at b 0 [byte_of_Z 48];
    write_at b 1 [NUL]
  else
    '(b, save, x) ←
      (if x <? 0 then
         b ← write_at b 0 [byte_of_Z 45];
         x ← int_opp x;
         Ok (b, 1, x)
       else Ok (b, 0, x));
    '(b, v) ← digit_loop 10 x save b;
    b ← write_at b v [NUL];
    swap_loop (S (base.length b)) save (v - 1) b.

(** ** Decimal numbers *)

(** The digits of [x], the first one first; [n] is at least their number. *)
Fixpoint digits (n : nat) (x : Z) : list byte :=
  match n with
  | O => []
  | S n => if x =? 0 then [] else digits n (x / 10) ++ [byte_of_Z (48 + x mod 10)]
  end.
Definition decimal (x : Z) : list byte :=
  if x =? 0 then [byte_of_Z 48] else
  (if x <? 0 then [byte_of_Z 45] else []) ++ digits 10 (Z.abs x).

(** The number that digits stand for. *)
Definition value (l : list byte) : Z := foldl (fun acc b => 10 * acc + (Z_of_byte b - 48)) 0 l.
Lemma digits_value n : ∀ x, 0 ≤ x < 10 ^ Z.of_nat n → value (digits n x) = x.
Proof.
  unfold value. induction n as [|n IH]; intros x Hx; [cbn in *; lia|]. cbn [digits].
  destruct (Z.eqb_spec x 0) as [->|Hne]; [done|]. rewrite Nat2Z.inj_succ, Z.pow_succ_r in Hx by lia.
  rewrite foldl_app, IH by (split; [apply Z.div_pos; lia|apply Z.div_lt_upper_bound; lia]). cbn [foldl].
  pose proof (Z.mod_pos_bound x 10 ltac:(lia)). rewrite Z_of_byte_of_Z, Z.mod_small by lia.
  pose proof (Z.div_mod x 10). lia.
Qed.
Lemma length_digits n : ∀ x, (base.length (digits n x) ≤ n)%nat.
Proof.
  induction n as [|n IH]; intros x; [done|]. cbn [digits]. destruct (x =? 0); [cbn; lia|].
  rewrite length_app. specialize (IH (x / 10)). cbn [base.length]. lia.
Qed.

(** ** The loops *)
Lemma digit_loop_spec n : ∀ x a b c, 0 ≤ x < 10 ^ Z.of_nat n → base.length b = base.length (digits n x) →
  digit_loop n x (Z.of_nat (base.length a)) (a ++ b ++ c) =
    Ok (a ++ rev (digits n x) ++ c, Z.of_nat (base.length a + base.length b)).
Proof.
  induction n as [|n IH]; intros x a b c Hx Hb.
  - assert (x = 0) as -> by (cbn in Hx; lia). destruct b; [|done]. cbn. by rewrite Nat.add_0_r.
  - cbn [digit_loop digits] in *. destruct (Z.eqb_spec x 0) as [->|Hne].
    { destruct b; [|done]. cbn. by rewrite Nat.add_0_r. }
    rewrite Nat2Z.inj_succ, Z.pow_succ_r in Hx by lia. rewrite length_app in Hb. cbn [base.length] in Hb.
    destruct b as [|b0 b]; [cbn in Hb; lia|]. cbn [base.length] in Hb.
    rewrite Z.rem_mod_nonneg, Z.quot_div_nonneg by lia. pose proof (Z.mod_pos_bound x 10 ltac:(lia)).
    unfold digit_at. rewrite (proj2 (andb_true_iff _ _)) by lia. ostep.
    pose proof (write_at_app a [b0] (b ++ c) [byte_of_Z (48 + x mod 10)] eq_refl) as Hw. cbn [app] in *.
    rewrite Hw. ostep. specialize (IH (x / 10) (a ++ [byte_of_Z (48 + x mod 10)]) b c).
    rewrite length_app, <-app_assoc in IH. cbn [base.length app] in IH. rewrite Nat2Z.inj_add in IH.
    change (Z.of_nat 1) with 1 in IH. rewrite IH by (lia || (split; [apply Z.div_pos; lia|apply Z.div_lt_upper_bound; lia])).
    rewrite rev_app_distr. cbn [rev app base.length]. rewrite <-app_assoc. do 2 f_equal. lia.
Qed.

Lemma swap_loop_done n l v b : v ≤ l → swap_loop n l v b = Ok b.
Proof. intros H. destruct n; cbn [swap_loop]; by rewrite (proj2 (Z.ltb_ge l v)) by lia. Qed.
Lemma swap_loop_spec n : ∀ a m c, (base.length m ≤ 2 * n + 1)%nat →
  swap_loop n (Z.of_nat (base.length a)) (Z.of_nat (base.length a) + Z.of_nat (base.length m) - 1) (a ++ m ++ c) =
    Ok (a ++ rev m ++ c).
Proof.
  induction n as [|n IH]; intros a m c Hm.
  - destruct m as [|x [|]]; [| |cbn [base.length] in Hm; lia]; by rewrite swap_loop_done by (cbn [base.length]; lia).
  - destruct m as [|x m]; [by rewrite swap_loop_done by (cbn [base.length]; lia)|].
    destruct m as [|y m _] using rev_ind; [by rewrite swap_loop_done by (cbn [base.length]; lia)|].
    cbn [base.length] in *. rewrite length_app in *. cbn [base.length] in *. cbn [swap_loop].
    rewrite (proj2 (Z.ltb_lt _ _)) by lia. cbn [negb].
    pose proof (read_at_app a [x] (m ++ [y] ++ c)) as H1.
    pose proof (read_at_app (a ++ [x] ++ m) [y] c) as H2.
    pose proof (write_at_app a [x] (m ++ [y] ++ c) [y] eq_refl) as H3.
    pose proof (write_at_app (a ++ [y] ++ m) [y] c [x] eq_refl) as H4.
    rewrite !length_app, <-!app_assoc in *. cbn [app base.length] in *. rewrite <-!app_assoc in *. cbn [app] in *.
    change (Z.of_nat 1) with 1 in *.
    replace (Z.of_nat (base.length a) + Z.of_nat (S (base.length m + 1)) - 1)
      with (Z.of_nat (base.length a + S (base.length m))) by lia.
    replace (base.length a + (1 + base.length m))%nat with (base.length a + S (base.length m))%nat in * by lia.
    rewrite H1. ostep. rewrite H2. ostep. rewrite H3. ostep. rewrite H4. ostep.
    specialize (IH (a ++ [y]) m (x :: c) ltac:(lia)). rewrite length_app, <-!app_assoc in IH. cbn [base.length app] in IH.
    replace (Z.of_nat (base.length a) + 1) with (Z.of_nat (base.length a + 1)) by lia.
    replace (Z.of_nat (base.length a + S (base.length m)) - 1)
      with (Z.of_nat (base.length a + 1) + Z.of_nat (base.length m) - 1) by lia.
    rewrite IH. cbn [rev]. rewrite rev_app_distr. cbn [rev app]. by rewrite <-!app_assoc.
Qed.

(** Both loops: the digits of [x] and the NUL after the text [a]. *)
Lemma write_digits a d z c x : 0 ≤ x < 10 ^ 10 → base.length d = base.length (digits 10 x) →
  ('(b, v) ← digit_loop 10 x (Z.of_nat (base.length a)) (a ++ d ++ z :: c);
   b ← write_at b v [NUL];
   swap_loop (S (base.length b)) (Z.of_nat (base.length a)) (v - 1) b)
  = Ok (a ++ digits 10 x ++ NUL :: c).
Proof.
  intros Hx Hd. rewrite (digit_loop_spec 10 x a d (z :: c)) by (done || lia). ostep.
  pose proof (write_at_app (a ++ rev (digits 10 x)) [z] c [NUL] eq_refl) as Hw.
  rewrite length_app, length_rev, <-!app_assoc in Hw. cbn [app] in Hw. rewrite Hd, Hw. ostep.
  pose proof (swap_loop_spec (S (base.length (a ++ rev (digits 10 x) ++ NUL :: c))) a (rev (digits 10 x)) (NUL :: c)) as Hs.
  rewrite rev_involutive in Hs. rewrite <-Hs by (rewrite !length_app; lia).
  f_equal. rewrite length_rev. lia.
Qed.

Lemma split_buffer (b : list byte) k : (k < base.length b)%nat →
  ∃ d z c, b = d ++ z :: c ∧ base.length d = k.
Proof.
  intros H. destruct (lookup_lt_is_Some_2 b k H) as [z Hz]. exists (take k b), z, (drop (S k) b).
  split; [by rewrite take_drop_middle|rewrite length_take; lia].
Qed.
Lemma drop_split {A} (d : list A) z c k : base.length d = k → drop (S k) (d ++ z :: c) = c.
Proof. intros <-. induction d; [done|exact IHd]. Qed.

(** ** The macro *)

(** C39: for every [int] but the least, [_I2STR] fills the start of a buffer of
    at least 12 bytes with the decimal representation of the number, a sign
    and at most ten digits, and a terminating NUL, and changes nothing else;
    for the least [int] it negates what cannot be negated. *)
Theorem I2STR_decimal x b : - 2 ^ 31 ≤ x < 2 ^ 31 → (12 ≤ base.length b)%nat →
  if x =? - 2 ^ 31 then I2STR x b = Fault (Undefined "signed overflow")
  else I2STR x b = Ok (decimal x ++ [NUL] ++ drop (S (base.length (decimal x))) b) ∧
       (base.length (decimal x) ≤ 11)%nat ∧
       value (digits 10 (Z.abs x)) = Z.abs x.
Proof.
  intros Hx Hb. assert (s32 x = x) as Hs by (apply s32_small; lia).
  destruct b as [|b0 b]; [cbn in Hb; lia|]. cbn [base.length] in Hb.
  pose proof (write_at_app [] [b0] b [byte_of_Z 45] eq_refl) as H0.
  cbn [base.length app] in H0. change (Z.of_nat 0) with 0 in H0.
  unfold I2STR. rewrite Hs.
  destruct (Z.eqb_spec x (- 2 ^ 31)) as [->|Hmin]; [cbn -[write_at]; by rewrite H0|].
  pose proof (length_digits 10 (Z.abs x)) as Hl.
  assert (value (digits 10 (Z.abs x)) = Z.abs x) as Hv by (apply digits_value; lia).
  unfold decimal. destruct (Z.eqb_spec x 0) as [->|Hne].
  { split_and!; [|cbn; lia|done]. destruct b as [|b1 b]; [cbn in Hb; lia|].
    pose proof (write_at_app [] [b0] (b1 :: b) [byte_of_Z 48] eq_refl) as H1.
    cbn [base.length app] in H1. change (Z.of_nat 0) with 0 in H1. rewrite H1. ostep.
    exact (write_at_app [byte_of_Z 48] [b1] b [NUL] eq_refl). }
  split_and!; [|destruct (x <? 0); rewrite length_app; cbn [base.length]; lia|done].
  destruct (Z.ltb_spec x 0) as [Hneg|Hpos].
  - rewrite H0. ostep. unfold int_opp. rewrite int_add_small by lia. ostep.
    replace (0 + - x) with (Z.abs x) by lia.
    destruct (split_buffer b (base.length (digits 10 (Z.abs x)))) as (d & z & c & -> & Hd); [lia|].
    rewrite (write_digits [byte_of_Z 45] d z c) by (done || lia).
    change (base.length ([byte_of_Z 45] ++ ?l)) with (S (base.length l)). rewrite <-Hd. cbn [app].
    by rewrite (drop_split (b0 :: d) z c).
  - rewrite Z.abs_eq in * by lia. ostep.
    destruct (split_buffer (b0 :: b) (base.length (digits 10 x))) as (d & z & c & -> & Hd);
      [cbn [base.length]; lia|].
    rewrite (write_digits [] d z c) by (done || lia).
    cbn [app]. by rewrite drop_split.
Qed.
Lemma I2STR_decimal_witness :
  I2STR (-1234) (repeat xff 12) = Ok [x2d; x31; x32; x33; x34; x00; xff; xff; xff; xff; xff; xff].
Proof.
  refine (eq_trans (proj1 (I2STR_decimal (-1234) (repeat xff 12) _ _)) _);
    [split; vm_compute; congruence|vm_compute; lia|vm_compute; reflexivity].
Defined.
