(* ===== verification/TinyPack.v ===== *)
(** * tinypack: the message encoding of toolkits/tinypack.h *)

From S2P Require Import Prelude.

(** ** tinypack_value_trait

    The four static members of [tinypack_value_trait<T>].  [writebuf] and
    [readbuf] take the buffer a [char*] points into and the offset of the
    pointer; [rsize] and [readbuf] also see the current value of the variable
    the field is bound to ([T* v], [T& v]). *)
Class value_trait (T : Type) := {
  vsize : T → outcome Z;
  vwritebuf : T → list byte → Z → outcome (list byte);
  vrsize : T → list byte → Z → Z → outcome Z;
  vreadbuf : T → list byte → Z → outcome T;
}.

(** Trivially copyable types: [memcpy(_, &v, sizeof(T))] copies the object
    representation. *)
Class pod_type (T : Type) := {
  sizeof : nat;
  to_rep : T → list byte;
  of_rep : list byte → T;
}.
Arguments sizeof T {_}.

#[export] Instance pod_trait {T} `{pod_type T} : value_trait T := {
  vsize v := Ok (Z.of_nat (sizeof T));
  vwritebuf v buf writeto := write_at buf writeto (to_rep v);
  vrsize v buf readfrom size :=
    if size <? Z.of_nat (sizeof T) then Ok (-1) else Ok (Z.of_nat (sizeof T));
  vreadbuf v buf readfrom :=
    of_rep <$> read_at buf readfrom (Z.of_nat (sizeof T));
}.

(** The trivially copyable types the messages use. *)
Record int := Int { int_val : Z }.
Record uint := UInt { uint_val : Z }.
Record size_t := SizeT { size_t_val : Z }.
(** [struct stat] is opaque: 144 bytes on x86_64. *)
Record struct_stat := Stat { stat_bytes : list byte }.

#[export] Instance int_pod : pod_type int := {
  sizeof := 4; to_rep v := le_bytes 4 (int_val v); of_rep l := Int (s32 (le_Z l)) }.
#[export] Instance uint_pod : pod_type uint := {
  sizeof := 4; to_rep v := le_bytes 4 (uint_val v); of_rep l := UInt (le_Z l) }.
#[export] Instance size_t_pod : pod_type size_t := {
  sizeof := 8; to_rep v := le_bytes 8 (size_t_val v); of_rep l := SizeT (le_Z l) }.
#[export] Instance stat_pod : pod_type struct_stat := {
  sizeof := 144; to_rep v := stat_bytes v; of_rep l := Stat l }.

(** [const char*] and [char*]: the memory the pointer points to. *)
Record cstr := CStr { cmem : list byte }.

(** [rsize]: the announced size is compared with the bytes received. *)
Definition cstr_rsize (buf : list byte) (readfrom size : Z) : outcome Z :=
  if size <? 4 then Ok (-1) else
  datasz ← le_Z <$> read_at buf readfrom 4;
  let fullsize := datasz + 4 in
  if size <? fullsize then Ok (-1) else Ok (s32 fullsize).
#[export] Instance cstr_trait : value_trait cstr := {
  vsize v := Ok (s32 (4 + strlen (cmem v) + 1));
  vwritebuf v buf writeto :=
    let sz := u32 (strlen (cmem v) + 1) in
    buf ← write_at buf writeto (le_bytes 4 sz);
    src ← read_at (cmem v) 0 sz;
    write_at buf (writeto + 4) src;
  vrsize v := cstr_rsize;
  vreadbuf v buf readfrom :=
    sz ← le_Z <$> read_at buf readfrom 4;
    CStr <$> read_at buf (readfrom + 4) sz;
}.

(** [struct fixedbuf]: the [size] bytes at [buf]. *)
Record fixedbuf := FixedBuf { fb_buf : list byte; fb_size : Z }.

#[export] Instance fixedbuf_trait : value_trait fixedbuf := {
  vsize v := Ok (s32 (fb_size v + 4));
  vwritebuf v buf writeto :=
    buf ← write_at buf writeto (le_bytes 4 (fb_size v));
    src ← read_at (fb_buf v) 0 (fb_size v);
    write_at buf (writeto + 4) src;
  vrsize v buf readfrom size :=
    if size <? 4 then Ok (-1) else
    rcvd_sz ← le_Z <$> read_at buf readfrom 4;
    if negb (u32 (fb_size v) =? rcvd_sz) then Ok (-1) else Ok (s32 (rcvd_sz + 4));
  vreadbuf v buf readfrom :=
    src ← read_at buf (readfrom + 4) (fb_size v);
    (fun b => FixedBuf b (fb_size v)) <$> write_at (fb_buf v) 0 src;
}.

(** ** tinypack and tinyunpack

    [tinypack<Base, T>] is a base and one more value, starting from
    [tinypacker], that is [tinypack<void, void>]: nested pairs over [unit]. *)
Class packer (B : Type) := {
  pk_get_size : B → outcome Z;
  pk_writebuf : B → list byte → Z → outcome (list byte);
}.

#[export] Instance tinypacker : packer unit := {
  pk_get_size _ := Ok 0;
  pk_writebuf _ buf p := Ok buf;
}.

(** [writebuf]: this field comes behind those of the base. *)
Definition tinypack_writebuf {B T} `{packer B} `{value_trait T} (bv : B * T) (buf : list byte) (p : Z) :
    outcome (list byte) :=
  sz ← pk_get_size bv.1;
  let writeto := p + sz in
  buf ← vwritebuf bv.2 buf writeto;
  pk_writebuf bv.1 buf p.
#[export] Instance tinypack {B T} `{packer B} `{value_trait T} : packer (B * T) := {
  pk_get_size bv :=
    sz ← pk_get_size bv.1; vsz ← vsize bv.2; int_add sz vsz;
  pk_writebuf := tinypack_writebuf;
}.

(** [tinyunpack<Base, T>] holds pointers to variables: the nested pairs are
    the contents of these variables. *)
Class unpacker (B : Type) := {
  up_get_size : B → list byte → Z → Z → outcome Z;
  up_unpack : B → list byte → Z → Z → outcome B;
}.

#[export] Instance tinyunpacker : unpacker unit := {
  up_get_size _ buf p bufsz := Ok 0;
  up_unpack _ buf p bufsz := Ok tt;
}.

#[export] Instance tinyunpack {B T} `{unpacker B} `{value_trait T} : unpacker (B * T) := {
  up_get_size bv buf p bufsz :=
    basesz ← up_get_size bv.1 buf p bufsz;
    if basesz <? 0 then Ok (-1) else
    vsz ← vrsize bv.2 buf (p + basesz) (u32 (bufsz - basesz));
    if vsz <? 0 then Ok (-1) else
    int_add basesz vsz;
  up_unpack bv buf p bufsz :=
    basesz ← up_get_size bv.1 buf p bufsz;
    v ← vreadbuf bv.2 buf (p + basesz);
    b ← up_unpack bv.1 buf p bufsz;
    Ok (b, v);
}.

(** [.field(v)] on either chain. *)
Definition field {B V} (b : B) (v : V) : B * V := (b, v).

Section Ops.
(** The block a call of [malloc] returns, with the bytes it happens to hold. *)
Context (malloc : Z → list byte).

Definition pack {B} `{packer B} (b : B) : outcome (list byte) :=
  sz ← pk_get_size b;
  pk_writebuf b (malloc sz) 0.

Definition get_size_prefix {B} `{packer B} (b : B) : outcome Z :=
  sz ← pk_get_size b; Ok (s32 (sz + 4)).

Definition pack_size_prefix {B} `{packer B} (b : B) : outcome (list byte) :=
  sz ← pk_get_size b;
  let buf := malloc (4 + sz) in
  buf ← write_at buf 0 (le_bytes 4 sz);
  pk_writebuf b buf 4.
End Ops.

(** [tinyunpacker(buf, bufsz)....unpack()] and [.check_completed()], with the
    data pointer at offset [p] of [buf]. *)
Definition check_completed {B} `{unpacker B} (b : B) (buf : list byte) (p bufsz : Z) : outcome bool :=
  sz ← up_get_size b buf p bufsz; Ok (0 <=? sz).
Definition unpack {B} `{unpacker B} (b : B) (buf : list byte) (p bufsz : Z) : outcome B :=
  up_unpack b buf p bufsz.

(** ** Contracts

    What a field type promises to the chain: its wire image, and that the
    four members agree with it.  [v_ok] says which values may be sent,
    [v_dst d v] that the variable [d] can receive [v]. *)
Class value_codec (T : Type) `{value_trait T} := {
  v_ok : T → Prop;
  v_dst : T → T → Prop;
  v_wire : T → list byte;
  v_size_law v : v_ok v → vsize v = Ok (Z.of_nat (length (v_wire v)));
  v_write_law v a b c :
    v_ok v → length b = length (v_wire v) →
    vwritebuf v (a ++ b ++ c) (Z.of_nat (length a)) = Ok (a ++ v_wire v ++ c);
  v_rsize_law d v a c size :
    v_ok v → v_dst d v → Z.of_nat (length (v_wire v)) ≤ size →
    vrsize d (a ++ v_wire v ++ c) (Z.of_nat (length a)) size =
      Ok (Z.of_nat (length (v_wire v)));
  v_read_law d v a c :
    v_ok v → v_dst d v →
    vreadbuf d (a ++ v_wire v ++ c) (Z.of_nat (length a)) = Ok v;
}.

(** What a field type needs for decoding bytes of an untrusted sender: if
    [rsize] accepts, then the field is inside the buffer. *)
Class value_safe (T : Type) `{value_trait T} := {
  v_rsize_safe (d : T) buf p size :
    0 ≤ p → 0 ≤ size → p + size ≤ Z.of_nat (length buf) → size < 2 ^ 31 →
    ∃ n, vrsize d buf p size = Ok n ∧
      (n < 0 ∨ 0 ≤ n ≤ size ∧ ∃ v, vreadbuf d buf p = Ok v);
}.

(** The chain's contracts, on the whole list of values. *)
Class chain_codec (B : Type) `{packer B} `{unpacker B} := {
  b_ok : B → Prop;
  b_dst : B → B → Prop;
  b_wire : B → list byte;
  b_size_law b :
    b_ok b → Z.of_nat (length (b_wire b)) < 2 ^ 31 →
    pk_get_size b = Ok (Z.of_nat (length (b_wire b)));
  b_write_law b a m c :
    b_ok b → Z.of_nat (length (b_wire b)) < 2 ^ 31 →
    length m = length (b_wire b) →
    pk_writebuf b (a ++ m ++ c) (Z.of_nat (length a)) = Ok (a ++ b_wire b ++ c);
  b_rsize_law d b a c bufsz :
    b_ok b → b_dst d b → Z.of_nat (length (b_wire b)) ≤ bufsz → bufsz < 2 ^ 31 →
    up_get_size d (a ++ b_wire b ++ c) (Z.of_nat (length a)) bufsz =
      Ok (Z.of_nat (length (b_wire b)));
  b_read_law d b a c bufsz :
    b_ok b → b_dst d b → Z.of_nat (length (b_wire b)) ≤ bufsz → bufsz < 2 ^ 31 →
    up_unpack d (a ++ b_wire b ++ c) (Z.of_nat (length a)) bufsz = Ok b;
}.

Class chain_safe (B : Type) `{unpacker B} := {
  b_rsize_safe (d : B) buf p bufsz :
    0 ≤ p → 0 ≤ bufsz → p + bufsz ≤ Z.of_nat (length buf) → bufsz < 2 ^ 31 →
    ∃ n, up_get_size d buf p bufsz = Ok n ∧
      (n < 0 ∨ 0 ≤ n ≤ bufsz ∧ ∃ b, up_unpack d buf p bufsz = Ok b);
}.

(** A field whose bytes have not all arrived yet is recognised as such. *)
Class value_incomplete (T : Type) `{value_codec T} := {
  v_incomplete (d v : T) a k :
    v_ok v → (k < length (v_wire v))%nat →
    vrsize d (a ++ take k (v_wire v)) (Z.of_nat (length a)) (Z.of_nat k) = Ok (-1);
}.
Class chain_incomplete (B : Type) `{chain_codec B} := {
  b_incomplete (d b : B) a k :
    b_ok b → b_dst d b → Z.of_nat (length (b_wire b)) < 2 ^ 31 →
    (k < length (b_wire b))%nat →
    up_get_size d (a ++ take k (b_wire b)) (Z.of_nat (length a)) (Z.of_nat k) = Ok (-1);
}.

(** *** Trivially copyable types *)
Class pod_laws (T : Type) `{pod_type T} := {
  pod_ok : T → Prop;
  pod_length v : pod_ok v → length (to_rep v) = sizeof T;
  pod_of_to v : pod_ok v → of_rep (to_rep v) = v;
}.

#[export] Program Instance int_laws : pod_laws int := {
  pod_ok v := - 2 ^ 31 ≤ int_val v < 2 ^ 31 }.
Next Obligation. intros v _. apply length_le_bytes. Qed.
Next Obligation.
  intros [v] Hv. unfold of_rep, to_rep, int_pod; simpl int_val in *.
  rewrite le_Z_le_bytes. change (256 ^ Z.of_nat 4) with (2 ^ 32).
  change (v mod 2 ^ 32) with (u32 v). by rewrite s32_u32, s32_small.
Qed.

#[export] Program Instance uint_laws : pod_laws uint := {
  pod_ok v := 0 ≤ uint_val v < 2 ^ 32 }.
Next Obligation. intros v _. apply length_le_bytes. Qed.
Next Obligation.
  intros [v] Hv. unfold of_rep, to_rep, uint_pod; simpl uint_val in *.
  rewrite le_Z_le_bytes. f_equal. by apply u32_small.
Qed.

#[export] Program Instance size_t_laws : pod_laws size_t := {
  pod_ok v := 0 ≤ size_t_val v < 2 ^ 64 }.
Next Obligation. intros v _. apply length_le_bytes. Qed.
Next Obligation.
  intros [v] Hv. unfold of_rep, to_rep, size_t_pod; simpl size_t_val in *.
  rewrite le_Z_le_bytes. f_equal. by apply u64_small.
Qed.

#[export] Program Instance stat_laws : pod_laws struct_stat := {
  pod_ok v := length (stat_bytes v) = 144%nat }.
Next Obligation. done. Qed.
Next Obligation. by intros []. Qed.

#[export] Program Instance pod_codec {T} `{pod_laws T} : value_codec T := {
  v_ok := pod_ok;
  v_dst _ _ := True;
  v_wire := to_rep;
}.
Next Obligation. intros. simpl. by rewrite pod_length. Qed.
Next Obligation. intros. simpl. by apply write_at_app. Qed.
Next Obligation.
  intros ??? d v a c size Hv _ Hs. simpl. rewrite pod_length in * by done.
  destruct (Z.ltb_spec size (Z.of_nat (sizeof T))); [lia|done].
Qed.
Next Obligation.
  intros ??? d v a c Hv _. simpl. rewrite <-(pod_length v), read_at_app by done.
  simpl. by rewrite pod_of_to.
Qed.

Lemma read_at_in {A} (l : list A) p n :
  0 ≤ p → 0 ≤ n → p + n ≤ Z.of_nat (length l) → ∃ r, read_at l p n = Ok r.
Proof. intros. unfold read_at. rewrite bool_decide_true by lia. eauto. Qed.

#[export] Program Instance pod_incomplete {T} `{pod_laws T} : value_incomplete T.
Next Obligation.
  intros ??? d v a k Hv Hk. cbn [vrsize v_wire pod_trait pod_codec] in *.
  rewrite pod_length in Hk by done.
  destruct (Z.ltb_spec (Z.of_nat k) (Z.of_nat (sizeof T))); [done|lia].
Qed.

#[export] Program Instance pod_safe {T} `{pod_type T} : value_safe T.
Next Obligation.
  intros T ? d buf p size Hp Hs Hb Hi. cbn [vrsize vreadbuf pod_trait].
  destruct (Z.ltb_spec size (Z.of_nat (sizeof T))); (eexists; split; [done|]); [lia|].
  right. split; [lia|].
  destruct (read_at_in buf p (Z.of_nat (sizeof T))) as [r ->]; [lia..|]. eauto.
Qed.

(** *** A length-prefixed block, the layout strings and fixed buffers share *)
Lemma le_Z_u32 z : 0 ≤ z < 2 ^ 32 → le_Z (le_bytes 4 z) = z.
Proof. intros H. rewrite le_Z_le_bytes. by apply u32_small. Qed.

Lemma write_block a b c sz src :
  length b = (4 + length src)%nat →
  (buf ← write_at (a ++ b ++ c) (Z.of_nat (length a)) (le_bytes 4 sz);
   write_at buf (Z.of_nat (length a) + 4) src)
  = Ok (a ++ (le_bytes 4 sz ++ src) ++ c).
Proof.
  intros Hb. rewrite <-(take_drop 4 b), <-(app_assoc (take 4 b)).
  rewrite write_at_app by (rewrite length_take, length_le_bytes; lia). ostep.
  rewrite (app_assoc a (le_bytes 4 sz)).
  replace (Z.of_nat (length a) + 4)
    with (Z.of_nat (length (a ++ le_bytes 4 sz))) by (rewrite length_app, length_le_bytes; lia).
  rewrite write_at_app by (rewrite length_drop; lia). by rewrite <-!app_assoc.
Qed.

Lemma read_block_len a c sz src :
  0 ≤ sz < 2 ^ 32 →
  (le_Z <$> read_at (a ++ (le_bytes 4 sz ++ src) ++ c) (Z.of_nat (length a)) 4) = Ok sz.
Proof.
  intros Hsz. rewrite <-app_assoc.
  replace 4 with (Z.of_nat (length (le_bytes 4 sz))) at 2 by (by rewrite length_le_bytes).
  rewrite read_at_app. simpl. by rewrite le_Z_u32.
Qed.

Lemma read_block_data a c sz src :
  Z.of_nat (length src) = sz →
  read_at (a ++ (le_bytes 4 sz ++ src) ++ c) (Z.of_nat (length a) + 4) sz = Ok src.
Proof.
  intros Hl. rewrite <-app_assoc, app_assoc.
  replace (Z.of_nat (length a) + 4)
    with (Z.of_nat (length (a ++ le_bytes 4 sz))) by (rewrite length_app, length_le_bytes; lia).
  by rewrite <-Hl, read_at_app.
Qed.

Lemma write_at_all {A} (l src : list A) : length l = length src → write_at l 0 src = Ok src.
Proof.
  intros H. pose proof (write_at_app [] l [] src H) as E.
  simpl in E. by rewrite !app_nil_r in E.
Qed.

(** *** Strings: NUL-terminated, shorter than 2^31 - 5 bytes *)
Definition c_string (m : list byte) : Prop := ∃ s, m = s ++ [NUL] ∧ NUL ∉ s.

Lemma c_string_strlen m : c_string m → strlen m + 1 = Z.of_nat (length m).
Proof. intros (s & -> & Hs). rewrite strlen_app, length_app by done. simpl. lia. Qed.

#[export] Program Instance cstr_codec : value_codec cstr := {
  v_ok v := c_string (cmem v) ∧ Z.of_nat (length (cmem v)) + 4 < 2 ^ 31;
  v_dst _ _ := True;
  v_wire v := le_bytes 4 (Z.of_nat (length (cmem v))) ++ cmem v;
}.
Next Obligation.
  intros v [Hc Hl]. cbn [vsize cstr_trait]. pose proof (c_string_strlen _ Hc).
  rewrite s32_small by lia. rewrite length_app, length_le_bytes. f_equal. lia.
Qed.
Next Obligation.
  intros v a b c [Hc Hl] Hb. cbn [vwritebuf cstr_trait]. rewrite c_string_strlen by done.
  rewrite u32_small, read_at_all by lia. apply write_block.
  by rewrite Hb, length_app, length_le_bytes.
Qed.
Next Obligation.
  intros d v a c size [Hc Hl] _ Hs. cbn [vrsize cstr_trait]; unfold cstr_rsize.
  rewrite length_app, length_le_bytes in *.
  destruct (Z.ltb_spec size 4); [lia|].
  rewrite read_block_len by lia. ostep.
  destruct (Z.ltb_spec size (Z.of_nat (length (cmem v)) + 4)); [lia|].
  rewrite s32_small by lia. f_equal. lia.
Qed.
Next Obligation.
  intros d [v] a c [Hc Hl] _. cbn [vreadbuf cstr_trait cmem] in *.
  rewrite read_block_len by lia. ostep. by rewrite read_block_data.
Qed.

Lemma read_at_Ok_length {A} (l : list A) p n r :
  read_at l p n = Ok r → 0 ≤ p ∧ 0 ≤ n ∧ p + n ≤ Z.of_nat (length l).
Proof. unfold read_at. by case_bool_decide. Qed.

#[export] Program Instance cstr_safe : value_safe cstr.
Next Obligation.
  intros d buf p size Hp Hs Hb Hi. cbn [vrsize vreadbuf cstr_trait]; unfold cstr_rsize.
  destruct (Z.ltb_spec size 4); [eexists; split; [done|]; lia|].
  destruct (read_at_in buf p 4) as [r Hr]; [lia..|]. rewrite Hr. ostep.
  pose proof (le_Z_range r).
  destruct (Z.ltb_spec size (le_Z r + 4)); (eexists; split; [done|]); [lia|].
  rewrite s32_small by lia. right. split; [lia|].
  destruct (read_at_in buf (p + 4) (le_Z r)) as [r' ->]; [lia..|]. simpl. eauto.
Qed.

#[export] Program Instance cstr_incomplete : value_incomplete cstr.
Next Obligation.
  intros d v a k [Hc Hl] Hk. cbn [vrsize v_wire cstr_trait cstr_codec] in *; unfold cstr_rsize.
  rewrite length_app, length_le_bytes in Hk.
  destruct (Z.ltb_spec (Z.of_nat k) 4); [done|].
  rewrite take_app_ge by (rewrite length_le_bytes; lia).
  pose proof (read_block_len a [] (Z.of_nat (length (cmem v)))
                (take (k - length (le_bytes 4 (Z.of_nat (length (cmem v))))) (cmem v))) as E.
  rewrite app_nil_r in E. rewrite E by lia. ostep.
  destruct (Z.ltb_spec (Z.of_nat k) (Z.of_nat (length (cmem v)) + 4)); [done|lia].
Qed.

(** *** Fixed buffers: the receiver's buffer has the sender's size *)
#[export] Program Instance fixedbuf_codec : value_codec fixedbuf := {
  v_ok v := Z.of_nat (length (fb_buf v)) = fb_size v ∧ fb_size v + 4 < 2 ^ 31;
  v_dst d v := fb_size d = fb_size v ∧ length (fb_buf d) = length (fb_buf v);
  v_wire v := le_bytes 4 (fb_size v) ++ fb_buf v;
}.
Next Obligation.
  intros v [Hc Hl]. cbn [vsize fixedbuf_trait].
  rewrite s32_small by lia. rewrite length_app, length_le_bytes. f_equal. lia.
Qed.
Next Obligation.
  intros v a b c [Hc Hl] Hb. cbn [vwritebuf fixedbuf_trait].
  rewrite read_at_all by lia. apply write_block. by rewrite Hb, length_app, length_le_bytes.
Qed.
Next Obligation.
  intros d v a c size [Hc Hl] [Hd _] Hs. cbn [vrsize fixedbuf_trait].
  rewrite length_app, length_le_bytes in *.
  destruct (Z.ltb_spec size 4); [lia|].
  rewrite read_block_len by lia. ostep.
  rewrite Hd, u32_small, Z.eqb_refl by lia. simpl.
  rewrite s32_small by lia. f_equal. lia.
Qed.
Next Obligation.
  intros d [b sz] a c [Hc Hl] [Hd Hlen]. cbn [vreadbuf fixedbuf_trait fb_buf fb_size] in *.
  rewrite Hd, read_block_data by done. ostep. by rewrite write_at_all.
Qed.

(** *** Chains *)
#[export] Program Instance unit_chain : chain_codec unit := {
  b_ok _ := True; b_dst _ _ := True; b_wire _ := [] }.
Next Obligation. done. Qed.
Next Obligation. by intros b a [|] c. Qed.
Next Obligation. done. Qed.
Next Obligation. by intros d []. Qed.

#[export] Program Instance field_chain {B T}
  `{Cb : chain_codec B} `{Cv : value_codec T} : chain_codec (B * T) := {
  b_ok bv := b_ok bv.1 ∧ v_ok bv.2;
  b_dst d bv := b_dst d.1 bv.1 ∧ v_dst d.2 bv.2;
  b_wire bv := b_wire bv.1 ++ v_wire bv.2;
}.
Next Obligation.
  intros B ??? T ?? [b v] [Hb Hv] Hlen. simpl in *. rewrite length_app in *.
  rewrite b_size_law, v_size_law by (done || lia). ostep.
  rewrite int_add_small by lia. f_equal. lia.
Qed.
Next Obligation.
  intros B ??? T ?? [b v] a m c [Hb Hv] Hlen Hm. simpl in *. unfold tinypack_writebuf. simpl. rewrite length_app in *.
  rewrite b_size_law by (done || lia). ostep.
  set (n := length (b_wire b)) in *.
  rewrite <-(take_drop n m), <-(app_assoc (take n m)).
  assert (length (take n m) = n) as Ht by (rewrite length_take; lia).
  assert (length (drop n m) = length (v_wire v)) as Hd by (rewrite length_drop; lia).
  replace (Z.of_nat (length a) + Z.of_nat n) with (Z.of_nat (length (a ++ take n m)))
    by (rewrite length_app; lia).
  rewrite (app_assoc a), v_write_law by done. ostep.
  rewrite <-(app_assoc a), b_write_law by (done || lia). by rewrite <-app_assoc.
Qed.
Next Obligation.
  intros B ??? T ?? [d w] [b v] a c bufsz [Hb Hv] [Hdb Hdv] Hlen Hsz. simpl in *.
  rewrite length_app in *. rewrite <-(app_assoc (b_wire b)).
  rewrite b_rsize_law by (done || lia). ostep.
  destruct (Z.ltb_spec (Z.of_nat (length (b_wire b))) 0); [lia|].
  rewrite u32_small by lia.
  replace (Z.of_nat (length a) + Z.of_nat (length (b_wire b)))
    with (Z.of_nat (length (a ++ b_wire b))) by (rewrite length_app; lia).
  rewrite (app_assoc a), v_rsize_law by (done || lia). ostep.
  destruct (Z.ltb_spec (Z.of_nat (length (v_wire v))) 0); [lia|].
  rewrite int_add_small by lia. f_equal. lia.
Qed.
Next Obligation.
  intros B ??? T ?? [d w] [b v] a c bufsz [Hb Hv] [Hdb Hdv] Hlen Hsz. simpl in *.
  rewrite length_app in *. rewrite <-(app_assoc (b_wire b)).
  rewrite b_rsize_law by (done || lia). ostep.
  replace (Z.of_nat (length a) + Z.of_nat (length (b_wire b)))
    with (Z.of_nat (length (a ++ b_wire b))) by (rewrite length_app; lia).
  rewrite (app_assoc a), v_read_law by done. ostep.
  rewrite <-(app_assoc a), b_read_law by (done || lia). done.
Qed.

#[export] Program Instance unit_chain_safe : chain_safe unit.
Next Obligation. intros. eexists. split; [done|]. right. split; [lia|]. by eexists. Qed.

#[export] Program Instance field_chain_safe {B T}
  `{Sb : chain_safe B} `{Sv : value_safe T} : chain_safe (B * T).
Next Obligation.
  intros B ?? T ?? [d w] buf p bufsz Hp Hs Hb Hi.
  destruct (b_rsize_safe d buf p bufsz) as (n & Hn & Hcase); [done..|].
  cbn [up_get_size up_unpack tinyunpack fst snd]. rewrite Hn. ostep.
  destruct (Z.ltb_spec n 0) as [Hneg|Hneg]; [eexists; split; [done|]; lia|].
  destruct Hcase as [?|(Hle & b & ->)]; [lia|].
  rewrite u32_small by lia.
  destruct (v_rsize_safe w buf (p + n) (bufsz - n)) as (m & Hm & Hc); [lia..|].
  rewrite Hm. ostep.
  destruct (Z.ltb_spec m 0) as [Hneg'|Hneg']; [eexists; split; [done|]; lia|].
  destruct Hc as [?|(Hle' & v & ->)]; [lia|]. ostep.
  rewrite int_add_small by lia. eexists; split; [done|]. right. split; [lia|]. eauto.
Qed.

#[export] Program Instance unit_chain_incomplete : chain_incomplete unit.
Next Obligation. simpl. lia. Qed.

#[export] Program Instance field_chain_incomplete {B T}
  `{Ib : chain_incomplete B} `{Iv : value_incomplete T} : chain_incomplete (B * T).
Next Obligation.
  intros B ???? T ??? [d w] [b v] a k [Hb Hv] [Hdb Hdv] Hlen Hk.
  cbn [up_get_size tinyunpack fst snd b_wire field_chain] in *.
  rewrite length_app in *. destruct (decide (k < length (b_wire b))%nat).
  { rewrite take_app_le, b_incomplete by (done || lia). done. }
  rewrite take_app_ge by lia. rewrite b_rsize_law by (done || lia). ostep.
  destruct (Z.ltb_spec (Z.of_nat (length (b_wire b))) 0); [lia|].
  rewrite u32_small, (app_assoc a) by lia.
  replace (Z.of_nat (length a) + Z.of_nat (length (b_wire b)))
    with (Z.of_nat (length (a ++ b_wire b))) by (rewrite length_app; lia).
  rewrite <-Nat2Z.inj_sub, v_incomplete by (done || lia). done.
Qed.

(** ** The chains' operations, for any chain with a codec *)

Section Props.
Context (malloc : Z → list byte).
Context (malloc_length : ∀ n, 0 ≤ n → Z.of_nat (length (malloc n)) = n).
Context {B : Type} `{chain_codec B}.

Lemma pack_spec b :
  b_ok b → Z.of_nat (length (b_wire b)) < 2 ^ 31 → pack malloc b = Ok (b_wire b).
Proof.
  intros Hb Hl. unfold pack. rewrite b_size_law by done. ostep.
  set (m := malloc _). assert (length m = length (b_wire b)) as Hm.
  { apply Nat2Z.inj. unfold m. rewrite malloc_length; lia. }
  pose proof (b_write_law b [] m [] Hb Hl Hm) as E. simpl in E.
  by rewrite !app_nil_r in E.
Qed.

Lemma pack_size_prefix_spec b :
  b_ok b → Z.of_nat (length (b_wire b)) < 2 ^ 31 →
  pack_size_prefix malloc b =
    Ok (le_bytes 4 (Z.of_nat (length (b_wire b))) ++ b_wire b).
Proof.
  intros Hb Hl. unfold pack_size_prefix. rewrite b_size_law by done. ostep.
  set (n := Z.of_nat _). set (m := malloc _).
  assert (length m = (4 + length (b_wire b))%nat) as Hm.
  { apply Nat2Z.inj. unfold m, n. rewrite malloc_length; lia. }
  rewrite <-(take_drop 4 m).
  change 0 with (Z.of_nat (length (@nil byte))).
  pose proof (write_at_app [] (take 4 m) (drop 4 m) (le_bytes 4 n)) as W. simpl app in W.
  rewrite W by (rewrite length_take, length_le_bytes; lia). ostep.
  replace 4 with (Z.of_nat (length (le_bytes 4 n))) at 3 by (by rewrite length_le_bytes).
  pose proof (b_write_law b (le_bytes 4 n) (drop 4 m) []) as E.
  rewrite !app_nil_r in E. apply E; [done..|]. rewrite length_drop. lia.
Qed.

Lemma get_size_prefix_spec b :
  b_ok b → Z.of_nat (length (b_wire b)) + 4 < 2 ^ 31 →
  get_size_prefix b = Ok (Z.of_nat (length (b_wire b)) + 4).
Proof.
  intros Hb Hl. unfold get_size_prefix. rewrite b_size_law by (done || lia). ostep.
  by rewrite s32_small by lia.
Qed.

Lemma check_completed_wire d b a c bufsz :
  b_ok b → b_dst d b → Z.of_nat (length (b_wire b)) ≤ bufsz → bufsz < 2 ^ 31 →
  check_completed d (a ++ b_wire b ++ c) (Z.of_nat (length a)) bufsz = Ok true.
Proof.
  intros. unfold check_completed. rewrite b_rsize_law by done. ostep.
  by destruct (Z.leb_spec 0 (Z.of_nat (length (b_wire b)))); [|lia].
Qed.
End Props.

(** ** Any list of fields

    The chains the properties are about: the field types a chain of the
    program may have, and for a list of them - the last [.field(v)] first - the
    chain's type, its packer and its unpacker, built by the definitions above
    and nothing else. *)
Inductive fty := FInt | FUInt | FSizeT | FStat | FCstr | FFixed.

Definition fval (t : fty) : Type :=
  match t with
  | FInt => int | FUInt => uint | FSizeT => size_t | FStat => struct_stat
  | FCstr => cstr | FFixed => fixedbuf
  end.

#[export] Instance fval_trait (t : fty) : value_trait (fval t) :=
  match t with
  | FInt => pod_trait | FUInt => pod_trait | FSizeT => pod_trait | FStat => pod_trait
  | FCstr => cstr_trait | FFixed => fixedbuf_trait
  end.

Fixpoint chain (ts : list fty) : Type :=
  match ts with [] => unit | t :: ts => chain ts * fval t end.

#[export] Instance chain_packer : ∀ ts, packer (chain ts) :=
  fix go ts := match ts with
  | [] => tinypacker
  | t :: ts => @tinypack (chain ts) (fval t) (go ts) (fval_trait t)
  end.

#[export] Instance chain_unpacker : ∀ ts, unpacker (chain ts) :=
  fix go ts := match ts with
  | [] => tinyunpacker
  | t :: ts => @tinyunpack (chain ts) (fval t) (go ts) (fval_trait t)
  end.

(** The values that may be sent: integers in their range, a [struct stat] of
    144 bytes, NUL-terminated strings, buffers of the size they announce. *)
Definition fval_fits (t : fty) : fval t → Prop :=
  match t with
  | FInt => fun v => - 2 ^ 31 ≤ int_val v < 2 ^ 31
  | FUInt => fun v => 0 ≤ uint_val v < 2 ^ 32
  | FSizeT => fun v => 0 ≤ size_t_val v < 2 ^ 64
  | FStat => fun v => length (stat_bytes v) = 144%nat
  | FCstr => fun v => c_string (cmem v) ∧ Z.of_nat (length (cmem v)) + 4 < 2 ^ 31
  | FFixed => fun v => Z.of_nat (length (fb_buf v)) = fb_size v ∧ fb_size v + 4 < 2 ^ 31
  end.

(** The variables they may be received into: anything, but a fixed buffer has
    the sender's size. *)
Definition fval_receives (t : fty) : fval t → fval t → Prop :=
  match t with
  | FFixed => fun d v => fb_size d = fb_size v ∧ length (fb_buf d) = length (fb_buf v)
  | _ => fun _ _ => True
  end.

(** The bytes of a value: integers little-endian at their width, strings and
    buffers behind a 4-byte length. *)
Definition fval_bytes (t : fty) : fval t → list byte :=
  match t with
  | FInt => fun v => le_bytes 4 (int_val v)
  | FUInt => fun v => le_bytes 4 (uint_val v)
  | FSizeT => fun v => le_bytes 8 (size_t_val v)
  | FStat => fun v => stat_bytes v
  | FCstr => fun v => le_bytes 4 (Z.of_nat (length (cmem v))) ++ cmem v
  | FFixed => fun v => le_bytes 4 (fb_size v) ++ fb_buf v
  end.

Fixpoint chain_fits (ts : list fty) : chain ts → Prop :=
  match ts with
  | [] => fun _ => True
  | t :: ts => fun bv => chain_fits ts bv.1 ∧ fval_fits t bv.2
  end.
Fixpoint chain_receives (ts : list fty) : chain ts → chain ts → Prop :=
  match ts with
  | [] => fun _ _ => True
  | t :: ts => fun d bv => chain_receives ts d.1 bv.1 ∧ fval_receives t d.2 bv.2
  end.
(** The message: the fields' bytes in the order of the [.field] calls. *)
Fixpoint chain_bytes (ts : list fty) : chain ts → list byte :=
  match ts with
  | [] => fun _ => []
  | t :: ts => fun bv => chain_bytes ts bv.1 ++ fval_bytes t bv.2
  end.

(** [tinypack_value_trait<fixedbuf>] trusts the size the sender announces. *)
Definition checks_size (t : fty) : bool :=
  match t with FFixed => false | _ => true end.

(** The instances above are the contracts of these lists. *)
Definition fval_codec (t : fty) : value_codec (fval t) :=
  match t with
  | FInt => pod_codec | FUInt => pod_codec | FSizeT => pod_codec | FStat => pod_codec
  | FCstr => cstr_codec | FFixed => fixedbuf_codec
  end.
Fixpoint list_codec (ts : list fty) : chain_codec (chain ts) :=
  match ts return @chain_codec (chain ts) (chain_packer ts) (chain_unpacker ts) with
  | [] => unit_chain
  | t :: ts => @field_chain (chain ts) (fval t) _ _ (list_codec ts) _ (fval_codec t)
  end.

Lemma list_codec_ok ts (b : chain ts) : chain_fits ts b → @b_ok _ _ _ (list_codec ts) b.
Proof.
  induction ts as [|t ts IH]; [done|]. intros [Hb Ht]. split; [by apply IH|]. by destruct t.
Qed.
Lemma list_codec_dst ts (d b : chain ts) :
  chain_receives ts d b → @b_dst _ _ _ (list_codec ts) d b.
Proof.
  induction ts as [|t ts IH]; [done|]. intros [Hb Ht]. split; [by apply IH|]. by destruct t.
Qed.
Lemma list_codec_wire ts (b : chain ts) : @b_wire _ _ _ (list_codec ts) b = chain_bytes ts b.
Proof.
  induction ts as [|t ts IH]; [done|]. cbn [b_wire list_codec field_chain chain_bytes].
  rewrite IH. by destruct t.
Qed.

Lemma list_safe ts : forallb checks_size ts = true → chain_safe (chain ts).
Proof.
  induction ts as [|t ts IH]; [intros _; exact unit_chain_safe|].
  intros [Ht Hts]%andb_prop. pose proof (IH Hts).
  assert (value_safe (fval t)) by (destruct t; [apply _..|exact cstr_safe|done]).
  exact (field_chain_safe (B := chain ts) (T := fval t)).
Qed.
Lemma list_incomplete ts :
  forallb checks_size ts = true → @chain_incomplete _ _ _ (list_codec ts).
Proof.
  induction ts as [|t ts IH]; [intros _; exact unit_chain_incomplete|].
  intros [Ht Hts]%andb_prop. pose proof (IH Hts).
  assert (@value_incomplete (fval t) _ (fval_codec t))
    by (destruct t; [exact pod_incomplete..|exact cstr_incomplete|done]).
  exact (@field_chain_incomplete _ _ _ _ _ _ _ _ _).
Qed.

(** ** Properties *)

(** C9: packing and unpacking are inverse, for every list of fields of the
    types the messages use.  Packing values that fit their types gives exactly
    the fields' bytes one after the other ([chain_bytes]); [tinypack::get_size]
    and [tinyunpack::get_size] both report their number, [check_completed]
    accepts them, and [unpack] into variables of the same types (a fixed buffer
    of the same size) gives the values back. *)
Theorem tinypack_roundtrip (ts : list fty) (malloc : Z → list byte) (b d : chain ts) :
  (∀ n, 0 ≤ n → Z.of_nat (length (malloc n)) = n) →
  chain_fits ts b → chain_receives ts d b →
  let msg := chain_bytes ts b in
  let n := Z.of_nat (length msg) in
  n < 2 ^ 31 →
  pk_get_size b = Ok n ∧
  pack malloc b = Ok msg ∧
  up_get_size d msg 0 n = Ok n ∧
  check_completed d msg 0 n = Ok true ∧
  unpack d msg 0 n = Ok b.
Proof.
  intros Hm Hb%list_codec_ok Hd%list_codec_dst. cbv zeta. rewrite <-list_codec_wire.
  intros Hl.
  pose proof (b_rsize_law d b [] [] _ Hb Hd (Z.le_refl _) Hl) as R.
  pose proof (b_read_law d b [] [] _ Hb Hd (Z.le_refl _) Hl) as U.
  pose proof (check_completed_wire d b [] [] _ Hb Hd (Z.le_refl _) Hl) as C.
  rewrite app_nil_r in *. repeat split; [by apply b_size_law|by apply pack_spec|done..].
Qed.

(** The values of [test_tinypack.cpp], without its [double]. *)
Definition sample_types : list fty := [FFixed; FCstr; FSizeT; FInt].
Definition sample_chain : chain sample_types :=
  field (field (field (field tt (Int (-3))) (SizeT 136))
    (CStr (map byte_of_Z [104; 101; 108; 108; 111; 0]))) (FixedBuf (replicate 22 (byte_of_Z 7)) 22).
Definition sample_target : chain sample_types :=
  field (field (field (field tt (Int 0)) (SizeT 0)) (CStr [])) (FixedBuf (replicate 22 NUL) 22).

Lemma sample_chain_ok : chain_fits sample_types sample_chain.
Proof.
  repeat split; try (vm_compute; congruence).
  exists (map byte_of_Z [104; 101; 108; 108; 111]). split; [done|].
  rewrite list_elem_of_In. vm_compute. intuition discriminate.
Qed.

Lemma tinypack_roundtrip_witness :
  let msg := chain_bytes sample_types sample_chain in
  length msg = 48%nat ∧
  pk_get_size sample_chain = Ok 48 ∧
  pack (fun n => replicate (Z.to_nat n) NUL) sample_chain = Ok msg ∧
  up_get_size sample_target msg 0 48 = Ok 48 ∧
  check_completed sample_target msg 0 48 = Ok true ∧
  unpack sample_target msg 0 48 = Ok sample_chain.
Proof.
  intros msg. split; [by vm_compute|].
  apply (tinypack_roundtrip sample_types (fun n => replicate (Z.to_nat n) NUL)
           sample_chain sample_target).
  - intros n Hn. rewrite length_replicate. lia.
  - exact sample_chain_ok.
  - by repeat split.
  - vm_compute. reflexivity.
Defined.

(** C17: decoding bytes of an untrusted peer is memory safe for every chain
    whose fields are trivially copyable values and strings (fixed buffers are
    excluded: their [rsize] believes the announced size,
    [fixedbuf_accepts_truncated]).  For any bytes and any window of them, the
    size computation of [check_completed] reads inside the window, and once it
    accepts, [unpack] succeeds without reading outside the buffer. *)
Theorem tinyunpack_memory_safe (ts : list fty) (d : chain ts) (buf : list byte) (p bufsz : Z) :
  forallb checks_size ts = true →
  0 ≤ p → 0 ≤ bufsz < 2 ^ 31 → p + bufsz ≤ Z.of_nat (length buf) →
  ∃ ok, check_completed d buf p bufsz = Ok ok ∧
    (ok = true → ∃ b, unpack d buf p bufsz = Ok b).
Proof.
  intros Hts%list_safe Hp Hs Hb. unfold check_completed, unpack.
  destruct (b_rsize_safe d buf p bufsz) as (n & -> & Hn); [lia..|]. ostep.
  eexists; split; [done|]. destruct (Z.leb_spec 0 n); [|done]. intros _.
  destruct Hn as [?|[_ Hn]]; [lia|done].
Qed.

(** Four bytes that announce a 100-byte path, in front of 3 bytes, are
    refused; a string of two bytes and an integer behind it are read. *)
Definition short_path : list byte := le_bytes 4 100 ++ map byte_of_Z [47; 97; 0].
Definition path_and_flags : list byte :=
  le_bytes 4 2 ++ map byte_of_Z [47; 0] ++ le_bytes 4 577 ++ map byte_of_Z [9].
Lemma tinyunpack_memory_safe_witness :
  let d : chain [FInt; FCstr] := field (field tt (CStr [])) (Int 0) in
  check_completed d short_path 0 7 = Ok false ∧
  check_completed d path_and_flags 0 11 = Ok true ∧
  ∃ b, unpack d path_and_flags 0 11 = Ok b.
Proof.
  intros d. split; [by vm_compute|]. split; [by vm_compute|].
  destruct (tinyunpack_memory_safe [FInt; FCstr] d path_and_flags 0 11) as (ok & Hok & Hu);
    [done|lia|lia|vm_compute; discriminate|].
  apply Hu. by vm_compute in Hok; injection Hok.
Defined.

(** C40: a message that has only partly arrived is never taken for a complete
    one, if its fields are trivially copyable values and strings (no fixed
    buffers): on every strict prefix of the message, [tinyunpack::get_size] is
    -1 and [check_completed] answers no. *)
Theorem tinyunpack_detects_truncation (ts : list fty) (b d : chain ts) (k : nat) :
  forallb checks_size ts = true → chain_fits ts b →
  let msg := chain_bytes ts b in
  Z.of_nat (length msg) < 2 ^ 31 → (k < length msg)%nat →
  up_get_size d (take k msg) 0 (Z.of_nat k) = Ok (-1) ∧
  check_completed d (take k msg) 0 (Z.of_nat k) = Ok false.
Proof.
  intros Hts Hb%list_codec_ok. cbv zeta. rewrite <-list_codec_wire. intros Hl Hk.
  assert (@b_dst _ _ _ (list_codec ts) d b) as Hd.
  { apply list_codec_dst. clear Hb Hl Hk. induction ts as [|t ts IH]; [done|].
    apply andb_prop in Hts as [Ht Hts]. split; [by apply IH|]. by destruct t. }
  pose proof (list_incomplete ts Hts).
  pose proof (b_incomplete d b [] k Hb Hd Hl Hk) as E.
  change (Z.of_nat (length (@nil byte))) with 0 in E. simpl app in E.
  unfold check_completed. by rewrite E.
Qed.

Lemma tinyunpack_detects_truncation_witness :
  let d : chain [FInt; FCstr] := field (field tt (CStr [])) (Int 0) in
  let msg := le_bytes 4 2 ++ map byte_of_Z [47; 0] ++ le_bytes 4 577 in
  up_get_size d (take 9 msg) 0 (Z.of_nat 9) = Ok (-1) ∧
  check_completed d (take 9 msg) 0 (Z.of_nat 9) = Ok false.
Proof.
  intros d msg.
  apply (tinyunpack_detects_truncation [FInt; FCstr]
           (field (field tt (CStr (map byte_of_Z [47; 0]))) (Int 577)) d 9).
  - done.
  - repeat split; try (vm_compute; congruence).
    exists (map byte_of_Z [47]). split; [done|].
    rewrite list_elem_of_In. vm_compute. intuition discriminate.
  - vm_compute. reflexivity.
  - vm_compute. lia.
Defined.

(** The fixed-buffer field does not have this protection.
    [tinypack_value_trait<fixedbuf>::rsize] compares the announced size with
    the receiver's but not with the bytes received: for every receiver size
    [n > 0], the 4 bytes announcing [n] are accepted as a complete field, and
    [unpack] then reads outside them. *)
Theorem fixedbuf_accepts_truncated (n : Z) :
  0 < n < 2 ^ 31 - 4 →
  let d := field tt (FixedBuf (replicate (Z.to_nat n) NUL) n) in
  check_completed d (le_bytes 4 n) 0 4 = Ok true ∧
  unpack d (le_bytes 4 n) 0 4 = Fault (Undefined "read outside the buffer").
Proof.
  intros Hn d. unfold check_completed, unpack, d, field.
  cbn [up_get_size up_unpack tinyunpack tinyunpacker vrsize vreadbuf fixedbuf_trait fst snd fb_size fb_buf].
  ostep. change (0 <? 0) with false. cbv iota. change (u32 (4 - 0) <? 4) with false. cbv iota.
  rewrite Z.add_0_r, (read_at_all (le_bytes 4 n)) by (by rewrite length_le_bytes). ostep.
  rewrite le_Z_u32, u32_small, Z.eqb_refl by lia. simpl negb. cbv iota.
  rewrite s32_small by lia. ostep. split.
  - destruct (Z.ltb_spec (n + 4) 0); [lia|]. rewrite int_add_small by lia. ostep.
    by destruct (Z.leb_spec 0 (0 + (n + 4))); [|lia].
  - unfold read_at. rewrite bool_decide_false; [done|]. rewrite length_le_bytes. lia.
Qed.

Lemma fixedbuf_accepts_truncated_witness :
  let d := field tt (FixedBuf (replicate (Z.to_nat 22) NUL) 22) in
  check_completed d (le_bytes 4 22) 0 4 = Ok true ∧
  unpack d (le_bytes 4 22) 0 4 = Fault (Undefined "read outside the buffer").
Proof. apply (fixedbuf_accepts_truncated 22). lia. Defined.
