(* ===== verification/TinyPackTest.v ===== *)
(** * tinypack: the test program

    toolkits/test_tinypack.cpp: five fields are packed, unpacked again and
    compared.  [printf] is left out. *)

From S2P Require Import Prelude TinyPack.

(** [double] and [long], by their object representation. *)
Record double := Double { double_bytes : list byte }.
#[export] Instance double_pod : pod_type double := {
  sizeof := 8; to_rep v := double_bytes v; of_rep l := Double l }.
Record long := Long { long_val : Z }.
#[export] Instance long_pod : pod_type long := {
  sizeof := 8; to_rep v := le_bytes 8 (long_val v); of_rep l := Long (s64 (le_Z l)) }.

(** The five variables; the sixth buffer is that of [_buf]. *)
Record vars := Vars { a_ : int; b_ : double; c_ : long; str_ : cstr; fbuf_ : fixedbuf }.
Definition chain_of (v : vars) : (((((unit * int) * double) * long) * cstr) * fixedbuf) :=
  field (field (field (field (field tt (a_ v)) (b_ v)) (c_ v)) (str_ v)) (fbuf_ v).
(** 1.1 *)
Definition b_value : double := Double (byte_of_Z <$> [154; 153; 153; 153; 153; 153; 241; 63]).
Definition hello : list byte := byte_of_Z <$> [104; 101; 108; 108; 111; 0].
Definition counted : list byte := (fun i => byte_of_Z (Z.of_nat i)) <$> seq 0 22.
Definition packed : vars := Vars (Int 3) b_value (Long 0x88) (CStr hello) (FixedBuf counted 22).

(** [fixedbuf _fbuf(buf, 22)]: the message is unpacked into [buf], so that
    the [fixedbuf] of the test is that of both chains, and [_buf] keeps the
    bytes that the loop has put there. *)
Definition test_tinypack (malloc : Z → list byte) (a : int) (b : double) (c : long) (str : cstr) : outcome unit :=
  let v := packed in
  sz ← pk_get_size (chain_of v);
  cassert (sz =? 56) "pack.get_size() == 56" ;;
  msg ← pack malloc (chain_of v);
  let target := chain_of (Vars a b c str (fbuf_ v)) in
  usz ← up_get_size target msg 0 sz;
  cassert (sz =? usz) "pack.get_size() == unpack.get_size()" ;;
  ok ← check_completed target msg 0 sz;
  cassert ok "unpack.check_completed()" ;;
  u ← unpack target msg 0 sz;
  let '(((((_, a), b), c), str), fbuf) := u in
  cassert (int_val a =? int_val (a_ v)) "a == a_" ;;
  cassert (bool_decide (double_bytes b = double_bytes (b_ v))) "b == b_" ;;
  cassert (long_val c =? long_val (c_ v)) "c == c_" ;;
  cassert (bool_decide (take (Z.to_nat (strlen (cmem str))) (cmem str) = take 5 hello)) "strcmp(str, str_) == 0" ;;
  let _buf := counted in
  cassert (bool_decide (take 22 (fb_buf fbuf) = _buf)) "memcmp(buf, _buf, 22) == 0".

(** The test passes, whatever the variables hold before. *)
Theorem test_tinypack_passes (a : int) (b : double) (c : long) (str : cstr) :
  test_tinypack (fun n => replicate (Z.to_nat n) NUL) a b c str = Ok tt.
Proof. vm_compute. reflexivity. Qed.
