(* ===== verification/Chunk.v ===== *)
(** * chunkinfo_t: the bitmap chunk of sandbox/tinymalloc.cpp

    A chunk is [bytes] bytes of memory at [begin]: a bitmap with a bit per
    element, padded to 8 bytes, and then the elements.  The model keeps the
    bitmap, which is in the chunk's own memory, as the list of its bytes. *)

From S2P Require Import Prelude.

(** The fields of [chunkinfo_t]; pointers are addresses, [nullptr] is 0. *)
Record chunkinfo := ChunkInfo {
  begin : Z;
  next : Z;
  elm_size : Z;
  bytes : Z;
  nfree : Z;
}.

(** What the member functions read and write: the function-local static
    [rand] that all chunks share, the fields, and the bitmap at [begin]. *)
Record cstate := CState {
  rand : Z;
  info : chunkinfo;
  usebits : list Z;
}.

Definition set_next (n : Z) (c : chunkinfo) : chunkinfo :=
  ChunkInfo (begin c) n (elm_size c) (bytes c) (nfree c).
Definition set_nfree (n : Z) (c : chunkinfo) : chunkinfo :=
  ChunkInfo (begin c) (next c) (elm_size c) (bytes c) n.

Definition first_element (c : chunkinfo) : Z :=
  let nelm := bytes c / elm_size c in
  let usebits_size := u32 (nelm + 7) / 8 in
  let first_elm := u32 (round8 usebits_size) in
  first_elm.

Definition max_elements (c : chunkinfo) : Z :=
  u32 (bytes c - first_element c) / elm_size c.

(** The constructor: fields, and [first_element()] zero bytes of bitmap. *)
Definition new_chunkinfo (element_size beg byts : Z) : chunkinfo * list Z :=
  let c := ChunkInfo beg 0 element_size byts 0 in
  (set_nfree (max_elements c) c, replicate (Z.to_nat (first_element c)) 0).

Definition get_bits (k : Z) : ST cstate Z := fun s =>
  match usebits s !! Z.to_nat k with
  | Some b => Ok (b, s)
  | None => Fault (Undefined "usebits out of range")
  end.
Definition set_bits (k b : Z) : ST cstate unit := fun s =>
  match usebits s !! Z.to_nat k with
  | Some _ => Ok (tt, CState (rand s) (info s) (<[Z.to_nat k := b]> (usebits s)))
  | None => Fault (Undefined "usebits out of range")
  end.
Definition set_info (f : chunkinfo → chunkinfo) : ST cstate unit :=
  modify (fun s => CState (rand s) (f (info s)) (usebits s)).

(** [for (int j = 0; j < 8; j++)]: the first [n] of the remaining values [j]
    of the inner loop; the result is the [found] that is inside the range. *)
Fixpoint find_clear (n : nat) (byte i j stop : Z) : option Z :=
  match n with
  | O => None
  | S n =>
      if Z.testbit byte j then find_clear n byte i (j + 1) stop
      else if i + j <? stop then Some j else find_clear n byte i (j + 1) stop
  end.

(** [for (auto i = start; i < stop; i += 8)], at most [n] more iterations. *)
Fixpoint alloc_free_loop (n : nat) (i stop : Z) : ST cstate Z :=
  match n with
  | O => mret (-1)
  | S n =>
      if negb (i <? stop) then mret (-1) else
      byte ← get_bits (i / 8);
      if byte =? 0xff then alloc_free_loop n (i + 8) stop else
      match find_clear 8 byte i 0 stop with
      | Some j =>
          set_bits (i / 8) (Z.lor byte (Z.shiftl 1 j)) ;;
          set_info (fun c => set_nfree (u32 (nfree c - 1)) c) ;;
          mret (i + j)
      | None => alloc_free_loop n (i + 8) stop
      end
  end.

(** The number of iterations is at most the number of bitmap bytes. *)
Definition alloc_free_range (start stop : Z) : ST cstate Z :=
  alloc_free_loop (Z.to_nat ((stop - start + 7) / 8)) start stop.

Definition next_rand : ST cstate Z := fun s =>
  Ok (rand s, CState (u32 (rand s + 1)) (info s) (usebits s)).

Definition alloc_free : ST cstate Z :=
  c ← gets info;
  if nfree c =? 0 then mret (-1) else
  r ← next_rand;
  let max := max_elements c in
  let start := u32 ((r mod 8) * max) / 8 in
  let start := Z.land start (Z.lnot 7) in
  found ← alloc_free_range start max;
  if (found =? -1) && negb (start =? 0) then alloc_free_range 0 start
  else mret found.

Definition is_part (c : chunkinfo) (ptr : Z) : bool :=
  let off := ptr - begin c in
  (first_element c <=? off) && (off <? bytes c).

Definition alloc : ST cstate Z :=
  found ← alloc_free;
  if found <? 0 then mret 0 else
  c ← gets info;
  mret (begin c + first_element c + u32 (found * elm_size c)).

Definition free (ptr : Z) : ST cstate unit :=
  c ← gets info;
  sassert (is_part c ptr) "is_part(ptr)" ;;
  let pos := (ptr - begin c - first_element c) / elm_size c in
  byte ← get_bits (pos / 8);
  set_bits (pos / 8) (Z.land byte (Z.lnot (Z.shiftl 1 (pos mod 8)))) ;;
  set_info (fun c => set_nfree (u32 (nfree c + 1)) c).

Definition has_free (c : chunkinfo) : bool := negb (nfree c =? 0).

(** ** Specification

    The abstract state of a chunk is the set of used element numbers. *)

(** Bit [k] of the bitmap; bytes that are not there count as full. *)
Definition used (bits : list Z) (k : Z) : bool :=
  match bits !! Z.to_nat (k / 8) with
  | Some b => Z.testbit b (k mod 8)
  | None => true
  end.

(** The number of clear bits among the first [n]. *)
Fixpoint count_free (bits : list Z) (n : nat) : Z :=
  match n with
  | O => 0
  | S n => (if used bits (Z.of_nat n) then 0 else 1) + count_free bits n
  end.

(** A chunk whose size fields make sense: the sizes the allocator uses are
    below 2^31 and the bitmap leaves room for the elements. *)
Record geometry (c : chunkinfo) : Prop := {
  geo_elm : 8 ≤ elm_size c;
  geo_bytes : 0 ≤ bytes c < 2 ^ 31;
  geo_first : first_element c ≤ bytes c;
}.

Record chunk_inv (c : chunkinfo) (bits : list Z) : Prop := {
  inv_geo : geometry c;
  inv_bits : Z.of_nat (length bits) = first_element c;
  inv_bytes : Forall (fun b => 0 ≤ b < 256) bits;
  inv_nfree : nfree c = count_free bits (Z.to_nat (max_elements c));
}.

(** The address of element [k]. *)
Definition elem_addr (c : chunkinfo) (k : Z) : Z :=
  begin c + first_element c + k * elm_size c.

(** Two chunks with the same geometry: only [next] and [nfree] differ. *)
Definition same_shape (c c' : chunkinfo) : Prop :=
  begin c' = begin c ∧ elm_size c' = elm_size c ∧ bytes c' = bytes c.

(** ** Geometry *)
Ltac Zify.zify_post_hook ::= Z.div_mod_to_equations.

Section Geometry.
Context (c : chunkinfo) (G : geometry c).

Lemma first_element_eq :
  first_element c = 8 * (((bytes c / elm_size c + 7) / 8 + 7) / 8).
Proof.
  destruct G. unfold first_element. rewrite round8_eq.
  assert (0 ≤ bytes c / elm_size c ≤ bytes c) by (split; [apply Z.div_pos; lia|apply Z.div_le_upper_bound; nia]).
  rewrite (u32_small (_ + 7)) by lia. apply u32_small. lia.
Qed.
Lemma first_element_pos : 0 ≤ first_element c.
Proof. rewrite first_element_eq. destruct G. assert (0 ≤ bytes c / elm_size c) by (apply Z.div_pos; lia). lia. Qed.
Lemma max_elements_eq : max_elements c = (bytes c - first_element c) / elm_size c.
Proof.
  unfold max_elements. pose proof first_element_pos. destruct G.
  by rewrite u32_small by lia.
Qed.
Lemma max_elements_bounds :
  0 ≤ max_elements c ∧ first_element c + max_elements c * elm_size c ≤ bytes c ∧
  max_elements c ≤ 8 * first_element c ∧ 8 * max_elements c ≤ bytes c.
Proof.
  pose proof first_element_pos. rewrite max_elements_eq. destruct G.
  pose proof (Z.mul_div_le (bytes c - first_element c) (elm_size c)).
  assert (0 ≤ (bytes c - first_element c) / elm_size c) by (apply Z.div_pos; lia).
  assert ((bytes c - first_element c) / elm_size c ≤ bytes c / elm_size c)
    by (apply Z.div_le_mono; lia).
  split_and!; [done|lia| |nia].
  pose proof first_element_eq. lia.
Qed.
End Geometry.

(** ** Bits *)
Definition set_used (bits : list Z) (k : Z) (v : bool) : list Z :=
  match bits !! Z.to_nat (k / 8) with
  | Some b => <[Z.to_nat (k / 8) :=
      if v then Z.lor b (Z.shiftl 1 (k mod 8)) else Z.land b (Z.lnot (Z.shiftl 1 (k mod 8)))]> bits
  | None => bits
  end.

Lemma length_set_used bits k v : length (set_used bits k v) = length bits.
Proof. unfold set_used. case_match; [apply length_insert|done]. Qed.

Lemma shiftl_1_testbit j m : 0 ≤ j → 0 ≤ m → Z.testbit (Z.shiftl 1 j) m = bool_decide (j = m).
Proof.
  intros Hj Hm. rewrite Z.shiftl_1_l, Z.pow2_bits_eqb by lia.
  by destruct (Z.eqb_spec j m); [rewrite bool_decide_true|rewrite bool_decide_false].
Qed.

Lemma used_set bits k k' v :
  0 ≤ k → 0 ≤ k' → k < 8 * Z.of_nat (length bits) →
  used (set_used bits k v) k' = if decide (k = k') then v else used bits k'.
Proof.
  intros Hk Hk' Hl. unfold set_used, used.
  destruct (lookup_lt_is_Some_2 bits (Z.to_nat (k / 8))) as [b Hb]; [lia|]. rewrite Hb.
  destruct (decide (k / 8 = k' / 8)) as [E|E].
  - rewrite <-E, list_lookup_insert_eq by lia. rewrite Hb.
    destruct v; [rewrite Z.lor_spec|rewrite Z.land_spec, Z.lnot_spec by lia];
      rewrite shiftl_1_testbit by lia;
      destruct (decide (k = k')) as [->|Hne];
      first [rewrite bool_decide_true by done|rewrite bool_decide_false by lia];
      simpl; rewrite ?orb_true_r, ?orb_false_r, ?andb_true_r, ?andb_false_r; done.
  - rewrite list_lookup_insert_ne by lia. by rewrite decide_False by congruence.
Qed.

Lemma byte_bound_bits b : 0 ≤ b → (∀ m, 8 ≤ m → Z.testbit b m = false) → b < 256.
Proof.
  intros Hb Hm. assert (b = b mod 2 ^ 8) as ->; [|lia].
  apply Z.bits_inj'. intros n Hn. destruct (decide (n < 8)).
  - by rewrite Z.mod_pow2_bits_low.
  - rewrite Z.mod_pow2_bits_high by lia. apply Hm. lia.
Qed.
Lemma byte_high_bits b m : 0 ≤ b < 256 → 8 ≤ m → Z.testbit b m = false.
Proof.
  intros Hb Hm. rewrite <-(Z.mod_small b (2 ^ 8)) by lia. by apply Z.mod_pow2_bits_high.
Qed.

Lemma set_used_bytes bits k v :
  0 ≤ k → Forall (fun b => 0 ≤ b < 256) bits → Forall (fun b => 0 ≤ b < 256) (set_used bits k v).
Proof.
  intros Hk HF. unfold set_used. destruct (bits !! _) as [b|] eqn:Hb; [|done].
  apply Forall_insert; [done|]. rewrite Forall_lookup in HF. pose proof (HF _ _ Hb) as Hr.
  simpl in Hr. assert (0 ≤ Z.shiftl 1 (k mod 8)) by (apply Z.shiftl_nonneg; lia). destruct v.
  - split; [apply Z.lor_nonneg; lia|]. apply byte_bound_bits; [apply Z.lor_nonneg; lia|].
    intros m Hm. rewrite Z.lor_spec, shiftl_1_testbit, byte_high_bits by lia.
    by rewrite bool_decide_false by lia.
  - split; [apply Z.land_nonneg; lia|]. apply byte_bound_bits; [apply Z.land_nonneg; lia|].
    intros m Hm. by rewrite Z.land_spec, byte_high_bits by lia.
Qed.

Lemma count_free_range bits n : 0 ≤ count_free bits n ≤ Z.of_nat n.
Proof. induction n as [|n IH]; simpl; [lia|]. case_match; lia. Qed.

Lemma count_free_ext bits bits' n :
  (∀ k, 0 ≤ k < Z.of_nat n → used bits k = used bits' k) → count_free bits n = count_free bits' n.
Proof.
  induction n as [|n IH]; intros H; [done|]. cbn [count_free].
  rewrite (H (Z.of_nat n)) by lia. rewrite IH; [done|]. intros. apply H. lia.
Qed.

Lemma count_free_set bits k v n :
  0 ≤ k < Z.of_nat n → k < 8 * Z.of_nat (length bits) → used bits k = negb v →
  count_free (set_used bits k v) n = count_free bits n + (if v then -1 else 1).
Proof.
  intros Hk Hl Hu. induction n as [|n IH]; [lia|]. cbn [count_free].
  rewrite used_set by lia. destruct (decide (k = Z.of_nat n)) as [->|Hne].
  - rewrite Hu, (count_free_ext (set_used bits (Z.of_nat n) v) bits); [by destruct v; simpl; lia|].
    intros k Hk'. rewrite used_set by lia. by rewrite decide_False by lia.
  - rewrite IH by lia. lia.
Qed.

Lemma count_free_exists bits n :
  0 < count_free bits n → ∃ k, 0 ≤ k < Z.of_nat n ∧ used bits k = false.
Proof.
  induction n as [|n IH]; cbn [count_free]; [lia|].
  destruct (used bits (Z.of_nat n)) eqn:E; intros H.
  - destruct IH as (k & ? & ?); [lia|]. exists k. split; [lia|done].
  - exists (Z.of_nat n). split; [lia|done].
Qed.

Lemma used_zeroes n k : 0 ≤ k < 8 * Z.of_nat n → used (replicate n 0) k = false.
Proof.
  intros Hk. unfold used. rewrite lookup_replicate_2 by lia. apply Z.testbit_0_l.
Qed.
Lemma count_free_zeroes m n :
  Z.of_nat n ≤ 8 * Z.of_nat m → count_free (replicate m 0) n = Z.of_nat n.
Proof.
  induction n as [|n IH]; intros H; [done|]. cbn [count_free].
  rewrite used_zeroes, IH by lia. lia.
Qed.

(** ** The search *)
Lemma find_clear_spec n byte i j stop :
  match find_clear n byte i j stop with
  | Some j' => j ≤ j' < j + Z.of_nat n ∧ Z.testbit byte j' = false ∧ i + j' < stop
  | None => ∀ j', j ≤ j' < j + Z.of_nat n → Z.testbit byte j' = true ∨ stop ≤ i + j'
  end.
Proof.
  revert j. induction n as [|n IH]; intros j; [simpl; lia|]. cbn [find_clear].
  specialize (IH (j + 1)).
  assert (Hskip : Z.testbit byte j = true ∨ stop ≤ i + j →
    match find_clear n byte i (j + 1) stop with
    | Some j' => j ≤ j' < j + Z.of_nat (S n) ∧ Z.testbit byte j' = false ∧ i + j' < stop
    | None => ∀ j', j ≤ j' < j + Z.of_nat (S n) → Z.testbit byte j' = true ∨ stop ≤ i + j'
    end).
  { intros Hj. case_match; [split; [lia|tauto]|]. intros j' Hj'.
    destruct (decide (j' = j)) as [->|]; [done|]. apply IH. lia. }
  destruct (Z.testbit byte j) eqn:Ht; [apply Hskip; tauto|].
  destruct (Z.ltb_spec (i + j) stop); [split; [lia|tauto]|apply Hskip; lia].
Qed.

(** What a search of the elements [lo .. hi - 1] does: it finds a clear bit,
    sets it and decrements [nfree], or there is none and nothing changes. *)
Definition search_spec (lo hi : Z) (s : cstate) (r : Z * cstate) : Prop :=
  (r = (-1, s) ∧ ∀ k, lo ≤ k < hi → used (usebits s) k = true) ∨
  (lo ≤ r.1 < hi ∧ used (usebits s) r.1 = false ∧
   r.2 = CState (rand s) (set_nfree (u32 (nfree (info s) - 1)) (info s))
           (set_used (usebits s) r.1 true)).

Lemma search_widen lo lo' hi s r :
  lo' ≤ lo → (∀ k, lo' ≤ k < lo → k < hi → used (usebits s) k = true) →
  search_spec lo hi s r → search_spec lo' hi s r.
Proof.
  intros Hle Hk [[-> H]|(H & Hu & E)].
  - left. split; [done|]. intros k Hr. destruct (decide (k < lo)); [apply Hk; lia|apply H; lia].
  - right. split; [lia|done].
Qed.

Lemma full_byte_used bits i k b :
  bits !! Z.to_nat (i / 8) = Some b → i mod 8 = 0 → i ≤ k < i + 8 →
  used bits k = Z.testbit b (k - i).
Proof.
  intros Hb Hi Hk. unfold used. replace (k / 8) with (i / 8) by lia. rewrite Hb.
  f_equal. lia.
Qed.

Lemma alloc_free_loop_spec n i stop s :
  0 ≤ i → i mod 8 = 0 → stop ≤ 8 * Z.of_nat (length (usebits s)) →
  stop - i ≤ 8 * Z.of_nat n →
  Forall (fun b => 0 ≤ b < 256) (usebits s) →
  ∃ r, alloc_free_loop n i stop s = Ok r ∧ search_spec i stop s r.
Proof.
  revert i. induction n as [|n IH]; intros i Hi Hm Hl Hn HF; cbn [alloc_free_loop].
  { eexists. split; [done|]. left. split; [done|]. intros; lia. }
  destruct (Z.ltb_spec i stop); cbn [negb];
    [|eexists; split; [done|]; left; split; [done|]; intros; lia].
  destruct (lookup_lt_is_Some_2 (usebits s) (Z.to_nat (i / 8))) as [b Hb]; [lia|].
  unfold get_bits, set_bits, set_info, modify, mbind, ST_bind. rewrite Hb.
  assert (Hnext : (∀ k, i ≤ k < i + 8 → k < stop → used (usebits s) k = true) →
    ∃ r, alloc_free_loop n (i + 8) stop s = Ok r ∧ search_spec i stop s r).
  { intros Hu. destruct (IH (i + 8)) as (r & -> & Hr); [lia..|done|].
    exists r. split; [done|]. by apply (search_widen (i + 8)); [lia|exact Hu|]. }
  destruct (Z.eqb_spec b 255) as [->|Hne].
  { apply Hnext. intros k Hk _. rewrite (full_byte_used _ i k 255) by done.
    exact (Z.ones_spec_low 8 (k - i) ltac:(lia)). }
  pose proof (find_clear_spec 8 b i 0 stop) as Hf.
  destruct (find_clear 8 b i 0 stop) as [j|].
  - destruct Hf as (Hj & Ht & Hs). rewrite Hb. eexists. split; [done|]. right. simpl.
    split; [lia|]. split; [by rewrite (full_byte_used _ i _ b), Z.add_simpl_l by (done || lia)|].
    unfold set_used. replace ((i + j) / 8) with (i / 8) by lia.
    replace ((i + j) mod 8) with j by lia. by rewrite Hb.
  - apply Hnext. intros k Hk Hks. rewrite (full_byte_used _ i k b) by done.
    destruct (Hf (k - i)); [lia|done|lia].
Qed.

Lemma alloc_free_range_spec lo hi s :
  0 ≤ lo → lo mod 8 = 0 → hi ≤ 8 * Z.of_nat (length (usebits s)) →
  Forall (fun b => 0 ≤ b < 256) (usebits s) →
  ∃ r, alloc_free_range lo hi s = Ok r ∧ search_spec lo hi s r.
Proof.
  intros. unfold alloc_free_range. apply alloc_free_loop_spec; try done; lia.
Qed.

(** ** alloc_free, alloc and free *)
Section Ops.
Context (s : cstate) (I : chunk_inv (info s) (usebits s)).
Let c := info s.

(** The state after element [k] was taken, and [rand] was advanced. *)
Definition taken (k : Z) : cstate :=
  CState (u32 (rand s + 1)) (set_nfree (nfree c - 1) c) (set_used (usebits s) k true).

Lemma alloc_free_spec :
  (nfree c = 0 ∧ alloc_free s = Ok (-1, s)) ∨
  (0 < nfree c ∧ ∃ k, 0 ≤ k < max_elements c ∧ used (usebits s) k = false ∧
     alloc_free s = Ok (k, taken k)).
Proof.
  destruct I as [G Hlen HF Hn]. pose proof (max_elements_bounds _ G) as (Hm & _ & Hcap & H8).
  pose proof (geo_bytes _ G) as Hby. fold c in G, Hn, Hlen, Hm, Hcap, H8, Hby.
  pose proof (count_free_range (usebits s) (Z.to_nat (max_elements c))).
  unfold alloc_free, gets, next_rand, mbind, ST_bind. fold c.
  destruct (Z.eqb_spec (nfree c) 0) as [|Hne]; [left; done|right]. split; [lia|].
  change (info s) with c. set (s1 := CState (u32 (rand s + 1)) c (usebits s)).
  cbv zeta beta iota.
  set (start := Z.land _ _).
  assert (0 ≤ start ≤ max_elements c ∧ start mod 8 = 0) as [Hst Hst8].
  { unfold start. change 7 with (2 ^ 3 - 1). rewrite land_lnot_pow2 by lia.
    change (2 ^ 3) with 8. pose proof (Z.mod_pos_bound (rand s) 8 ltac:(lia)) as Hr.
    assert (0 ≤ rand s mod 8 * max_elements c ≤ 7 * max_elements c) as Hp
      by (revert Hr; generalize (rand s mod 8); intros; nia).
    revert Hp. generalize (rand s mod 8 * max_elements c). intros p Hp.
    rewrite u32_small by lia. lia. }
  destruct (alloc_free_range_spec start (max_elements c) s1) as ([f s2] & -> & Hs1);
    [lia|done|change (usebits s1) with (usebits s); lia|done|].
  assert (Hfinal : ∀ k, 0 ≤ k < max_elements c → used (usebits s) k = false →
    CState (u32 (rand s + 1)) (set_nfree (u32 (nfree c - 1)) c) (set_used (usebits s) k true)
    = taken k).
  { intros k Hk Hu. unfold taken. by rewrite (u32_small (nfree c - 1)) by lia. }
  destruct Hs1 as [[[= -> ->] Hnone]|(Hf & Hu & Heq)]; simpl in *.
  - destruct (Z.eqb_spec start 0) as [E0|E0]; simpl.
    { destruct (count_free_exists (usebits s) (Z.to_nat (max_elements c))) as (k & Hk & Hu); [lia|].
      rewrite Hnone in Hu by lia. done. }
    destruct (alloc_free_range_spec 0 start s1) as ([f s2] & -> & Hs2);
      [lia|done|change (usebits s1) with (usebits s); lia|done|].
    destruct Hs2 as [[[= -> ->] Hnone']|(Hf & Hu & Heq)]; simpl in *.
    + destruct (count_free_exists (usebits s) (Z.to_nat (max_elements c))) as (k & Hk & Hu); [lia|].
      destruct (decide (k < start)); [rewrite Hnone' in Hu by lia|rewrite Hnone in Hu by lia]; done.
    + exists f. split; [lia|]. split; [done|]. subst s2. by rewrite Hfinal by (done || lia).
  - destruct (Z.eqb_spec f (-1)); [lia|]. simpl. exists f. split; [lia|]. split; [done|].
    subst s2. by rewrite Hfinal by (done || lia).
Qed.

Lemma taken_inv k :
  0 ≤ k < max_elements c → used (usebits s) k = false → 0 < nfree c →
  chunk_inv (info (taken k)) (usebits (taken k)).
Proof.
  intros Hk Hu Hpos. destruct I as [G Hlen HF Hn].
  pose proof (max_elements_bounds _ G) as (Hm & _ & Hcap & _).
  fold c in G, Hlen, Hn, Hm, Hcap.
  split; cbn [taken info usebits].
  - by destruct G.
  - by rewrite length_set_used.
  - apply set_used_bytes; [lia|done].
  - change (max_elements (set_nfree (nfree c - 1) c)) with (max_elements c).
    rewrite count_free_set by (done || lia). cbn [nfree set_nfree]. lia.
Qed.

Lemma elem_addr_bounds k :
  0 ≤ k < max_elements c →
  begin c + first_element c ≤ elem_addr c k ∧ elem_addr c k + elm_size c ≤ begin c + bytes c ∧
  0 ≤ k * elm_size c < 2 ^ 31.
Proof.
  intros Hk. destruct I as [G _ _ _]. pose proof (max_elements_bounds _ G) as (_ & Hm & _ & _).
  pose proof (first_element_pos _ G) as Hf. destruct G as [He Hb _].
  fold c in Hm, Hf, He, Hb. unfold elem_addr. nia.
Qed.

Lemma elem_addr_is_part k : 0 ≤ k < max_elements c → is_part c (elem_addr c k) = true.
Proof.
  intros Hk. pose proof (elem_addr_bounds k Hk). destruct I as [[He _ _] _ _ _]. fold c in He.
  unfold is_part. apply andb_true_intro. split; [apply Z.leb_le|apply Z.ltb_lt]; lia.
Qed.

Lemma alloc_spec :
  (nfree c = 0 ∧ alloc s = Ok (0, s)) ∨
  (0 < nfree c ∧ ∃ k, 0 ≤ k < max_elements c ∧ used (usebits s) k = false ∧
     alloc s = Ok (elem_addr c k, taken k)).
Proof.
  destruct alloc_free_spec as [[Hz E]|(Hpos & k & Hk & Hu & E)]; [left|right];
    (split; [done|]); [|exists k; split; [done|]; split; [done|]];
    unfold alloc; rewrite (ST_bind_step _ _ _ _ _ E); [done|].
  destruct (Z.ltb_spec k 0); [lia|]. unfold gets, mbind, ST_bind, mret, ST_ret.
  pose proof (elem_addr_bounds k Hk). do 2 f_equal. unfold elem_addr.
  change (info (taken k)) with (set_nfree (nfree c - 1) c). simpl begin. simpl elm_size.
  change (first_element (set_nfree (nfree c - 1) c)) with (first_element c).
  by rewrite u32_small by lia.
Qed.

Definition released (k : Z) : cstate :=
  CState (rand s) (set_nfree (nfree c + 1) c) (set_used (usebits s) k false).

Lemma free_spec k :
  0 ≤ k < max_elements c → free (elem_addr c k) s = Ok (tt, released k).
Proof.
  intros Hk. pose proof (elem_addr_bounds k Hk) as (_ & _ & Hr).
  destruct I as [G Hlen HF Hn]. pose proof (max_elements_bounds _ G) as (Hm & _ & Hcap & H8).
  pose proof (count_free_range (usebits s) (Z.to_nat (max_elements c))) as Hcr.
  destruct G as [He Hby _]. fold c in Hm, Hcap, H8, He, Hby, Hlen, Hn.
  unfold free, gets, sassert, mbind, ST_bind. change (info s) with c.
  rewrite elem_addr_is_part by done. cbn [cassert lift].
  replace ((elem_addr c k - begin c - first_element c) / elm_size c) with k.
  2: { unfold elem_addr. rewrite <-(Z.div_mul k (elm_size c)) at 1 by lia. f_equal. lia. }
  destruct (lookup_lt_is_Some_2 (usebits s) (Z.to_nat (k / 8))) as [b Hb]; [lia|].
  unfold get_bits, set_bits, set_info, modify. rewrite !Hb. simpl usebits. simpl rand. simpl info.
  unfold released, set_used. rewrite Hb. change (info s) with c.
  rewrite (u32_small (nfree c + 1)) by lia. done.
Qed.

Lemma released_inv k :
  0 ≤ k < max_elements c → used (usebits s) k = true →
  chunk_inv (info (released k)) (usebits (released k)).
Proof.
  intros Hk Hu. destruct I as [G Hlen HF Hn].
  pose proof (max_elements_bounds _ G) as (Hm & _ & Hcap & _).
  fold c in G, Hlen, Hn, Hm, Hcap.
  split; cbn [released info usebits].
  - by destruct G.
  - by rewrite length_set_used.
  - apply set_used_bytes; [lia|done].
  - change (max_elements (set_nfree (nfree c + 1) c)) with (max_elements c).
    rewrite count_free_set by (done || lia). cbn [nfree set_nfree]. lia.
Qed.

Lemma used_taken k k' :
  0 ≤ k < max_elements c → 0 ≤ k' →
  used (usebits (taken k)) k' = if decide (k = k') then true else used (usebits s) k'.
Proof.
  intros Hk Hk'. destruct I as [G Hlen _ _]. pose proof (max_elements_bounds _ G) as (Hm & _ & Hcap & _).
  fold c in Hlen, Hcap. apply used_set; lia.
Qed.
Lemma used_released k k' :
  0 ≤ k < max_elements c → 0 ≤ k' →
  used (usebits (released k)) k' = if decide (k = k') then false else used (usebits s) k'.
Proof.
  intros Hk Hk'. destruct I as [G Hlen _ _]. pose proof (max_elements_bounds _ G) as (Hm & _ & Hcap & _).
  fold c in Hlen, Hcap. apply used_set; lia.
Qed.
End Ops.

Lemma new_chunkinfo_inv elm beg byts :
  8 ≤ elm → 0 ≤ byts < 2 ^ 31 → first_element (ChunkInfo beg 0 elm byts 0) ≤ byts →
  chunk_inv (new_chunkinfo elm beg byts).1 (new_chunkinfo elm beg byts).2.
Proof.
  intros He Hb Hf. set (c := ChunkInfo beg 0 elm byts 0).
  assert (geometry c) as G by done.
  pose proof (max_elements_bounds _ G) as (Hm & _ & Hcap & _). pose proof (first_element_pos _ G).
  split; cbn [new_chunkinfo fst snd]; fold c.
  - done.
  - change (first_element (set_nfree (max_elements c) c)) with (first_element c).
    rewrite length_replicate. lia.
  - by apply Forall_replicate.
  - change (max_elements (set_nfree (max_elements c) c)) with (max_elements c).
    rewrite count_free_zeroes by lia. simpl nfree. lia.
Qed.

Lemma elem_addr_inj c k k' : geometry c → elem_addr c k = elem_addr c k' → k = k'.
Proof. intros [He _ _] H. unfold elem_addr in H. nia. Qed.

(** ** Properties *)

(** The abstract state of a chunk: the addresses of its used elements. *)
Definition live (s : cstate) (p : Z) : Prop :=
  ∃ k, 0 ≤ k < max_elements (info s) ∧ used (usebits s) k = true ∧ p = elem_addr (info s) k.

(** What [chunkinfo_t::alloc] promises: null exactly when every element is in
    use, and otherwise a fresh element inside the chunk that overlaps no live
    one, with the live set extended by it and nothing else. *)
Definition alloc_promise (s : cstate) (p : Z) (s' : cstate) : Prop :=
  chunk_inv (info s') (usebits s') ∧ same_shape (info s) (info s') ∧
  ((p = 0 ∧ s' = s ∧ nfree (info s) = 0 ∧
    ∀ k, 0 ≤ k < max_elements (info s) → used (usebits s) k = true) ∨
   (¬ live s p ∧
    begin (info s) + first_element (info s) ≤ p ∧
    p + elm_size (info s) ≤ begin (info s) + bytes (info s) ∧
    (∀ q, live s q → p + elm_size (info s) ≤ q ∨ q + elm_size (info s) ≤ p) ∧
    (∀ q, live s' q ↔ q = p ∨ live s q) ∧
    nfree (info s') = nfree (info s) - 1)).

Lemma count_free_zero bits n :
  count_free bits n = 0 → ∀ k, 0 ≤ k < Z.of_nat n → used bits k = true.
Proof.
  induction n as [|n IH]; cbn [count_free]; intros H k Hk; [lia|].
  pose proof (count_free_range bits n). destruct (used bits (Z.of_nat n)) eqn:E; [|lia].
  destruct (decide (k = Z.of_nat n)) as [->|]; [done|]. apply IH; lia.
Qed.

Lemma elem_addr_apart c k k' :
  geometry c → k ≠ k' →
  elem_addr c k + elm_size c ≤ elem_addr c k' ∨ elem_addr c k' + elm_size c ≤ elem_addr c k.
Proof. intros [He _ _] Hne. unfold elem_addr. nia. Qed.

(** C20: [chunkinfo_t::alloc] implements its promise on every well-formed
    chunk, whatever the position the shared [rand] makes it start at: it
    terminates, it finds a free element whenever [nfree] is not 0 (so the two
    ranges it searches together cover all elements), and it preserves the
    chunk's invariant. *)
Theorem chunk_alloc_refines (s : cstate) :
  chunk_inv (info s) (usebits s) →
  ∃ p s', alloc s = Ok (p, s') ∧ alloc_promise s p s' ∧
    (p = 0 ∧ nfree (info s) = 0 ∨ 0 < nfree (info s)).
Proof.
  intros I. pose proof (inv_geo _ _ I) as G.
  destruct (alloc_spec s I) as [[Hz E]|(Hpos & k & Hk & Hu & E)]; rewrite E.
  - exists 0, s. split; [done|]. split; [|by left]. split; [done|]. split; [done|]. left.
    split_and!; [done..|]. destruct I as [_ _ _ Hn]. rewrite Hz in Hn.
    intros k Hk. apply (count_free_zero _ (Z.to_nat (max_elements (info s)))); [done|lia].
  - exists (elem_addr (info s) k), (taken s k). split; [done|]. split; [|by right].
    split; [by apply taken_inv|]. split; [done|]. right.
    pose proof (elem_addr_bounds s I k Hk) as (Hlo & Hhi & _).
    assert (Hfresh : ¬ live s (elem_addr (info s) k)).
    { intros (k' & Hk' & Hu' & Ha). apply elem_addr_inj in Ha as <-; [|done]. congruence. }
    split_and!; try done.
    + intros q (k' & Hk' & Hu' & ->). apply elem_addr_apart; [done|]. intros <-. congruence.
    + intros q. unfold live.
      change (info (taken s k)) with (set_nfree (nfree (info s) - 1) (info s)).
      change (max_elements (set_nfree _ _)) with (max_elements (info s)). split.
      * intros (k' & Hk' & Hu' & ->). rewrite used_taken in Hu' by (done || lia).
        case_decide; [subst; by left|right; eauto].
      * intros [->|(k' & Hk' & Hu' & ->)].
        -- exists k. rewrite used_taken, decide_True by (done || lia). done.
        -- exists k'. rewrite used_taken by (done || lia). case_decide; done.
Qed.

(** A well-formed chunk for the witnesses: 1024 bytes of 32-byte elements. *)
Definition sample_cstate : cstate :=
  let c := new_chunkinfo 32 4096 1024 in CState 5 c.1 c.2.
Lemma sample_cstate_inv : chunk_inv (info sample_cstate) (usebits sample_cstate).
Proof. apply (new_chunkinfo_inv 32 4096 1024); vm_compute; intuition congruence. Qed.

Lemma chunk_alloc_refines_witness :
  ∃ p s', alloc sample_cstate = Ok (p, s') ∧ alloc_promise sample_cstate p s' ∧
    (p = 0 ∧ nfree (info sample_cstate) = 0 ∨ 0 < nfree (info sample_cstate)).
Proof. exact (chunk_alloc_refines sample_cstate sample_cstate_inv). Defined.

(** [chunkinfo_t::free] of a live element succeeds, removes exactly that
    element from the live set, gives its slot back ([nfree] + 1) and preserves
    the invariant. *)
Theorem chunk_free_refines (s : cstate) (p : Z) :
  chunk_inv (info s) (usebits s) → live s p →
  ∃ s', free p s = Ok (tt, s') ∧ chunk_inv (info s') (usebits s') ∧
    same_shape (info s) (info s') ∧ nfree (info s') = nfree (info s) + 1 ∧
    (∀ q, live s' q ↔ q ≠ p ∧ live s q).
Proof.
  intros I (k & Hk & Hu & ->). pose proof (inv_geo _ _ I) as G.
  exists (released s k). split; [by apply free_spec|]. split; [by apply released_inv|].
  split; [done|]. split; [done|]. intros q. unfold live.
  change (info (released s k)) with (set_nfree (nfree (info s) + 1) (info s)).
  change (max_elements (set_nfree _ _)) with (max_elements (info s)). split.
  - intros (k' & Hk' & Hu' & ->). rewrite used_released in Hu' by (done || lia).
    case_decide; [done|]. split; [|eauto]. intros E. apply (elem_addr_inj (info s)) in E; [congruence|done].
  - intros [Hne (k' & Hk' & Hu' & ->)]. exists k'. split; [done|].
    rewrite used_released by (done || lia). case_decide; [by subst|done].
Qed.

Lemma chunk_free_refines_witness : ∃ s',
  free (4096 + 8) (taken sample_cstate 0) = Ok (tt, s') ∧ chunk_inv (info s') (usebits s') ∧
  same_shape (info (taken sample_cstate 0)) (info s') ∧
  nfree (info s') = nfree (info (taken sample_cstate 0)) + 1 ∧
  (∀ q, live s' q ↔ q ≠ 4096 + 8 ∧ live (taken sample_cstate 0) q).
Proof.
  apply (chunk_free_refines (taken sample_cstate 0) (4096 + 8)).
  - apply taken_inv; [exact sample_cstate_inv|vm_compute; intuition congruence|reflexivity|reflexivity].
  - exists 0. vm_compute. intuition congruence.
Defined.
