(* ===== verification/MemBlock.v ===== *)
(** * mem_block_t: the allocator of sandbox/tinymalloc.cpp

    The block keeps its chunks in singly linked lists of [chunkinfo_t]
    objects: a list per size class ([buckets]) and two lists of large chunks,
    sorted by size.  The model has the shared store: [store] maps the address
    of a [chunkinfo_t] to its fields and [bits] maps the [begin] of a chunk to
    its bitmap, so that a chunk reached through two pointers is one object. *)

From S2P Require Import Prelude Chunk.

Definition LARGE_CHUNK : Z := 0xff.
Definition SMALL_ALLOC_LOWER_POW : Z := 2.
Definition SMALL_ALLOC_UPPER_POW : Z := 8.
Definition SMALL_ALLOC_TYPES : Z := SMALL_ALLOC_UPPER_POW - SMALL_ALLOC_LOWER_POW + 1.

(** [sizeof(chunkinfo_t)] on x86_64: two pointers and three [uint32_t], padded. *)
Definition sizeof_chunkinfo : Z := 32.

Record mem_block := MemBlock {
  start : Z;
  next_free : Z;
  size : Z;
  in_alloc_chunk : bool;
  buckets : list Z;
  nfrees : list Z;
  large : Z;
  large_free : Z;
  store : gmap Z chunkinfo;
  bits : gmap Z (list Z);
  brand : Z;
}.

(** *** Field updates *)
Definition set_next_free v b := MemBlock (start b) v (size b) (in_alloc_chunk b)
  (buckets b) (nfrees b) (large b) (large_free b) (store b) (bits b) (brand b).
Definition set_in_alloc v b := MemBlock (start b) (next_free b) (size b) v
  (buckets b) (nfrees b) (large b) (large_free b) (store b) (bits b) (brand b).
Definition set_buckets v b := MemBlock (start b) (next_free b) (size b) (in_alloc_chunk b)
  v (nfrees b) (large b) (large_free b) (store b) (bits b) (brand b).
Definition set_nfrees v b := MemBlock (start b) (next_free b) (size b) (in_alloc_chunk b)
  (buckets b) v (large b) (large_free b) (store b) (bits b) (brand b).
Definition set_large v b := MemBlock (start b) (next_free b) (size b) (in_alloc_chunk b)
  (buckets b) (nfrees b) v (large_free b) (store b) (bits b) (brand b).
Definition set_large_free v b := MemBlock (start b) (next_free b) (size b) (in_alloc_chunk b)
  (buckets b) (nfrees b) (large b) v (store b) (bits b) (brand b).
Definition set_store v b := MemBlock (start b) (next_free b) (size b) (in_alloc_chunk b)
  (buckets b) (nfrees b) (large b) (large_free b) v (bits b) (brand b).
Definition set_mem v w r b := MemBlock (start b) (next_free b) (size b) (in_alloc_chunk b)
  (buckets b) (nfrees b) (large b) (large_free b) v w r.

(** The constructor. *)
Definition new_mem_block (mem sz rnd : Z) : mem_block :=
  MemBlock mem mem sz false
    (replicate (Z.to_nat (SMALL_ALLOC_TYPES + 1)) 0)
    (replicate (Z.to_nat (SMALL_ALLOC_TYPES + 1)) 0) 0 0 ∅ ∅ rnd.

Definition M : Type → Type := ST mem_block.

(** *** Memory accesses *)
Definition chunk_at (p : Z) : M chunkinfo := fun b =>
  match store b !! p with
  | Some c => Ok (c, b)
  | None => Fault (Undefined "invalid chunk pointer")
  end.
Definition upd_chunk (p : Z) (f : chunkinfo → chunkinfo) : M unit := fun b =>
  match store b !! p with
  | Some c => Ok (tt, set_store (<[p := f c]> (store b)) b)
  | None => Fault (Undefined "invalid chunk pointer")
  end.

(** [chunk->member()] for the members that touch the bitmap. *)
Definition chunk_call {A} (p : Z) (m : ST cstate A) : M A := fun b =>
  match store b !! p with
  | Some c =>
      match bits b !! begin c with
      | Some u =>
          match m (CState (brand b) c u) with
          | Ok (a, s) =>
              Ok (a, set_mem (<[p := info s]> (store b)) (<[begin c := usebits s]> (bits b)) (rand s) b)
          | Fault e => Fault e
          end
      | None => Fault (Undefined "no bitmap")
      end
  | None => Fault (Undefined "invalid chunk pointer")
  end.

Definition get_bucket (t : Z) : M Z := fun b =>
  match buckets b !! Z.to_nat t with
  | Some v => Ok (v, b) | None => Fault (Undefined "buckets out of range") end.
Definition set_bucket (t v : Z) : M unit := fun b =>
  match buckets b !! Z.to_nat t with
  | Some _ => Ok (tt, set_buckets (<[Z.to_nat t := v]> (buckets b)) b)
  | None => Fault (Undefined "buckets out of range") end.
Definition get_nfrees (t : Z) : M Z := fun b =>
  match nfrees b !! Z.to_nat t with
  | Some v => Ok (v, b) | None => Fault (Undefined "nfrees out of range") end.
Definition add_nfrees (t d : Z) : M unit := fun b =>
  match nfrees b !! Z.to_nat t with
  | Some v => Ok (tt, set_nfrees (<[Z.to_nat t := u32 (v + d)]> (nfrees b)) b)
  | None => Fault (Undefined "nfrees out of range") end.

Definition set_nfrees_at (t v : Z) : M unit := fun b =>
  match nfrees b !! Z.to_nat t with
  | Some _ => Ok (tt, set_nfrees (<[Z.to_nat t := v]> (nfrees b)) b)
  | None => Fault (Undefined "nfrees out of range") end.

(** [new(ptr) chunkinfo_t(element_size, begin, bytes)]: the constructor clears
    the bitmap, which has to be inside the block's memory; [first_element()]
    divides by the element size. *)
Definition construct_chunk (ptr elm beg byts : Z) : M unit := fun b =>
  if elm =? 0 then Fault (Undefined "division by zero") else
  let (c, u) := new_chunkinfo elm beg byts in
  if bool_decide (start b ≤ beg ∧ beg + Z.of_nat (length u) ≤ start b + size b)
  then Ok (tt, set_mem (<[ptr := c]> (store b)) (<[beg := u]> (bits b)) (brand b) b)
  else Fault (Undefined "write outside the block").

(** A pointer walk visits a chunk at most once. *)
Definition walk_fuel (b : mem_block) : nat := S (base.size (store b)).

(** ** Size classes *)
Fixpoint get_type_loop (n : nat) (size i : Z) : Z :=
  match n with
  | O => i
  | S n => if Z.shiftl 1 i <? size then get_type_loop n size (i + 1) else i
  end.

Definition get_type (size : Z) : Z :=
  if size <=? Z.shiftl 1 SMALL_ALLOC_LOWER_POW then SMALL_ALLOC_LOWER_POW else
  if size <=? Z.shiftl 1 SMALL_ALLOC_UPPER_POW then
    let i := get_type_loop 8 size (SMALL_ALLOC_LOWER_POW + 1) in
    i - SMALL_ALLOC_LOWER_POW
  else LARGE_CHUNK.

Definition get_type_pow (pow : Z) : Z := u32 (pow - SMALL_ALLOC_LOWER_POW).
Definition get_size (type : Z) : Z := Z.shiftl 1 (type + SMALL_ALLOC_LOWER_POW).
Definition get_nfree_type (type : Z) : M Z := get_nfrees type.

(** ** The lists *)
Definition put_front (chunk prev : Z) : M unit :=
  c ← chunk_at chunk;
  let type := get_type (elm_size c) in
  head ← get_bucket type;
  if chunk =? head then mret tt else
  (if negb (prev =? 0) then upd_chunk prev (set_next (next c)) else mret tt) ;;
  upd_chunk chunk (set_next head) ;;
  set_bucket type chunk.

(** The [while] of [put_large] and [put_large_free]: the place of [chunk]
    after [last]. *)
Fixpoint put_sorted_loop (n : nat) (ptr last chunk : Z) : M unit :=
  match n with
  | O => fun _ => Fault (Undefined "cyclic chunk list")
  | S n =>
      if ptr =? 0 then upd_chunk last (set_next chunk) else
      p ← chunk_at ptr;
      c ← chunk_at chunk;
      if elm_size p <? elm_size c then put_sorted_loop n (next p) ptr chunk
      else
        upd_chunk chunk (set_next ptr) ;;
        upd_chunk last (set_next chunk)
  end.

Definition put_large (chunk : Z) : M unit :=
  ptr ← gets large;
  c ← chunk_at chunk;
  b ← (if ptr =? 0 then mret true else p ← chunk_at ptr; mret (elm_size c <=? elm_size p));
  if (b : bool) then
    upd_chunk chunk (set_next ptr) ;; modify (set_large chunk)
  else st ← get; put_sorted_loop (walk_fuel st) ptr 0 chunk.

Definition put_large_free (chunk : Z) : M unit :=
  ptr ← gets large_free;
  c ← chunk_at chunk;
  b ← (if ptr =? 0 then mret true else p ← chunk_at ptr; mret (elm_size c <=? elm_size p));
  if (b : bool) then
    upd_chunk chunk (set_next ptr) ;; modify (set_large_free chunk)
  else st ← get; put_sorted_loop (walk_fuel st) ptr 0 chunk.

(** ** Allocation

    [_alloc_small], [alloc_chunk] and [_alloc_chunk] call each other; the
    assertion on [in_alloc_chunk] bounds the depth: [_alloc_small] for a client,
    [_alloc_small] for the header of a new chunk, and there the assertion stops
    another chunk.  [MemSpec.alloc_small_ready] is the proof for small requests. *)

(** [while (chunk && !chunk->has_free())]. *)
Fixpoint find_has_free (n : nat) (chunk prev : Z) : M (Z * Z) :=
  match n with
  | O => fun _ => Fault (Undefined "cyclic chunk list")
  | S n =>
      if chunk =? 0 then mret (chunk, prev) else
      c ← chunk_at chunk;
      if has_free c then mret (chunk, prev) else find_has_free n (next c) chunk
  end.

Section AllocChunk.
(** The recursive call [_alloc_small(type)]. *)
Context (alloc_small_rec : Z → M Z).

Definition _alloc_chunk (type byts : Z) : M Z :=
  ptr ← alloc_small_rec (get_type sizeof_chunkinfo);
  if ptr =? 0 then mret 0 else
  let elm := if type =? LARGE_CHUNK then byts else get_size type in
  beg ← gets next_free;
  construct_chunk ptr elm beg byts ;;
  c ← chunk_at ptr;
  modify (fun b => set_next_free (next_free b + bytes c) b) ;;
  (if type =? LARGE_CHUNK then put_large ptr
   else
     put_front ptr 0 ;;
     c ← chunk_at ptr;
     add_nfrees type (nfree c)) ;;
  mret ptr.

Definition alloc_chunk (type byts : Z) : M Z :=
  inn ← gets in_alloc_chunk;
  sassert (negb inn) "!in_alloc_chunk" ;;
  modify (set_in_alloc true) ;;
  chunk ← _alloc_chunk type byts;
  modify (set_in_alloc false) ;;
  mret chunk.
End AllocChunk.

Fixpoint _alloc_small (depth : nat) (type : Z) : M Z :=
  match depth with
  | O => fun _ => Fault (Undefined "recursion too deep")
  | S depth =>
      nf ← get_nfrees type;
      cp ← (if negb (nf =? 0) then
              head ← get_bucket type;
              st ← get;
              find_has_free (walk_fuel st) head 0
            else
              chunk ← alloc_chunk (_alloc_small depth) type 1024;
              mret (chunk, 0));
      let chunk := cp.1 in
      let prev := cp.2 in
      if chunk =? 0 then mret 0 else
      ptr ← chunk_call chunk alloc;
      c ← chunk_at chunk;
      (if has_free c then put_front chunk prev else mret tt) ;;
      add_nfrees type (-1) ;;
      mret ptr
  end.

(** Depth 3 is one more than any call needs. *)
Definition DEPTH : nat := 3.

Definition make_sure : M unit :=
  let type := get_type sizeof_chunkinfo in
  nfree ← get_nfree_type type;
  if nfree =? 1 then alloc_chunk (_alloc_small DEPTH) type 1024 ;; mret tt else mret tt.

Definition alloc_small (type : Z) : M Z :=
  make_sure ;;
  _alloc_small DEPTH type.

(** The search of [large_free] after its first element. *)
Fixpoint take_large_free (n : nat) (ptr last byts : Z) : M (option Z) :=
  match n with
  | O => fun _ => Fault (Undefined "cyclic chunk list")
  | S n =>
      if ptr =? 0 then mret None else
      p ← chunk_at ptr;
      if elm_size p <? byts then take_large_free n (next p) ptr byts
      else
        upd_chunk last (set_next (next p)) ;;
        put_large ptr ;;
        p ← chunk_at ptr;
        mret (Some (begin p))
  end.

Definition alloc_large (byts : Z) : M Z :=
  ptr ← gets large_free;
  found ←
    (if ptr =? 0 then mret None else
     p ← chunk_at ptr;
     if byts <=? elm_size p then
       modify (set_large_free (next p)) ;;
       put_large ptr ;;
       p ← chunk_at ptr;
       mret (Some (begin p))
     else st ← get; take_large_free (walk_fuel st) ptr 0 byts);
  match found with Some p => mret p | None =>
  make_sure ;;
  let byts := Z.land (u32 (byts + 0xff)) (Z.lnot 0xff) in
  chunk ← alloc_chunk (_alloc_small DEPTH) LARGE_CHUNK byts;
  c ← chunk_at chunk;
  mret (begin c)
  end.

Definition alloc (sz : Z) : M Z :=
  let type := get_type sz in
  if type =? LARGE_CHUNK then alloc_large sz else alloc_small type.

(** ** Release *)
Fixpoint find_chunk_type_loop (n : nat) (chunk prev ptr : Z) : M (Z * Z) :=
  match n with
  | O => fun _ => Fault (Undefined "cyclic chunk list")
  | S n =>
      if chunk =? 0 then mret (0, prev) else
      c ← chunk_at chunk;
      if is_part c ptr then mret (chunk, prev)
      else find_chunk_type_loop n (next c) chunk ptr
  end.

(** The result is the chunk and [*ptrprev]. *)
Definition find_chunk_type (type ptr : Z) : M (Z * Z) :=
  head ← get_bucket type;
  st ← get;
  find_chunk_type_loop (walk_fuel st) head 0 ptr.

(** [for (int i = SMALL_ALLOC_LOWER_POW; i < SMALL_ALLOC_UPPER_POW; i++)]. *)
Fixpoint find_chunk_small (n : nat) (i ptr : Z) : M (Z * Z) :=
  match n with
  | O => mret (0, 0)
  | S n =>
      if negb (i <? SMALL_ALLOC_UPPER_POW) then mret (0, 0) else
      r ← find_chunk_type (get_type_pow i) ptr;
      if negb (r.1 =? 0) then mret r else find_chunk_small n (i + 1) ptr
  end.

Fixpoint find_large_loop (n : nat) (chunk last ptr : Z) : M Z :=
  match n with
  | O => fun _ => Fault (Undefined "cyclic chunk list")
  | S n =>
      if chunk =? 0 then mret 0 else
      c ← chunk_at chunk;
      if negb (begin c =? ptr) then find_large_loop n (next c) chunk ptr
      else
        upd_chunk last (set_next (next c)) ;;
        mret chunk
  end.

Definition find_chunk (ptr : Z) : M (Z * Z) :=
  r ← find_chunk_small 8 SMALL_ALLOC_LOWER_POW ptr;
  if negb (r.1 =? 0) then mret r else
  lg ← gets large;
  if lg =? 0 then mret (0, 0) else
  c ← chunk_at lg;
  if begin c =? ptr then modify (set_large (next c)) ;; mret (lg, 0)
  else
    st ← get;
    chunk ← find_large_loop (walk_fuel st) lg 0 ptr;
    mret (chunk, 0).

Definition free (ptr : Z) : M unit :=
  cp ← find_chunk ptr;
  let chunk := cp.1 in
  let prev := cp.2 in
  sassert (negb (chunk =? 0)) "chunk" ;;
  c ← chunk_at chunk;
  if negb (elm_size c =? bytes c) then
    chunk_call chunk (Chunk.free ptr) ;;
    put_front chunk prev ;;
    c ← chunk_at chunk;
    let type := get_type (elm_size c) in
    add_nfrees type 1
  else put_large_free chunk.

(** ** Start *)
Definition init : M unit :=
  let type := get_type sizeof_chunkinfo in
  st ← get;
  (* the temporary chunk, on the stack, with its bitmap in the block *)
  let boot := new_chunkinfo (get_size type) (start st) 256 in
  r ← lift (Chunk.alloc (CState (brand st) boot.1 boot.2));
  let ptr := r.1 in
  modify (fun b => set_mem (store b) (<[start b := usebits r.2]> (bits b)) (rand r.2) b) ;;
  (* the real first chunk, in the element just allocated *)
  construct_chunk ptr (get_size type) (start st) 256 ;;
  chunk_call ptr Chunk.alloc ;;
  c ← chunk_at ptr;
  modify (fun b => set_next_free (next_free b + bytes c) b) ;;
  put_front ptr 0 ;;
  c ← chunk_at ptr;
  set_nfrees_at type (nfree c).

(** [tinymalloc_init], [malloc] and [free] of the library; [mem] is the result
    of [mmap], and [malloc] converts its [size_t] argument to [uint32_t].  The
    static [global_mem_block] is null until [tinymalloc_init] has set it. *)
Definition tinymalloc_init (global_mem_block : option mem_block) (mem : Z) : outcome mem_block :=
  cassert (if global_mem_block is Some _ then false else true) "global_mem_block == nullptr" ;;
  snd <$> init (new_mem_block mem (1024 * 1024) 0).
Definition malloc (sz : Z) : M Z := alloc (u32 sz).

(** So 4 GiB more make no difference. *)
Lemma malloc_wraps sz b : malloc (2 ^ 32 + sz) b = malloc sz b.
Proof. unfold malloc. f_equal. unfold u32. rewrite <-(Z.mul_1_l (2 ^ 32)) at 1. by rewrite Z.add_comm, Z.mod_add. Qed.

(** ** Linked lists in the store *)
Fixpoint chain (st : gmap Z chunkinfo) (h : Z) (l : list Z) : Prop :=
  match l with
  | [] => h = 0
  | p :: l => h = p ∧ p ≠ 0 ∧ ∃ c, st !! p = Some c ∧ chain st (next c) l
  end.

Lemma chain_det st h l l' : chain st h l → chain st h l' → l = l'.
Proof.
  revert h l'. induction l as [|p l IH]; intros h [|q l']; cbn [chain]; [done|naive_solver..|].
  intros (-> & _ & c & Hc & H) (<- & _ & c' & Hc' & H'). simplify_eq. f_equal. eauto.
Qed.

Lemma chain_suffix st h l1 p l2 : chain st h (l1 ++ p :: l2) → chain st p (p :: l2).
Proof.
  revert h. induction l1 as [|q l1 IH]; cbn [app chain]; intros h.
  - intros [-> H]. by split.
  - intros (_ & _ & c & _ & H). by eapply IH.
Qed.

Lemma chain_NoDup st h l : chain st h l → NoDup l.
Proof.
  revert h. induction l as [|p l IH]; intros h H; [constructor|]. constructor.
  - intros (l1 & l2 & ->)%list_elem_of_split.
    pose proof (chain_suffix st h [] p _ H) as H1.
    pose proof (chain_suffix st h (p :: l1) p l2 H) as H2.
    pose proof (chain_det _ _ _ _ H1 H2) as E. apply (f_equal length) in E.
    revert E. cbn [length]. rewrite length_app. cbn [length]. lia.
  - destruct H as (_ & _ & c & _ & H). eauto.
Qed.

Lemma chain_lookup st h l p : chain st h l → p ∈ l → p ≠ 0 ∧ is_Some (st !! p).
Proof.
  intros H (l1 & l2 & ->)%list_elem_of_split. apply chain_suffix in H.
  destruct H as (_ & ? & c & ? & _). eauto.
Qed.

Lemma chain_length st h l : chain st h l → (length l ≤ base.size st)%nat.
Proof.
  intros H. rewrite <-size_dom, <-(size_list_to_set (C:=gset Z) l) by (by eapply chain_NoDup).
  apply subseteq_size. intros p Hp%elem_of_list_to_set. apply elem_of_dom. by eapply chain_lookup.
Qed.

(** A list does not see changes elsewhere, or changes that keep [next]. *)
Lemma chain_ext st st' h l :
  (∀ p, p ∈ l → next <$> st !! p = next <$> st' !! p) → chain st h l → chain st' h l.
Proof.
  revert h. induction l as [|p l IH]; intros h Hext; cbn [chain]; [done|].
  intros (-> & Hp & c & Hc & H). split; [done|]. split; [done|].
  pose proof (Hext p ltac:(by left)) as E. rewrite Hc in E.
  destruct (st' !! p) as [c'|]; [|done]. injection E as E. exists c'. split; [done|].
  rewrite <-E. apply IH; [|done]. intros q Hq. apply Hext. by right.
Qed.

(** ** The walks *)
Lemma find_chunk_type_loop_spec b n h l prev ptr :
  chain (store b) h l → (length l < n)%nat →
  (∃ p c q, p ∈ l ∧ store b !! p = Some c ∧ is_part c ptr = true ∧
     find_chunk_type_loop n h prev ptr b = Ok ((p, q), b)) ∨
  ((∀ p c, p ∈ l → store b !! p = Some c → is_part c ptr = false) ∧
   ∃ q, find_chunk_type_loop n h prev ptr b = Ok ((0, q), b)).
Proof.
  revert n h prev. induction l as [|p l IH]; intros [|n] h prev; cbn [chain length];
    [lia| |lia|]; intros H Hn; cbn [find_chunk_type_loop].
  { subst h. rewrite Z.eqb_refl. right. split; [|by eexists].
    intros p c Hp. by apply not_elem_of_nil in Hp. }
  destruct H as (-> & Hp & c & Hc & H).
  destruct (Z.eqb_spec p 0); [done|].
  unfold chunk_at, mbind, ST_bind. rewrite Hc.
  destruct (is_part c ptr) eqn:Hpart.
  { left. exists p, c, prev. split; [by left|]. done. }
  destruct (IH n (next c) p H ltac:(lia)) as [(p' & c' & q & Hin & Hc' & Hp' & E)|(Hno & q & E)].
  - left. exists p', c', q. split; [by right|]. done.
  - right. split; [|by exists q]. intros p' c' [->|Hin]%elem_of_cons Hl; [congruence|eauto].
Qed.

Lemma find_large_loop_none b n h l last ptr :
  chain (store b) h l → (length l < n)%nat →
  (∀ p c, p ∈ l → store b !! p = Some c → begin c ≠ ptr) →
  find_large_loop n h last ptr b = Ok (0, b).
Proof.
  revert n h last. induction l as [|p l IH]; intros [|n] h last; cbn [chain length];
    [lia| |lia|]; intros H Hn Hno; cbn [find_large_loop].
  { subst h. by rewrite Z.eqb_refl. }
  destruct H as (-> & Hp & c & Hc & H). destruct (Z.eqb_spec p 0); [done|].
  unfold chunk_at, mbind, ST_bind. rewrite Hc.
  destruct (Z.eqb_spec (begin c) ptr); [by eapply Hno in Hc; [|by left]|]. simpl.
  apply IH; [done|lia|]. intros p' c' Hin. apply Hno. by right.
Qed.

(** ** Properties *)

Lemma small_class sz : 0 ≤ sz ≤ 256 → 1 ≤ get_type sz ≤ 6.
Proof.
  intros H. pose proof (forall_below (fun sz => (1 <=? get_type sz) && (get_type sz <=? 6))
    0 257 ltac:(vm_compute; reflexivity) sz ltac:(lia)) as E.
  rewrite andb_true_iff, !Z.leb_le in E. exact E.
Qed.
Lemma small_fits sz : 0 ≤ sz ≤ 256 → sz ≤ get_size (get_type sz).
Proof.
  intros H. pose proof (forall_below (fun sz => sz <=? get_size (get_type sz))
    0 257 ltac:(vm_compute; reflexivity) sz ltac:(lia)) as E. by apply Z.leb_le.
Qed.
Lemma small_pos sz : 0 ≤ sz ≤ 256 → 0 < get_size (get_type sz).
Proof.
  intros H. pose proof (small_class sz H). unfold get_size, SMALL_ALLOC_LOWER_POW.
  rewrite Z.shiftl_mul_pow2 by lia. pose proof (Z.pow_pos_nonneg 2 (get_type sz + 2)). lia.
Qed.
Lemma small_half sz : 0 ≤ sz ≤ 128 → get_size (get_type sz) ≤ 128.
Proof.
  intros H. pose proof (forall_below (fun sz => get_size (get_type sz) <=? 128)
    0 129 ltac:(vm_compute; reflexivity) sz ltac:(lia)) as E. by apply Z.leb_le.
Qed.

(** Size classes: a request of 1 to 256 bytes gets the class of the
    smallest element size from 8 to 256 that holds it, except that requests of
    up to 4 bytes get 16-byte elements; the class of a chunk's elements is the
    class the chunk was made for, so [free] finds the list [alloc] used;
    bigger requests are large. *)
Theorem get_type_classes (sz : Z) :
  0 ≤ sz < 2 ^ 32 →
  if sz <=? 256 then
    1 ≤ get_type sz ≤ 6 ∧ sz ≤ get_size (get_type sz) ∧
    get_type (get_size (get_type sz)) = get_type sz ∧
    (if sz <=? 4 then get_size (get_type sz) = 16
     else get_size (get_type sz) = 8 ∨ get_size (get_type sz) < 2 * sz)
  else get_type sz = LARGE_CHUNK.
Proof.
  intros Hsz. destruct (Z.leb_spec sz 256) as [Hle|Hgt].
  - pose proof (forall_below (fun sz =>
      let t := get_type sz in
      (1 <=? t) && (t <=? 6) && (sz <=? get_size t) && (get_type (get_size t) =? t) &&
      (if sz <=? 4 then get_size t =? 16 else (get_size t =? 8) || (get_size t <? 2 * sz)))
      0 257 ltac:(vm_compute; reflexivity) sz ltac:(lia)) as H.
    cbv beta zeta in H. destruct (sz <=? 4); rewrite ?andb_true_iff, ?orb_true_iff, ?Z.leb_le,
      ?Z.eqb_eq, ?Z.ltb_lt in H; tauto.
  - unfold get_type. destruct (Z.leb_spec sz (Z.shiftl 1 SMALL_ALLOC_LOWER_POW)) as [H|_].
    { change (Z.shiftl 1 SMALL_ALLOC_LOWER_POW) with 4 in H. lia. }
    destruct (Z.leb_spec sz (Z.shiftl 1 SMALL_ALLOC_UPPER_POW)) as [H|_]; [|done].
    change (Z.shiftl 1 SMALL_ALLOC_UPPER_POW) with 256 in H. lia.
Qed.

Lemma get_type_classes_witness :
  1 ≤ get_type 100 ≤ 6 ∧ 100 ≤ get_size (get_type 100) ∧
  get_type (get_size (get_type 100)) = get_type 100 ∧
  (get_size (get_type 100) = 8 ∨ get_size (get_type 100) < 2 * 100).
Proof. apply (get_type_classes 100). lia. Defined.

(** [mmap] results used in the concrete runs. *)
Definition sample_mem : Z := 0x7f0000000000.

Definition run_alloc_free (sz : Z) : outcome unit :=
  b ← tinymalloc_init None sample_mem;
  r ← malloc sz b;
  fst <$> free r.1 r.2.

(** [find_chunk] stops one class short: it searches the classes of 2^2 to
    2^7 bytes and then the large chunks, and misses the class of 2^8 bytes.
    On a fresh allocator, freeing what [malloc] returned works for every
    request of up to 128 bytes, and aborts for every request of 129 to 256. *)
Theorem free_misses_last_class (sz : Z) :
  0 ≤ sz ≤ 256 →
  run_alloc_free sz =
    if sz <=? 128 then Ok tt else Fault (AssertFailed "chunk").
Proof.
  intros Hsz.
  pose proof (forall_below (fun sz =>
      match run_alloc_free sz with
      | Ok _ => sz <=? 128
      | Fault (AssertFailed c) => negb (sz <=? 128) && String.eqb c "chunk"
      | Fault _ => false
      end) 0 257 ltac:(vm_compute; reflexivity) sz ltac:(lia)) as H.
  cbv beta in H. destruct (run_alloc_free sz) as [[]|[c| | |]]; [by rewrite H| |done..].
  apply andb_true_iff in H as [H1 ->%String.eqb_eq]. by apply negb_true_iff in H1 as ->.
Qed.

Lemma free_misses_last_class_witness :
  run_alloc_free 200 = if 200 <=? 128 then Ok tt else Fault (AssertFailed "chunk").
Proof. apply free_misses_last_class. lia. Defined.
