(* ===== verification/MemInv.v ===== *)
(** * The invariant of the allocator

    What holds of a [mem_block] between two operations: its lists and counters,
    its chunks side by side in the block, and the headers of the chunks in
    elements of the allocator's own 32-byte class; and that marking an element
    and moving a chunk to the front of its list keep it. *)

From S2P Require Import Prelude Chunk MemBlock.

Implicit Types (b : mem_block) (st : gmap Z chunkinfo) (c : chunkinfo) (l : list Z).

(** ** List segments *)
Fixpoint seg st (h : Z) l (e : Z) : Prop :=
  match l with
  | [] => h = e
  | p :: l => h = p ∧ p ≠ 0 ∧ ∃ c, st !! p = Some c ∧ seg st (next c) l e
  end.
Lemma chain_seg st h l : chain st h l ↔ seg st h l 0.
Proof. revert h. induction l as [|p l IH]; intros h; cbn [chain seg]; [done|]. by setoid_rewrite IH. Qed.
Lemma seg_app st l1 l2 h e : seg st h (l1 ++ l2) e ↔ ∃ m, seg st h l1 m ∧ seg st m l2 e.
Proof.
  revert h. induction l1 as [|p l1 IH]; intros h; cbn [app seg].
  - split; [by exists h|]. by intros (m & -> & H).
  - split.
    + intros (-> & Hp & c & Hc & (m & H1 & H2)%IH). eauto 10.
    + intros (m & (-> & Hp & c & Hc & H1) & H2). split; [done|]. split; [done|]. exists c.
      split; [done|]. apply IH. eauto.
Qed.
(** Only the [next] fields of its members matter. *)
Lemma seg_ext st st' h l e :
  (∀ p, p ∈ l → next <$> st !! p = next <$> st' !! p) → seg st h l e → seg st' h l e.
Proof.
  revert h. induction l as [|p l IH]; intros h Hext; cbn [seg]; [done|].
  intros (-> & Hp & c & Hc & H). split; [done|]. split; [done|].
  pose proof (Hext p ltac:(by left)) as E. rewrite Hc in E.
  destruct (st' !! p) as [c'|]; [|done]. injection E as E. exists c'. split; [done|].
  rewrite <-E. apply IH; [|done]. intros q Hq. apply Hext. by right.
Qed.
Lemma next_insert_ne st p c q : q ≠ p → next <$> <[p := c]> st !! q = next <$> st !! q.
Proof. intros H. by rewrite lookup_insert_ne. Qed.

(** [put_front] of a chunk that is not the first one of its list. *)
Lemma chain_move st h l1 q p l2 cq cp cp' :
  chain st h (l1 ++ q :: p :: l2) → NoDup (l1 ++ q :: p :: l2) →
  st !! q = Some cq → st !! p = Some cp →
  next cp' = h →
  chain (<[p := cp']> (<[q := set_next (next cp) cq]> st)) p (p :: l1 ++ q :: l2).
Proof.
  rewrite !chain_seg. intros H Hnd Hq Hp Hn.
  apply seg_app in H as (m & H1 & (-> & Hq0 & c & Hc & (Hnq & Hp0 & c' & Hc' & H2))).
  rewrite Hp in Hc'. injection Hc' as <-. clear c Hc Hnq.
  apply list.NoDup_app in Hnd as (_ & Hl1 & (Hqn & (Hpn & Hnd)%list.NoDup_cons)%list.NoDup_cons).
  rewrite not_elem_of_cons in Hqn. destruct Hqn as [Hqp Hqn].
  cbn [seg]. split; [done|]. split; [done|]. exists cp'. split; [by rewrite lookup_insert_eq|].
  rewrite Hn. apply seg_app. exists q. split; [|cbn [seg]; split; [done|]; split; [done|]].
  - eapply seg_ext; [|exact H1]. intros x Hx. pose proof (Hl1 x Hx) as Hx'.
    rewrite !not_elem_of_cons in Hx'. destruct Hx' as (? & ? & ?). by rewrite !next_insert_ne by done.
  - exists (set_next (next cp) cq). rewrite lookup_insert_ne, lookup_insert_eq by done. split; [done|].
    eapply seg_ext; [|exact H2]. intros x Hx. rewrite !next_insert_ne; [done|by intros ->|by intros ->].
Qed.

(** ** Sums over the chunks of a list *)
Definition no_chunk : chunkinfo := ChunkInfo 0 0 0 0 0.
Definition at_ st (p : Z) : chunkinfo := default no_chunk (st !! p).
Definition sum (f : chunkinfo → Z) st l : Z := foldr (fun p n => f (at_ st p) + n) 0 l.

Lemma sum_ext f st st' l : (∀ p, p ∈ l → f (at_ st p) = f (at_ st' p)) → sum f st l = sum f st' l.
Proof.
  induction l as [|p l IH]; intros H; [done|]. cbn [sum foldr]. rewrite (H p) by by left.
  unfold sum in IH. rewrite IH; [done|]. intros q Hq. apply H. by right.
Qed.
Lemma sum_perm f st l l' : l ≡ₚ l' → sum f st l = sum f st l'.
Proof. unfold sum. induction 1; cbn [foldr]; lia. Qed.
Lemma sum_app f st l1 l2 : sum f st (l1 ++ l2) = sum f st l1 + sum f st l2.
Proof. induction l1 as [|p l1 IH]; [done|]. unfold sum in *. cbn [app foldr]. lia. Qed.
Lemma sum_insert f st l p c : NoDup l → p ∈ l → sum f (<[p := c]> st) l = sum f st l - f (at_ st p) + f c.
Proof.
  intros Hnd (l1 & l2 & ->)%list_elem_of_split. rewrite <-(sum_perm _ _ (p :: l1 ++ l2)), <-(sum_perm _ st (p :: l1 ++ l2)).
  2, 3: apply Permutation_middle.
  rewrite <-Permutation_middle in Hnd. apply list.NoDup_cons in Hnd as [Hp _].
  unfold sum at 1 2. cbn [foldr]. fold (sum f st (l1 ++ l2)). fold (sum f (<[p:=c]> st) (l1 ++ l2)).
  rewrite (sum_ext f (<[p:=c]> st) st (l1 ++ l2)).
  - unfold at_ at 1. rewrite lookup_insert_eq. cbn. lia.
  - intros q Hq. unfold at_. rewrite lookup_insert_ne; [done|by intros ->].
Qed.
Lemma sum_nonneg f st l : (∀ p, p ∈ l → 0 ≤ f (at_ st p)) → 0 ≤ sum f st l.
Proof.
  induction l as [|p l IH]; intros H; [done|]. unfold sum in *. cbn [foldr].
  specialize (IH (fun q Hq => H q (list_elem_of_further _ _ _ Hq))). specialize (H p ltac:(by left)). lia.
Qed.
Lemma sum_le f g st l : (∀ p, p ∈ l → f (at_ st p) ≤ g (at_ st p)) → sum f st l ≤ sum g st l.
Proof.
  induction l as [|p l IH]; intros H; [done|]. unfold sum in *. cbn [foldr].
  specialize (IH (fun q Hq => H q (list_elem_of_further _ _ _ Hq))). specialize (H p ltac:(by left)). lia.
Qed.

(** ** The invariant *)

(** The elements in use, with their sizes: those of clients, and the headers of
    chunks. *)
Definition elem b (q n : Z) : Prop :=
  ∃ p c u k, store b !! p = Some c ∧ bits b !! begin c = Some u ∧ elm_size c ≠ bytes c ∧
    0 ≤ k < max_elements c ∧ used u k = true ∧ q = elem_addr c k ∧ n = elm_size c.
(** The blocks that clients of [malloc] hold in elements of a class. *)
Definition live b (q n : Z) : Prop := elem b q n ∧ store b !! q = None.

Definition class (t : Z) : Prop := 1 ≤ t ≤ 6.
Record small_chunk b (t p : Z) : Prop := {
  sc_class : class t;
  sc_chunk : ∃ c u, store b !! p = Some c ∧ bits b !! begin c = Some u ∧ chunk_inv c u ∧
    elm_size c = get_size t ∧ elm_size c ≠ bytes c;
}.
(** [L t] are the chunks of class [t], [G] the large chunks in use and [GF]
    the free ones. *)
Record block_inv b (L : Z → list Z) (G GF : list Z) : Prop := {
  bi_start : 0 < start b;
  bi_size : size b < 2 ^ 31;
  bi_end : start b ≤ next_free b ≤ start b + size b;
  bi_bucket t : 0 ≤ t < 8 → ∃ h, buckets b !! Z.to_nat t = Some h ∧ chain (store b) h (L t);
  bi_small t p : 0 ≤ t < 8 → p ∈ L t → small_chunk b t p;
  bi_caps t : 0 ≤ t < 8 → sum max_elements (store b) (L t) ≤ next_free b - start b;
  bi_large : chain (store b) (large b) G;
  bi_large_free : chain (store b) (large_free b) GF;
  bi_large_ok p : p ∈ G ++ GF → ∃ c, store b !! p = Some c ∧ elm_size c = bytes c;
  bi_dom p c : store b !! p = Some c → (∃ t, 0 ≤ t < 8 ∧ p ∈ L t) ∨ p ∈ G ++ GF;
  bi_region p c : store b !! p = Some c → start b ≤ begin c ∧ 0 < bytes c ∧ begin c + bytes c ≤ next_free b;
  bi_apart p q c d : store b !! p = Some c → store b !! q = Some d → p ≠ q →
    begin c + bytes c ≤ begin d ∨ begin d + bytes d ≤ begin c;
  bi_header p c : store b !! p = Some c → elem b p sizeof_chunkinfo;
}.
Definition counted b (L : Z → list Z) : Prop :=
  ∀ t, 0 ≤ t < 8 → nfrees b !! Z.to_nat t = Some (sum nfree (store b) (L t)).

Section Facts.
Context b (L : Z → list Z) (G GF : list Z) (I : block_inv b L G GF).

Lemma bucket_nodup t : 0 ≤ t < 8 → NoDup (L t).
Proof. intros Ht. destruct (bi_bucket _ _ _ _ I t Ht) as (h & _ & H). by eapply chain_NoDup. Qed.
Lemma member_nonzero t p : 0 ≤ t < 8 → p ∈ L t → p ≠ 0.
Proof. intros Ht Hp. destruct (bi_bucket _ _ _ _ I t Ht) as (h & _ & Hch). by destruct (chain_lookup _ _ _ p Hch Hp). Qed.
Lemma get_size_inj t t' : class t → class t' → get_size t = get_size t' → t = t'.
Proof. unfold class, get_size. intros H H'. rewrite !Z.shiftl_mul_pow2 by (unfold SMALL_ALLOC_LOWER_POW; lia).
  intros E. assert (2 ^ (t + SMALL_ALLOC_LOWER_POW) = 2 ^ (t' + SMALL_ALLOC_LOWER_POW)) as E' by lia.
  apply Z.pow_inj_r in E'; unfold SMALL_ALLOC_LOWER_POW in *; lia.
Qed.
Lemma class_of_elm t c : class t → elm_size c = get_size t → get_type (elm_size c) = t.
Proof.
  intros H ->. unfold class in H.
  assert (t = 1 ∨ t = 2 ∨ t = 3 ∨ t = 4 ∨ t = 5 ∨ t = 6) as Ht by lia.
  by destruct Ht as [->|[->|[->|[->|[->| ->]]]]].
Qed.
(** A chunk is in one list. *)
Lemma small_unique t t' p : 0 ≤ t < 8 → 0 ≤ t' < 8 → p ∈ L t → p ∈ L t' → t = t'.
Proof.
  intros Ht Ht' H H'. destruct (bi_small _ _ _ _ I t p Ht H) as [Hc (c & u & Hs & _ & _ & He & _)].
  destruct (bi_small _ _ _ _ I t' p Ht' H') as [Hc' (c' & u' & Hs' & _ & _ & He' & _)].
  rewrite Hs in Hs'. injection Hs' as <-. apply get_size_inj; [done|done|congruence].
Qed.
Lemma small_not_large t p : 0 ≤ t < 8 → p ∈ L t → p ∉ G ++ GF.
Proof.
  intros Ht H HG. destruct (bi_small _ _ _ _ I t p Ht H) as [_ (c & u & Hs & _ & _ & _ & Hne)].
  destruct (bi_large_ok _ _ _ _ I p HG) as (c' & Hs' & E). rewrite Hs in Hs'. by injection Hs' as <-.
Qed.
(** Chunks are told apart by where they begin. *)
Lemma begin_inj p q c d : store b !! p = Some c → store b !! q = Some d → begin c = begin d → p = q.
Proof.
  intros Hp Hq E. destruct (decide (p = q)) as [|Hne]; [done|].
  pose proof (bi_region _ _ _ _ I p c Hp). pose proof (bi_region _ _ _ _ I q d Hq).
  destruct (bi_apart _ _ _ _ I p q c d Hp Hq Hne); lia.
Qed.
(** Elements do not overlap, and are inside the block. *)
Lemma elem_at q n : elem b q n → ∃ t p c u k, 0 ≤ t < 8 ∧ p ∈ L t ∧ store b !! p = Some c ∧
  bits b !! begin c = Some u ∧ chunk_inv c u ∧ 0 ≤ k < max_elements c ∧ used u k = true ∧
  q = elem_addr c k ∧ n = elm_size c.
Proof.
  intros (p & c & u & k & Hp & Hu & Hne & Hk & Hus & Hq & Hn).
  destruct (bi_dom _ _ _ _ I p c Hp) as [(t & Ht & Hin)|HG].
  - exists t, p, c, u, k. destruct (bi_small _ _ _ _ I t p Ht Hin) as [_ (c' & u' & Hs & Hu' & Hinv & _)].
    rewrite Hp in Hs. injection Hs as <-. rewrite Hu in Hu'. by injection Hu' as <-.
  - destruct (bi_large_ok _ _ _ _ I p HG) as (c' & Hs' & E). rewrite Hp in Hs'. by injection Hs' as <-.
Qed.
Lemma elem_bounds q n : elem b q n → start b ≤ q ∧ q + n ≤ next_free b ∧ 8 ≤ n.
Proof.
  intros (t & p & c & u & k & _ & _ & Hp & _ & Hinv & Hk & _ & -> & ->)%elem_at.
  pose proof (elem_addr_bounds (CState 0 c u) Hinv k Hk) as H. cbn [info] in H.
  pose proof (first_element_pos c (inv_geo _ _ Hinv)). pose proof (geo_elm _ (inv_geo _ _ Hinv)).
  pose proof (bi_region _ _ _ _ I p c Hp). lia.
Qed.
End Facts.

(** ** Changes that keep the shape of every chunk *)
Definition shape c : Z * Z * Z := (begin c, elm_size c, bytes c).
Definition same_shapes st st' : Prop := ∀ p, shape <$> st !! p = shape <$> st' !! p.

Lemma shape_max c d : shape c = shape d → max_elements c = max_elements d.
Proof. destruct c, d. unfold shape. cbn. by intros [= -> -> ->]. Qed.
Lemma shape_addr c d k : shape c = shape d → elem_addr c k = elem_addr d k.
Proof. destruct c, d. unfold shape. cbn. by intros [= -> -> ->]. Qed.
Lemma same_shapes_at st st' p c : same_shapes st st' → st' !! p = Some c →
  ∃ d, st !! p = Some d ∧ shape d = shape c.
Proof.
  intros H Hc. specialize (H p). rewrite Hc in H. cbn in H.
  destruct (st !! p) as [d|]; [|done]. apply (inj Some) in H. by exists d.
Qed.
Lemma shape_insert st p c c' : st !! p = Some c → shape c' = shape c → same_shapes st (<[p := c']> st).
Proof.
  intros Hp Hs q. destruct (decide (q = p)) as [->|Hne].
  - rewrite Hp, lookup_insert_eq. cbn. by rewrite Hs.
  - by rewrite lookup_insert_ne.
Qed.
Lemma same_shapes_trans st1 st2 st3 : same_shapes st1 st2 → same_shapes st2 st3 → same_shapes st1 st3.
Proof. intros H1 H2 p. by rewrite H1. Qed.
Lemma sum_max_shapes st st' l : same_shapes st st' → sum max_elements st l = sum max_elements st' l.
Proof.
  intros H. apply sum_ext. intros p _. unfold at_. specialize (H p).
  destruct (st !! p) as [c|], (st' !! p) as [d|]; try done. apply (inj Some) in H. by apply shape_max.
Qed.

Lemma block_inv_reshape b b' L L' G GF :
  block_inv b L G GF → same_shapes (store b) (store b') →
  start b' = start b → size b' = size b → next_free b' = next_free b →
  (∀ t, 0 ≤ t < 8 → L' t ≡ₚ L t) →
  (∀ t, 0 ≤ t < 8 → ∃ h, buckets b' !! Z.to_nat t = Some h ∧ chain (store b') h (L' t)) →
  (∀ t p, 0 ≤ t < 8 → p ∈ L t → small_chunk b' t p) →
  chain (store b') (large b') G → chain (store b') (large_free b') GF →
  (∀ p, is_Some (store b !! p) → elem b' p sizeof_chunkinfo) →
  block_inv b' L' G GF.
Proof.
  intros I Hsh Es Ez En HL Hbuck Hsmall HG HGF Hhead.
  assert (∀ p c, store b' !! p = Some c → ∃ d, store b !! p = Some d ∧ begin d = begin c ∧
    elm_size d = elm_size c ∧ bytes d = bytes c) as Hat.
  { intros p c Hc. destruct (same_shapes_at _ _ p c Hsh Hc) as (d & Hd & E). injection E as E1 E2 E3. eauto 6. }
  destruct I. split.
  - by rewrite Es.
  - by rewrite Ez.
  - by rewrite Es, Ez, En.
  - done.
  - intros t p Ht Hp. apply Hsmall; [done|]. by rewrite <-HL.
  - intros t Ht. rewrite <-(sum_max_shapes _ _ _ Hsh), (sum_perm _ _ _ _ (HL t Ht)), Es, En. by apply bi_caps0.
  - done.
  - done.
  - intros p Hp. destruct (bi_large_ok0 p Hp) as (d & Hd & E). pose proof (Hsh p) as Hs. rewrite Hd in Hs.
    destruct (store b' !! p) as [c|]; [|done]. apply (inj Some) in Hs. injection Hs as H1 H2 H3. exists c. split; [done|congruence].
  - intros p c Hc. destruct (Hat p c Hc) as (d & Hd & _). destruct (bi_dom0 p d Hd) as [(t & Ht & Hin)|Hin]; [|by right].
    left. exists t. split; [done|]. by rewrite HL.
  - intros p c Hc. destruct (Hat p c Hc) as (d & Hd & <- & _ & <-). rewrite Es, En. by apply (bi_region0 p).
  - intros p q c d Hc Hd Hne. destruct (Hat p c Hc) as (c' & Hc' & <- & _ & <-).
    destruct (Hat q d Hd) as (d' & Hd' & <- & _ & <-). by apply (bi_apart0 p q).
  - intros p c Hc. destruct (Hat p c Hc) as (d & Hd & _). by apply Hhead.
Qed.

(** ** Marking an element used or free *)
Definition marked b (p : Z) c (u : list Z) (k : Z) (v : bool) (n r : Z) : mem_block :=
  set_mem (<[p := set_nfree n c]> (store b)) (<[begin c := set_used u k v]> (bits b)) r b.

Section Mark.
Context b (L : Z → list Z) (G GF : list Z) (I : block_inv b L G GF).
Context (t p : Z) c (u : list Z) (Ht : 0 ≤ t < 8) (Hin : p ∈ L t) (Hp : store b !! p = Some c)
  (Hu : bits b !! begin c = Some u).

Lemma chunk_facts : chunk_inv c u ∧ class t ∧ elm_size c = get_size t ∧ elm_size c ≠ bytes c.
Proof.
  destruct (bi_small _ _ _ _ I t p Ht Hin) as [Hc (c' & u' & Hs & Hu' & Hinv & He & Hne)].
  rewrite Hp in Hs. injection Hs as <-. rewrite Hu in Hu'. by injection Hu' as <-.
Qed.
Lemma chunk_call_alloc : 0 < nfree c → ∃ k, 0 ≤ k < max_elements c ∧ Chunk.used u k = false ∧
  chunk_call p Chunk.alloc b = Ok (elem_addr c k, marked b p c u k true (nfree c - 1) (u32 (brand b + 1))).
Proof.
  intros Hn. destruct chunk_facts as (Hinv & _).
  destruct (alloc_spec (CState (brand b) c u) Hinv) as [[Hz _]|(_ & k & Hk & Hus & E)]; [cbn in Hz; lia|].
  exists k. split; [done|]. split; [done|]. unfold chunk_call. by rewrite Hp, Hu, E.
Qed.
Lemma chunk_call_free k : 0 ≤ k < max_elements c →
  chunk_call p (Chunk.free (elem_addr c k)) b = Ok (tt, marked b p c u k false (nfree c + 1) (brand b)).
Proof.
  intros Hk. destruct chunk_facts as (Hinv & _). unfold chunk_call. rewrite Hp, Hu.
  change (elem_addr c k) with (elem_addr (info (CState (brand b) c u)) k).
  by rewrite (free_spec (CState (brand b) c u) Hinv k Hk).
Qed.

Context (k : Z) (v : bool) (n r : Z) (Hk : 0 ≤ k < max_elements c).
Let b1 := marked b p c u k v n r.

Lemma mark_used k' : 0 ≤ k' → Chunk.used (set_used u k v) k' = if decide (k = k') then v else Chunk.used u k'.
Proof.
  intros H. destruct chunk_facts as (Hinv & _). destruct v.
  - exact (used_taken (CState 0 c u) Hinv k k' Hk H).
  - exact (used_released (CState 0 c u) Hinv k k' Hk H).
Qed.
Lemma bits_other q d : store b !! q = Some d → q ≠ p → bits b1 !! begin d = bits b !! begin d.
Proof.
  intros Hq Hne. unfold b1, marked. cbn [set_mem bits]. apply lookup_insert_ne. intros E.
  apply Hne. symmetry. by eapply begin_inj.
Qed.
Lemma store_marked q : store b1 !! q = if decide (q = p) then Some (set_nfree n c) else store b !! q.
Proof.
  unfold b1, marked. cbn [set_mem store]. destruct (decide (q = p)) as [->|Hne].
  - by rewrite lookup_insert_eq.
  - by rewrite lookup_insert_ne.
Qed.
Lemma bits_marked : bits b1 !! begin c = Some (set_used u k v).
Proof. unfold b1, marked. cbn [set_mem bits]. by rewrite lookup_insert_eq. Qed.

(** Different elements of the small chunks do not overlap. *)
Lemma slots_apart p' c' u' k' : store b !! p' = Some c' → chunk_inv c' u' → 0 ≤ k' < max_elements c' →
  p' ≠ p ∨ k' ≠ k → elem_addr c k + elm_size c ≤ elem_addr c' k' ∨ elem_addr c' k' + elm_size c' ≤ elem_addr c k.
Proof.
  intros Hp' Hinv' Hk' Hdiff. destruct chunk_facts as (Hinv & _). destruct (decide (p' = p)) as [->|Hd].
  - rewrite Hp in Hp'. injection Hp' as <-. apply elem_addr_apart; [apply Hinv|]. destruct Hdiff; congruence.
  - pose proof (elem_addr_bounds (CState 0 c u) Hinv k Hk) as Hb. cbn [info] in Hb.
    pose proof (elem_addr_bounds (CState 0 c' u') Hinv' k' Hk') as Hb'. cbn [info] in Hb'.
    pose proof (first_element_pos c (inv_geo _ _ Hinv)). pose proof (first_element_pos c' (inv_geo _ _ Hinv')).
    destruct (bi_apart _ _ _ _ I p' p c' c Hp' Hp Hd); lia.
Qed.
(** An element of the same address is the marked one. *)
Lemma slot_at p' c' u' k' : store b !! p' = Some c' → chunk_inv c' u' → 0 ≤ k' < max_elements c' →
  elem_addr c' k' = elem_addr c k → p' = p ∧ k' = k.
Proof.
  intros Hp' Hinv' Hk' E. destruct (decide (p' = p)) as [->|Hd].
  - destruct (decide (k' = k)) as [->|Hd]; [done|exfalso].
    pose proof (slots_apart p c' u' k' Hp' Hinv' Hk' ltac:(by right)). rewrite Hp in Hp'. injection Hp' as <-.
    pose proof (geo_elm _ (inv_geo _ _ Hinv')). lia.
  - exfalso. pose proof (slots_apart p' c' u' k' Hp' Hinv' Hk' ltac:(by left)).
    destruct chunk_facts as (Hinv & _).
    pose proof (geo_elm _ (inv_geo _ _ Hinv')). pose proof (geo_elm _ (inv_geo _ _ Hinv)). lia.
Qed.

Lemma marked_elem q m : elem b1 q m ↔
  (v = true ∧ q = elem_addr c k ∧ m = elm_size c) ∨ (elem b q m ∧ q ≠ elem_addr c k).
Proof.
  destruct chunk_facts as (Hinv & _ & _ & Hne). split.
  - intros (p' & c' & u' & k' & Hp' & Hu' & Hne' & Hk' & Hus & -> & ->). rewrite store_marked in Hp'.
    destruct (decide (p' = p)) as [->|Hd].
    + injection Hp' as <-. change (begin (set_nfree _ c)) with (begin c) in Hu'.
      rewrite bits_marked in Hu'. injection Hu' as <-. rewrite mark_used in Hus by lia.
      destruct (decide (k = k')) as [<-|Hkk]; [by left|right]. split; [by exists p, c, u, k'|].
      intros E. apply Hkk. symmetry. by apply (slot_at p c u).
    + right. rewrite (bits_other p' c') in Hu' by done.
      assert (elem b (elem_addr c' k') (elm_size c')) as Hel by by exists p', c', u', k'.
      split; [done|]. intros E.
      destruct (bi_dom _ _ _ _ I p' c' Hp') as [(t' & Ht' & Hin')|HG].
      * destruct (bi_small _ _ _ _ I t' p' Ht' Hin') as [_ (c3 & u3 & Hp3 & _ & Hinv3 & _)].
        rewrite Hp' in Hp3. injection Hp3 as <-. by destruct (slot_at p' c' u3 k' Hp' Hinv3 Hk' E).
      * destruct (bi_large_ok _ _ _ _ I p' HG) as (c3 & Hp3 & E3). rewrite Hp' in Hp3. by injection Hp3 as <-.
  - intros [(Hv & -> & ->)|((p' & c' & u' & k' & Hp' & Hu' & Hne' & Hk' & Hus & -> & ->) & Hq)].
    + exists p, (set_nfree n c), (set_used u k v), k. rewrite store_marked, decide_True by done.
      split_and!; try done; [by apply bits_marked|apply Hk|apply Hk|]. rewrite mark_used by lia. by rewrite decide_True.
    + destruct (decide (p' = p)) as [->|Hd].
      * rewrite Hp in Hp'. injection Hp' as <-. rewrite Hu in Hu'. injection Hu' as <-.
        exists p, (set_nfree n c), (set_used u k v), k'. rewrite store_marked, decide_True by done.
        split_and!; try done; [by apply bits_marked|apply Hk'|apply Hk'|]. rewrite mark_used by lia.
        rewrite decide_False by congruence. done.
      * exists p', c', u', k'. rewrite store_marked, decide_False by done. by rewrite (bits_other p' c').
Qed.
(** The element overlaps no other one. *)
Lemma mark_apart q m : elem b q m → q ≠ elem_addr c k → elem_addr c k + elm_size c ≤ q ∨ q + m ≤ elem_addr c k.
Proof.
  intros (t' & p' & c' & u' & k' & Ht' & Hin' & Hp' & Hu' & Hinv' & Hk' & Hus & -> & ->)%(elem_at _ _ _ _ I) Hq.
  apply (slots_apart p' c' u'); [done..|]. destruct (decide (p' = p)) as [->|]; [right|by left].
  rewrite Hp in Hp'. injection Hp' as <-. congruence.
Qed.
Lemma unused_elem q m : Chunk.used u k = false → elem b q m → q ≠ elem_addr c k.
Proof.
  intros Hfree (t' & p' & c' & u' & k' & Ht' & Hin' & Hp' & Hu' & Hinv' & Hk' & Hus & -> & ->)%(elem_at _ _ _ _ I) E.
  destruct (slot_at p' c' u' k' Hp' Hinv' Hk' E) as [Ep Ek]. subst p' k'. rewrite Hp in Hp'. injection Hp' as <-. congruence.
Qed.

(** The marked element is not a header. *)
Lemma marked_inv : chunk_inv (set_nfree n c) (set_used u k v) → store b !! elem_addr c k = None →
  block_inv b1 L G GF.
Proof.
  intros Hnew Hhead. destruct chunk_facts as (Hinv & Hc & He & Hne).
  assert (∀ q, next <$> store b !! q = next <$> store b1 !! q) as Hnext.
  { intros q. rewrite store_marked. destruct (decide (q = p)) as [->|]; [by rewrite Hp|done]. }
  apply (block_inv_reshape b b1 L L G GF I); try done.
  - by eapply shape_insert.
  - intros t' Ht'. destruct (bi_bucket _ _ _ _ I t' Ht') as (h & Hh & Hch). exists h. split; [done|].
    eapply chain_ext; [|exact Hch]. intros q _. apply Hnext.
  - intros t' q Ht' Hq. destruct (bi_small _ _ _ _ I t' q Ht' Hq) as [Hc' (d & w & Hs & Hw & Hiw & He' & Hne')].
    split; [done|]. rewrite store_marked. destruct (decide (q = p)) as [->|Hd].
    + rewrite Hp in Hs. injection Hs as <-. exists (set_nfree n c), (set_used u k v).
      split; [done|]. split; [apply bits_marked|]. done.
    + exists d, w. by rewrite (bits_other q d).
  - eapply chain_ext; [intros q _; apply Hnext|apply (bi_large _ _ _ _ I)].
  - eapply chain_ext; [intros q _; apply Hnext|apply (bi_large_free _ _ _ _ I)].
  - intros q [d Hq]. apply marked_elem. right. split; [by eapply bi_header|congruence].
Qed.
Lemma marked_sum t' : 0 ≤ t' < 8 →
  sum nfree (store b1) (L t') = sum nfree (store b) (L t') + (if decide (t' = t) then n - nfree c else 0).
Proof.
  intros Ht'. destruct (decide (t' = t)) as [->|Hne].
  - unfold b1, marked. cbn [set_mem store]. rewrite sum_insert by (done || by eapply bucket_nodup).
    unfold at_. rewrite Hp. cbn [default id set_nfree nfree]. lia.
  - rewrite Z.add_0_r. apply sum_ext. intros q Hq. unfold at_, b1, marked. cbn [set_mem store].
    rewrite lookup_insert_ne; [done|]. intros <-. by eapply Hne, small_unique.
Qed.
Lemma marked_dom : dom (store b1) = dom (store b).
Proof. unfold b1, marked. cbn [set_mem store]. rewrite dom_insert_lookup_L; [done|by eexists]. Qed.
End Mark.

(** ** Moving a chunk to the front of its list *)
Definition upd (L : Z → list Z) (t : Z) l : Z → list Z := fun t' => if decide (t' = t) then l else L t'.
Lemma upd_eq L t l : upd L t l t = l.
Proof. unfold upd. by rewrite decide_True. Qed.

Definition same_but_next st st' : Prop := ∀ q, set_next 0 <$> st !! q = set_next 0 <$> st' !! q.
Lemma same_but_next_at st st' q c : same_but_next st st' → st !! q = Some c → ∃ n, st' !! q = Some (set_next n c).
Proof.
  intros H Hc. specialize (H q). rewrite Hc in H. destruct (st' !! q) as [d|]; [|done].
  exists (next d). destruct c, d. cbn in *. by simplify_eq.
Qed.
Lemma same_but_next_sym st st' : same_but_next st st' → same_but_next st' st.
Proof. intros H q. by rewrite H. Qed.
Lemma same_but_next_insert st q c n : st !! q = Some c → same_but_next st (<[q := set_next n c]> st).
Proof.
  intros Hq x. destruct (decide (x = q)) as [->|]; [by rewrite Hq, lookup_insert_eq|by rewrite lookup_insert_ne].
Qed.
Lemma same_but_next_trans st1 st2 st3 : same_but_next st1 st2 → same_but_next st2 st3 → same_but_next st1 st3.
Proof. intros H1 H2 q. by rewrite H1. Qed.
Lemma same_but_next_shapes st st' : same_but_next st st' → same_shapes st st'.
Proof.
  intros H q. specialize (H q). destruct (st !! q) as [[]|], (st' !! q) as [[]|]; cbn in *; by simplify_eq.
Qed.
Lemma same_but_next_nfree st st' l : same_but_next st st' → sum nfree st l = sum nfree st' l.
Proof.
  intros H. apply sum_ext. intros q _. unfold at_. specialize (H q).
  destruct (st !! q) as [[]|], (st' !! q) as [[]|]; cbn in *; by simplify_eq.
Qed.
Lemma same_but_next_dom st st' : same_but_next st st' → dom st = dom st'.
Proof.
  intros H. apply set_eq. intros q. rewrite !elem_of_dom. specialize (H q).
  by destruct (st !! q), (st' !! q).
Qed.
Lemma elem_next b b' q n : same_but_next (store b) (store b') → bits b' = bits b → elem b q n → elem b' q n.
Proof.
  intros Hs Hb (p & c & u & k & Hp & Hu & Hne & Hk & Hus & -> & ->).
  destruct (same_but_next_at _ _ p c Hs Hp) as (m & Hm). exists p, (set_next m c), u, k. by rewrite Hb.
Qed.
Lemma small_next b b' t p : same_but_next (store b) (store b') → bits b' = bits b → small_chunk b t p → small_chunk b' t p.
Proof.
  intros Hs Hb [Hc (c & u & Hp & Hu & Hinv & He & Hne)].
  destruct (same_but_next_at _ _ p c Hs Hp) as (m & Hm). split; [done|]. exists (set_next m c), u.
  rewrite Hb. split_and!; try done. by destruct Hinv as [[] ? ? ?].
Qed.

(** What an operation leaves alone. *)
Record framed b b' : Prop := {
  fr_nfrees : nfrees b' = nfrees b;
  fr_flag : in_alloc_chunk b' = in_alloc_chunk b;
  fr_next : next_free b' = next_free b;
  fr_start : start b' = start b;
  fr_size : size b' = size b;
}.
(** [prev] is the chunk before the one after [l1]. *)
Definition prev_of (l1 : list Z) (prev : Z) : Prop := l1 = [] ∨ ∃ l0, l1 = l0 ++ [prev].

Section PutFront.
Context b (L : Z → list Z) (G GF : list Z) (I : block_inv b L G GF).

(** Only the order of the list of class [t] has changed. *)
Lemma reorder_inv b' t l' h : 0 ≤ t < 8 → same_but_next (store b) (store b') → bits b' = bits b → framed b b' →
  l' ≡ₚ L t → (∀ q, q ∉ L t → store b' !! q = store b !! q) →
  buckets b' = <[Z.to_nat t := h]> (buckets b) → chain (store b') h l' →
  large b' = large b → large_free b' = large_free b →
  block_inv b' (upd L t l') G GF.
Proof.
  intros Ht Hs Hb [_ _ Fn Fs Fz] Hl Hsame Hbuck Hch Eg Ef.
  assert (∀ l g, (∀ q, q ∈ l → q ∉ L t) → chain (store b) g l → chain (store b') g l) as Hext.
  { intros l g Hl'. apply chain_ext. intros q Hq. by rewrite Hsame by by apply Hl'. }
  assert (∀ q, q ∈ G ++ GF → q ∉ L t) as Hbig by (intros q Hq Hin; by eapply small_not_large).
  apply (block_inv_reshape b b' L _ G GF I); try done.
  - by apply same_but_next_shapes.
  - intros t' Ht'. unfold upd. by destruct (decide (t' = t)) as [->|].
  - intros t' Ht'. destruct (bi_bucket _ _ _ _ I t' Ht') as (g & Hg & Hc). rewrite Hbuck.
    destruct (decide (t' = t)) as [->|Hne].
    + exists h. rewrite upd_eq, list_lookup_insert_eq by by eapply lookup_lt_Some. done.
    + exists g. rewrite list_lookup_insert_ne by lia. split; [done|].
      unfold upd. rewrite decide_False by done. apply Hext; [|done]. intros q Hq Hq'. by eapply Hne, small_unique.
  - intros t' q Ht' Hq. eapply small_next; [exact Hs|exact Hb|]. by apply (bi_small _ _ _ _ I).
  - rewrite Eg. apply Hext; [|apply (bi_large _ _ _ _ I)]. intros q Hq. apply Hbig. set_solver.
  - rewrite Ef. apply Hext; [|apply (bi_large_free _ _ _ _ I)]. intros q Hq. apply Hbig. set_solver.
  - intros q [d Hq]. eapply elem_next; [exact Hs|exact Hb|]. by eapply bi_header.
Qed.

Lemma put_front_spec t p c l1 l2 prev : 0 ≤ t < 8 → L t = l1 ++ p :: l2 → store b !! p = Some c →
  prev_of l1 prev →
  ∃ b', put_front p prev b = Ok (tt, b') ∧ block_inv b' (upd L t (p :: l1 ++ l2)) G GF ∧
    same_but_next (store b) (store b') ∧ bits b' = bits b ∧ framed b b'.
Proof.
  intros Ht HL Hp Hprev. assert (p ∈ L t) as Hin by (rewrite HL; set_solver).
  destruct (bi_small _ _ _ _ I t p Ht Hin) as [Hcl (c' & u & Hp' & _ & _ & He & _)].
  rewrite Hp in Hp'. injection Hp' as <-.
  destruct (bi_bucket _ _ _ _ I t Ht) as (h & Hh & Hch). rewrite HL in Hch.
  pose proof (chain_NoDup _ _ _ Hch) as Hnd.
  unfold put_front, chunk_at, get_bucket. unfold mbind at 1 2, ST_bind at 1 2.
  rewrite Hp, (class_of_elm t c Hcl He), Hh. destruct Hprev as [->|[l0 ->]].
  - pose proof Hch as (-> & _). rewrite Z.eqb_refl. exists b. split; [done|]. split; [|done].
    apply (reorder_inv b t _ p); try done; [by rewrite HL|by rewrite list_insert_id].
  - rewrite <-app_assoc in Hch, Hnd, HL. cbn [app] in Hch, Hnd, HL.
    destruct (chain_lookup _ _ _ prev Hch) as [Hp0 [cq Hq]]; [set_solver|].
    assert (prev ≠ p) as Hqp.
    { intros ->. apply list.NoDup_app in Hnd as (_ & _ & [Hx _]%list.NoDup_cons). set_solver. }
    destruct (Z.eqb_spec p h) as [->|Hph].
    { exfalso. destruct l0 as [|x l0]; destruct Hch as (-> & _); [done|].
      apply list.NoDup_cons in Hnd as [Hx _]. set_solver. }
    destruct (Z.eqb_spec prev 0) as [|_]; [done|]. cbn [negb].
    unfold upd_chunk, set_bucket, mbind, ST_bind. rewrite Hq. cbn [set_store store buckets].
    rewrite lookup_insert_ne, Hp by done. cbn [set_store store buckets]. rewrite Hh.
    eexists. split; [reflexivity|]. cbn [set_buckets set_store].
    assert (same_but_next (store b) (<[p:=set_next h c]> (<[prev:=set_next (next c) cq]> (store b)))) as Hsn.
    { eapply same_but_next_trans; [by apply (same_but_next_insert _ prev cq (next c))|].
      apply same_but_next_insert. by rewrite lookup_insert_ne. }
    split; [|done]. rewrite <-app_assoc. apply (reorder_inv _ t _ p); try done.
    + rewrite HL. cbn [app]. solve_Permutation.
    + intros q Hnq. rewrite HL in Hnq. cbn [set_buckets set_store store].
      rewrite !lookup_insert_ne; [done|set_solver|set_solver].
    + cbn [set_buckets set_store store]. by eapply chain_move.
Qed.
End PutFront.

