(* ===== verification/MemSpec.v ===== *)
(** * malloc and free keep the allocator's promise

    [malloc] of a small request always finds an element that overlaps nothing in
    use, [free] gives exactly one element back, and so a client that frees what
    it holds can go on until the block is full. *)

From S2P Require Import Prelude Chunk MemBlock MemInv.

Implicit Types (b : mem_block) (st : gmap Z chunkinfo) (c : chunkinfo) (l : list Z).

(** ** Allocating from a chunk of the class *)
(** The element at [r] has come into use, and overlaps none that was. *)
Record gained b b' (r n : Z) : Prop := {
  ga_elem q m : elem b' q m ↔ (q = r ∧ m = n) ∨ elem b q m;
  ga_apart q m : elem b q m → r + n ≤ q ∨ q + m ≤ r;
}.
Definition same_geometry b b' : Prop :=
  start b' = start b ∧ size b' = size b ∧ next_free b' = next_free b.

(** [_alloc_small] after it has found its chunk. *)
Definition take_from (t chunk prev : Z) : M Z :=
  ptr ← chunk_call chunk Chunk.alloc;
  c ← chunk_at chunk;
  (if has_free c then put_front chunk prev else mret tt) ;;
  add_nfrees t (-1) ;;
  mret ptr.

Lemma maybe_put_front b L G GF t p c l1 l2 prev (w : bool) : block_inv b L G GF → 0 ≤ t < 8 →
  L t = l1 ++ p :: l2 → prev_of l1 prev → store b !! p = Some c →
  ∃ b' L', (if w then put_front p prev else mret tt) b = Ok (tt, b') ∧ block_inv b' L' G GF ∧
    same_but_next (store b) (store b') ∧ bits b' = bits b ∧ framed b b' ∧
    ∀ t', 0 ≤ t' < 8 → L' t' ≡ₚ L t'.
Proof.
  intros I Ht HL Hprev Hp. destruct w; [|by exists b, L].
  destruct (put_front_spec b L G GF I t p c l1 l2 prev Ht HL Hp Hprev) as (b' & Hrun & I' & Hs & Hb & Hf).
  exists b', (upd L t (p :: l1 ++ l2)). split_and!; try done. intros t' _. unfold upd.
  destruct (decide (t' = t)) as [->|]; [|done]. rewrite HL. apply Permutation_middle.
Qed.
(** [nfrees[t]] follows the chunks of the class. *)
Lemma add_nfrees_spec b L G GF t n d : block_inv b L G GF → 0 ≤ t < 8 → nfrees b !! Z.to_nat t = Some n →
  0 ≤ n + d < 2 ^ 32 →
  add_nfrees t d b = Ok (tt, set_nfrees (<[Z.to_nat t := n + d]> (nfrees b)) b) ∧
  block_inv (set_nfrees (<[Z.to_nat t := n + d]> (nfrees b)) b) L G GF.
Proof.
  intros I Ht Hn Hd. unfold add_nfrees. rewrite Hn, u32_small by done. split; [done|].
  pose proof (bi_small _ _ _ _ I) as Hs. destruct I. split; try done. intros t' p Ht' Hp. by apply (small_next b); [| |apply Hs].
Qed.

Lemma chunk_at_step b p c : store b !! p = Some c → chunk_at p b = Ok (c, b).
Proof. unfold chunk_at. by intros ->. Qed.

Section Bounds.
Context b (L : Z → list Z) (G GF : list Z) (I : block_inv b L G GF).

Lemma at_lookup st p c : st !! p = Some c → at_ st p = c.
Proof. unfold at_. by intros ->. Qed.
Lemma nfree_bounds t p : 0 ≤ t < 8 → p ∈ L t → 0 ≤ nfree (at_ (store b) p) ≤ max_elements (at_ (store b) p).
Proof.
  intros Ht Hp. destruct (bi_small _ _ _ _ I t p Ht Hp) as [_ (c & u & Hs & _ & Hinv & _)].
  rewrite (at_lookup _ _ _ Hs). rewrite (inv_nfree _ _ Hinv).
  pose proof (max_elements_bounds c (inv_geo _ _ Hinv)). pose proof (count_free_range u (Z.to_nat (max_elements c))). lia.
Qed.
Lemma count_bounds t : 0 ≤ t < 8 → 0 ≤ sum nfree (store b) (L t) < 2 ^ 31.
Proof.
  intros Ht. pose proof (bi_caps _ _ _ _ I t Ht). pose proof (bi_end _ _ _ _ I). pose proof (bi_size _ _ _ _ I).
  assert (sum nfree (store b) (L t) ≤ sum max_elements (store b) (L t))
    by (apply sum_le; intros p Hp; by apply nfree_bounds with t).
  assert (0 ≤ sum nfree (store b) (L t)) by (apply sum_nonneg; intros p Hp; by apply nfree_bounds with t).
  lia.
Qed.

End Bounds.

(** The end of [_alloc_small] and of [free]: the chunk moves and the counter of
    its class follows its [nfree]. *)
Lemma settle b L G GF t d p c l1 l2 prev (w : bool) :
  block_inv b L G GF → 0 ≤ t < 8 → L t = l1 ++ p :: l2 → prev_of l1 prev → store b !! p = Some c →
  (∀ t', 0 ≤ t' < 8 → nfrees b !! Z.to_nat t' = Some (sum nfree (store b) (L t') - (if decide (t' = t) then d else 0))) →
  ∃ b1 b2 L', (if w then put_front p prev else mret tt) b = Ok (tt, b1) ∧ add_nfrees t d b1 = Ok (tt, b2) ∧
    (∃ c1, store b1 !! p = Some c1 ∧ elm_size c1 = elm_size c) ∧
    block_inv b2 L' G GF ∧ counted b2 L' ∧ (∀ q m, elem b2 q m ↔ elem b q m) ∧ dom (store b2) = dom (store b) ∧
    same_geometry b b2 ∧ in_alloc_chunk b2 = in_alloc_chunk b ∧
    ∀ t', 0 ≤ t' < 8 → sum nfree (store b2) (L' t') = sum nfree (store b) (L t').
Proof.
  intros I Ht HL Hprev Hp N.
  destruct (maybe_put_front b L G GF t p c l1 l2 prev w I Ht HL Hprev Hp)
    as (b1 & L1 & Hrun1 & I1 & Hs1 & Hb1 & [Fn Ff Fx Fs Fz] & HL1).
  pose proof (count_bounds b L G GF I t Ht) as Hcb.
  destruct (add_nfrees_spec b1 L1 G GF t (sum nfree (store b) (L t) - d) d I1 Ht) as [Hrun2 I2].
  { rewrite Fn, N by done. by rewrite decide_True. }
  { lia. }
  assert (∀ t', 0 ≤ t' < 8 → sum nfree (store b1) (L1 t') = sum nfree (store b) (L t')) as Hsum.
  { intros t' Ht'. rewrite (sum_perm _ _ _ _ (HL1 t' Ht')). symmetry. by apply same_but_next_nfree. }
  eexists b1, _, L1. split; [exact Hrun1|]. split; [exact Hrun2|]. split.
  { destruct (same_but_next_at _ _ p c Hs1 Hp) as (m & Hm). by exists (set_next m c). }
  split; [exact I2|]. split.
  { intros t' Ht'. cbn [set_nfrees nfrees store]. rewrite (Hsum t' Ht'), Fn. specialize (N t' Ht').
    destruct (decide (t' = t)) as [->|Hne].
    - rewrite list_lookup_insert_eq by by eapply lookup_lt_Some. f_equal. lia.
    - rewrite list_lookup_insert_ne by lia. by rewrite N, Z.sub_0_r. }
  split; [intros q m; split; apply elem_next; try done; by apply same_but_next_sym|].
  split; [symmetry; by apply same_but_next_dom|]. split_and!; done.
Qed.

Lemma take_from_spec b L G GF t p c l1 l2 prev : block_inv b L G GF → counted b L →
  0 ≤ t < 8 → L t = l1 ++ p :: l2 → prev_of l1 prev →
  store b !! p = Some c → 0 < nfree c →
  ∃ r b' L', take_from t p prev b = Ok (r, b') ∧ block_inv b' L' G GF ∧ counted b' L' ∧
    gained b b' r (get_size t) ∧ dom (store b') = dom (store b) ∧ same_geometry b b' ∧
    in_alloc_chunk b' = in_alloc_chunk b ∧
    ∀ t', 0 ≤ t' < 8 → sum nfree (store b') (L' t') = sum nfree (store b) (L t') - (if decide (t' = t) then 1 else 0).
Proof.
  intros I N Ht HL Hprev Hp Hn. assert (p ∈ L t) as Hin by (rewrite HL; set_solver).
  destruct (bi_small _ _ _ _ I t p Ht Hin) as [Hcl (c' & u & Hp' & Hu & Hinv & He & _)].
  rewrite Hp in Hp'. injection Hp' as <-.
  destruct (chunk_call_alloc b L G GF I t p c u Ht Hin Hp Hu Hn) as (k & Hk & Hfree & Hcall).
  set (b1 := marked b p c u k true (nfree c - 1) (u32 (brand b + 1))) in *.
  assert (∀ q m, elem b q m → q ≠ elem_addr c k) as Hfresh by (intros q m; by eapply unused_elem).
  assert (block_inv b1 L G GF) as I1.
  { eapply marked_inv; try done; [exact (taken_inv (CState 0 c u) Hinv k Hk Hfree Hn)|].
    destruct (store b !! elem_addr c k) as [d|] eqn:Hd; [exfalso|done]. by apply (Hfresh _ _ (bi_header _ _ _ _ I _ d Hd)). }
  assert (∀ t', 0 ≤ t' < 8 → sum nfree (store b1) (L t') = sum nfree (store b) (L t') - (if decide (t' = t) then 1 else 0)) as Hsum.
  { intros t' Ht'. unfold b1. rewrite (marked_sum b L G GF I t p c) by done. destruct (decide (t' = t)); lia. }
  destruct (settle b1 L G GF t (-1) p (set_nfree (nfree c - 1) c) l1 l2 prev (has_free (set_nfree (nfree c - 1) c)) I1 Ht HL Hprev)
    as (b2 & b3 & L' & Hput & Hadd & _ & I3 & N3 & He3 & Hd3 & Hg3 & Hf3 & Hsum3).
  { unfold b1. rewrite store_marked. by rewrite decide_True. }
  { intros t' Ht'. rewrite Hsum by done. change (nfrees b1) with (nfrees b). rewrite (N t' Ht').
    f_equal. destruct (decide (t' = t)); lia. }
  exists (elem_addr c k), b3, L'. split.
  { unfold take_from. rewrite (ST_bind_step _ _ _ _ _ Hcall).
    rewrite (ST_bind_step _ (chunk_at p) b1 (set_nfree (nfree c - 1) c) b1)
      by (apply chunk_at_step; unfold b1; erewrite store_marked by done; by rewrite decide_True).
    rewrite (ST_bind_step _ _ _ _ _ Hput). by rewrite (ST_bind_step _ _ _ _ _ Hadd). }
  split; [exact I3|]. split; [exact N3|]. split; [|split; [|split; [done|split; [done|]]]].
  - split.
    + intros q m. unfold b1 in He3. rewrite He3, (marked_elem b L G GF I t p c u) by done. rewrite <-He. specialize (Hfresh q m). naive_solver.
    + intros q m Hq. rewrite <-He. apply (mark_apart b L G GF I t p c u); try done. by eapply Hfresh.
  - rewrite Hd3. by apply marked_dom.
  - intros t' Ht'. by rewrite Hsum3, Hsum.
Qed.

(** ** A new chunk *)
Lemma prev_of_last l1 prev : prev_of l1 (default prev (list.last l1)).
Proof. destruct l1 as [|x l0 _] using rev_ind; [by left|right]. exists l0. by rewrite last_snoc. Qed.
Lemma find_has_free_spec b l : ∀ h prev n, chain (store b) h l → (length l < n)%nat →
  (∀ q, q ∈ l → 0 ≤ nfree (at_ (store b) q)) → 0 < sum nfree (store b) l →
  ∃ l1 p l2 c, l = l1 ++ p :: l2 ∧ store b !! p = Some c ∧ 0 < nfree c ∧
    find_has_free n h prev b = Ok ((p, default prev (list.last l1)), b).
Proof.
  induction l as [|p l IH]; intros h prev n Hch Hn Hnn Hs; [done|].
  destruct n as [|n]; [by apply Nat.nlt_0_r in Hn|]. destruct Hch as (-> & Hp0 & c & Hc & Hch).
  cbn [find_has_free]. destruct (Z.eqb_spec p 0) as [|_]; [done|].
  unfold chunk_at, mbind, ST_bind. rewrite Hc. unfold has_free.
  pose proof (Hnn p ltac:(by left)) as Hcn. rewrite (at_lookup _ _ _ Hc) in Hcn.
  destruct (Z.eqb_spec (nfree c) 0) as [Hz|Hz]; cbn [negb].
  - assert (0 < sum nfree (store b) l) as Hs'.
    { unfold sum in Hs |- *. cbn [foldr] in Hs. rewrite (at_lookup _ _ _ Hc) in Hs. lia. }
    destruct (IH (next c) p n Hch) as (l1 & q & l2 & d & -> & Hd & Hnd & Hrun);
      [cbn [length] in Hn; lia|intros q Hq; apply Hnn; by right|done|].
    exists (p :: l1), q, l2, d. split_and!; try done. rewrite Hrun. do 3 f_equal.
    by destruct l1 as [|x l0 _] using rev_ind; [|rewrite app_comm_cons, !last_snoc].
  - exists [], p, l, c. split_and!; try done. lia.
Qed.

(** The chunk that [construct_chunk], [put_front] and the counters add. *)
Definition fresh_chunk (t beg : Z) : chunkinfo := (new_chunkinfo (get_size t) beg 1024).1.
Definition fresh_bits (t : Z) : list Z := (new_chunkinfo (get_size t) 0 1024).2.
Lemma fresh_chunk_facts t beg : class t →
  chunk_inv (fresh_chunk t beg) (fresh_bits t) ∧ (new_chunkinfo (get_size t) beg 1024).2 = fresh_bits t ∧
  elm_size (fresh_chunk t beg) = get_size t ∧ bytes (fresh_chunk t beg) = 1024 ∧ begin (fresh_chunk t beg) = beg ∧
  get_size t ≠ 1024 ∧ 1 < nfree (fresh_chunk t beg) ∧ nfree (fresh_chunk t beg) = max_elements (fresh_chunk t beg) ∧
  max_elements (fresh_chunk t beg) ≤ 1024 ∧ Z.of_nat (length (fresh_bits t)) ≤ 1024 ∧
  ∀ k, 0 ≤ k < max_elements (fresh_chunk t beg) → Chunk.used (fresh_bits t) k = false.
Proof.
  intros Ht. unfold class in Ht.
  assert (8 ≤ get_size t ∧ first_element (ChunkInfo 0 0 (get_size t) 1024 0) ≤ 1024 ∧ get_size t ≠ 1024 ∧
    1 < max_elements (ChunkInfo 0 0 (get_size t) 1024 0) ≤ 1024 ∧
    max_elements (ChunkInfo 0 0 (get_size t) 1024 0) ≤ 8 * first_element (ChunkInfo 0 0 (get_size t) 1024 0) ∧
    0 ≤ first_element (ChunkInfo 0 0 (get_size t) 1024 0)) as (H1 & H2 & H3 & H4 & H5 & H6).
  { assert (t = 1 ∨ t = 2 ∨ t = 3 ∨ t = 4 ∨ t = 5 ∨ t = 6) as Hc by lia.
    destruct Hc as [->|[->|[->|[->|[->| ->]]]]]; vm_compute; intuition congruence. }
  split; [apply (new_chunkinfo_inv (get_size t) beg 1024); [done|lia|done]|].
  split_and!; try done; try apply H4.
  - unfold fresh_bits, new_chunkinfo. cbn [snd]. rewrite length_replicate. lia.
  - intros k Hk. unfold fresh_bits, new_chunkinfo. cbn [snd]. apply used_zeroes.
    change (max_elements (fresh_chunk t beg)) with (max_elements (ChunkInfo 0 0 (get_size t) 1024 0)) in Hk. lia.
Qed.

(** [_alloc_chunk] after it has got the memory of the header. *)
Definition make_chunk (type byts ptr : Z) : M Z :=
  let elm := if type =? LARGE_CHUNK then byts else get_size type in
  beg ← gets next_free;
  construct_chunk ptr elm beg byts ;;
  c ← chunk_at ptr;
  modify (fun b => set_next_free (next_free b + bytes c) b) ;;
  (if type =? LARGE_CHUNK then put_large ptr
   else
     put_front ptr 0 ;;
     c ← chunk_at ptr;
     add_nfrees type (nfree c)) ;;
  mret ptr.

Section NewChunk.
Context b (L : Z → list Z) (G GF : list Z) (I : block_inv b L G GF) (N : counted b L).
Context (t r : Z) (Ht : class t) (Hr : elem b r sizeof_chunkinfo) (Hnew : store b !! r = None).
Hypothesis Hroom : next_free b + 1024 ≤ start b + size b.
Let c := fresh_chunk t (next_free b).
Let u := fresh_bits t.

(** The state that [make_chunk] reaches; [h] is the head of the list. *)
Definition grown (h n : Z) : mem_block :=
  MemBlock (start b) (next_free b + 1024) (size b) (in_alloc_chunk b)
    (<[Z.to_nat t := r]> (buckets b)) (<[Z.to_nat t := n + nfree c]> (nfrees b)) (large b) (large_free b)
    (<[r := set_next h c]> (store b)) (<[next_free b := u]> (bits b)) (brand b).

Lemma class_range : 0 ≤ t < 8.
Proof. unfold class in Ht. lia. Qed.
Lemma make_chunk_run h : buckets b !! Z.to_nat t = Some h → h ≠ r →
  make_chunk t 1024 r b = Ok (r, grown h (sum nfree (store b) (L t))).
Proof.
  intros Hh Hne. pose proof (fresh_chunk_facts t (next_free b) Ht) as (Hinv & Hu & He & Hb & Hbeg & _ & Hn & Hmax & Hm & Hlen & _).
  fold c in Hinv, He, Hb, Hbeg, Hn, Hmax, Hm. fold u in Hinv, Hu, Hlen.
  pose proof (bi_end _ _ _ _ I) as Hend. pose proof (count_bounds b L G GF I t class_range) as Hcb.
  assert ((t =? LARGE_CHUNK) = false) as Hlarge by (apply Z.eqb_neq; unfold class, LARGE_CHUNK in *; lia).
  unfold make_chunk. cbv zeta. rewrite Hlarge.
  unfold mbind at 1, ST_bind at 1, gets.
  assert (construct_chunk r (get_size t) (next_free b) 1024 b =
    Ok (tt, set_mem (<[r := c]> (store b)) (<[next_free b := u]> (bits b)) (brand b) b)) as Hcon.
  { unfold construct_chunk. destruct (Z.eqb_spec (get_size t) 0) as [E|_]; [exfalso; pose proof (geo_elm _ (inv_geo _ _ Hinv)); lia|].
    destruct (new_chunkinfo (get_size t) (next_free b) 1024) as [c0 u0] eqn:E.
    assert (c0 = c) as -> by (unfold c, fresh_chunk; by rewrite E). cbn [snd] in Hu. subst u0.
    rewrite bool_decide_true by lia. done. }
  rewrite (ST_bind_step _ _ _ _ _ Hcon).
  rewrite (ST_bind_step _ (chunk_at r) _ c _) by (apply chunk_at_step; cbn; by rewrite lookup_insert_eq).
  set (b2 := MemBlock (start b) (next_free b + 1024) (size b) (in_alloc_chunk b) (buckets b) (nfrees b)
    (large b) (large_free b) (<[r := c]> (store b)) (<[next_free b := u]> (bits b)) (brand b)).
  rewrite (ST_bind_step _ (modify _) _ tt b2) by (unfold modify; rewrite Hb; reflexivity).
  set (b3 := set_buckets (<[Z.to_nat t := r]> (buckets b)) (set_store (<[r := set_next h c]> (store b)) b2)).
  assert (put_front r 0 b2 = Ok (tt, b3)) as Hpf.
  { unfold put_front. rewrite (ST_bind_step _ (chunk_at r) b2 c b2) by (apply chunk_at_step; cbn; by rewrite lookup_insert_eq).
    rewrite (class_of_elm t c Ht He). cbv zeta.
    rewrite (ST_bind_step _ (get_bucket t) b2 h b2) by (unfold get_bucket; cbn; by rewrite Hh).
    destruct (Z.eqb_spec r h) as [->|_]; [done|]. cbn [Z.eqb negb].
    rewrite (ST_bind_step _ (mret tt) b2 tt b2 eq_refl).
    rewrite (ST_bind_step _ _ b2 tt (set_store (<[r := set_next h c]> (store b)) b2))
      by (unfold upd_chunk; cbn; by rewrite lookup_insert_eq, insert_insert_eq).
    unfold set_bucket. cbn. by rewrite Hh. }
  assert (add_nfrees t (nfree c) b3 = Ok (tt, grown h (sum nfree (store b) (L t)))) as Hadd.
  { unfold add_nfrees. cbn [nfrees b3 b2 set_buckets set_store]. rewrite (N t class_range), u32_small by lia. done. }
  rewrite (ST_bind_step _ _ b2 tt (grown h (sum nfree (store b) (L t)))); [done|].
  rewrite (ST_bind_step _ _ _ _ _ Hpf).
  rewrite (ST_bind_step _ (chunk_at r) b3 (set_next h c) b3) by (apply chunk_at_step; cbn; by rewrite lookup_insert_eq).
  exact Hadd.
Qed.

Lemma store_grown h n q : store (grown h n) !! q = if decide (q = r) then Some (set_next h c) else store b !! q.
Proof.
  cbn [grown store]. destruct (decide (q = r)) as [->|]; [by rewrite lookup_insert_eq|by rewrite lookup_insert_ne].
Qed.
Lemma not_grown p d : store b !! p = Some d → p ≠ r.
Proof. intros Hp ->. congruence. Qed.
Lemma bits_grown h n p d : store b !! p = Some d → bits (grown h n) !! begin d = bits b !! begin d.
Proof.
  intros Hp. cbn [grown bits]. apply lookup_insert_ne.
  pose proof (bi_region _ _ _ _ I p d Hp). lia.
Qed.
Lemma grown_elem h n q m : elem (grown h n) q m ↔ elem b q m.
Proof.
  destruct (fresh_chunk_facts t (next_free b) Ht) as (Hinv & _ & He & Hb & Hbeg & Hne & _ & _ & _ & _ & Hus).
  fold c in Hinv, He, Hb, Hbeg, Hus. fold u in Hinv, Hus. split.
  - intros (p & d & w & k & Hp & Hw & Hd & Hk & Hu & -> & ->). rewrite store_grown in Hp.
    destruct (decide (p = r)) as [->|Hpr].
    + exfalso. injection Hp as <-. change (begin (set_next h c)) with (begin c) in Hw.
      rewrite Hbeg in Hw. cbn [grown bits] in Hw. rewrite lookup_insert_eq in Hw. injection Hw as <-.
      rewrite Hus in Hu; [done|exact Hk].
    + rewrite (bits_grown h n p d Hp) in Hw. by exists p, d, w, k.
  - intros (p & d & w & k & Hp & Hw & Hd & Hk & Hu & -> & ->). exists p, d, w, k.
    rewrite store_grown, decide_False by by eapply not_grown. by rewrite (bits_grown h n p d Hp).
Qed.
Lemma list_member t' p : 0 ≤ t' < 8 → p ∈ L t' → is_Some (store b !! p).
Proof. intros Ht' Hp. destruct (bi_small _ _ _ _ I t' p Ht' Hp) as [_ (d & w & Hd & _)]. by exists d. Qed.

Lemma grown_sum f h n t' : 0 ≤ t' < 8 → sum f (store (grown h n)) (L t') = sum f (store b) (L t').
Proof.
  intros Ht'. apply sum_ext. intros q Hq. destruct (list_member t' q Ht' Hq) as [d Hd]. unfold at_.
  by rewrite store_grown, decide_False by by eapply not_grown.
Qed.

Lemma grown_inv h n : buckets b !! Z.to_nat t = Some h → block_inv (grown h n) (upd L t (r :: L t)) G GF.
Proof.
  intros Hh. destruct (fresh_chunk_facts t (next_free b) Ht) as (Hinv & _ & He & Hb & Hbeg & Hne & _ & _ & Hm & _ & _).
  fold c in Hinv, He, Hb, Hbeg, Hm. fold u in Hinv.
  pose proof (bi_end _ _ _ _ I) as Hend. pose proof class_range as Htr.
  assert (∀ l g, (∀ q, q ∈ l → is_Some (store b !! q)) → chain (store b) g l → chain (store (grown h n)) g l) as Hext.
  { intros l g Hl. apply chain_ext. intros q Hq. destruct (Hl q Hq) as [d Hd].
    rewrite store_grown, decide_False; [done|by eapply not_grown]. }
  assert (∀ q, q ∈ G ++ GF → is_Some (store b !! q)) as Hbig.
  { intros q Hq. destruct (bi_large_ok _ _ _ _ I q Hq) as (d & Hd & _). by exists d. }
  assert (0 < r) as Hr0 by (pose proof (elem_bounds b L G GF I r _ Hr); pose proof (bi_start _ _ _ _ I); lia).
  split; try apply I.
  - cbn [grown next_free start size]. lia.
  - intros t' Ht'. unfold upd. cbn [grown buckets]. destruct (decide (t' = t)) as [->|Hne'].
    + exists r. rewrite list_lookup_insert_eq by by eapply lookup_lt_Some. split; [done|].
      cbn [chain]. split; [done|]. split; [lia|]. exists (set_next h c). rewrite store_grown, decide_True by done. split; [done|].
      destruct (bi_bucket _ _ _ _ I t Htr) as (h' & Hh' & Hch). rewrite Hh in Hh'. injection Hh' as <-.
      apply Hext; [|done]. intros q Hq. by eapply list_member.
    + destruct (bi_bucket _ _ _ _ I t' Ht') as (g & Hg & Hch). exists g. rewrite list_lookup_insert_ne by lia.
      split; [done|]. apply Hext; [|done]. intros q Hq. by eapply list_member.
  - intros t' p Ht' Hp. unfold upd in Hp.
    assert ((t' = t ∧ p = r) ∨ p ∈ L t') as [[-> ->]|Hp'].
    { destruct (decide (t' = t)) as [->|]; [|by right]. apply elem_of_cons in Hp as [->|]; [by left|by right]. }
    + split; [done|]. exists (set_next h c), u. rewrite store_grown, decide_True by done.
      split; [done|]. split; [|split; [by destruct Hinv as [[] ? ? ?]|split; [done|cbn; congruence]]].
      change (begin (set_next h c)) with (begin c). rewrite Hbeg. cbn [grown bits]. by rewrite lookup_insert_eq.
    + destruct (bi_small _ _ _ _ I t' p Ht' Hp') as [Hc' (d & w & Hd & Hw & Hrest)]. split; [done|]. exists d, w.
      rewrite store_grown, decide_False by by eapply not_grown. by rewrite (bits_grown h n p d Hd).
  - intros t' Ht'. cbn [grown next_free start]. unfold upd. pose proof (bi_caps _ _ _ _ I t' Ht') as Hcap.
    assert (∀ t2, 0 ≤ t2 < 8 → sum max_elements (store (grown h n)) (L t2) = sum max_elements (store b) (L t2)) as Hsum.
    { intros t2 Ht2. by apply grown_sum. }
    destruct (decide (t' = t)) as [->|]; [|rewrite Hsum by done; lia].
    change (max_elements (at_ (store (grown h n)) r) + sum max_elements (store (grown h n)) (L t) ≤ next_free b + 1024 - start b).
    rewrite Hsum by done. unfold at_. rewrite store_grown, decide_True by done. cbn [default].
    change (max_elements (id (set_next h c))) with (max_elements c). lia.
  - apply Hext; [|apply (bi_large _ _ _ _ I)]. intros q Hq. apply Hbig. set_solver.
  - apply Hext; [|apply (bi_large_free _ _ _ _ I)]. intros q Hq. apply Hbig. set_solver.
  - intros p Hp. destruct (bi_large_ok _ _ _ _ I p Hp) as (d & Hd & E). exists d.
    by rewrite store_grown, decide_False by by eapply not_grown.
  - intros p d. rewrite store_grown. unfold upd. destruct (decide (p = r)) as [->|Hpr].
    + intros _. left. exists t. rewrite decide_True by done. split; [done|]. by left.
    + intros Hd. destruct (bi_dom _ _ _ _ I p d Hd) as [(t' & Ht' & Hp)|Hp]; [left|by right].
      exists t'. split; [done|]. destruct (decide (t' = t)) as [->|]; [by right|done].
  - intros p d. rewrite store_grown. cbn [grown start next_free]. destruct (decide (p = r)) as [->|Hpr].
    + intros [= <-]. cbn [set_next begin bytes]. rewrite Hb, Hbeg. lia.
    + intros Hd. pose proof (bi_region _ _ _ _ I p d Hd). lia.
  - intros p q d e. rewrite !store_grown. destruct (decide (p = r)) as [->|Hpr], (decide (q = r)) as [->|Hqr]; [done|..].
    + intros [= <-] He' _. pose proof (bi_region _ _ _ _ I q e He'). cbn [set_next begin bytes]. rewrite Hb, Hbeg. lia.
    + intros Hd [= <-] _. pose proof (bi_region _ _ _ _ I p d Hd). cbn [set_next begin bytes]. rewrite Hb, Hbeg. lia.
    + apply (bi_apart _ _ _ _ I).
  - intros p d. rewrite store_grown, grown_elem. destruct (decide (p = r)) as [->|]; [done|]. apply (bi_header _ _ _ _ I).
Qed.
Lemma head_not_new h : buckets b !! Z.to_nat t = Some h → h ≠ r.
Proof.
  intros Hh. destruct (bi_bucket _ _ _ _ I t class_range) as (h' & Hh' & Hch). rewrite Hh in Hh'. injection Hh' as <-.
  destruct (elem_bounds b L G GF I r _ Hr) as (Hb & _ & _). pose proof (bi_start _ _ _ _ I).
  destruct (L t) as [|p l] eqn:E; cbn [chain] in Hch; [lia|]. destruct Hch as (-> & _ & d & Hd & _). by eapply not_grown.
Qed.
Lemma grown_counted h : counted (grown h (sum nfree (store b) (L t))) (upd L t (r :: L t)).
Proof.
  intros t' Ht'. unfold upd. cbn [grown nfrees]. destruct (decide (t' = t)) as [->|Hne].
  - rewrite list_lookup_insert_eq by (eapply lookup_lt_Some; by apply N). f_equal.
    change (sum nfree (store b) (L t) + nfree c =
      nfree (at_ (store (grown h (sum nfree (store b) (L t)))) r) + sum nfree (store (grown h (sum nfree (store b) (L t)))) (L t)).
    rewrite grown_sum by done. unfold at_. rewrite store_grown, decide_True by done. cbn [default id set_next nfree]. lia.
  - rewrite list_lookup_insert_ne by (unfold class in Ht; lia). rewrite grown_sum by done. by apply N.
Qed.

(** The list of the class has the new chunk first, with all its elements free. *)
Lemma make_chunk_spec : ∃ b', make_chunk t 1024 r b = Ok (r, b') ∧
  block_inv b' (upd L t (r :: L t)) G GF ∧ counted b' (upd L t (r :: L t)) ∧
  (∀ q m, elem b' q m ↔ elem b q m) ∧ (∀ q, store b' !! q = None ↔ q ≠ r ∧ store b !! q = None) ∧
  (∃ d, store b' !! r = Some d ∧ 1 < nfree d) ∧
  start b' = start b ∧ size b' = size b ∧ next_free b' = next_free b + 1024 ∧
  in_alloc_chunk b' = in_alloc_chunk b ∧
  ∀ t', 0 ≤ t' < 8 → sum nfree (store b) (L t') ≤ sum nfree (store b') (upd L t (r :: L t) t').
Proof.
  destruct (bi_bucket _ _ _ _ I t class_range) as (h & Hh & _).
  destruct (fresh_chunk_facts t (next_free b) Ht) as (_ & _ & _ & _ & _ & _ & Hn & _). fold c in Hn.
  exists (grown h (sum nfree (store b) (L t))).
  split; [apply make_chunk_run; [done|by apply head_not_new]|].
  split; [by apply grown_inv|]. split; [apply grown_counted|]. split; [intros; apply grown_elem|].
  split. { intros q. rewrite store_grown. destruct (decide (q = r)) as [->|]; naive_solver. }
  split. { exists (set_next h c). by rewrite store_grown, decide_True. }
  split_and!; try done. intros t' Ht'. unfold upd. destruct (decide (t' = t)) as [->|]; [|by rewrite grown_sum].
  change (sum nfree (store b) (L t) ≤
      nfree (at_ (store (grown h (sum nfree (store b) (L t)))) r) + sum nfree (store (grown h (sum nfree (store b) (L t)))) (L t)).
  rewrite grown_sum by done. unfold at_. rewrite store_grown, decide_True by done. cbn [default id set_next nfree]. lia.
Qed.
End NewChunk.

(** ** [_alloc_small] *)
Lemma alloc_small_eq d t b : _alloc_small (S d) t b =
  ((nf ← get_nfrees t;
    cp ← (if negb (nf =? 0) then
            head ← get_bucket t;
            st ← get;
            find_has_free (walk_fuel st) head 0
          else
            chunk ← alloc_chunk (_alloc_small d) t 1024;
            mret (chunk, 0));
    if cp.1 =? 0 then mret 0 else take_from t cp.1 cp.2) : M Z) b.
Proof. reflexivity. Qed.

Section Existing.
Context b (L : Z → list Z) (G GF : list Z) (I : block_inv b L G GF) (N : counted b L).
Context (t : Z) (Ht : 0 ≤ t < 8) (Hpos : 0 < sum nfree (store b) (L t)).

(** With a free element in its class, [_alloc_small] takes one, at any depth. *)
Lemma alloc_existing d : ∃ r b' L', _alloc_small (S d) t b = Ok (r, b') ∧ block_inv b' L' G GF ∧ counted b' L' ∧
  gained b b' r (get_size t) ∧ dom (store b') = dom (store b) ∧ same_geometry b b' ∧
  in_alloc_chunk b' = in_alloc_chunk b ∧
  ∀ t', 0 ≤ t' < 8 → sum nfree (store b') (L' t') = sum nfree (store b) (L t') - (if decide (t' = t) then 1 else 0).
Proof.
  destruct (bi_bucket _ _ _ _ I t Ht) as (h & Hh & Hch).
  destruct (find_has_free_spec b (L t) h 0 (walk_fuel b) Hch) as (l1 & p & l2 & c & HL & Hp & Hn & Hfind).
  - unfold walk_fuel. pose proof (MemBlock.chain_length _ _ _ Hch). lia.
  - intros q Hq. by eapply nfree_bounds.
  - done.
  - assert (p ≠ 0) as Hp0 by (apply (chain_lookup _ _ _ p Hch); rewrite HL; set_solver).
    destruct (take_from_spec b L G GF t p c l1 l2 (default 0 (list.last l1)) I N Ht HL (prev_of_last l1 0) Hp Hn)
      as (r & b' & L' & Hrun & Hrest).
    exists r, b', L'. split; [|exact Hrest]. rewrite alloc_small_eq.
    rewrite (ST_bind_step _ (get_nfrees t) b (sum nfree (store b) (L t)) b) by (unfold get_nfrees; by rewrite (N t Ht)).
    destruct (Z.eqb_spec (sum nfree (store b) (L t)) 0) as [|_]; [lia|]. cbn [negb].
    rewrite (ST_bind_step _ _ b (p, default 0 (list.last l1)) b).
    + cbn [fst snd]. by destruct (Z.eqb_spec p 0).
    + rewrite (ST_bind_step _ (get_bucket t) b h b) by (unfold get_bucket; by rewrite Hh).
      by rewrite (ST_bind_step _ get b b b eq_refl).
Qed.
End Existing.

(** ** [alloc_chunk] *)
Lemma alloc_chunk_eq rec t b : in_alloc_chunk b = false → alloc_chunk rec t 1024 b =
  ((r ← rec (get_type sizeof_chunkinfo);
    chunk ← (if r =? 0 then mret 0 else make_chunk t 1024 r);
    modify (set_in_alloc false) ;;
    mret chunk) : M Z) (set_in_alloc true b).
Proof.
  intros H. change (alloc_chunk rec t 1024 b) with
    ((inn ← gets in_alloc_chunk;
      sassert (negb inn) "!in_alloc_chunk" ;;
      modify (set_in_alloc true) ;;
      chunk ← (r ← rec (get_type sizeof_chunkinfo); if r =? 0 then mret 0 else make_chunk t 1024 r);
      modify (set_in_alloc false) ;;
      mret chunk : M Z) b).
  rewrite (ST_bind_step _ (gets in_alloc_chunk) b false b) by (unfold gets; by rewrite H).
  rewrite (ST_bind_step _ _ b tt b) by done.
  rewrite (ST_bind_step _ (modify _) b tt (set_in_alloc true b)) by done.
  unfold mbind, ST_bind. by destruct (rec _ _) as [[r b1]|].
Qed.

Lemma set_in_alloc_inv b L G GF v : block_inv b L G GF → block_inv (set_in_alloc v b) L G GF.
Proof.
  intros I. pose proof (bi_small _ _ _ _ I) as Hs. destruct I. split; try done.
  intros t p Ht Hp. by apply (small_next b); [| |apply Hs].
Qed.

(** The header of the new chunk is the element that has come into use. *)
Record grew b b' (r : Z) : Prop := {
  gr_gained : gained b b' r sizeof_chunkinfo;
  gr_dom q : store b' !! q = None ↔ q ≠ r ∧ store b !! q = None;
  gr_start : start b' = start b;
  gr_size : size b' = size b;
  gr_next : next_free b' = next_free b + 1024;
}.

Lemma alloc_chunk_spec b L G GF d t : block_inv b L G GF → counted b L → class t → in_alloc_chunk b = false →
  0 < sum nfree (store b) (L 3) → next_free b + 1024 ≤ start b + size b →
  ∃ r b' L' l, alloc_chunk (_alloc_small (S d)) t 1024 b = Ok (r, b') ∧
    block_inv b' L' G GF ∧ counted b' L' ∧ grew b b' r ∧ in_alloc_chunk b' = false ∧
    r ≠ 0 ∧ L' t = r :: l ∧ (∃ c, store b' !! r = Some c ∧ 1 < nfree c) ∧
    ∀ t', 0 ≤ t' < 8 → sum nfree (store b) (L t') - (if decide (t' = 3) then 1 else 0) ≤ sum nfree (store b') (L' t').
Proof.
  intros I N Ht Hflag Hres Hroom.
  destruct (alloc_existing (set_in_alloc true b) L G GF (set_in_alloc_inv _ _ _ _ true I) N 3 ltac:(lia) Hres d)
    as (r & b1 & L1 & Hrun & I1 & N1 & [He Ha] & Hdom & (Gs & Gz & Gn) & _ & Hsum).
  assert (elem b1 r sizeof_chunkinfo) as Hr by (apply He; by left).
  assert (store b !! r = None) as Hnew.
  { destruct (store b !! r) as [c|] eqn:Hc; [exfalso|done].
    pose proof (bi_header _ _ _ _ I r c Hc) as Hh. apply Ha in Hh. change (get_size 3) with 32 in Hh. unfold sizeof_chunkinfo in Hh. lia. }
  assert (store b1 !! r = None) as Hnew1.
  { apply not_elem_of_dom. rewrite Hdom. by apply not_elem_of_dom. }
  destruct (make_chunk_spec b1 L1 G GF I1 N1 t r Ht Hr Hnew1) as (b2 & Hmake & I2 & N2 & He2 & Hd2 & Hc2 & Es & Ez & En & _ & Hsum2).
  { cbn in Gs, Gz, Gn. lia. }
  pose proof (elem_bounds _ _ _ _ I1 r _ Hr) as (Hr0 & _ & _). pose proof (bi_start _ _ _ _ I1).
  exists r, (set_in_alloc false b2), (upd L1 t (r :: L1 t)), (L1 t). split.
  { rewrite alloc_chunk_eq by done. rewrite (ST_bind_step _ _ _ _ _ Hrun).
    destruct (Z.eqb_spec r 0) as [|_]; [lia|]. by rewrite (ST_bind_step _ _ _ _ _ Hmake). }
  split; [by apply set_in_alloc_inv|]. split; [exact N2|]. split.
  { split; cbn [set_in_alloc start size next_free store] in *.
    - split; [|exact Ha]. intros q m. change (elem (set_in_alloc false b2) q m) with (elem b2 q m). by rewrite He2, He.
    - intros q. rewrite Hd2, <-!not_elem_of_dom, Hdom. done.
    - congruence.
    - congruence.
    - lia. }
  split; [done|]. split; [lia|]. split; [by rewrite upd_eq|]. split; [exact Hc2|].
  intros t' Ht'. specialize (Hsum t' Ht'). specialize (Hsum2 t' Ht').
  change (store (set_in_alloc true b)) with (store b) in Hsum. change (store (set_in_alloc false b2)) with (store b2). lia.
Qed.

(** ** [malloc] of a small request *)

(** The allocator between two calls: the invariant, the counters, and an element
    in reserve for the header of the next chunk. *)
Definition ready b : Prop := ∃ L G GF, block_inv b L G GF ∧ counted b L ∧ in_alloc_chunk b = false ∧
  0 < sum nfree (store b) (L 3).

(** The elements of clients are those they had and the new one. *)
Record handed b b' (r n : Z) : Prop := {
  ha_live q m : live b' q m ↔ (q = r ∧ m = n) ∨ live b q m;
  ha_apart q m : live b q m → r + n ≤ q ∨ q + m ≤ r;
  ha_inside : start b ≤ r ∧ r + n ≤ start b + size b;
  ha_start : start b' = start b;
  ha_size : size b' = size b;
}.

Lemma grew_live b b' r L G GF : block_inv b L G GF → grew b b' r → ∀ q m, live b' q m ↔ live b q m.
Proof.
  intros I [[He Ha] Hd _ _ _] q m. unfold live. rewrite He, Hd. split.
  - intros ([[-> _]|H] & Hne & Hs); done.
  - intros [H Hs]. split; [by right|]. split; [|done]. intros ->.
    pose proof (elem_bounds _ _ _ _ I r m H). apply Ha in H. unfold sizeof_chunkinfo in H. lia.
Qed.

Lemma make_sure_spec b L G GF : block_inv b L G GF → counted b L → in_alloc_chunk b = false →
  0 < sum nfree (store b) (L 3) → next_free b + 1024 ≤ start b + size b →
  ∃ b' L', make_sure b = Ok (tt, b') ∧ block_inv b' L' G GF ∧ counted b' L' ∧ in_alloc_chunk b' = false ∧
    1 < sum nfree (store b') (L' 3) ∧ (∀ q m, live b' q m ↔ live b q m) ∧
    start b' = start b ∧ size b' = size b ∧ next_free b ≤ next_free b' ≤ next_free b + 1024.
Proof.
  intros I N Hflag Hres Hroom. unfold make_sure. cbv zeta. change (get_type sizeof_chunkinfo) with 3.
  rewrite (ST_bind_step _ (get_nfree_type 3) b (sum nfree (store b) (L 3)) b)
    by (unfold get_nfree_type, get_nfrees; by rewrite (N 3)).
  destruct (Z.eqb_spec (sum nfree (store b) (L 3)) 1) as [E|E].
  - destruct (alloc_chunk_spec b L G GF 2 3) as (r & b' & L' & l & Hrun & I' & N' & Hgrew & Hflag' & _ & HL & (c & Hc & Hn) & _);
      try done.
    exists b', L'. unfold DEPTH. rewrite (ST_bind_step _ _ _ _ _ Hrun). split; [done|].
    split; [done|]. split; [done|]. split; [done|]. split; [|split; [by eapply grew_live|]].
    + assert (∀ q, q ∈ L' 3 → 0 ≤ nfree (at_ (store b') q)) as Hnn by (intros q Hq; by eapply (nfree_bounds b' L' G GF I' 3)).
      rewrite HL in Hnn |- *. change (1 < nfree (at_ (store b') r) + sum nfree (store b') l). rewrite (at_lookup _ _ _ Hc).
      pose proof (sum_nonneg nfree (store b') l (fun q Hq => Hnn q (list_elem_of_further _ _ _ Hq))). lia.
    + destruct Hgrew as [_ _ -> -> ->]. lia.
  - exists b, L. split; [done|]. split_and!; try done; lia.
Qed.

(** An element that has come into use is not a header. *)
Lemma gained_handed b L b' L' G GF r n : block_inv b L G GF → block_inv b' L' G GF → gained b b' r n →
  dom (store b') = dom (store b) → same_geometry b b' → handed b b' r n.
Proof.
  intros I I' [He Ha] Hdom (Gs & Gz & Gn). assert (elem b' r n) as Hr by (apply He; by left).
  destruct (elem_bounds _ _ _ _ I' r n Hr) as (Hr1 & Hr2 & Hr3). pose proof (bi_end _ _ _ _ I').
  assert (∀ q, store b' !! q = None ↔ store b !! q = None) as Hd by (intros q; by rewrite <-!not_elem_of_dom, Hdom).
  split; try done.
  - intros q m. unfold live. rewrite He, Hd. split; [naive_solver|]. intros [[-> ->]|[H1 H2]]; [|naive_solver].
    split; [by left|]. destruct (store b !! r) as [c|] eqn:Hc; [exfalso|done].
    pose proof (bi_header _ _ _ _ I r c Hc) as Hh. apply Ha in Hh. unfold sizeof_chunkinfo in Hh. lia.
  - intros q m [Hq _]. by apply Ha.
  - rewrite <-Gs, <-Gz. lia.
Qed.
Lemma handed_after b b1 b2 r n : handed b1 b2 r n → (∀ q m, live b1 q m ↔ live b q m) →
  start b1 = start b → size b1 = size b → handed b b2 r n.
Proof.
  intros [Hl Ha Hi Es Ez] H E1 E2. split; [| |rewrite <-E1, <-E2; done|congruence|congruence].
  - intros q m. by rewrite Hl, H.
  - intros q m Hq%H. by apply Ha.
Qed.

(** [_alloc_small] with an element to spare for a header. *)
Lemma alloc_small_ready b L G GF t : block_inv b L G GF → counted b L → class t → in_alloc_chunk b = false →
  1 < sum nfree (store b) (L 3) → next_free b + 1024 ≤ start b + size b →
  ∃ r b', _alloc_small DEPTH t b = Ok (r, b') ∧ ready b' ∧ handed b b' r (get_size t) ∧
    next_free b' ≤ next_free b + 1024.
Proof.
  intros I N Ht Hflag Hres Hroom. assert (0 ≤ t < 8) as Htr by (unfold class in Ht; lia).
  destruct (decide (0 < sum nfree (store b) (L t))) as [Hpos|Hnone].
  - destruct (alloc_existing b L G GF I N t Htr Hpos 2) as (r & b' & L' & Hrun & I' & N' & Hg & Hdom & Hgeo & Hf & Hsum).
    exists r, b'. split; [exact Hrun|]. split; [|split; [by eapply gained_handed|by destruct Hgeo as (_ & _ & ->); lia]].
    exists L', G, GF. split_and!; [done..|congruence|]. rewrite Hsum by lia. destruct (decide _); lia.
  - pose proof (count_bounds b L G GF I t Htr) as Hcb.
    assert (t ≠ 3) as Ht3 by (intros ->; lia).
    destruct (alloc_chunk_spec b L G GF 1 t I N Ht Hflag ltac:(lia) Hroom)
      as (p & b1 & L1 & l & Hrun1 & I1 & N1 & Hgrew & Hflag1 & Hp0 & HL1 & (c & Hc & Hn) & Hsum1).
    destruct (take_from_spec b1 L1 G GF t p c [] l 0 I1 N1 Htr HL1 ltac:(by left) Hc ltac:(lia))
      as (r & b2 & L2 & Hrun2 & I2 & N2 & Hg & Hdom & Hgeo & Hf & Hsum2).
    exists r, b2. split; [|split; [|split]].
    + unfold DEPTH. rewrite alloc_small_eq.
      rewrite (ST_bind_step _ (get_nfrees t) b 0 b) by (unfold get_nfrees; rewrite (N t Htr); do 3 f_equal; lia).
      cbn [Z.eqb negb]. rewrite (ST_bind_step _ _ b (p, 0) b1) by (by rewrite (ST_bind_step _ _ _ _ _ Hrun1)).
      cbn [fst snd]. by destruct (Z.eqb_spec p 0).
    + exists L2, G, GF. split_and!; [done..|congruence|]. rewrite Hsum2 by lia. specialize (Hsum1 3 ltac:(lia)).
      rewrite decide_True in Hsum1 by done. rewrite decide_False by done. lia.
    + apply (handed_after b b1); [by eapply gained_handed|by eapply grew_live|by destruct Hgrew..].
    + destruct Hgeo as (_ & _ & ->). destruct Hgrew as [_ _ _ _ ->]. lia.
Qed.

Lemma malloc_ready b sz : ready b → 0 ≤ sz ≤ 256 → next_free b + 2048 ≤ start b + size b →
  ∃ r b', malloc sz b = Ok (r, b') ∧ ready b' ∧ handed b b' r (get_size (get_type sz)) ∧
    next_free b' ≤ next_free b + 2048.
Proof.
  intros (L & G & GF & I & N & Hflag & Hres) Hsz Hroom.
  assert (class (get_type sz)) as Hcl by (unfold class; by apply small_class).
  destruct (make_sure_spec b L G GF I N Hflag Hres ltac:(lia))
    as (b1 & L1 & Hrun1 & I1 & N1 & Hflag1 & Hres1 & Hlive & Es & Ez & En).
  destruct (alloc_small_ready b1 L1 G GF (get_type sz) I1 N1 Hcl Hflag1 Hres1 ltac:(lia))
    as (r & b2 & Hrun2 & Hready & Hh & En2).
  exists r, b2. split; [|split; [done|split; [by eapply handed_after|lia]]].
  unfold malloc, alloc. rewrite u32_small by lia.
  destruct (Z.eqb_spec (get_type sz) LARGE_CHUNK) as [E|_]; [unfold class, LARGE_CHUNK in *; lia|].
  unfold alloc_small. by rewrite (ST_bind_step _ _ _ _ _ Hrun1).
Qed.

(** ** [free] *)
Lemma find_loop_at b q p c l2 : store b !! p = Some c → is_part c q = true → ∀ l1 h prev n,
  chain (store b) h (l1 ++ p :: l2) → (length (l1 ++ p :: l2) < n)%nat →
  (∀ x d, x ∈ l1 → store b !! x = Some d → is_part d q = false) →
  find_chunk_type_loop n h prev q b = Ok ((p, default prev (list.last l1)), b).
Proof.
  intros Hp Hpart. induction l1 as [|x l1 IH]; intros h prev n Hch Hn Hno;
    (destruct n as [|n]; [by apply Nat.nlt_0_r in Hn|]); cbn [find_chunk_type_loop app] in *;
    destruct Hch as (-> & Hx & d & Hd & Hch).
  - destruct (Z.eqb_spec p 0) as [|_]; [done|]. rewrite (ST_bind_step _ _ _ _ _ (chunk_at_step b p c Hp)). by rewrite Hpart.
  - destruct (Z.eqb_spec x 0) as [|_]; [done|]. rewrite (ST_bind_step _ _ _ _ _ (chunk_at_step b x d Hd)).
    rewrite (Hno x d) by (done || by left). rewrite (IH (next d) x n Hch).
    + do 3 f_equal. by destruct l1 as [|y l0 _] using rev_ind; [|rewrite app_comm_cons, !last_snoc].
    + cbn [length] in Hn. lia.
    + intros y e Hy. apply Hno. by right.
Qed.

Section Find.
Context b (L : Z → list Z) (G GF : list Z) (I : block_inv b L G GF).
Context (t p : Z) c (u : list Z) (k : Z) (Ht : 0 ≤ t < 8) (Hin : p ∈ L t) (Hp : store b !! p = Some c)
  (Hinv : chunk_inv c u) (Hk : 0 ≤ k < max_elements c).

(** The address is inside one chunk only. *)
Lemma part_unique x d : store b !! x = Some d → is_part d (elem_addr c k) = true → x = p.
Proof.
  intros Hx Hpart. destruct (decide (x = p)) as [|Hne]; [done|exfalso].
  unfold is_part in Hpart. apply andb_true_iff in Hpart as [H1%Z.leb_le H2%Z.ltb_lt].
  pose proof (elem_addr_bounds (CState 0 c u) Hinv k Hk) as Hb. cbn [info] in Hb.
  pose proof (first_element_pos c (inv_geo _ _ Hinv)). pose proof (geo_elm _ (inv_geo _ _ Hinv)).
  assert (0 ≤ first_element d) by apply u32_range.
  destruct (bi_apart _ _ _ _ I x p d c Hx Hp Hne); lia.
Qed.
Lemma find_type_at : ∃ l1 l2, L t = l1 ++ p :: l2 ∧
  find_chunk_type t (elem_addr c k) b = Ok ((p, default 0 (list.last l1)), b).
Proof.
  destruct (bi_bucket _ _ _ _ I t Ht) as (h & Hh & Hch).
  pose proof (chain_NoDup _ _ _ Hch) as Hnd. pose proof (MemBlock.chain_length _ _ _ Hch) as Hlen.
  apply list_elem_of_split in Hin as (l1 & l2 & HL). exists l1, l2. split; [done|]. rewrite HL in Hch, Hnd, Hlen.
  unfold find_chunk_type. rewrite (ST_bind_step _ (get_bucket t) b h b) by (unfold get_bucket; by rewrite Hh).
  rewrite (ST_bind_step _ get b b b eq_refl). apply (find_loop_at b _ p c l2); try done.
  - exact (elem_addr_is_part (CState 0 c u) Hinv k Hk).
  - unfold walk_fuel. lia.
  - intros x d Hx Hd. destruct (is_part d _) eqn:E; [exfalso|done].
    rewrite (part_unique x d Hd E) in Hx. apply list.NoDup_app in Hnd as (_ & Hl1 & _). apply (Hl1 p Hx). by left.
Qed.
Lemma find_type_other t' : 0 ≤ t' < 8 → t' ≠ t → ∃ q, find_chunk_type t' (elem_addr c k) b = Ok ((0, q), b).
Proof.
  intros Ht' Hne. destruct (bi_bucket _ _ _ _ I t' Ht') as (h & Hh & Hch).
  pose proof (MemBlock.chain_length _ _ _ Hch) as Hlen. unfold find_chunk_type.
  rewrite (ST_bind_step _ (get_bucket t') b h b) by (unfold get_bucket; by rewrite Hh).
  rewrite (ST_bind_step _ get b b b eq_refl).
  destruct (find_chunk_type_loop_spec b (walk_fuel b) h (L t') 0 (elem_addr c k) Hch) as [(x & d & q & Hx & Hd & Hpart & _)|(_ & H)].
  - unfold walk_fuel. lia.
  - exfalso. rewrite (part_unique x d Hd Hpart) in Hx. by eapply Hne, small_unique.
  - exact H.
Qed.
Lemma find_small_at i n : 2 ≤ i ≤ t + 2 → t < 6 → (Z.to_nat (t + 2 - i) < n)%nat →
  find_chunk_small n i (elem_addr c k) b = find_chunk_type t (elem_addr c k) b.
Proof.
  intros Hi Ht6. remember (Z.to_nat (t + 2 - i)) as m eqn:Hm. revert i n Hi Hm.
  induction m as [|m IH]; intros i [|n] Hi Hm Hn; [lia| |lia|]; cbn [find_chunk_small];
    (destruct (Z.ltb_spec i SMALL_ALLOC_UPPER_POW) as [_|?]; [|unfold SMALL_ALLOC_UPPER_POW in *; lia]); cbn [negb];
    unfold get_type_pow, SMALL_ALLOC_LOWER_POW; rewrite u32_small by lia.
  - replace (i - 2) with t by lia. destruct find_type_at as (l1 & l2 & HL & E).
    rewrite (ST_bind_step _ _ _ _ _ E), E. cbn [fst].
    pose proof (member_nonzero b L G GF I t p Ht Hin). by destruct (Z.eqb_spec p 0).
  - destruct (find_type_other (i - 2)) as (q & E); [lia|lia|]. rewrite (ST_bind_step _ _ _ _ _ E).
    cbn [fst Z.eqb negb]. apply IH; lia.
Qed.
End Find.

Lemma free_ready b q n : ready b → live b q n → n ≤ 128 →
  ∃ b', free q b = Ok (tt, b') ∧ ready b' ∧ (∀ q' m, live b' q' m ↔ live b q' m ∧ q' ≠ q) ∧ same_geometry b b'.
Proof.
  intros (L & G & GF & I & N & Hflag & Hres) [Hel Hnew] Hn.
  destruct (elem_at b L G GF I q n Hel) as (t & p & c & u & k & Ht & Hin & Hp & Hu & Hinv & Hk & Hus & -> & ->).
  destruct (chunk_facts b L G GF I t p c u Ht Hin Hp Hu) as (_ & Hcl & He & Hne).
  assert (t < 6) as Ht6.
  { destruct (Z.ltb_spec t 6) as [|Hge]; [done|exfalso]. assert (t = 6) as -> by (unfold class in Hcl; lia).
    rewrite He in Hn. by vm_compute in Hn. }
  pose proof (member_nonzero b L G GF I t p Ht Hin) as Hp0.
  destruct (find_type_at b L G GF I t p c u k Ht Hin Hp Hinv Hk) as (l1 & l2 & HL & Hfind).
  assert (find_chunk (elem_addr c k) b = Ok ((p, default 0 (list.last l1)), b)) as Hfind1.
  { unfold find_chunk. rewrite (ST_bind_step _ _ b (p, default 0 (list.last l1)) b).
    - cbn [fst]. by destruct (Z.eqb_spec p 0).
    - rewrite (find_small_at b L G GF I t p c u k) by (done || unfold class, SMALL_ALLOC_LOWER_POW in *; lia). done. }
  set (b1 := marked b p c u k false (nfree c + 1) (brand b)).
  assert (block_inv b1 L G GF) as I1.
  { eapply marked_inv; try done. exact (released_inv (CState 0 c u) Hinv k Hk Hus). }
  assert (∀ t', 0 ≤ t' < 8 → sum nfree (store b1) (L t') = sum nfree (store b) (L t') + (if decide (t' = t) then 1 else 0)) as Hsum.
  { intros t' Ht'. unfold b1. rewrite (marked_sum b L G GF I t p c) by done. destruct (decide (t' = t)); lia. }
  destruct (settle b1 L G GF t 1 p (set_nfree (nfree c + 1) c) l1 l2 (default 0 (list.last l1)) true I1 Ht HL (prev_of_last l1 0))
    as (b2 & b3 & L' & Hput & Hadd & (c2 & Hc2 & He2) & I3 & N3 & He3 & Hd3 & Hg3 & Hf3 & Hsum3).
  { unfold b1. rewrite store_marked. by rewrite decide_True. }
  { intros t' Ht'. rewrite Hsum by done. change (nfrees b1) with (nfrees b). rewrite (N t' Ht').
    f_equal. destruct (decide (t' = t)); lia. }
  exists b3. split; [|split; [|split]].
  - unfold free. rewrite (ST_bind_step _ _ _ _ _ Hfind1). cbn [fst snd].
    destruct (Z.eqb_spec p 0) as [|_]; [done|].
    rewrite (ST_bind_step _ _ b tt b eq_refl), (ST_bind_step _ _ _ _ _ (chunk_at_step b p c Hp)).
    destruct (Z.eqb_spec (elm_size c) (bytes c)) as [|_]; [done|]. cbn [negb].
    rewrite (ST_bind_step _ _ b tt b1) by (by apply (chunk_call_free b L G GF I t)).
    rewrite (ST_bind_step _ _ _ _ _ Hput), (ST_bind_step _ _ _ _ _ (chunk_at_step b2 p c2 Hc2)).
    rewrite He2. change (elm_size (set_nfree (nfree c + 1) c)) with (elm_size c). by rewrite (class_of_elm t c).
  - exists L', G, GF. split_and!; try done; [by rewrite Hf3|]. rewrite Hsum3, Hsum by lia. destruct (decide _); lia.
  - intros q' m. unfold live. rewrite He3. unfold b1. rewrite (marked_elem b L G GF I t p c u) by done.
    rewrite <-!not_elem_of_dom, Hd3. unfold b1. rewrite marked_dom by done. naive_solver.
  - by destruct Hg3 as (? & ? & ?).
Qed.

(** ** [tinymalloc_init] *)
(** The first chunk is the header of itself: its first element is its
    [chunkinfo_t]. *)
Definition first_chunk (mem : Z) : chunkinfo := set_nfree 6 (new_chunkinfo 32 mem 256).1.
Definition first_bits : list Z := 1 :: replicate 7 0.
Definition first_block (mem : Z) : mem_block :=
  MemBlock mem (mem + 256) (1024 * 1024) false
    (<[3%nat := mem + 8]> (replicate 8 0)) (<[3%nat := 6]> (replicate 8 0)) 0 0
    {[ mem + 8 := first_chunk mem ]} {[ mem := first_bits ]} 2.

Lemma first_alloc mem n : (n = 0 ∨ n = 1) →
  Chunk.alloc (CState n (new_chunkinfo 32 mem 256).1 (new_chunkinfo 32 mem 256).2) = Ok (mem + 8, CState (n + 1) (first_chunk mem) first_bits).
Proof.
  intros Hn. transitivity (Ok (mem + 8 + 0, CState (n + 1) (first_chunk mem) first_bits)); [|by rewrite Z.add_0_r].
  by destruct Hn as [-> | ->].
Qed.

Lemma init_run mem : 0 < mem → tinymalloc_init None mem = Ok (first_block mem).
Proof.
  intros Hmem. unfold tinymalloc_init, init. cbv zeta. change (get_size (get_type sizeof_chunkinfo)) with 32.
  change (get_type sizeof_chunkinfo) with 3. set (b0 := new_mem_block mem (1024 * 1024) 0).
  set (c := (new_chunkinfo 32 mem 256).1). set (u := (new_chunkinfo 32 mem 256).2).
  rewrite (ST_bind_step _ get b0 b0 b0 eq_refl). change (start b0) with mem. change (brand b0) with 0.
  rewrite (ST_bind_step _ _ b0 (mem + 8, CState 1 (first_chunk mem) first_bits) b0)
    by (unfold lift; by rewrite (first_alloc mem 0 ltac:(by left))). cbn [fst snd usebits rand].
  set (b1 := set_mem ∅ {[ mem := first_bits ]} 1 b0).
  rewrite (ST_bind_step _ _ b0 tt b1) by done.
  set (b2 := set_mem {[ mem + 8 := c ]} {[ mem := u ]} 1 b0).
  rewrite (ST_bind_step _ _ b1 tt b2).
  2: { unfold construct_chunk. cbn [Z.eqb]. change (new_chunkinfo 32 mem 256) with (c, u). cbv beta iota.
    rewrite bool_decide_true by (change (Z.of_nat (length u)) with 8; cbn; lia). change (Ok (tt, set_mem {[ mem + 8 := c ]} (<[mem := u]> {[ mem := first_bits ]}) 1 b0) = Ok (tt, b2)).
    by rewrite insert_singleton_eq. }
  set (b3 := set_mem {[ mem + 8 := first_chunk mem ]} {[ mem := first_bits ]} 2 b0).
  rewrite (ST_bind_step _ _ b2 (mem + 8) b3).
  2: { unfold chunk_call. cbn [b2 set_mem store]. rewrite lookup_singleton_eq. change (begin c) with mem.
    cbn [b2 set_mem bits brand]. rewrite lookup_singleton_eq. 
    pose proof (first_alloc mem 1 ltac:(by right)) as E. fold c u in E. rewrite E.
    change (Ok (mem + 8, set_mem (<[mem + 8 := first_chunk mem]> {[ mem + 8 := c ]}) (<[mem := first_bits]> {[ mem := u ]}) 2 b0) = Ok (mem + 8, b3)).
    by rewrite !insert_singleton_eq. }
  rewrite (ST_bind_step _ (chunk_at _) b3 (first_chunk mem) b3) by (apply chunk_at_step; apply lookup_singleton_eq).
  set (b4 := set_next_free (mem + 256) b3). rewrite (ST_bind_step _ _ b3 tt b4) by done.
  set (b5 := set_buckets (<[3%nat := mem + 8]> (replicate 8 0)) (set_store {[ mem + 8 := set_next 0 (first_chunk mem) ]} b4)).
  rewrite (ST_bind_step _ _ b4 tt b5).
  2: { unfold put_front. rewrite (ST_bind_step _ (chunk_at _) b4 (first_chunk mem) b4) by (apply chunk_at_step; apply lookup_singleton_eq).
    change (get_type (elm_size (first_chunk mem))) with 3. cbv zeta.
    rewrite (ST_bind_step _ (get_bucket 3) b4 0 b4) by done.
    destruct (Z.eqb_spec (mem + 8) 0) as [|_]; [lia|].
    rewrite (ST_bind_step _ _ b4 tt b4) by done.
    rewrite (ST_bind_step _ (upd_chunk _ _) b4 tt (set_store {[ mem + 8 := set_next 0 (first_chunk mem) ]} b4)); [done|].
    unfold upd_chunk. change (store b4) with ({[ mem + 8 := first_chunk mem ]} : gmap Z chunkinfo).
    by rewrite lookup_singleton_eq, insert_singleton_eq. }
  rewrite (ST_bind_step _ (chunk_at _) b5 (set_next 0 (first_chunk mem)) b5) by (apply chunk_at_step; apply lookup_singleton_eq).
  done.
Qed.

Lemma first_inv mem : 0 < mem → chunk_inv (first_chunk mem) first_bits.
Proof.
  intros Hm. pose proof (new_chunkinfo_inv 32 mem 256 ltac:(lia) ltac:(lia) ltac:(by vm_compute)) as Hi.
  set (s := CState 0 (new_chunkinfo 32 mem 256).1 (new_chunkinfo 32 mem 256).2).
  exact (taken_inv s Hi 0 ltac:(by vm_compute) ltac:(by vm_compute) ltac:(by vm_compute)).
Qed.
Definition first_lists (mem : Z) : Z → list Z := fun t => if decide (t = 3) then [mem + 8] else [].

Lemma first_store mem p c : store (first_block mem) !! p = Some c → p = mem + 8 ∧ c = first_chunk mem.
Proof. cbn [first_block store]. by intros [<- <-]%lookup_singleton_Some. Qed.
Lemma first_lookup mem : store (first_block mem) !! (mem + 8) = Some (first_chunk mem).
Proof. apply lookup_singleton_eq. Qed.
Lemma first_sum f mem : sum f (store (first_block mem)) [mem + 8] = f (first_chunk mem) + 0.
Proof. unfold sum. cbn [foldr]. by rewrite (at_lookup _ _ _ (first_lookup mem)). Qed.
Lemma first_elem mem q n : elem (first_block mem) q n ↔ q = mem + 8 ∧ n = 32.
Proof.
  split.
  - intros (p & c & u & k & [-> ->]%first_store & Hu & _ & Hk & Hus & -> & ->).
    cbn [first_block bits] in Hu. change (begin (first_chunk mem)) with mem in Hu.
    rewrite lookup_singleton_eq in Hu. injection Hu as <-. change (max_elements (first_chunk mem)) with 7 in Hk.
    assert (k = 0 ∨ k = 1 ∨ k = 2 ∨ k = 3 ∨ k = 4 ∨ k = 5 ∨ k = 6) as E by lia.
    destruct E as [->|[->|[->|[->|[->|[->| ->]]]]]]; try by vm_compute in Hus. split; [|done].
    change (mem + 8 + 0 = mem + 8). lia.
  - intros [-> ->]. exists (mem + 8), (first_chunk mem), first_bits, 0. cbn [first_block store bits].
    change (begin (first_chunk mem)) with mem. rewrite !lookup_singleton_eq. split_and!; try done.
    change (mem + 8 = mem + 8 + 0). lia.
Qed.

Lemma first_ready mem : 0 < mem → ready (first_block mem).
Proof.
  intros Hm. exists (first_lists mem), [], []. split; [|split].
  - split.
    + done.
    + done.
    + cbn. lia.
    + intros t Ht. unfold first_lists. destruct (decide (t = 3)) as [->|Hne].
      * exists (mem + 8). split; [done|]. cbn [chain]. split; [done|]. split; [lia|].
        exists (first_chunk mem). by rewrite first_lookup.
      * exists 0. split; [|done]. cbn [first_block buckets]. rewrite list_lookup_insert_ne by lia.
        apply lookup_replicate_2. lia.
    + intros t p Ht. unfold first_lists. destruct (decide (t = 3)) as [->|]; [|by intros ?%elem_of_nil].
      intros ->%list_elem_of_singleton. split; [done|]. exists (first_chunk mem), first_bits. rewrite first_lookup.
      cbn [first_block bits]. change (begin (first_chunk mem)) with mem. rewrite lookup_singleton_eq.
      split_and!; try done. by apply first_inv.
    + intros t Ht. unfold first_lists. destruct (decide (t = 3)) as [->|]; [rewrite first_sum; change (max_elements (first_chunk mem)) with 7|]; cbn; lia.
    + done.
    + done.
    + by intros p ?%elem_of_nil.
    + intros p c [-> _]%first_store. left. exists 3. split; [done|]. by left.
    + intros p c [-> ->]%first_store. cbn. lia.
    + by intros p q c d [-> _]%first_store [-> _]%first_store.
    + intros p c [-> _]%first_store. by apply first_elem.
  - intros t Ht. unfold first_lists. destruct (decide (t = 3)) as [->|]; [by rewrite first_sum|].
    cbn [first_block nfrees]. rewrite list_lookup_insert_ne by lia. apply lookup_replicate_2. lia.
  - split; [done|]. unfold first_lists. by rewrite decide_True, first_sum.
Qed.

(** ** The promise *)

(** [tinymalloc_init] leaves the allocator ready, wherever [mmap] has put
    the block: the first chunk holds its own header, and clients hold nothing. *)
Lemma init_ready mem : 0 < mem →
  ∃ b, tinymalloc_init None mem = Ok b ∧ ready b ∧ start b = mem ∧ size b = 1024 * 1024 ∧
    next_free b = mem + 256 ∧ ∀ q n, ¬ live b q n.
Proof.
  intros Hm. exists (first_block mem). split; [by apply init_run|]. split; [by apply first_ready|].
  split_and!; try done. intros q n [[-> _]%first_elem H]. by rewrite first_lookup in H.
Qed.
(** C18: [malloc] of up to 256 bytes, while 2048 bytes of the block are
    unassigned, terminates without an assertion or a stray access (whatever
    chunks it has to create, its own headers included) and returns a block that
    holds the request, is inside the memory and overlaps no block in use; the
    clients' other blocks are unchanged and the allocator is ready again. *)
Theorem malloc_small b sz : ready b → 0 ≤ sz ≤ 256 → next_free b + 2048 ≤ start b + size b →
  ∃ r b', malloc sz b = Ok (r, b') ∧ ready b' ∧ handed b b' r (get_size (get_type sz)) ∧
    sz ≤ get_size (get_type sz) ∧ next_free b' ≤ next_free b + 2048.
Proof.
  intros Hready Hsz Hroom. destruct (malloc_ready b sz Hready Hsz Hroom) as (r & b' & ? & ? & ? & ?).
  exists r, b'. split_and!; try done. by apply small_fits.
Qed.
Lemma malloc_small_witness : ∃ r b', malloc 100 (first_block sample_mem) = Ok (r, b') ∧ ready b' ∧
  handed (first_block sample_mem) b' r (get_size (get_type 100)) ∧ 100 ≤ get_size (get_type 100) ∧
  next_free b' ≤ next_free (first_block sample_mem) + 2048.
Proof.
  apply (malloc_small (first_block sample_mem) 100).
  - apply first_ready. reflexivity.
  - lia.
  - by vm_compute.
Defined.

(** ** Clients *)

(** A client of the library: [run b H n] is a state after [n] calls of [malloc],
    with the blocks [H] (address and requested size) not yet freed. *)
Inductive run : mem_block → list (Z * Z) → Z → Prop :=
| run_init mem b : 0 < mem → tinymalloc_init None mem = Ok b → run b [] 0
| run_malloc b H n sz r b' : run b H n → 0 ≤ sz ≤ 256 → malloc sz b = Ok (r, b') → n < 511 → run b' ((r, sz) :: H) (n + 1)
| run_free b H1 q sz H2 n b' : run b (H1 ++ (q, sz) :: H2) n → sz ≤ 128 → free q b = Ok (tt, b') → run b' (H1 ++ H2) n.

Lemma elem_same b L G GF q n m : block_inv b L G GF → elem b q n → elem b q m → n = m.
Proof.
  intros I Hn (t & p & c & u & k & Ht & Hin & Hp & Hu & Hinv & Hk & Hus & -> & ->)%(elem_at _ _ _ _ I).
  destruct (elem_at b L G GF I _ _ Hn) as (t' & p' & c' & u' & k' & Ht' & Hin' & Hp' & Hu' & Hinv' & Hk' & Hus' & E & ->).
  destruct (slot_at b L G GF I t p c u Ht Hin Hp Hu k Hk p' c' u' k' Hp' Hinv' Hk') as [-> ->]; [done|].
  rewrite Hp in Hp'. by injection Hp' as <-.
Qed.
Lemma elems_apart b L G GF q n q' n' : block_inv b L G GF → elem b q n → elem b q' n' → q ≠ q' →
  q + n ≤ q' ∨ q' + n' ≤ q.
Proof.
  intros I (t & p & c & u & k & Ht & Hin & Hp & Hu & Hinv & Hk & Hus & -> & ->)%(elem_at _ _ _ _ I) Hq Hne.
  by apply (mark_apart b L G GF I t p c u).
Qed.

(** What the client can rely on. *)
Record sound b (H : list (Z * Z)) (n : Z) : Prop := {
  so_ready : ready b;
  so_room : next_free b ≤ start b + 256 + 2048 * n;
  so_size : size b = 1024 * 1024;
  so_live q m : live b q m ↔ ∃ sz, (q, sz) ∈ H ∧ m = get_size (get_type sz);
  so_addrs : NoDup H.*1;
  so_sizes : Forall (fun h => 0 ≤ h.2 ≤ 256) H;
}.
Lemma run_sound b H n : run b H n → 0 ≤ n ≤ 511 ∧ sound b H n.
Proof.
  induction 1 as [mem b Hm Hi|b H n sz r b' _ [Hn [R Ro Z L A S]] Hsz Hrun Hn'|b H1 q sz H2 n b' _ [Hn [R Ro Z L A S]] Hsz Hrun].
  - rewrite init_run in Hi by done. injection Hi as <-. split; [lia|]. split; try done.
    + by apply first_ready.
    + cbn. lia.
    + intros q m. split; [intros [[-> _]%first_elem Hx]; by rewrite first_lookup in Hx|].
      by intros (sz & ?%elem_of_nil & _).
    + constructor.
  - destruct (malloc_ready b sz R Hsz) as (r' & b2 & Hrun' & R' & [Hl Ha Hi Es Ez] & En); [lia|].
    rewrite Hrun' in Hrun. injection Hrun as -> ->. split; [lia|]. split; try done; [lia|congruence|..].
    + intros q m. rewrite Hl, L. setoid_rewrite elem_of_cons. naive_solver.
    + cbn. constructor; [|done]. intros (h & -> & Hh)%list_elem_of_fmap.
      assert (live b h.1 (get_size (get_type h.2))) as Hlive by (apply L; exists h.2; by destruct h).
      apply Ha in Hlive as Hap. pose proof (small_pos sz Hsz).
      pose proof (small_pos h.2 (proj1 (list.Forall_forall _ _) S h Hh)). lia.
    + by constructor.
  - assert (live b q (get_size (get_type sz))) as Hlive by (apply L; exists sz; set_solver).
    assert (0 ≤ sz) as Hsz0 by (apply (proj1 (list.Forall_forall _ _) S (q, sz)); set_solver).
    destruct (free_ready b q (get_size (get_type sz)) R Hlive) as (b2 & Hrun' & R' & Hl & (Es & Ez & En)).
    { by apply small_half. }
    rewrite Hrun' in Hrun. injection Hrun as ->. split; [lia|].
    rewrite fmap_app in A. cbn [fmap list_fmap fst] in A. rewrite <-Permutation_middle in A.
    apply list.NoDup_cons in A as [Hq A]. split; try done; [by rewrite En, Es|congruence|..].
    + intros q' m. rewrite Hl, L. split.
      * intros [(sz' & Hin & ->) Hne]. exists sz'. split; [|done]. set_solver.
      * intros (sz' & Hin & ->). split; [exists sz'; split; [set_solver|done]|]. intros ->. apply Hq.
        rewrite <-fmap_app. apply list_elem_of_fmap. by exists (q, sz').
    + by rewrite fmap_app.
    + rewrite Forall_app in S |- *. destruct S as [S1 S2]. split; [done|]. by apply list.Forall_cons in S2 as [_ ?].
Qed.

(** C8: a client of the library that has made fewer than 511 requests of up to
    256 bytes, and freed any it liked of the blocks it held that were of up to
    128 bytes: its blocks are inside the memory, big enough and disjoint;
    another [malloc] succeeds, and so does the [free] of any of those blocks. *)
Theorem clients_are_served b H n : run b H n →
  (∀ q sz, (q, sz) ∈ H → start b ≤ q ∧ q + sz ≤ start b + size b) ∧
  (∀ q sz q' sz', (q, sz) ∈ H → (q', sz') ∈ H → q ≠ q' → q + sz ≤ q' ∨ q' + sz' ≤ q) ∧
  NoDup H.*1 ∧
  (n < 511 → ∀ sz, 0 ≤ sz ≤ 256 → ∃ r b', malloc sz b = Ok (r, b')) ∧
  (∀ q sz, (q, sz) ∈ H → sz ≤ 128 → ∃ b', free q b = Ok (tt, b')).
Proof.
  intros [Hn [R Ro Z L A S]]%run_sound. pose proof R as (L0 & G & GF & I & _).
  assert (∀ q sz, (q, sz) ∈ H → 0 ≤ sz ≤ 256 ∧ sz ≤ get_size (get_type sz) ∧ live b q (get_size (get_type sz))) as Hlive.
  { intros q sz Hin. pose proof (proj1 (list.Forall_forall _ _) S (q, sz) Hin) as Hs. cbn [snd] in Hs.
    split; [done|]. split; [by apply small_fits|]. apply L. by exists sz. }
  split_and!.
  - intros q sz (Hs & Hf & [He _])%Hlive. pose proof (elem_bounds _ _ _ _ I _ _ He). pose proof (bi_end _ _ _ _ I). lia.
  - intros q sz q' sz' (Hs & Hf & [He _])%Hlive (Hs' & Hf' & [He' _])%Hlive Hne.
    pose proof (elems_apart _ _ _ _ _ _ _ _ I He He' Hne). lia.
  - done.
  - intros Hlt sz Hsz. destruct (malloc_ready b sz R Hsz) as (r & b' & Hrun & _); [lia|]. by exists r, b'.
  - intros q sz Hin Hsz. destruct (Hlive q sz Hin) as (Hs & _ & Hl).
    destruct (free_ready b q _ R Hl) as (b' & Hrun & _); [apply small_half; lia|]. by exists b'.
Qed.

(** A client that asks for 100 and for 20 bytes. *)
Definition after {A} (o : outcome (A * mem_block)) b : mem_block := match o with Ok (_, b') => b' | Fault _ => b end.
Definition sample_b1 : mem_block := after (malloc 100 (first_block sample_mem)) (first_block sample_mem).
Definition sample_b2 : mem_block := after (malloc 20 sample_b1) sample_b1.
Lemma sample_run1 : run sample_b1 [(sample_mem + 256 + 8, 100)] 1.
Proof.
  apply (run_malloc (first_block sample_mem) [] 0 100); [|lia|by vm_compute|lia].
  apply (run_init sample_mem); [done|by apply init_run].
Qed.
Lemma sample_run2 : run sample_b2 [(sample_mem + 72, 20); (sample_mem + 256 + 8, 100)] 2.
Proof.
  apply (run_malloc sample_b1 [(sample_mem + 256 + 8, 100)] 1 20); [exact sample_run1|lia|by vm_compute|lia].
Qed.
Lemma clients_are_served_witness :
  start sample_b2 ≤ sample_mem + 72 ∧ sample_mem + 72 + 20 ≤ start sample_b2 + size sample_b2.
Proof. apply (proj1 (clients_are_served sample_b2 _ 2 sample_run2)). by left. Defined.

(** C19: [free] of a block in an element of up to 128 bytes that a client holds
    finds its chunk in whatever list position it is, succeeds, ends the life of
    exactly that block, and leaves the allocator ready with its memory where it
    was. *)
Theorem free_live b q n : ready b → live b q n → n ≤ 128 →
  ∃ b', free q b = Ok (tt, b') ∧ ready b' ∧ (∀ q' m, live b' q' m ↔ live b q' m ∧ q' ≠ q) ∧ same_geometry b b'.
Proof. intros Hready Hlive Hn. destruct (free_ready b q n Hready Hlive Hn) as (b' & H). by exists b'. Qed.
Lemma free_live_witness : ∃ b', free (sample_mem + 72) sample_b2 = Ok (tt, b') ∧ ready b' ∧
  (∀ q' m, live b' q' m ↔ live sample_b2 q' m ∧ q' ≠ sample_mem + 72) ∧ same_geometry sample_b2 b'.
Proof.
  apply (free_live sample_b2 (sample_mem + 72) 32).
  - exact (so_ready _ _ _ (proj2 (run_sound _ _ _ sample_run2))).
  - apply (so_live _ _ _ (proj2 (run_sound _ _ _ sample_run2))). exists 20. split; [by left|reflexivity].
  - lia.
Defined.

(** ** Large blocks *)
(** A client that asks for blocks of 300, 1000 and 2000 bytes and frees the
    first two. *)
Definition large_b0 : mem_block := first_block sample_mem.
Definition large_b1 : mem_block := after (malloc 300 large_b0) large_b0.
Definition large_b2 : mem_block := after (malloc 1000 large_b1) large_b1.
Definition large_b3 : mem_block := after (malloc 2000 large_b2) large_b2.
Definition large_b4 : mem_block := after (free (sample_mem + 256) large_b3) large_b3.
Definition large_b5 : mem_block := after (free (sample_mem + 768) large_b4) large_b4.
Definition large_b6 : mem_block := after (malloc 2000 large_b5) large_b5.

(** Above 256 bytes the allocator breaks its promise.  [put_large] and
    [put_large_free] do not reset [next] of a chunk that they append, which
    still points into the list it has come from: the list of free chunks then
    goes on into the list of chunks in use.  A client that frees two of three
    blocks and asks for 2000 bytes gets the block of 2000 bytes it still holds,
    and a cyclic list, in which the next bigger request never ends. *)
Theorem large_block_given_twice :
  tinymalloc_init None sample_mem = Ok large_b0 ∧
  malloc 300 large_b0 = Ok (sample_mem + 256, large_b1) ∧
  malloc 1000 large_b1 = Ok (sample_mem + 768, large_b2) ∧
  malloc 2000 large_b2 = Ok (sample_mem + 1792, large_b3) ∧
  free (sample_mem + 256) large_b3 = Ok (tt, large_b4) ∧
  free (sample_mem + 768) large_b4 = Ok (tt, large_b5) ∧
  malloc 2000 large_b5 = Ok (sample_mem + 1792, large_b6) ∧
  malloc 3000 large_b6 = Fault (Undefined "cyclic chunk list").
Proof. split; [by apply init_run|]. by vm_compute. Qed.
