(* ===== verification/MemTest.v ===== *)
(** * tinymalloc: the test program

    The program that tinymalloc.cpp builds with TEST defined, over a block of
    8 KiB.  It prints addresses and asserts nothing; [printed] collects them. *)

From S2P Require Import Prelude Chunk MemBlock.

(** [for (int i = 0; i < n; i++) printf("%p\n", block.alloc_small(type));] *)
Fixpoint print_allocs (n : nat) (type : Z) : M (list Z) :=
  match n with
  | O => mret []
  | S n => p ← alloc_small type; ps ← print_allocs n type; mret (p :: ps)
  end.
(** [ptr] is printed, freed, and what [alloc_small] gives next. *)
Fixpoint free_and_alloc (n : nat) (ptr : Z) : M (list Z) :=
  match n with
  | O => mret []
  | S n => free ptr ;; p ← alloc_small 2; ps ← free_and_alloc n p; mret (ptr :: ps)
  end.
Fixpoint large_pairs (n : nat) : M (list (Z * Z)) :=
  match n with
  | O => mret []
  | S n =>
      ptr ← alloc 1024; ptr2 ← alloc 768;
      free ptr ;; free ptr2 ;;
      ps ← large_pairs n; mret ((ptr, ptr2) :: ps)
  end.
Record printed := Printed { small : list Z; reused : list Z; pairs : list (Z * Z) }.
Definition main : M printed :=
  init ;;
  ps ← print_allocs 20 5;
  print_allocs 11 2 ;;
  ptr ← alloc_small 2;
  qs ← free_and_alloc 10 ptr;
  ls ← large_pairs 10;
  mret (Printed ps qs ls).
Definition run_main (mem rnd : Z) : outcome printed := fst <$> main (new_mem_block mem 8192 rnd).

(** The program runs to its end: it prints the addresses of twenty different
    elements of 128 bytes inside the block, which do not overlap, and ten times
    the same two large chunks, as each round takes what the last one freed. *)
Definition apart (n : Z) (l : list Z) : bool :=
  forallb (fun a => forallb (fun b => (a =? b) || (a + n <=? b) || (b + n <=? a)) l) l.
Definition well_printed (mem : Z) (p : printed) : bool :=
  bool_decide (NoDup (small p)) && apart 128 (small p) &&
  forallb (fun a => (mem <=? a) && (a + 128 <=? mem + 8192)) (small p) &&
  forallb (fun l => bool_decide (Some l = head (pairs p)) && (mem <=? l.1) && (l.1 + 1024 <=? l.2) && (l.2 + 768 <=? mem + 8192))
    (pairs p).
Theorem main_prints : well_printed sample_mem <$> run_main sample_mem 0 = Ok true.
Proof. vm_compute. reflexivity. Qed.
