(* ===== verification/Mux.v ===== *)
(** * mux: channels over one transport (mux/mux.h, mux/mux.cpp)

    Packets are the raw bytes in which the code sees them: 16 bytes of header
    (size, channel, sequence number, command), little-endian, and the fields
    of the packet class that the command selects.  The transport, the channel
    listener and the applications' packet and stream listeners are interfaces
    that the program's users implement: they are parameters, as state
    transformers that may call back into the mux. *)

From S2P Require Import Prelude.

(** ** Packets *)
Definition sizeof_MuxPacket : Z := 16.
Definition sizeof_OpenChanPacket : Z := 20.
Definition sizeof_OpenChanReplyPacket : Z := 32.
Definition sizeof_DataPacket : Z := 20.
Definition MaxPacketSize : Z := 4096.
Definition MaxPathLen : Z := MaxPacketSize - sizeof_MuxPacket - 4.
Definition MaxPayloadSize : Z := MaxPacketSize - sizeof_MuxPacket - 4.
Definition CHANNEL_MASK : Z := 0x1.

Inductive MuxCmd :=
| Hello | Ack | Nak | OpenChan | OpenChanReply | CloseChan | Data | OtherCmd (z : Z).
Definition cmd_Z (c : MuxCmd) : Z :=
  match c with
  | Hello => 0 | Ack => 1 | Nak => 2 | OpenChan => 3 | OpenChanReply => 4
  | CloseChan => 5 | Data => 6 | OtherCmd z => z
  end.
Definition cmd_of_Z (z : Z) : MuxCmd :=
  match z with
  | 0 => Hello | 1 => Ack | 2 => Nak | 3 => OpenChan | 4 => OpenChanReply
  | 5 => CloseChan | 6 => Data | _ => OtherCmd z
  end.
#[export] Instance MuxCmd_eq_dec : EqDecision MuxCmd.
Proof. solve_decision. Defined.

(** [reinterpret_cast]ed fields: the 32-bit word at an offset. *)
Definition word_at (off : nat) (p : list byte) : Z := le_Z (take 4 (drop off p)).
Definition set_word (off : nat) (v : Z) (p : list byte) : list byte :=
  take off p ++ le_bytes 4 v ++ drop (off + 4) p.

Definition pk_mSize := word_at 0.
Definition pk_mChan := word_at 4.
Definition pk_mSeq := word_at 8.
Definition pk_mCmd (p : list byte) : MuxCmd := cmd_of_Z (word_at 12 p).
Definition set_mSeq := set_word 8.

(** [MuxPacket(aSize, aChan, aCmd)]; [mSeq] is not initialised. *)
Definition MuxPacket (aSize aChan : Z) (aCmd : MuxCmd) : outcome (list byte) :=
  cassert (aSize <=? MaxPacketSize) "aSize <= MaxPacketSize" ;;
  mret (le_bytes 4 aSize ++ le_bytes 4 aChan ++ le_bytes 4 0 ++ le_bytes 4 (cmd_Z aCmd)).

Definition SizeOfPathLen (aLen : Z) : Z := u32 (sizeof_OpenChanPacket + aLen + 1).
Definition pk_mPathLen := word_at 16.
Definition pk_mPath (p : list byte) : list byte := drop 20 p.

(** [OpenChanPacket::Create(aPath)] for the string before the NUL. *)
Definition OpenChanPacket_Create (aPath : list byte) : outcome (list byte) :=
  let pathlen := Z.of_nat (length aPath) in
  cassert (pathlen <=? MaxPathLen) "strlen(aPath) <= MaxPathLen" ;;
  hdr ← MuxPacket (SizeOfPathLen pathlen) 0 OpenChan;
  mret (hdr ++ le_bytes 4 pathlen ++ aPath ++ [NUL]).

Definition pk_mReqSeq := word_at 16.
Definition pk_mErrno := word_at 20.
Definition pk_mDataSize := word_at 24.
Definition pk_mDataChan := word_at 28.
Definition ReplyOk : Z := 0.
Definition ReplyUnknownError : Z := 1.

Definition OpenChanReplyPacket (aReqSeq aErr aDataSize aChan : Z) : outcome (list byte) :=
  hdr ← MuxPacket sizeof_OpenChanReplyPacket 0 OpenChanReply;
  mret (hdr ++ le_bytes 4 aReqSeq ++ le_bytes 4 aErr ++ le_bytes 4 aDataSize ++ le_bytes 4 aChan).

Definition pk_mPayloadSize := word_at 16.
Definition pk_mPayload (p : list byte) : list byte := drop 20 p.

(** [DataPacket::Create] and the [memcpy] of the payload that follows it. *)
Definition DataPacket_Create (aPayloadSize aChan : Z) (payload : list byte) : outcome (list byte) :=
  hdr ← MuxPacket (u32 (sizeof_DataPacket + aPayloadSize)) aChan Data;
  cassert (aPayloadSize <=? MaxPayloadSize) "aPayloadSIze <= MaxPayloadSize" ;;
  mret (hdr ++ le_bytes 4 aPayloadSize ++ payload).

(** ** Channels *)
Inductive PacketListenerPtr :=
| PUninit                       (** never set: [Channel] does not initialise it *)
| PNull
| PMux                          (** the mux itself, for the control channel *)
| PStream                       (** the [StreamChannel] that inherits the channel *)
| PApp (l : Z).
Inductive StreamListenerPtr := SUninit | SNull | SApp (l : Z).
Inductive ChannelType := TypePacketChannel | TypeStreamChannel.

Record channel := Channel {
  mChanId : Z;
  mSize : Z;
  mType : ChannelType;
  mSeq : Z;
  mSeqPeer : Z;
  mListener : PacketListenerPtr;
  mStreamListener : StreamListenerPtr;
  mValid : bool;
}.

Definition first_seq : Z := 1.

(** [mSeq++], the number a packet carries, and [mSeqPeer++] with its [max]. *)
Definition next_seq (s : Z) : Z := u32 (s + 1).
Definition wire_seq (s : Z) : Z := if s <? first_seq then first_seq else s.
Definition next_seq_peer (s : Z) : Z := Z.max (u32 (s + 1)) first_seq.

Definition new_Channel (aId aSize : Z) : channel :=
  Channel aId aSize TypePacketChannel first_seq first_seq PUninit SUninit true.
Definition new_StreamChannel (aId : Z) : channel :=
  Channel aId 0 TypeStreamChannel first_seq first_seq PStream SUninit true.

Definition set_seq v c := Channel (mChanId c) (mSize c) (mType c) v (mSeqPeer c)
  (mListener c) (mStreamListener c) (mValid c).
Definition set_seq_peer v c := Channel (mChanId c) (mSize c) (mType c) (mSeq c) v
  (mListener c) (mStreamListener c) (mValid c).
Definition set_listener v c := Channel (mChanId c) (mSize c) (mType c) (mSeq c) (mSeqPeer c)
  v (mStreamListener c) (mValid c).
Definition set_stream_listener v c := Channel (mChanId c) (mSize c) (mType c) (mSeq c) (mSeqPeer c)
  (mListener c) v (mValid c).
Definition set_valid v c := Channel (mChanId c) (mSize c) (mType c) (mSeq c) (mSeqPeer c)
  (mListener c) (mStreamListener c) v.

(** ** The mux *)
Inductive MuxSide := SideServer | SideClient.
Definition side_Z (s : MuxSide) : Z := match s with SideServer => 0 | SideClient => 1 end.

(** A [Channel*] is the channel's number; [mChannels] holds the objects. *)
Record mux := Mux {
  mSide : MuxSide;
  mControlChan : channel;
  mNextChanId : Z;
  mChannels : gmap Z channel;
  mWaitingPackets : gmap Z (list byte);
  mInputBufSize : Z;
  mInputBuf : list byte;
}.

Definition new_Mux (aSide : MuxSide) (buf : list byte) : mux :=
  Mux aSide (set_listener PMux (new_Channel 0 0)) (4 + Z.land 0x1 (side_Z aSide)) ∅ ∅ 0 buf.

Definition set_control v m := Mux (mSide m) v (mNextChanId m) (mChannels m)
  (mWaitingPackets m) (mInputBufSize m) (mInputBuf m).
Definition set_next_id v m := Mux (mSide m) (mControlChan m) v (mChannels m)
  (mWaitingPackets m) (mInputBufSize m) (mInputBuf m).
Definition set_channels v m := Mux (mSide m) (mControlChan m) (mNextChanId m) v
  (mWaitingPackets m) (mInputBufSize m) (mInputBuf m).
Definition set_waiting v m := Mux (mSide m) (mControlChan m) (mNextChanId m) (mChannels m)
  v (mInputBufSize m) (mInputBuf m).
Definition set_input v w m := Mux (mSide m) (mControlChan m) (mNextChanId m) (mChannels m)
  (mWaitingPackets m) v w.

(** [GetChannel(aChanId)]. *)
Definition find_chan (m : mux) (aChanId : Z) : option channel :=
  if aChanId =? 0 then Some (mControlChan m) else mChannels m !! aChanId.

(** Error codes of [PacketListener::Error]. *)
Definition UnknownError : Z := 1.

(** ** What the users of the mux provide *)
Class mux_users (E : Type) := {
  (** [Transport::Write(aData, aSize)] *)
  Transport_Write : list byte → ST E Z;
  (** [ChannelListener::OnCheckDataSize(aPath)] *)
  OnCheckDataSize : list byte → ST E Z;
  (** [ChannelListener::OnChannelOpened(aSeq, aErr, aChannel, aPath, aFromPeer)] *)
  OnChannelOpened : Z → Z → option Z → option (list byte) → bool → ST (mux * E) unit;
  (** [PacketListener] of the application *)
  App_OnReceive : Z → Z → list byte → ST (mux * E) unit;
  App_OnClose : Z → Z → ST (mux * E) unit;
  App_OnError : Z → Z → Z → ST (mux * E) unit;
  (** [StreamListener] *)
  Str_OnReceive : Z → Z → Z → list byte → ST (mux * E) unit;
  Str_OnClose : Z → Z → ST (mux * E) unit;
  Str_OnError : Z → Z → Z → ST (mux * E) unit;
}.

Section Mux.
Context {E : Type} `{U : mux_users E}.
Definition M : Type → Type := ST (mux * E).

Definition getm {A} (f : mux → A) : M A := gets (fun s => f s.1).
Definition modm (f : mux → mux) : M unit := modify (fun s => (f s.1, s.2)).
Definition user {A} (m : ST E A) : M A := fun s =>
  match m s.2 with Ok (a, e) => Ok (a, (s.1, e)) | Fault f => Fault f end.

(** Access through a [Channel*]: the object must not have been deleted. *)
Definition get_chan (id : Z) : M channel := fun s =>
  match find_chan s.1 id with
  | Some c => Ok (c, s)
  | None => Fault (Undefined "use of a deleted channel")
  end.
Definition upd_chan (id : Z) (f : channel → channel) : M unit := fun s =>
  if id =? 0 then Ok (tt, (set_control (f (mControlChan s.1)) s.1, s.2)) else
  match mChannels s.1 !! id with
  | Some c => Ok (tt, (set_channels (<[id := f c]> (mChannels s.1)) s.1, s.2))
  | None => Fault (Undefined "use of a deleted channel")
  end.

Definition GetChannel (aChanId : Z) : M (option Z) :=
  c ← getm (fun m => find_chan m aChanId);
  mret (match c with Some _ => Some aChanId | None => None end).

(** [Mux::DoSend]: the [int] result is compared as unsigned. *)
Definition DoSend (aPacket : list byte) : M bool :=
  data ← lift (read_at aPacket 0 (pk_mSize aPacket));
  r ← user (Transport_Write data);
  mret (u32 r =? pk_mSize aPacket).

(** [Channel::Send]; the result is also the packet with its [mSeq]. *)
Definition Channel_Send (this : Z) (aPacket : list byte) : M (bool * list byte) :=
  c ← get_chan this;
  if negb (mValid c) then mret (false, aPacket) else
  sassert (pk_mChan aPacket =? mChanId c) "aPacket->mChan == mChanId" ;;
  upd_chan this (set_seq (next_seq (mSeq c))) ;;
  let aPacket := set_mSeq (wire_seq (mSeq c)) aPacket in
  ok ← DoSend aPacket;
  (if negb ok then upd_chan this (set_valid false) else mret tt) ;;
  mret (ok, aPacket).

(** [StreamChannel::Write]: the [while], at most [n] more iterations. *)
Fixpoint Stream_Write_loop (n : nat) (this : Z) (remain : Z) (ptr : list byte) : M bool :=
  match n with
  | O => fun _ => Fault (Undefined "out of fuel")
  | S n =>
      if negb (0 <? remain) then mret true else
      let tocopy := Z.min remain MaxPayloadSize in
      c ← get_chan this;
      payload ← lift (read_at ptr 0 tocopy);
      pkt ← lift (DataPacket_Create tocopy (mChanId c) payload);
      r ← Channel_Send this pkt;
      if negb r.1 then mret false else
      Stream_Write_loop n this (remain - tocopy) (drop (Z.to_nat tocopy) ptr)
  end.
Definition Stream_Write (this : Z) (aSize : Z) (aData : list byte) : M bool :=
  Stream_Write_loop (S (Z.to_nat aSize)) this aSize aData.

(** [Mux::Open] for the string before the NUL. *)
Definition Open (aPath : list byte) : M Z :=
  open ← lift (OpenChanPacket_Create aPath);
  r ← Channel_Send 0 open;
  if negb r.1 then mret 0 else
  let seq := pk_mSeq r.2 in
  modm (fun m => set_waiting (<[seq := r.2]> (mWaitingPackets m)) m) ;;
  mret seq.

Definition SendNak (aChanId aSeq : Z) : M bool :=
  nak ← lift (MuxPacket sizeof_MuxPacket aChanId Nak);
  DoSend (set_mSeq aSeq nak).

(** [while (GetChannel(mNextChanId)) mNextChanId += 2;]. *)
Fixpoint next_free_id (n : nat) : M unit :=
  match n with
  | O => fun _ => Fault (Undefined "no channel number is free")
  | S n =>
      id ← getm mNextChanId;
      c ← GetChannel id;
      match c with
      | Some _ => modm (set_next_id (u32 (id + 2))) ;; next_free_id n
      | None => mret tt
      end
  end.

(** [mPath] up to [mPath[mPathLen]], which must be a NUL. *)
Definition Mux_OnOpenChan (aPacket : list byte) : M unit :=
  sassert (SizeOfPathLen (pk_mPathLen aPacket) =? pk_mSize aPacket)
    "OpenChanPacket::SizeOfPathLen(request->mPathLen) == aPacket->mSize" ;;
  nul ← lift (read_at (pk_mPath aPacket) (pk_mPathLen aPacket) 1);
  sassert (bool_decide (nul = [NUL])) "request->mPath[request->mPathLen] == 0" ;;
  let path := take (Z.to_nat (strlen (pk_mPath aPacket))) (pk_mPath aPacket) in
  sz ← user (OnCheckDataSize path);
  if sz <? 0 then
    reply ← lift (OpenChanReplyPacket (pk_mSeq aPacket) ReplyUnknownError 0 0);
    Channel_Send 0 reply ;; mret tt
  else
    chan_id ← getm mNextChanId;
    let channel := if sz =? 0 then new_StreamChannel chan_id else new_Channel chan_id sz in
    modm (fun m => set_channels (<[chan_id := channel]> (mChannels m)) m) ;;
    modm (set_next_id (u32 (chan_id + 2))) ;;
    n ← getm (fun m => S (size (mChannels m)));
    next_free_id (S n) ;;
    reply ← lift (OpenChanReplyPacket (pk_mSeq aPacket) ReplyOk sz chan_id);
    Channel_Send 0 reply ;;
    OnChannelOpened (pk_mSeq aPacket) 0 (Some chan_id) (Some path) false.

Definition Mux_OnOpenChanReply (aPacket : list byte) : M unit :=
  sassert (pk_mSize aPacket =? sizeof_OpenChanReplyPacket)
    "aPacket->mSize == sizeof(OpenChanReplyPacket)" ;;
  c ← GetChannel (pk_mDataChan aPacket);
  sassert (bool_decide (c = None)) "GetChannel(reply->mDataChan) == nullptr" ;;
  side ← getm mSide;
  sassert (negb (Z.land (pk_mDataChan aPacket) CHANNEL_MASK =? side_Z side))
    "(reply->mDataChan & CHANNEL_MASK) != (int)mSide" ;;
  waiting ← getm mWaitingPackets;
  match waiting !! pk_mReqSeq aPacket with
  | None => lift (Fault (AssertFailed "pitr != mWaitingPackets.end()"))
  | Some request =>
      sassert (bool_decide (pk_mCmd request = OpenChan))
        "request->mCmd == MuxPacket::MuxCmd::OpenChan" ;;
      modm (fun m => set_waiting (delete (pk_mReqSeq aPacket) (mWaitingPackets m)) m) ;;
      if negb (pk_mErrno aPacket =? 0) then
        OnChannelOpened (pk_mReqSeq aPacket) (pk_mErrno aPacket) None None true
      else
        let id := pk_mDataChan aPacket in
        let channel :=
          if pk_mDataSize aPacket =? 0 then new_StreamChannel id
          else new_Channel id (pk_mDataSize aPacket) in
        modm (fun m => set_channels (<[id := channel]> (mChannels m)) m) ;;
        let path := take (Z.to_nat (strlen (pk_mPath request))) (pk_mPath request) in
        OnChannelOpened (pk_mReqSeq aPacket) 0 (Some id) (Some path) true
  end.

(** [Mux::OnReceive], the listener of the control channel. *)
Definition Mux_OnReceive (aChannel : Z) (aPacket : list byte) : M unit :=
  sassert (aChannel =? 0) "aChannel == &mControlChan" ;;
  match pk_mCmd aPacket with
  | Hello => sassert (pk_mSize aPacket =? sizeof_MuxPacket) "aPacket->mSize == sizeof(MuxPacket)"
  | OpenChan => Mux_OnOpenChan aPacket
  | OpenChanReply => Mux_OnOpenChanReply aPacket
  | _ => mret tt
  end.

(** [StreamChannel]'s own listener methods. *)
Definition Stream_OnReceive (this : Z) (aPacket : list byte) : M unit :=
  sassert (bool_decide (pk_mCmd aPacket = Data)) "aPacket->mCmd == MuxPacket::MuxCmd::Data" ;;
  c ← get_chan this;
  match mStreamListener c with
  | SUninit => lift (Fault (Undefined "mListener is not initialised"))
  | SNull => mret tt
  | SApp l => Str_OnReceive l this (pk_mPayloadSize aPacket)
                (take (Z.to_nat (pk_mPayloadSize aPacket)) (pk_mPayload aPacket))
  end.
Definition Stream_OnClose (this : Z) : M unit :=
  c ← get_chan this;
  match mStreamListener c with
  | SUninit => lift (Fault (Undefined "mListener is not initialised"))
  | SNull => lift (Fault (AssertFailed "mListener != nullptr"))
  | SApp l => Str_OnClose l this
  end.
Definition Stream_OnError (this aErr : Z) : M unit :=
  c ← get_chan this;
  match mStreamListener c with
  | SUninit => lift (Fault (Undefined "mListener is not initialised"))
  | SNull => lift (Fault (AssertFailed "mListener != nullptr"))
  | SApp l => Str_OnError l this aErr
  end.

(** Calls through a [PacketListener*]. *)
Definition Listener_OnReceive (l : PacketListenerPtr) (aChannel : Z) (aPacket : list byte) : M unit :=
  match l with
  | PUninit => lift (Fault (Undefined "mListener is not initialised"))
  | PNull => mret tt
  | PMux => Mux_OnReceive aChannel aPacket
  | PStream => Stream_OnReceive aChannel aPacket
  | PApp a => App_OnReceive a aChannel aPacket
  end.
Definition Listener_OnClose (l : PacketListenerPtr) (aChannel : Z) : M unit :=
  match l with
  | PUninit => lift (Fault (Undefined "mListener is not initialised"))
  | PNull => lift (Fault (AssertFailed "mListener != nullptr"))
  | PMux => mret tt
  | PStream => Stream_OnClose aChannel
  | PApp a => App_OnClose a aChannel
  end.
Definition Listener_OnError (l : PacketListenerPtr) (aChannel aErr : Z) : M unit :=
  match l with
  | PUninit => lift (Fault (Undefined "mListener is not initialised"))
  | PNull => lift (Fault (AssertFailed "mListener != nullptr"))
  | PMux => mret tt
  | PStream => Stream_OnError aChannel aErr
  | PApp a => App_OnError a aChannel aErr
  end.

Definition Channel_HandleIncomingPacket (this : Z) (aPacket : list byte) : M unit :=
  c ← get_chan this;
  sassert (pk_mChan aPacket =? mChanId c) "aPacket->mChan == mChanId" ;;
  sassert (pk_mSeq aPacket =? mSeqPeer c) "aPacket->mSeq == mSeqPeer" ;;
  sassert (mValid c) "IsValid()" ;;
  sassert (negb (bool_decide (pk_mCmd aPacket = Data)) ||
           (pk_mPayloadSize aPacket + sizeof_DataPacket =? pk_mSize aPacket))
    "mPayloadSize + sizeof(DataPacket) == aPacket->mSize" ;;
  upd_chan this (set_seq_peer (next_seq_peer (mSeqPeer c))) ;;
  Listener_OnReceive (mListener c) this aPacket.

Definition Channel_OnClose (this : Z) : M unit :=
  c ← get_chan this;
  Listener_OnClose (mListener c) this ;;
  upd_chan this (set_valid false).
Definition Channel_OnError (this aErr : Z) : M unit :=
  c ← get_chan this;
  Listener_OnError (mListener c) this aErr ;;
  upd_chan this (set_valid false).

(** [mChannels.erase(aChanId); delete chan;], where [chan] is a [Channel*]:
    the control channel is a member of the mux, not an allocated object; and
    [Channel] has no virtual destructor (mux.h), so that deleting a
    [StreamChannel] through it is undefined. *)
Definition erase_and_delete (aChanId : Z) (type : ChannelType) : M unit :=
  modm (fun m => set_channels (delete aChanId (mChannels m)) m) ;;
  if aChanId =? 0 then lift (Fault (Undefined "delete of a member object")) else
  match type with
  | TypePacketChannel => mret tt
  | TypeStreamChannel => lift (Fault (Undefined "delete of a StreamChannel through a Channel*"))
  end.

Definition DoCloseChannel (aChanId : Z) : M bool :=
  chan ← GetChannel aChanId;
  match chan with
  | None => mret false
  | Some chan =>
      Channel_OnClose chan ;; c ← get_chan chan; erase_and_delete aChanId (mType c) ;; mret true
  end.
Definition DoErrorChannel (aChanId aErr : Z) : M bool :=
  chan ← GetChannel aChanId;
  match chan with
  | None => mret false
  | Some chan =>
      Channel_OnError chan aErr ;; c ← get_chan chan; erase_and_delete aChanId (mType c) ;; mret true
  end.

Definition ChannelAskClose (aChanId : Z) : M unit :=
  channel ← GetChannel aChanId;
  match channel with
  | None => lift (Fault (AssertFailed "channel != nullptr"))
  | Some channel =>
      c ← get_chan channel;
      (if mValid c then
         close ← lift (MuxPacket sizeof_MuxPacket aChanId CloseChan);
         Channel_Send channel close ;; mret tt
       else mret tt) ;;
      ok ← DoCloseChannel aChanId;
      sassert ok "ok"
  end.
Definition Channel_Close (this : Z) : M unit :=
  c ← get_chan this; ChannelAskClose (mChanId c).

Definition Mux_HandleIncomingPacket (aPacket : list byte) : M unit :=
  match pk_mCmd aPacket with
  | CloseChan =>
      sassert (pk_mSize aPacket =? sizeof_MuxPacket) "aPacket->mSize == sizeof(MuxPacket)" ;;
      DoCloseChannel (pk_mChan aPacket) ;; mret tt
  | Nak =>
      sassert (pk_mSize aPacket =? sizeof_MuxPacket) "aPacket->mSize == sizeof(MuxPacket)" ;;
      DoErrorChannel (pk_mChan aPacket) UnknownError ;; mret tt
  | _ =>
      channel ← GetChannel (pk_mChan aPacket);
      match channel with
      | None => SendNak (pk_mChan aPacket) (pk_mSeq aPacket) ;; mret tt
      | Some channel =>
          c ← get_chan channel;
          if mValid c then Channel_HandleIncomingPacket channel aPacket
          else SendNak (pk_mChan aPacket) (pk_mSeq aPacket) ;; mret tt
      end
  end.

(** ** ReceiveRaw *)
Section Receive.
Context (handle : list byte → M unit).

(** How many bytes of [src] the iteration moves to the input buffer. *)
Definition copy_size (src : list byte) (remain bufsz : Z) (buf : list byte) : Z :=
  let copy := Z.min remain (u32 (MaxPacketSize - bufsz)) in
  if (bufsz =? 0) && (sizeof_MuxPacket <=? remain) then Z.min copy (pk_mSize src)
  else if sizeof_MuxPacket <=? bufsz then
    Z.min (s32 copy) (Z.max 0 (s32 (pk_mSize buf) - bufsz))
  else copy.

Fixpoint ReceiveRaw_loop (n : nat) (src : list byte) (remain : Z) : M bool :=
  match n with
  | O => fun _ => Fault (Undefined "out of fuel")
  | S n =>
      if negb (0 <? remain) then mret true else
      bufsz ← getm mInputBufSize;
      buf ← getm mInputBuf;
      let copy := copy_size src remain bufsz buf in
      data ← lift (read_at src 0 copy);
      buf ← lift (write_at buf bufsz data);
      let remain := remain - copy in
      let bufsz := bufsz + copy in
      let src := drop (Z.to_nat copy) src in
      modm (set_input bufsz buf) ;;
      if bufsz <? sizeof_MuxPacket then mret (remain =? 0) else
      if MaxPacketSize <? pk_mSize buf then mret false else
      if pk_mSize buf <? bufsz then mret (remain =? 0) else
      handle buf ;;
      bufsz ← getm mInputBufSize;
      buf ← getm mInputBuf;
      let rsz := u32 (bufsz - pk_mSize buf) in
      (if 0 <? rsz then
         rest ← lift (read_at buf (pk_mSize buf) rsz);
         buf ← lift (write_at buf 0 rest);
         modm (set_input (s32 rsz) buf)
       else modm (set_input (s32 rsz) buf)) ;;
      ReceiveRaw_loop n src remain
  end.
End Receive.

(** [ReceiveRaw(aData, aSize)]. *)
Definition ReceiveRaw (aData : list byte) : M bool :=
  let aSize := Z.of_nat (length aData) in
  ReceiveRaw_loop Mux_HandleIncomingPacket (S (length aData)) aData aSize.
End Mux.

(** ** Packets: what the constructors build *)
Lemma word_at_app off a v c :
  length a = off → word_at off (a ++ le_bytes 4 v ++ c) = u32 v.
Proof.
  intros <-. unfold word_at. rewrite drop_app_length, take_app_length'
    by (symmetry; apply length_le_bytes). rewrite le_Z_le_bytes. done.
Qed.

Lemma length_set_word off v p :
  (off + 4 ≤ length p)%nat → length (set_word off v p) = length p.
Proof.
  intros H. unfold set_word. rewrite !length_app, length_take, length_drop, length_le_bytes. lia.
Qed.

Lemma word_at_set_eq off v p : (off + 4 ≤ length p)%nat → word_at off (set_word off v p) = u32 v.
Proof. intros H. unfold set_word. apply word_at_app. rewrite length_take. lia. Qed.

Lemma take_drop_set_word off off' v p :
  (off' + 4 ≤ off ∨ off + 4 ≤ off')%nat → (off + 4 ≤ length p)%nat →
  take 4 (drop off' (set_word off v p)) = take 4 (drop off' p).
Proof.
  intros Hd Hl. apply list_eq. intros i. destruct (decide (i < 4)%nat).
  2: { rewrite !lookup_take_ge by lia. done. }
  rewrite !lookup_take_lt, !lookup_drop by lia. unfold set_word. destruct Hd.
  - rewrite lookup_app_l by (rewrite length_take; lia). by rewrite lookup_take_lt by lia.
  - rewrite lookup_app_r by (rewrite length_take; lia).
    rewrite lookup_app_r by (rewrite length_take, length_le_bytes; lia).
    rewrite length_take, length_le_bytes, lookup_drop. f_equal. lia.
Qed.

Lemma word_at_set_ne off off' v p :
  (off' + 4 ≤ off ∨ off + 4 ≤ off')%nat → (off + 4 ≤ length p)%nat →
  word_at off' (set_word off v p) = word_at off' p.
Proof. intros. unfold word_at. by rewrite take_drop_set_word. Qed.

(** A packet as its header words and the rest. *)
Definition packet_of (sz chan seq : Z) (cmd : MuxCmd) (rest : list byte) : list byte :=
  le_bytes 4 sz ++ le_bytes 4 chan ++ le_bytes 4 seq ++ le_bytes 4 (cmd_Z cmd) ++ rest.

Definition std_cmd (c : MuxCmd) : Prop := match c with OtherCmd _ => False | _ => True end.

Section PacketOf.
Context (sz chan seq : Z) (cmd : MuxCmd) (rest : list byte).
Let p := packet_of sz chan seq cmd rest.

Lemma length_packet_of : length p = (16 + length rest)%nat.
Proof. unfold p, packet_of. rewrite !length_app, !length_le_bytes. lia. Qed.
Lemma packet_of_mSize : pk_mSize p = u32 sz.
Proof. apply (word_at_app 0 []). done. Qed.
Lemma packet_of_mChan : pk_mChan p = u32 chan.
Proof. apply (word_at_app 4 (le_bytes 4 sz)). apply length_le_bytes. Qed.
Lemma packet_of_mSeq : pk_mSeq p = u32 seq.
Proof.
  unfold p, packet_of. rewrite app_assoc. apply word_at_app.
  by rewrite length_app, !length_le_bytes.
Qed.
Lemma packet_of_mCmd : std_cmd cmd → pk_mCmd p = cmd.
Proof.
  intros Hs. unfold pk_mCmd, p, packet_of. rewrite !app_assoc, <-(app_assoc _ _ rest).
  rewrite word_at_app by (rewrite !length_app, !length_le_bytes; done).
  destruct cmd; done.
Qed.
Lemma packet_of_set_mSeq seq' : set_mSeq seq' p = packet_of sz chan seq' cmd rest.
Proof.
  unfold set_mSeq, set_word, p, packet_of.
  rewrite (app_assoc (le_bytes 4 sz)).
  rewrite take_app_length' by (rewrite length_app, !length_le_bytes; done).
  rewrite (app_assoc (_ ++ _) (le_bytes 4 seq)).
  rewrite drop_app_length' by (rewrite !length_app, !length_le_bytes; done).
  by rewrite <-!app_assoc.
Qed.
Lemma packet_of_rest : drop 16 p = rest.
Proof.
  unfold p, packet_of. rewrite !app_assoc, drop_app_length'; [done|].
  by rewrite !length_app, !length_le_bytes.
Qed.
Lemma packet_of_word off :
  (16 ≤ off)%nat → word_at off p = word_at (off - 16) rest.
Proof.
  intros H. unfold word_at. rewrite <-packet_of_rest, drop_drop. do 3 f_equal. lia.
Qed.
End PacketOf.
#[export] Hint Rewrite packet_of_mSize packet_of_mChan packet_of_mSeq packet_of_set_mSeq
  packet_of_rest : packet.

Lemma MuxPacket_eq sz chan cmd :
  sz ≤ MaxPacketSize → MuxPacket sz chan cmd = Ok (packet_of sz chan 0 cmd []).
Proof.
  intros H. unfold MuxPacket, cassert, packet_of. destruct (Z.leb_spec sz MaxPacketSize); [|lia].
  ostep. by rewrite app_nil_r.
Qed.

Lemma packet_of_app sz chan seq cmd r1 r2 :
  packet_of sz chan seq cmd r1 ++ r2 = packet_of sz chan seq cmd (r1 ++ r2).
Proof. unfold packet_of. by rewrite <-!app_assoc. Qed.

(** ** Framing *)
Lemma take_app_exact {A} n (a b : list A) : length a = n → take n (a ++ b) = a.
Proof. intros <-. apply take_app_length. Qed.
Lemma drop_app_exact {A} n (a b : list A) : length a = n → drop n (a ++ b) = b.
Proof. intros <-. apply drop_app_length. Qed.

(** A complete packet: at least a header, at most [MaxPacketSize] bytes, and
    the size field is its length. *)
Definition frame (f : list byte) : Prop :=
  16 ≤ Z.of_nat (length f) ≤ MaxPacketSize ∧ pk_mSize f = Z.of_nat (length f).

Lemma word_at_prefix off f g :
  (off + 4 ≤ length f)%nat → word_at off (f ++ g) = word_at off f.
Proof.
  intros H. unfold word_at. rewrite drop_app_le, take_app_le by (rewrite ?length_drop; lia). done.
Qed.
Lemma frame_mSize f g : frame f → pk_mSize (f ++ g) = Z.of_nat (length f).
Proof. intros [Hl Hs]. unfold pk_mSize in *. by rewrite word_at_prefix by lia. Qed.

Lemma write_at_front {A} (l src : list A) :
  (length src ≤ length l)%nat → write_at l 0 src = Ok (src ++ drop (length src) l).
Proof. intros H. unfold write_at. rewrite bool_decide_true by lia. done. Qed.
Lemma read_at_front {A} (l : list A) n :
  (n ≤ length l)%nat → read_at l 0 (Z.of_nat n) = Ok (take n l).
Proof. intros H. unfold read_at. rewrite bool_decide_true by lia. by rewrite Nat2Z.id, drop_0. Qed.

Section Framing.
Context {E : Type} (handle : list byte → ST (mux * E) unit).
Abbreviation St := (mux * E)%type.

(** The handler leaves the input buffer alone; [ReceiveRaw] of the same mux
    is not called from inside a listener. *)
Definition keeps_input : Prop := ∀ b s u s',
  handle b s = Ok (u, s') →
  mInputBufSize s'.1 = mInputBufSize s.1 ∧ mInputBuf s'.1 = mInputBuf s.1.

Definition idle (s : St) : Prop :=
  mInputBufSize s.1 = 0 ∧ Z.of_nat (length (mInputBuf s.1)) = MaxPacketSize.

(** The specification: the handler gets each packet in turn, at the start of
    the input buffer. *)
Fixpoint deliver (fs : list (list byte)) : ST St bool :=
  match fs with
  | [] => mret true
  | f :: fs =>
      buf ← getm mInputBuf;
      let buf := f ++ drop (length f) buf in
      modm (set_input (Z.of_nat (length f)) buf) ;;
      handle buf ;;
      modm (set_input 0 buf) ;;
      deliver fs
  end.

Lemma copy_size_frame f rest remain :
  frame f → Z.of_nat (length f) ≤ remain → ∀ buf,
  copy_size (f ++ rest) remain 0 buf = Z.of_nat (length f).
Proof.
  intros Hf Hr buf. unfold copy_size. pose proof (frame_mSize f rest Hf) as Hs.
  destruct Hf as [Hl _]. destruct (Z.leb_spec sizeof_MuxPacket remain); unfold sizeof_MuxPacket in *; [|lia].
  simpl Z.eqb. simpl andb. cbv iota. rewrite Hs.
  change (u32 (MaxPacketSize - 0)) with 4096. unfold MaxPacketSize in *. lia.
Qed.

Lemma ReceiveRaw_step n f rest s :
  idle s → frame f → keeps_input →
  ReceiveRaw_loop handle (S n) (f ++ rest) (Z.of_nat (length (f ++ rest))) s =
  (buf ← getm mInputBuf;
   let buf := f ++ drop (length f) buf in
   modm (set_input (Z.of_nat (length f)) buf) ;;
   handle buf ;;
   modm (set_input 0 buf) ;;
   ReceiveRaw_loop handle n rest (Z.of_nat (length rest))) s.
Proof.
  intros [Hz Hb] Hf Hk. destruct s as [m e]; simpl in Hz, Hb.
  pose proof Hf as [Hl _]. unfold MaxPacketSize in *.
  cbn [ReceiveRaw_loop]. rewrite length_app, Nat2Z.inj_add.
  destruct (Z.ltb_spec 0 (Z.of_nat (length f) + Z.of_nat (length rest))); [|lia]. cbn [negb].
  unfold getm, gets, modm, modify, lift, mbind, ST_bind. cbn [fst snd]. rewrite Hz.
  rewrite copy_size_frame by (done || lia).
  rewrite read_at_front by (rewrite length_app; lia). rewrite take_app_exact by done.
  rewrite write_at_front by lia. rewrite Z.add_0_l, Nat2Z.id, drop_app_exact by done.
  set (buf := f ++ drop (length f) (mInputBuf m)).
  unfold sizeof_MuxPacket. destruct (Z.ltb_spec (Z.of_nat (length f)) 16); [lia|].
  unfold buf at 1. rewrite frame_mSize by done. unfold MaxPacketSize.
  destruct (Z.ltb_spec 4096 (Z.of_nat (length f))); [lia|].
  unfold buf at 1. rewrite frame_mSize by done.
  destruct (Z.ltb_spec (Z.of_nat (length f)) (Z.of_nat (length f))); [lia|].
  destruct (handle buf _) as [[u [m' e']]|err] eqn:Eh; [|done].
  apply Hk in Eh as [E1 E2]. cbn [fst snd] in *. rewrite E1, E2.
  cbn [mInputBufSize mInputBuf set_input].
  replace (pk_mSize buf) with (Z.of_nat (length f)) by (symmetry; by apply frame_mSize).
  rewrite Z.sub_diag. change (u32 0) with 0.
  change (0 <? 0) with false. change (s32 0) with 0. simpl.
  replace (Z.of_nat (length f) + Z.of_nat (length rest) - Z.of_nat (length f))
    with (Z.of_nat (length rest)) by lia.
  done.
Qed.

Lemma ReceiveRaw_frames fs n s :
  idle s → Forall frame fs → keeps_input → (length fs < n)%nat →
  ReceiveRaw_loop handle n (concat fs) (Z.of_nat (length (concat fs))) s = deliver fs s.
Proof.
  intros Hs Hfs Hk. revert n s Hs. induction Hfs as [|f fs Hf Hfs IH]; intros n s Hs Hn.
  - destruct n; [simpl in Hn; lia|done].
  - destruct n as [|n]; [simpl in Hn; lia|]. simpl in Hn. cbn [concat].
    rewrite ReceiveRaw_step by done. cbn [deliver].
    unfold getm, gets, modm, modify, mbind, ST_bind. simpl fst. simpl snd.
    destruct (handle _ _) as [[u s']|err] eqn:Eh; [|done].
    apply IH; [|lia]. destruct Hs as [_ Hb]. pose proof Hf as [Hl _]. split; [done|].
    simpl. rewrite length_app, length_drop. lia.
Qed.
End Framing.
