(* ===== verification/MuxSpec.v ===== *)
(** * What the mux promises

    The theorems about [Mux]: channel numbers, framing, routing, sequence
    numbers, the opening handshake and the transfer of a byte stream between
    two muxes.  [wire] is a concrete environment: a transport that queues what
    is written and listeners that log their calls. *)

From S2P Require Import Prelude Mux.

Ltac Zify.zify_post_hook ::= Z.div_mod_to_equations.

(** ** The number of the next channel *)
Section NextFree.
Context {E : Type} (m : mux).

Definition occupied : gset Z := {[0]} ∪ dom (mChannels m).

Lemma find_chan_occupied id : id ∈ occupied ↔ is_Some (find_chan m id).
Proof.
  unfold occupied, find_chan. rewrite elem_of_union, elem_of_singleton, elem_of_dom.
  destruct (Z.eqb_spec id 0); naive_solver.
Qed.
Lemma size_occupied : (size occupied ≤ S (size (mChannels m)))%nat.
Proof.
  unfold occupied. rewrite size_union_alt, size_singleton, <-size_dom.
  pose proof (subseteq_size (dom (mChannels m) ∖ {[0]}) (dom (mChannels m)) ltac:(set_solver)). lia.
Qed.

Definition nth_id (id : Z) (j : nat) : Z := u32 (id + 2 * Z.of_nat j).

Lemma nth_id_inj id (i j : nat) :
  Z.of_nat i < 2 ^ 31 → Z.of_nat j < 2 ^ 31 → nth_id id i = nth_id id j → i = j.
Proof. unfold nth_id, u32. intros Hi Hj H. lia. Qed.

Lemma free_id_exists id :
  Z.of_nat (size (mChannels m)) < 2 ^ 31 - 2 →
  ∃ j : nat, (j ≤ S (size (mChannels m)))%nat ∧ find_chan m (nth_id id j) = None ∧
    ∀ i : nat, (i < j)%nat → is_Some (find_chan m (nth_id id i)).
Proof.
  intros Hsz. set (n := S (S (size (mChannels m)))).
  destruct (nat_first (fun j => find_chan m (nth_id id j) = None) n)
    as [(j & Hj & Hf & Hmin)|He].
  - exists j. split_and!; [lia|done|]. intros i Hi. rewrite <-not_eq_None_Some. by apply Hmin.
  - exfalso. assert (list_to_set (nth_id id <$> seq 0 n) ⊆ occupied) as Hsub.
    { intros x. rewrite elem_of_list_to_set, list_elem_of_fmap.
      intros (j & -> & Hj). apply find_chan_occupied. rewrite <-not_eq_None_Some.
      apply He. apply elem_of_seq in Hj. lia. }
    apply subseteq_size in Hsub. rewrite size_list_to_set, length_fmap, length_seq in Hsub.
    + pose proof size_occupied. lia.
    + apply NoDup_fmap_2_strong; [|apply NoDup_seq]. intros x y ?%elem_of_seq ?%elem_of_seq.
      apply nth_id_inj; lia.
Qed.

Lemma next_free_id_S n (m' : mux) (e : E) :
  next_free_id (S n) (m', e) =
  match find_chan m' (mNextChanId m') with
  | Some _ => next_free_id n (set_next_id (u32 (mNextChanId m' + 2)) m', e)
  | None => Ok (tt, (m', e))
  end.
Proof.
  cbn [next_free_id]. unfold GetChannel, getm, gets, mbind, ST_bind. cbn [fst snd mret ST_ret].
  destruct (find_chan m' (mNextChanId m')); done.
Qed.

Lemma next_free_id_run (j n : nat) id (e : E) :
  (j < n)%nat → 0 ≤ id < 2 ^ 32 →
  find_chan m (nth_id id j) = None →
  (∀ i : nat, (i < j)%nat → is_Some (find_chan m (nth_id id i))) →
  next_free_id n (set_next_id id m, e) = Ok (tt, (set_next_id (nth_id id j) m, e)).
Proof.
  revert n id. induction j as [|j IH]; intros [|n] id Hn Hr Hfree Hocc; [lia| |lia|];
    rewrite next_free_id_S; cbn [mNextChanId set_next_id];
    change (find_chan (set_next_id id m) id) with (find_chan m id).
  - replace (nth_id id 0) with id in * by (unfold nth_id; rewrite u32_small; lia).
    by rewrite Hfree.
  - assert (∀ i, nth_id (u32 (id + 2)) i = nth_id id (S i)) as Hs by (unfold nth_id, u32; lia).
    destruct (Hocc O ltac:(lia)) as [c Hc].
    replace (nth_id id 0) with id in Hc by (unfold nth_id; rewrite u32_small; lia). rewrite Hc.
    change (set_next_id (u32 (id + 2)) (set_next_id id m)) with (set_next_id (u32 (id + 2)) m).
    rewrite (IH n), Hs; [done|lia|apply u32_range|by rewrite Hs|].
    intros i Hi. rewrite Hs. apply Hocc. lia.
Qed.
End NextFree.

(** [while (GetChannel(mNextChanId)) mNextChanId += 2;] terminates as long
    as there are fewer than 2^31 - 2 channels: it stops within one more
    iteration than there are occupied numbers, at the first free number in the
    order of the search, which is not 0, belongs to no channel, and has the
    parity that marks this side of the connection. *)
Theorem next_free_id_finds {E} (m : mux) (e : E) :
  0 ≤ mNextChanId m < 2 ^ 32 → Z.of_nat (size (mChannels m)) < 2 ^ 31 - 2 →
  ∃ id, next_free_id (S (S (size (mChannels m)))) (m, e) = Ok (tt, (set_next_id id m, e)) ∧
    id ≠ 0 ∧ find_chan m id = None ∧ 0 ≤ id < 2 ^ 32 ∧
    Z.land id CHANNEL_MASK = Z.land (mNextChanId m) CHANNEL_MASK.
Proof.
  intros Hr Hsz. destruct (free_id_exists m (mNextChanId m) Hsz) as (j & Hj & Hf & Ho).
  exists (nth_id (mNextChanId m) j). split_and!; [|..|apply u32_range|].
  - rewrite <-(next_free_id_run m j (S (S (size (mChannels m)))) (mNextChanId m) e) by (done || lia). by destruct m.
  - intros H0. rewrite H0 in Hf. done.
  - done.
  - apply u32_range.
  - change CHANNEL_MASK with (Z.ones 1). rewrite !Z.land_ones by lia.
    unfold nth_id, u32. change (2 ^ 1) with 2. change (2 ^ 32) with 4294967296. lia.
Qed.

(** ** A concrete environment *)
Inductive event :=
| EvOpened (aSeq aErr : Z) (aChannel : option Z) (aPath : option (list byte)) (aFromPeer : bool)
| EvReceive (l chan : Z) (aPacket : list byte)
| EvClose (l chan : Z)
| EvError (l chan aErr : Z)
| EvStream (l chan aSize : Z) (aData : list byte).

(** The packets given to the transport and the listeners' calls, in order. *)
Record wire := Wire { sent : list (list byte); events : list event }.

Definition log_event (ev : event) : ST (mux * wire) unit :=
  modify (fun s => (s.1, Wire (sent s.2) (events s.2 ++ [ev]))).

(** [Mock] of the unit test: every write succeeds; the size of a resource is
    given by its path; [opened] is the listener's [OnChannelOpened]. *)
Definition opened_listener : Type := Z → Z → option Z → option (list byte) → bool → ST (mux * wire) unit.
Definition users_with (size_of : list byte → Z) (opened : opened_listener) : mux_users wire := {|
  Transport_Write := fun data w =>
    Ok (Z.of_nat (length data), Wire (sent w ++ [data]) (events w));
  OnCheckDataSize := fun path => mret (size_of path);
  OnChannelOpened := opened;
  App_OnReceive := fun l c p => log_event (EvReceive l c (take (Z.to_nat (pk_mSize p)) p));
  App_OnClose := fun l c => log_event (EvClose l c);
  App_OnError := fun l c e => log_event (EvError l c e);
  Str_OnReceive := fun l c n d => log_event (EvStream l c n d);
  Str_OnClose := fun l c => log_event (EvClose l c);
  Str_OnError := fun l c e => log_event (EvError l c e);
|}.
Definition log_opened : opened_listener := fun seq err ch path peer => log_event (EvOpened seq err ch path peer).
Abbreviation wire_users size_of := (users_with size_of log_opened).

(** ** Framing: the handlers do not touch the input buffer *)
Section Keeps.
Context {E : Type} `{U : mux_users E}.
Abbreviation St := (mux * E)%type.

Definition same_input (s s' : St) : Prop :=
  mInputBufSize s'.1 = mInputBufSize s.1 ∧ mInputBuf s'.1 = mInputBuf s.1.
#[export] Instance same_input_preorder : PreOrder same_input.
Proof. split; [done|]. intros s1 s2 s3 [??] [??]. split; by etrans. Qed.

(** The listeners do not call [ReceiveRaw] of the mux that calls them. *)
Record users_keep_input : Prop := {
  keep_opened a b c d e : preserves same_input (OnChannelOpened a b c d e);
  keep_app_receive l c p : preserves same_input (App_OnReceive l c p);
  keep_app_close l c : preserves same_input (App_OnClose l c);
  keep_app_error l c e : preserves same_input (App_OnError l c e);
  keep_str_receive l c n d : preserves same_input (Str_OnReceive l c n d);
  keep_str_close l c : preserves same_input (Str_OnClose l c);
  keep_str_error l c e : preserves same_input (Str_OnError l c e);
}.
Context (Hkeep : users_keep_input).

Lemma keep_getm {A} (f : mux → A) : preserves same_input (getm f).
Proof. apply preserves_gets, _. Qed.
Lemma keep_modm (f : mux → mux) :
  (∀ m, mInputBufSize (f m) = mInputBufSize m ∧ mInputBuf (f m) = mInputBuf m) →
  preserves same_input (modm f).
Proof. intros Hf. apply (preserves_modify _). intros [m e]. apply Hf. Qed.
Lemma keep_user {A} (c : ST E A) : preserves same_input (user c).
Proof. intros [m e] a s'. unfold user. simpl. destruct (c e) as [[??]|]; [|done]. by intros [= _ <-]. Qed.
Lemma keep_get_chan id : preserves same_input (get_chan id).
Proof. intros s a s'. unfold get_chan. destruct (find_chan _ _); [|done]. by intros [= _ <-]. Qed.
Lemma keep_upd_chan id f : preserves same_input (upd_chan id f).
Proof.
  intros s a s'. unfold upd_chan. destruct (id =? 0); [by intros [= _ <-]|].
  destruct (mChannels _ !! _); [|done]. by intros [= _ <-].
Qed.
Lemma keep_modm_channels v : preserves same_input (modm (fun m => set_channels (v m) m)).
Proof. by apply keep_modm. Qed.
Lemma keep_modm_next v : preserves same_input (modm (set_next_id v)).
Proof. by apply keep_modm. Qed.
Lemma keep_modm_waiting v : preserves same_input (modm (fun m => set_waiting (v m) m)).
Proof. by apply keep_modm. Qed.
#[local] Hint Resolve keep_getm keep_user keep_get_chan keep_upd_chan keep_modm_channels
  keep_modm_next keep_modm_waiting keep_opened keep_app_receive keep_app_close keep_app_error
  keep_str_receive keep_str_close keep_str_error same_input_preorder : preserve.

Lemma keep_next_free_id n : preserves same_input (next_free_id n).
Proof. induction n as [|n IH]; cbn [next_free_id]; unfold GetChannel; preserve. Qed.
Lemma keep_Channel_Send id p : preserves same_input (Channel_Send id p).
Proof. unfold Channel_Send, DoSend. preserve. Qed.
#[local] Hint Resolve keep_next_free_id keep_Channel_Send : preserve.

Lemma keep_Mux_OnReceive id p : preserves same_input (Mux_OnReceive id p).
Proof.
  unfold Mux_OnReceive, Mux_OnOpenChan, Mux_OnOpenChanReply, GetChannel. cbv zeta. preserve.
Qed.
#[local] Hint Resolve keep_Mux_OnReceive : preserve.

Lemma keep_Mux_HandleIncomingPacket p : preserves same_input (Mux_HandleIncomingPacket p).
Proof.
  unfold Mux_HandleIncomingPacket, DoCloseChannel, DoErrorChannel, SendNak, DoSend,
    Channel_HandleIncomingPacket, Channel_OnClose, Channel_OnError, Listener_OnReceive,
    Listener_OnClose, Listener_OnError, Stream_OnReceive, Stream_OnClose, Stream_OnError,
    erase_and_delete, GetChannel.
  preserve.
Qed.

Lemma handler_keeps_input : keeps_input Mux_HandleIncomingPacket.
Proof. intros b s u s' H. by apply keep_Mux_HandleIncomingPacket in H. Qed.
End Keeps.

Lemma users_keep size_of opened : (∀ q r ch path peer, preserves same_input (opened q r ch path peer)) →
  users_keep_input (U := users_with size_of opened).
Proof. intros Ho. split; intros; [apply Ho|..]; by intros ??? [= _ <-]. Qed.
Lemma log_opened_keeps q r ch path peer : preserves same_input (log_opened q r ch path peer).
Proof. by intros ??? [= _ <-]. Qed.
Lemma wire_keeps_input size_of : users_keep_input (U := wire_users size_of).
Proof. apply users_keep, log_opened_keeps. Qed.

Section ReceiveRaw.
Context {E : Type} `{U : mux_users E}.
Abbreviation St := (mux * E)%type.

Lemma length_concat_frames fs : Forall frame fs → (length fs ≤ length (concat fs))%nat.
Proof.
  induction 1 as [|f fs [Hf _] _ IH]; [done|]. cbn [concat length].
  rewrite length_app. lia.
Qed.

(** The input buffer after a packet's header arrived without its body. *)
Definition partial (data : list byte) : Prop :=
  16 ≤ Z.of_nat (length data) < pk_mSize data ∧ pk_mSize data ≤ MaxPacketSize.

(** The input buffer holds a whole packet and at least one byte more. *)
Definition overfull (s : St) : Prop :=
  16 ≤ mInputBufSize s.1 ≤ MaxPacketSize ∧ pk_mSize (mInputBuf s.1) < mInputBufSize s.1 ∧
  Z.of_nat (length (mInputBuf s.1)) = MaxPacketSize.

(** The first iteration, when it neither handles nor rejects a packet. *)
Lemma ReceiveRaw_wait data (m : mux) (e : E) n :
  let copy := copy_size data (Z.of_nat (length data)) (mInputBufSize m) (mInputBuf m) in
  let buf := take (Z.to_nat (mInputBufSize m)) (mInputBuf m) ++ take (Z.to_nat copy) data ++
    drop (Z.to_nat (mInputBufSize m + copy)) (mInputBuf m) in
  data ≠ [] → 0 ≤ copy ≤ Z.of_nat (length data) → 0 ≤ mInputBufSize m →
  mInputBufSize m + copy ≤ Z.of_nat (length (mInputBuf m)) →
  (mInputBufSize m + copy < 16 ∨
   16 ≤ mInputBufSize m + copy ∧ pk_mSize buf ≤ MaxPacketSize ∧
   pk_mSize buf < mInputBufSize m + copy) →
  ReceiveRaw_loop Mux_HandleIncomingPacket (S n) data (Z.of_nat (length data)) (m, e) =
  Ok (Z.of_nat (length data) - copy =? 0, (set_input (mInputBufSize m + copy) buf m, e)).
Proof.
  intros copy buf Hne Hc Hsz Hroom Hwait.
  assert (0 < Z.of_nat (length data)) by (destruct data; simpl; [done|lia]).
  cbn [ReceiveRaw_loop]. destruct (Z.ltb_spec 0 (Z.of_nat (length data))); [|lia]. cbn [negb].
  unfold getm, gets, modm, modify, lift, mbind, ST_bind. cbn [fst snd]. fold copy.
  unfold read_at. rewrite bool_decide_true, drop_0 by lia.
  unfold write_at. rewrite length_take, bool_decide_true by lia.
  replace (Z.to_nat (mInputBufSize m) + Z.to_nat copy `min` length data)%nat
    with (Z.to_nat (mInputBufSize m + copy)) by lia. fold buf.
  unfold sizeof_MuxPacket.
  destruct (Z.ltb_spec (mInputBufSize m + copy) 16); [done|].
  destruct (Z.ltb_spec MaxPacketSize (pk_mSize buf)); [lia|].
  destruct (Z.ltb_spec (pk_mSize buf) (mInputBufSize m + copy)); [done|lia].
Qed.

Lemma ReceiveRaw_overfull (m : mux) (e : E) data :
  overfull (m, e) → ReceiveRaw data (m, e) = Ok (bool_decide (data = []), (m, e)).
Proof.
  intros (Hsz & Hp & Hb). cbn [fst] in *. destruct data as [|b data]; [done|].
  assert (copy_size (b :: data) (Z.of_nat (length (b :: data))) (mInputBufSize m)
    (mInputBuf m) = 0) as Hc.
  { unfold copy_size, sizeof_MuxPacket. destruct (Z.eqb_spec (mInputBufSize m) 0); [lia|].
    destruct (Z.leb_spec 16 (mInputBufSize m)); [|lia]. cbn [andb].
    unfold MaxPacketSize in *. pose proof (le_Z_range (take 4 (drop 0 (mInputBuf m)))) as Hr.
    fold (pk_mSize (mInputBuf m)) in Hr. 
    rewrite (s32_small (pk_mSize (mInputBuf m))) by (unfold pk_mSize, word_at in *; lia).
    rewrite u32_small, s32_small by lia. lia. }
  unfold ReceiveRaw. rewrite ReceiveRaw_wait; rewrite ?Hc, ?Z.add_0_r; try lia; [|done|].
  - rewrite take_0. simpl. rewrite take_drop. by destruct m.
  - right. rewrite take_0. cbn [app]. rewrite take_drop. unfold MaxPacketSize in *. lia.
Qed.

Lemma ReceiveRaw_concat (fs : list (list byte)) (s : St) :
  users_keep_input → idle s → Forall frame fs →
  ReceiveRaw (concat fs) s = deliver Mux_HandleIncomingPacket fs s.
Proof.
  intros Hu Hs Hf. apply ReceiveRaw_frames; [done..|by apply handler_keeps_input|].
  pose proof (length_concat_frames fs Hf). lia.
Qed.
End ReceiveRaw.

(** C34: framing.  For any run of complete packets in one call of
    [ReceiveRaw] on an empty input buffer, the packets are handled one by one
    and in order, each at the start of the input buffer with its own size as
    the fill level, every byte is consumed, and the result is [true] (or the
    first failure of a handler). *)
Theorem ReceiveRaw_delivers_frames `{U : mux_users E} (fs : list (list byte)) (s : mux * E) :
  users_keep_input → idle s → Forall frame fs →
  ReceiveRaw (concat fs) s = deliver Mux_HandleIncomingPacket fs s.
Proof. apply ReceiveRaw_concat. Qed.

(** A packet whose body arrives later than its header is handled at
    once, with whatever the buffer holds in place of the body; the number of
    bytes left, [mInputBufSize - packet->mSize], then wraps around, and the
    [memmove] reads outside the input buffer. *)
Theorem ReceiveRaw_partial_packet `{U : mux_users E} (data : list byte) (s : mux * E) :
  users_keep_input → idle s → partial data →
  let buf := data ++ drop (length data) (mInputBuf s.1) in
  ReceiveRaw data s =
  (modm (set_input (Z.of_nat (length data)) buf) ;;
   Mux_HandleIncomingPacket buf ;;
   lift (Fault (Undefined "read outside the buffer"))) s.
Proof.
  intros Hu [Hz Hb] [Hl Hm] buf. pose proof (handler_keeps_input Hu) as Hk.
  destruct s as [m e]. cbn [fst snd] in *. unfold ReceiveRaw, MaxPacketSize in *.
  cbn [ReceiveRaw_loop]. destruct (Z.ltb_spec 0 (Z.of_nat (length data))); [|lia]. cbn [negb].
  unfold getm, gets, modm, modify, lift, mbind, ST_bind. cbn [fst snd]. rewrite Hz.
  assert (copy_size data (Z.of_nat (length data)) 0 (mInputBuf m) = Z.of_nat (length data)) as ->.
  { unfold copy_size, sizeof_MuxPacket, MaxPacketSize. change (u32 (4096 - 0)) with 4096.
    destruct (Z.leb_spec 16 (Z.of_nat (length data))); [|lia]. simpl. lia. }
  rewrite read_at_front by lia. rewrite firstn_all. rewrite write_at_front by lia.
  rewrite Z.add_0_l, Z.sub_diag. fold buf.
  assert (pk_mSize buf = pk_mSize data) as Hpk by (apply word_at_prefix; lia).
  unfold sizeof_MuxPacket. destruct (Z.ltb_spec (Z.of_nat (length data)) 16); [lia|].
  rewrite Hpk. unfold MaxPacketSize. destruct (Z.ltb_spec 4096 (pk_mSize data)); [lia|].
  destruct (Z.ltb_spec (pk_mSize data) (Z.of_nat (length data))); [lia|].
  destruct (Mux_HandleIncomingPacket buf _) as [[u [m' e']]|err] eqn:Eh; [|done].
  apply Hk in Eh as [E1 E2]. cbn [fst snd mInputBufSize mInputBuf set_input] in *.
  rewrite E1, E2, Hpk.
  assert (u32 (Z.of_nat (length data) - pk_mSize data)
          = Z.of_nat (length data) - pk_mSize data + 2 ^ 32) as -> by (unfold u32; lia).
  destruct (Z.ltb_spec 0 (Z.of_nat (length data) - pk_mSize data + 2 ^ 32)); [|lia].
  unfold read_at. rewrite bool_decide_false; [done|].
  unfold buf. rewrite length_app, length_drop. lia.
Qed.

(** When the first bytes of a packet header arrive alone, the next call
    fills the buffer past the end of the packet; once the buffer holds a whole
    packet and more, no call of [ReceiveRaw] handles a packet or changes the
    state again, and each call that gives bytes returns [false]. *)
Theorem ReceiveRaw_split_header `{U : mux_users E} (f1 f2 g : list byte) (m : mux) (e : E) :
  idle (m, e) → frame (f1 ++ f2) → f1 ≠ [] → (length f1 < 16)%nat → g ≠ [] →
  Z.of_nat (length (f1 ++ f2 ++ g)) ≤ MaxPacketSize →
  ∃ m1 m2,
    ReceiveRaw f1 (m, e) = Ok (true, (m1, e)) ∧
    ReceiveRaw (f2 ++ g) (m1, e) = Ok (true, (m2, e)) ∧
    mChannels m2 = mChannels m ∧ mControlChan m2 = mControlChan m ∧
    ∀ data, ReceiveRaw data (m2, e) = Ok (bool_decide (data = []), (m2, e)).
Proof.
  intros [Hz Hb] Hf Hne Hh Hg Hlen. cbn [fst] in *.
  assert (0 < Z.of_nat (length f1)) by (destruct f1; simpl; [done|lia]).
  assert (0 < Z.of_nat (length g)) by (destruct g; simpl; [done|lia]).
  set (buf1 := f1 ++ drop (length f1) (mInputBuf m)).
  set (all := f1 ++ f2 ++ g) in *.
  set (buf2 := all ++ drop (length all) (mInputBuf m)).
  assert (length (mInputBuf m) = 4096%nat) as Hb' by (unfold MaxPacketSize in Hb; lia).
  assert (length all = length f1 + length (f2 ++ g))%nat as Hall
    by (unfold all; by rewrite length_app).
  assert (length (f2 ++ g) = length f2 + length g)%nat as Hfg by apply length_app.
  assert (length (f1 ++ f2) = length f1 + length f2)%nat as Hff by apply length_app.
  assert (pk_mSize buf2 = Z.of_nat (length (f1 ++ f2))) as Hsz.
  { unfold buf2, all. rewrite (app_assoc f1), <-app_assoc. by apply frame_mSize. }
  destruct Hf as [Hf _]. unfold MaxPacketSize in *.
  assert (length buf1 = 4096%nat) as Hb1 by (unfold buf1; rewrite length_app, length_drop; lia).
  assert (length buf2 = 4096%nat) as Hb2 by (unfold buf2; rewrite length_app, length_drop; lia).
  assert (overfull (set_input (Z.of_nat (length all)) buf2 m, e)) as Hover.
  { unfold overfull, MaxPacketSize. cbn. rewrite Hsz. lia. }
  exists (set_input (Z.of_nat (length f1)) buf1 m), (set_input (Z.of_nat (length all)) buf2 m).
  split_and!; [| |done|done|by intros data; apply ReceiveRaw_overfull].
  - assert (copy_size f1 (Z.of_nat (length f1)) (mInputBufSize m) (mInputBuf m) =
            Z.of_nat (length f1)) as Hc.
    { unfold copy_size, sizeof_MuxPacket, MaxPacketSize. rewrite Hz.
      destruct (Z.leb_spec 16 (Z.of_nat (length f1))); [lia|]. cbn [andb].
      change (16 <=? 0) with false. change (u32 (4096 - 0)) with 4096. cbn [Z.eqb andb]. lia. }
    unfold ReceiveRaw. rewrite ReceiveRaw_wait; rewrite ?Hc, ?Hz; try lia; [|done].
    rewrite Z.sub_diag, take_0, Z.add_0_l, Nat2Z.id, firstn_all. done.
  - set (m1 := set_input (Z.of_nat (length f1)) buf1 m).
    assert (copy_size (f2 ++ g) (Z.of_nat (length (f2 ++ g))) (mInputBufSize m1) (mInputBuf m1) =
            Z.of_nat (length (f2 ++ g))) as Hc.
    { unfold copy_size, sizeof_MuxPacket, MaxPacketSize.
      change (mInputBufSize m1) with (Z.of_nat (length f1)).
      destruct (Z.eqb_spec (Z.of_nat (length f1)) 0); [lia|].
      destruct (Z.leb_spec 16 (Z.of_nat (length f1))); [lia|]. cbn [andb]. rewrite u32_small; lia. }
    assert (take (Z.to_nat (mInputBufSize m1)) (mInputBuf m1) ++
      take (Z.to_nat (Z.of_nat (length (f2 ++ g)))) (f2 ++ g) ++
      drop (Z.to_nat (mInputBufSize m1 + Z.of_nat (length (f2 ++ g)))) (mInputBuf m1) = buf2) as Hbuf.
    { unfold m1; cbn [mInputBufSize mInputBuf set_input].
      rewrite !Nat2Z.id, firstn_all. unfold buf1 at 1. rewrite take_app_length.
      unfold buf2. rewrite <-Nat2Z.inj_add, Nat2Z.id, <-Hall. unfold all.
      rewrite <-!app_assoc. do 3 f_equal. unfold buf1.
      rewrite drop_app_ge by (rewrite !length_app; lia). rewrite drop_drop. f_equal.
      rewrite !length_app. lia. }
    unfold ReceiveRaw. rewrite ReceiveRaw_wait; rewrite ?Hc, ?Hbuf;
      change (mInputBufSize m1) with (Z.of_nat (length f1));
      unfold MaxPacketSize; rewrite ?Hsz; try lia.
    + rewrite Z.sub_diag. do 3 f_equal. unfold m1, set_input. f_equal. cbn. lia.
    + intros Hnil. rewrite Hnil in Hfg. simpl in Hfg. lia.
    + cbn. lia.
Qed.

(** ** Sequence numbers *)
Lemma iter_next_seq k : Nat.iter k next_seq first_seq = u32 (1 + Z.of_nat k).
Proof.
  induction k as [|k IH]; [done|]. cbn [Nat.iter nat_rect]. fold (Nat.iter k next_seq first_seq).
  rewrite IH. unfold next_seq, u32. rewrite Zplus_mod_idemp_l. f_equal. lia.
Qed.
Lemma iter_next_seq_peer k :
  Z.of_nat k < 2 ^ 32 - 1 → Nat.iter k next_seq_peer first_seq = 1 + Z.of_nat k.
Proof.
  induction k as [|k IH]; intros Hk; [done|]. cbn [Nat.iter nat_rect].
  fold (Nat.iter k next_seq_peer first_seq).
  rewrite IH by lia. unfold next_seq_peer, first_seq. rewrite u32_small; lia.
Qed.

(** C37: the number on a channel's [k]-th packet (from 0) is the number that
    the peer's channel expects, for the first 2^32 packets; the counters then
    fall apart: packet 2^32 carries 1 a second time, because [Send] does not
    store the correction of the wrapped [mSeq], and the peer expects 2. *)
Theorem seq_lockstep :
  (∀ k : nat, Z.of_nat k < 2 ^ 32 →
     wire_seq (Nat.iter k next_seq first_seq) = Nat.iter k next_seq_peer first_seq) ∧
  (∀ k : nat, Z.of_nat k = 2 ^ 32 →
     wire_seq (Nat.iter k next_seq first_seq) = 1 ∧ Nat.iter k next_seq_peer first_seq = 2).
Proof.
  assert (∀ k : nat, Z.of_nat k = 2 ^ 32 - 1 → Nat.iter k next_seq_peer first_seq = 1) as Hlast.
  { intros [|k] Hk; [lia|]. cbn [Nat.iter nat_rect]. fold (Nat.iter k next_seq_peer first_seq).
    rewrite iter_next_seq_peer by lia. unfold next_seq_peer, first_seq, u32. lia. }
  split; intros k Hk.
  - rewrite iter_next_seq. unfold wire_seq, first_seq.
    destruct (decide (Z.of_nat k = 2 ^ 32 - 1)) as [E|E].
    + rewrite Hlast by done. rewrite E. done.
    + rewrite iter_next_seq_peer, u32_small by lia. destruct (Z.ltb_spec (1 + Z.of_nat k) 1); lia.
  - rewrite iter_next_seq, Hk. split; [done|]. destruct k as [|k]; [lia|].
    cbn [Nat.iter nat_rect]. fold (Nat.iter k next_seq_peer first_seq). rewrite Hlast by lia. done.
Qed.

(** ** Sending and receiving over the wire *)
Definition put_chan (id : Z) (c : channel) (m : mux) : mux :=
  if id =? 0 then set_control c m else set_channels (<[id := c]> (mChannels m)) m.

Lemma find_put_chan id c m : find_chan (put_chan id c m) id = Some c.
Proof. unfold find_chan, put_chan. destruct (id =? 0); [done|]. apply lookup_insert_eq. Qed.
Lemma put_put_chan id c c' m : put_chan id c' (put_chan id c m) = put_chan id c' m.
Proof.
  unfold put_chan. destruct (id =? 0); [done|]. unfold set_channels. f_equal. apply insert_insert_eq.
Qed.
Lemma put_chan_id id c m : find_chan m id = Some c → put_chan id c m = m.
Proof.
  unfold find_chan, put_chan. destruct (id =? 0); destruct m; cbn; [by intros [= ->]|].
  intros H. unfold set_channels; cbn. f_equal. by apply insert_id.
Qed.

Lemma upd_chan_put {E} id f (m : mux) (e : E) c :
  find_chan m id = Some c → upd_chan id f (m, e) = Ok (tt, (put_chan id (f c) m, e)).
Proof.
  unfold find_chan, upd_chan, put_chan. cbn [fst snd]. destruct (id =? 0); [by intros [= ->]|].
  by intros ->.
Qed.

(** *** Data packets *)
Definition data_packet (id seq : Z) (c : list byte) : list byte :=
  packet_of (20 + Z.of_nat (length c)) id seq Data (le_bytes 4 (Z.of_nat (length c)) ++ c).
Section DataFields.
Context (id q : Z) (payload junk : list byte).
Hypothesis Hid : 0 ≤ id < 2 ^ 32.
Hypothesis Hq : 0 ≤ q < 2 ^ 32.
Hypothesis Hlen : Z.of_nat (length payload) ≤ MaxPayloadSize.
Let n := Z.of_nat (length payload).
Let p := data_packet id q payload ++ junk.

Lemma data_eq : p = packet_of (20 + n) id q Data (le_bytes 4 n ++ payload ++ junk).
Proof. unfold p, data_packet. by rewrite packet_of_app, <-app_assoc. Qed.
Lemma data_mCmd : pk_mCmd p = Data.
Proof. rewrite data_eq. by apply packet_of_mCmd. Qed.
Lemma data_mChan : pk_mChan p = id.
Proof. rewrite data_eq, packet_of_mChan. by apply u32_small. Qed.
Lemma data_mSeq : pk_mSeq p = q.
Proof. rewrite data_eq, packet_of_mSeq. by apply u32_small. Qed.
Lemma data_mSize : pk_mSize p = 20 + n.
Proof. change MaxPayloadSize with 4076 in Hlen. rewrite data_eq, packet_of_mSize, u32_small; lia. Qed.
Lemma data_mPayloadSize : pk_mPayloadSize p = n.
Proof.
  change MaxPayloadSize with 4076 in Hlen. rewrite data_eq. unfold pk_mPayloadSize.
  rewrite packet_of_word by lia. etrans; [by apply (word_at_app 0 [])|]. rewrite u32_small; lia.
Qed.
Lemma data_mPayload : take (Z.to_nat n) (pk_mPayload p) = payload.
Proof.
  rewrite data_eq. unfold pk_mPayload. replace 20%nat with (16 + 4)%nat by done.
  rewrite <-drop_drop, packet_of_rest, drop_app_exact by apply length_le_bytes. apply take_app_exact. lia.
Qed.
End DataFields.
Lemma data_packet_frame id q c :
  Z.of_nat (length c) ≤ MaxPayloadSize → frame (data_packet id q c).
Proof.
  change MaxPayloadSize with 4076. intros Hc. unfold frame, data_packet.
  rewrite length_packet_of, length_app, length_le_bytes, packet_of_mSize, u32_small;
    unfold MaxPacketSize; lia.
Qed.

Section Route.
Context {E : Type} `{U : mux_users E}.

(** A packet that is not [CloseChan] or [Nak] goes to its channel's listener. *)
Lemma route_packet p (m : mux) (e : E) c cmd :
  pk_mCmd p = cmd → cmd ≠ CloseChan → cmd ≠ Nak → cmd ≠ Data →
  find_chan m (pk_mChan p) = Some c → mChanId c = pk_mChan p → mValid c = true →
  mSeqPeer c = pk_mSeq p →
  Mux_HandleIncomingPacket p (m, e) =
  Listener_OnReceive (mListener c) (pk_mChan p) p
    (put_chan (pk_mChan p) (set_seq_peer (next_seq_peer (mSeqPeer c)) c) m, e).
Proof.
  intros Hcmd H1 H2 H3 Hc Hid Hv Hseq. unfold Mux_HandleIncomingPacket.
  transitivity ((channel ← GetChannel (pk_mChan p);
      match channel with
      | None => SendNak (pk_mChan p) (pk_mSeq p) ;; mret tt
      | Some channel =>
          c ← get_chan channel;
          if mValid c then Channel_HandleIncomingPacket channel p
          else SendNak (pk_mChan p) (pk_mSeq p) ;; mret tt
      end) (m, e)).
  { rewrite Hcmd. destruct cmd; try done. }
  unfold GetChannel, getm, gets, mbind, ST_bind. cbn [fst snd mret ST_ret]. rewrite Hc.
  unfold get_chan. cbn [fst]. rewrite Hc, Hv.
  unfold Channel_HandleIncomingPacket, get_chan, mbind, ST_bind. cbn [fst]. rewrite Hc.
  rewrite Hid, Z.eqb_refl, <-Hseq, Z.eqb_refl, Hv, Hcmd.
  rewrite (bool_decide_false (cmd = Data)) by done.
  cbn [sassert cassert lift negb orb]. by rewrite (upd_chan_put _ _ _ _ c) by done.
Qed.

Lemma ReceiveRaw_one f (s : mux * E) :
  users_keep_input → idle s → frame f →
  ReceiveRaw f s = deliver Mux_HandleIncomingPacket [f] s.
Proof.
  intros Hu Hs Hf. rewrite <-(app_nil_r f) at 1. apply (ReceiveRaw_frames _ [f]); [done| |..].
  - by apply Forall_singleton.
  - by apply handler_keeps_input.
  - destruct Hf as [Hf _]. rewrite app_nil_r. cbn [length]. lia.
Qed.

(** Data for a valid channel that expects it. *)
Lemma route_data id q payload junk (m : mux) (e : E) c :
  let p := data_packet id q payload ++ junk in
  0 < id < 2 ^ 32 → 0 ≤ q < 2 ^ 32 → Z.of_nat (length payload) ≤ MaxPayloadSize →
  find_chan m id = Some c → mChanId c = id → mValid c = true → mSeqPeer c = q →
  Mux_HandleIncomingPacket p (m, e) =
  Listener_OnReceive (mListener c) id p (put_chan id (set_seq_peer (next_seq_peer q) c) m, e).
Proof.
  intros p Hid Hq Hlen Hc Hcid Hv Hseq. unfold p, Mux_HandleIncomingPacket.
  rewrite data_mCmd, data_mChan by lia. unfold GetChannel, getm. do 2 mstep. rewrite Hc. mstep.
  unfold get_chan. mstep. rewrite Hc, Hv. unfold Channel_HandleIncomingPacket, get_chan. mstep. rewrite Hc.
  rewrite data_mChan, data_mSeq, data_mCmd, data_mPayloadSize, data_mSize, Hcid, Hseq, Hv, !Z.eqb_refl by lia.
  unfold sizeof_DataPacket. rewrite (Z.add_comm (Z.of_nat _)), Z.eqb_refl, orb_true_r.
  do 5 mstep. by rewrite (upd_chan_put _ _ _ _ c).
Qed.
(** A packet for a channel that does not exist. *)
Lemma route_unknown p (m : mux) (e : E) :
  pk_mCmd p ≠ CloseChan → pk_mCmd p ≠ Nak → find_chan m (pk_mChan p) = None →
  Mux_HandleIncomingPacket p (m, e) = (SendNak (pk_mChan p) (pk_mSeq p) ;; mret tt) (m, e).
Proof.
  intros H1 H2 Hc. transitivity ((channel ← GetChannel (pk_mChan p);
      match channel with
      | None => SendNak (pk_mChan p) (pk_mSeq p) ;; mret tt
      | Some channel =>
          c ← get_chan channel;
          if mValid c then Channel_HandleIncomingPacket channel p
          else SendNak (pk_mChan p) (pk_mSeq p) ;; mret tt
      end) (m, e)).
  { unfold Mux_HandleIncomingPacket. destruct (pk_mCmd p); done. }
  unfold GetChannel, getm. do 2 mstep. by rewrite Hc.
Qed.
End Route.

Section Wire.
Context (size_of : list byte → Z) (opened : opened_listener).
#[local] Hint Extern 0 (mux_users wire) => exact (users_with size_of opened) : typeclass_instances.

Lemma wire_DoSend p (m : mux) (w : wire) :
  pk_mSize p = Z.of_nat (length p) → Z.of_nat (length p) ≤ MaxPacketSize →
  DoSend p (m, w) = Ok (true, (m, Wire (sent w ++ [p]) (events w))).
Proof.
  intros Hp Hl. unfold DoSend, user, lift, mbind, ST_bind. rewrite Hp, read_at_front by lia.
  cbn [fst snd mret ST_ret Transport_Write users_with]. rewrite firstn_all.
  unfold MaxPacketSize in *. rewrite u32_small, Z.eqb_refl by lia. done.
Qed.

Lemma wire_Channel_Send id c sz q cmd rest (m : mux) (w : wire) :
  find_chan m id = Some c → mValid c = true → 0 ≤ mChanId c < 2 ^ 32 →
  sz = 16 + Z.of_nat (length rest) → sz ≤ MaxPacketSize →
  let p := packet_of sz (mChanId c) (wire_seq (mSeq c)) cmd rest in
  Channel_Send id (packet_of sz (mChanId c) q cmd rest) (m, w) =
  Ok ((true, p), (put_chan id (set_seq (next_seq (mSeq c)) c) m, Wire (sent w ++ [p]) (events w))).
Proof.
  intros Hc Hv Hid Hsz Hle p. unfold Channel_Send, get_chan, mbind, ST_bind. cbn [fst snd].
  rewrite Hc, Hv. cbn [negb]. rewrite packet_of_mChan, u32_small, Z.eqb_refl by done.
  cbn [sassert cassert lift]. rewrite (upd_chan_put _ _ _ _ c) by done.
  rewrite packet_of_set_mSeq. fold p. rewrite wire_DoSend.
  - done.
  - unfold p. rewrite packet_of_mSize, length_packet_of, u32_small; unfold MaxPacketSize in *; lia.
  - unfold p. rewrite length_packet_of. lia.
Qed.

(** The payloads in which a stream is sent. *)
Fixpoint chunks (n : nat) (data : list byte) : list (list byte) :=
  match n, data with
  | O, _ | _, [] => []
  | S n, _ => take 4076 data :: chunks n (drop 4076 data)
  end.
Lemma concat_chunks n data : (length data ≤ n)%nat → concat (chunks n data) = data.
Proof using. clear size_of opened.
  revert data. induction n as [|n IH]; intros [|b data] Hn; [done|simpl in Hn; lia|done|].
  cbn [chunks concat]. rewrite IH, take_drop; [done|].
  rewrite length_drop. cbn [length] in *. lia.
Qed.
Lemma chunks_length n data :
  Forall (fun c => 0 < Z.of_nat (length c) ≤ MaxPayloadSize) (chunks n data).
Proof using. clear size_of opened.
  revert data. induction n as [|n IH]; intros [|b data]; cbn [chunks]; constructor; [|done].
  rewrite length_take. cbn [length]. change MaxPayloadSize with 4076. lia.
Qed.

Fixpoint data_packets (id seq : Z) (cs : list (list byte)) : list (list byte) :=
  match cs with
  | [] => []
  | c :: cs => data_packet id (wire_seq seq) c :: data_packets id (next_seq seq) cs
  end.

Lemma DataPacket_Create_eq n id payload :
  n = Z.of_nat (length payload) → n ≤ MaxPayloadSize →
  DataPacket_Create n id payload =
  Ok (packet_of (20 + n) id 0 Data (le_bytes 4 n ++ payload)).
Proof using. clear size_of opened.
  intros -> Hn. unfold DataPacket_Create, sizeof_DataPacket.
  change MaxPayloadSize with 4076 in *. rewrite u32_small by lia.
  rewrite MuxPacket_eq by (unfold MaxPacketSize; lia). ostep.
  unfold cassert. destruct (Z.leb_spec (Z.of_nat (length payload)) 4076); [|lia]. ostep.
  by rewrite packet_of_app.
Qed.

Lemma Stream_Write_loop_eq n id data (m : mux) (w : wire) c :
  find_chan m id = Some c → mValid c = true → 0 ≤ mChanId c < 2 ^ 32 →
  (length data < n)%nat →
  let cs := chunks (length data) data in
  Stream_Write_loop n id (Z.of_nat (length data)) data (m, w) =
  Ok (true, (put_chan id (set_seq (Nat.iter (length cs) next_seq (mSeq c)) c) m,
             Wire (sent w ++ data_packets (mChanId c) (mSeq c) cs) (events w))).
Proof.
  intros Hc Hv Hid Hn. cbv zeta.
  assert (∀ k, (length data ≤ k)%nat →
    Stream_Write_loop n id (Z.of_nat (length data)) data (m, w) =
    Ok (true, (put_chan id (set_seq (Nat.iter (length (chunks k data)) next_seq (mSeq c)) c) m,
             Wire (sent w ++ data_packets (mChanId c) (mSeq c) (chunks k data)) (events w))))
    as H; [|by apply H].
  revert data m w c Hc Hv Hid Hn.
  induction n as [|n IH]; intros data m w c Hc Hv Hid Hn k Hk; [lia|]. cbn [Stream_Write_loop].
  destruct (Z.ltb_spec 0 (Z.of_nat (length data))); cbn [negb].
  2: { destruct data; [|simpl in *; lia]. destruct k; cbn [chunks length data_packets Nat.iter nat_rect];
       rewrite app_nil_r; (replace (set_seq (mSeq c) c) with c by (by destruct c));
       rewrite put_chan_id by done; by destruct w. }
  set (tocopy := Z.min (Z.of_nat (length data)) MaxPayloadSize).
  set (hd := take 4076 data). set (tl := drop 4076 data).
  assert (tocopy = Z.of_nat (length hd)) as Htc
    by (unfold tocopy, hd; rewrite length_take; change MaxPayloadSize with 4076; lia).
  assert (tocopy ≤ MaxPayloadSize) as Hle by lia. change MaxPayloadSize with 4076 in Hle.
  assert (chunks k data = hd :: chunks (Nat.pred k) tl) as ->.
  { destruct k, data; try (cbn [length] in *; lia). done. }
  unfold get_chan, lift. unfold mbind at 1, ST_bind at 1. cbn [fst snd]. rewrite Hc.
  unfold mbind at 1, ST_bind at 1. unfold read_at. rewrite bool_decide_true by lia.
  rewrite drop_0.
  assert (take (Z.to_nat tocopy) data = hd) as ->.
  { unfold hd, tocopy. change MaxPayloadSize with 4076. destruct (Z.le_gt_cases (Z.of_nat (length data)) 4076).
    - rewrite !firstn_all2 by lia. done.
    - f_equal. lia. }
  assert (drop (Z.to_nat tocopy) data = tl) as ->.
  { unfold tl, tocopy. change MaxPayloadSize with 4076. destruct (Z.le_gt_cases (Z.of_nat (length data)) 4076).
    - rewrite !drop_ge by lia. done.
    - f_equal. lia. }
  unfold mbind at 1, ST_bind at 1. rewrite DataPacket_Create_eq by done.
  unfold mbind at 1, ST_bind at 1.
  rewrite (wire_Channel_Send id c); [|done|done|done| |].
  2: { rewrite length_app, length_le_bytes. lia. }
  2: { unfold MaxPacketSize. lia. }
  cbn [fst snd negb].
  replace (Z.of_nat (length data) - tocopy) with (Z.of_nat (length tl))
    by (unfold tl, tocopy; rewrite length_drop; change MaxPayloadSize with 4076; lia).
  rewrite (IH tl _ _ (set_seq (next_seq (mSeq c)) c)) with (k := Nat.pred k);
    [|apply find_put_chan|done|done|..].
  - rewrite put_put_chan. cbn [sent events length data_packets]. rewrite <-app_assoc, Htc.
    rewrite Nat.iter_succ_r. done.
  - unfold tl. rewrite length_drop. destruct data; cbn [length] in *; lia.
  - unfold tl. rewrite length_drop. destruct data; cbn [length] in *; lia.
Qed.

Lemma wire_handle_data id q payload junk (m : mux) (w : wire) c l :
  0 < id < 2 ^ 32 → 0 ≤ q < 2 ^ 32 → Z.of_nat (length payload) ≤ MaxPayloadSize →
  find_chan m id = Some c → mChanId c = id → mValid c = true → mSeqPeer c = q →
  mListener c = PStream → mStreamListener c = SApp l →
  Mux_HandleIncomingPacket (data_packet id q payload ++ junk) (m, w) =
  Ok (tt, (put_chan id (set_seq_peer (next_seq_peer q) c) m,
           Wire (sent w) (events w ++ [EvStream l id (Z.of_nat (length payload)) payload]))).
Proof.
  intros Hid Hq Hlen Hc Hcid Hv Hseq Hl Hsl. rewrite (route_data id q payload junk m w c) by done. rewrite Hl.
  cbn [Listener_OnReceive]. unfold Stream_OnReceive, get_chan.
  rewrite data_mCmd, bool_decide_true by done. do 2 mstep. rewrite find_put_chan. cbn [mStreamListener set_seq_peer].
  rewrite Hsl, data_mPayloadSize, data_mPayload by lia. done.
Qed.

Lemma data_packets_frames id q cs :
  Forall (fun c => 0 < Z.of_nat (length c) ≤ MaxPayloadSize) cs →
  Forall frame (data_packets id q cs).
Proof using. clear size_of opened.
  intros H. revert q. induction H as [|c cs [_ Hc] _ IH]; intros q; constructor; [|done].
  by apply data_packet_frame.
Qed.

Lemma wire_deliver_data id q cs (m : mux) (w : wire) c l :
  0 < id < 2 ^ 32 → 1 ≤ q → q + Z.of_nat (length cs) < 2 ^ 32 →
  Forall (fun p => 0 < Z.of_nat (length p) ≤ MaxPayloadSize) cs →
  find_chan m id = Some c → mChanId c = id → mValid c = true → mSeqPeer c = q →
  mListener c = PStream → mStreamListener c = SApp l →
  ∃ bsz buf,
  deliver Mux_HandleIncomingPacket (data_packets id q cs) (m, w) =
  Ok (true, (set_input bsz buf (put_chan id (set_seq_peer (q + Z.of_nat (length cs)) c) m),
             Wire (sent w) (events w ++ map (fun p => EvStream l id (Z.of_nat (length p)) p) cs))).
Proof.
  intros Hid Hq Hr Hcs Hc Hcid Hv Hs Hl Hsl. revert q m w c Hq Hr Hc Hcid Hv Hs Hl Hsl.
  induction Hcs as [|p cs [Hp1 Hp2] _ IH]; intros q m w c Hq Hr Hc Hcid Hv Hs Hl Hsl.
  - exists (mInputBufSize m), (mInputBuf m). cbn [deliver data_packets length map].
    rewrite Z.add_0_r, app_nil_r. replace (set_seq_peer q c) with c by (subst q; by destruct c).
    rewrite put_chan_id by done. destruct m, w; done.
  - cbn [data_packets deliver length] in *. unfold getm, gets, modm, modify, mbind, ST_bind.
    cbn [fst snd]. assert (wire_seq q = q) as ->
      by (unfold wire_seq, first_seq; destruct (Z.ltb_spec q 1); lia).
    erewrite (wire_handle_data id q p _ _ w c l); [|lia|lia|done..].
    cbn [fst snd]. assert (next_seq q = q + 1) as -> by (unfold next_seq; rewrite u32_small; lia).
    assert (next_seq_peer q = q + 1) as ->
      by (unfold next_seq_peer, first_seq; rewrite u32_small; lia).
    edestruct (IH (q + 1) (set_input 0 (data_packet id q p ++
      drop (length (data_packet id q p)) (mInputBuf m))
      (put_chan id (set_seq_peer (q + 1) c) m))
      (Wire (sent w) (events w ++ [EvStream l id (Z.of_nat (length p)) p]))
      (set_seq_peer (q + 1) c)) as (bsz & buf & Hrun); [lia|lia| |done|done|done|done|done|].
    { change (find_chan (set_input ?a ?b ?m') id) with (find_chan m' id). apply find_put_chan. }
    exists bsz, buf. etrans.
    { etrans; [|exact Hrun]. f_equal. f_equal. unfold put_chan; destruct (id =? 0); done. }
    cbn [sent events map]. rewrite <-app_assoc. do 2 f_equal. f_equal.
    replace (q + 1 + Z.of_nat (length cs)) with (q + Z.of_nat (S (length cs))) by lia.
    unfold put_chan. destruct (id =? 0) eqn:E0; [lia|].
    unfold set_channels, set_input; cbn. f_equal. apply insert_insert_eq.
Qed.
End Wire.

Lemma iter_next_seq_from q n :
  0 ≤ q → q + Z.of_nat n < 2 ^ 32 → Nat.iter n next_seq q = q + Z.of_nat n.
Proof.
  intros Hq. induction n as [|n IH]; intros Hn; [cbn; lia|]. cbn [Nat.iter nat_rect].
  fold (Nat.iter n next_seq q). rewrite IH by lia. unfold next_seq. rewrite u32_small; lia.
Qed.
Lemma length_chunks n data : (length (chunks n data) ≤ length data)%nat.
Proof.
  revert data. induction n as [|n IH]; intros [|b data]; cbn [chunks length]; try lia.
  specialize (IH (drop 4076 (b :: data))). rewrite length_drop in IH. cbn [length] in *. lia.
Qed.

(** The two ends of a stream channel agree on its number and on the sequence
    numbers of the packets that are sent in one direction. *)
Record stream_ready (id l : Z) (cs cr : channel) : Prop := {
  ready_send_id : mChanId cs = id;
  ready_recv_id : mChanId cr = id;
  ready_send_valid : mValid cs = true;
  ready_recv_valid : mValid cr = true;
  ready_seq : mSeqPeer cr = mSeq cs;
  ready_seq_pos : 1 ≤ mSeq cs;
  ready_stream : mListener cr = PStream;
  ready_listener : mStreamListener cr = SApp l;
}.

(** C4: a byte stream crosses the mux intact.  [Write] of any data on one end
    of a stream channel succeeds and cuts it into packets of at most
    [MaxPayloadSize] bytes; when the peer's [ReceiveRaw] is given the bytes
    that were written to the transport, its stream listener is called once per
    packet, and the concatenation of what it is given is the data, in order.
    The sequence numbers of the two ends agree again afterwards. *)
Theorem stream_transfer (size_of : list byte → Z) (id l : Z) (data : list byte)
    (ms mr : mux) (ws wr : wire) (cs cr : channel) :
  let U := wire_users size_of in
  0 < id < 2 ^ 32 →
  find_chan ms id = Some cs → find_chan mr id = Some cr → stream_ready id l cs cr →
  idle (mr, wr) → mSeq cs + Z.of_nat (length data) < 2 ^ 32 →
  ∃ pkts pieces ms' mr' cs' cr',
    Stream_Write (U := U) id (Z.of_nat (length data)) data (ms, ws) =
      Ok (true, (ms', Wire (sent ws ++ pkts) (events ws))) ∧
    ReceiveRaw (U := U) (concat pkts) (mr, wr) =
      Ok (true, (mr', Wire (sent wr) (events wr ++
        map (fun p => EvStream l id (Z.of_nat (length p)) p) pieces))) ∧
    concat pieces = data ∧
    Forall (fun p => 0 < Z.of_nat (length p) ≤ MaxPayloadSize) pieces ∧
    find_chan ms' id = Some cs' ∧ find_chan mr' id = Some cr' ∧ stream_ready id l cs' cr'.
Proof.
  intros U Hid Hcs Hcr [? ? ? ? ? ? ? ?] Hidle Hlen.
  set (pieces := chunks (length data) data).
  pose proof (length_chunks (length data) data) as Hn. fold pieces in Hn.
  set (pkts := data_packets (mChanId cs) (mSeq cs) pieces).
  destruct (wire_deliver_data size_of log_opened id (mSeq cs) pieces mr wr cr l) as (bsz & buf & Hd);
    [done|done|lia|apply chunks_length|done..|].
  exists pkts, pieces.
  exists (put_chan id (set_seq (Nat.iter (length pieces) next_seq (mSeq cs)) cs) ms).
  exists (set_input bsz buf (put_chan id (set_seq_peer (mSeq cs + Z.of_nat (length pieces)) cr) mr)).
  do 2 eexists. split_and!; [..|apply find_put_chan|apply find_put_chan|].
  - unfold Stream_Write. rewrite Nat2Z.id. apply Stream_Write_loop_eq; [done|done|lia|lia].
  - rewrite <-Hd. unfold pkts. replace (mChanId cs) with id by done.
    unfold ReceiveRaw. pose proof (data_packets_frames id (mSeq cs) pieces (chunks_length _ _)) as Hf.
    apply ReceiveRaw_frames; [done..| |].
    + apply handler_keeps_input, wire_keeps_input.
    + pose proof (length_concat_frames _ Hf). lia.
  - by apply concat_chunks.
  - apply chunks_length.
  - split; cbn; try done; rewrite iter_next_seq_from by lia; lia.
Qed.

(** Two muxes with an open stream channel 5, for the witnesses. *)
Definition demo_buf : list byte := replicate 4096 NUL.
Definition demo_chan : channel := set_stream_listener (SApp 7) (new_StreamChannel 5).
Definition demo_mux (side : MuxSide) : mux :=
  set_channels {[5 := demo_chan]} (new_Mux side demo_buf).
Definition demo_wire : wire := Wire [] [].

Lemma stream_transfer_witness :
  let data := replicate 5000 NUL in
  ∃ pkts pieces ms' mr' cs' cr',
    Stream_Write (U := wire_users (fun _ => 0)) 5 5000 data (demo_mux SideClient, demo_wire) =
      Ok (true, (ms', Wire pkts [])) ∧
    ReceiveRaw (U := wire_users (fun _ => 0)) (concat pkts) (demo_mux SideServer, demo_wire) =
      Ok (true, (mr', Wire [] (map (fun p => EvStream 7 5 (Z.of_nat (length p)) p) pieces))) ∧
    concat pieces = data ∧
    Forall (fun p => 0 < Z.of_nat (length p) ≤ MaxPayloadSize) pieces ∧
    find_chan ms' 5 = Some cs' ∧ find_chan mr' 5 = Some cr' ∧ stream_ready 5 7 cs' cr'.
Proof.
  exact (stream_transfer (fun _ => 0) 5 7 (replicate 5000 NUL) (demo_mux SideClient)
    (demo_mux SideServer) demo_wire demo_wire demo_chan demo_chan
    ltac:(lia) eq_refl eq_refl
    ltac:(split; done) ltac:(split; vm_compute; reflexivity)
    ltac:(vm_compute; reflexivity)).
Defined.

(** ** Opening a channel *)

(** The packets of the handshake. *)
Definition open_request (seq : Z) (path : list byte) : list byte :=
  let n := Z.of_nat (length path) in
  packet_of (21 + n) 0 seq OpenChan (le_bytes 4 n ++ path ++ [NUL]).
Definition reply_packet (seq req_seq err sz id : Z) : list byte :=
  packet_of 32 0 seq OpenChanReply
    (le_bytes 4 req_seq ++ le_bytes 4 err ++ le_bytes 4 sz ++ le_bytes 4 id).
Abbreviation open_reply seq req_seq sz id := (reply_packet seq req_seq 0 sz id).

Lemma OpenChanPacket_Create_eq path :
  Z.of_nat (length path) < MaxPathLen → OpenChanPacket_Create path = Ok (open_request 0 path).
Proof.
  change MaxPathLen with 4076. intros Hl. unfold OpenChanPacket_Create, cassert.
  change MaxPathLen with 4076. destruct (Z.leb_spec (Z.of_nat (length path)) 4076); [|lia]. ostep.
  unfold SizeOfPathLen, sizeof_OpenChanPacket. rewrite u32_small by lia.
  rewrite MuxPacket_eq by (unfold MaxPacketSize; lia). ostep. rewrite packet_of_app.
  unfold open_request. do 2 f_equal. lia.
Qed.
Lemma OpenChanReplyPacket_eq req_seq err sz id :
  OpenChanReplyPacket req_seq err sz id = Ok (reply_packet 0 req_seq err sz id).
Proof.
  unfold OpenChanReplyPacket, sizeof_OpenChanReplyPacket.
  rewrite MuxPacket_eq by (unfold MaxPacketSize; lia). ostep. by rewrite packet_of_app.
Qed.

Lemma open_request_frame seq path :
  Z.of_nat (length path) < MaxPathLen → frame (open_request seq path).
Proof.
  change MaxPathLen with 4076. intros Hl. unfold frame, open_request.
  rewrite length_packet_of, !length_app, length_le_bytes, packet_of_mSize, u32_small;
    unfold MaxPacketSize; cbn [length]; lia.
Qed.

(** The channel that both sides create for a resource of [sz] bytes. *)
Definition opened_channel (id sz : Z) : channel :=
  if sz =? 0 then new_StreamChannel id else new_Channel id sz.

(** One direction of the control channel: [a]'s packets are what [b] expects. *)
Record control_ready (a b : mux) : Prop := {
  ctl_id : mChanId (mControlChan a) = 0;
  ctl_valid : mValid (mControlChan a) = true;
  ctl_listener : mListener (mControlChan a) = PMux;
  ctl_seq_pos : 1 ≤ mSeq (mControlChan a) < 2 ^ 32 - 1;
  ctl_seq : mSeqPeer (mControlChan b) = mSeq (mControlChan a);
}.

Section RequestFields.
Context (seq : Z) (path junk : list byte).
Hypothesis Hseq : 0 ≤ seq < 2 ^ 32.
Hypothesis Hlen : Z.of_nat (length path) < MaxPathLen.
Let p := open_request seq path ++ junk.

Lemma request_eq :
  p = packet_of (21 + Z.of_nat (length path)) 0 seq OpenChan
        (le_bytes 4 (Z.of_nat (length path)) ++ path ++ NUL :: junk).
Proof. unfold p, open_request. rewrite packet_of_app, <-!app_assoc. done. Qed.
Lemma request_mCmd : pk_mCmd p = OpenChan.
Proof. rewrite request_eq. by apply packet_of_mCmd. Qed.
Lemma request_mChan : pk_mChan p = 0.
Proof. rewrite request_eq, packet_of_mChan. done. Qed.
Lemma request_mSeq : pk_mSeq p = seq.
Proof. rewrite request_eq, packet_of_mSeq. by apply u32_small. Qed.
Lemma request_mSize : pk_mSize p = 21 + Z.of_nat (length path).
Proof.
  change MaxPathLen with 4076 in Hlen. rewrite request_eq, packet_of_mSize, u32_small; lia.
Qed.
Lemma request_mPathLen : pk_mPathLen p = Z.of_nat (length path).
Proof.
  change MaxPathLen with 4076 in Hlen. rewrite request_eq. unfold pk_mPathLen.
  rewrite packet_of_word by lia. etrans; [by apply (word_at_app 0 [])|]. rewrite u32_small; lia.
Qed.
Lemma request_mPath : pk_mPath p = path ++ NUL :: junk.
Proof.
  rewrite request_eq. unfold pk_mPath. replace 20%nat with (16 + 4)%nat by done.
  rewrite <-drop_drop, packet_of_rest, drop_app_exact by apply length_le_bytes. done.
Qed.
Lemma request_SizeOfPathLen : SizeOfPathLen (pk_mPathLen p) = pk_mSize p.
Proof.
  rewrite request_mPathLen, request_mSize. change MaxPathLen with 4076 in Hlen.
  unfold SizeOfPathLen, sizeof_OpenChanPacket. rewrite u32_small; lia.
Qed.
Lemma request_nul : read_at (pk_mPath p) (pk_mPathLen p) 1 = Ok [NUL].
Proof. rewrite request_mPath, request_mPathLen. exact (read_at_app path [NUL] junk). Qed.
Lemma request_path :
  NUL ∉ path → take (Z.to_nat (strlen (pk_mPath p))) (pk_mPath p) = path.
Proof.
  intros Hn. rewrite request_mPath, strlen_app by done. rewrite Nat2Z.id. apply take_app_length.
Qed.
End RequestFields.

Section ReplyFields.
Context (seq req_seq err sz id : Z) (junk : list byte).
Hypothesis Hseq : 0 ≤ seq < 2 ^ 32.
Hypothesis Hreq : 0 ≤ req_seq < 2 ^ 32.
Hypothesis Hsz : 0 ≤ sz < 2 ^ 31.
Hypothesis Hid : 0 ≤ id < 2 ^ 32.
Let p := reply_packet seq req_seq err sz id ++ junk.

Lemma reply_eq :
  p = packet_of 32 0 seq OpenChanReply
        (le_bytes 4 req_seq ++ le_bytes 4 err ++ le_bytes 4 sz ++ le_bytes 4 id ++ junk).
Proof. unfold p, reply_packet. rewrite packet_of_app, <-!app_assoc. done. Qed.
Lemma reply_mCmd : pk_mCmd p = OpenChanReply.
Proof. rewrite reply_eq. by apply packet_of_mCmd. Qed.
Lemma reply_mChan : pk_mChan p = 0.
Proof. rewrite reply_eq, packet_of_mChan. done. Qed.
Lemma reply_mSeq : pk_mSeq p = seq.
Proof. rewrite reply_eq, packet_of_mSeq. by apply u32_small. Qed.
Lemma reply_mSize : pk_mSize p = 32.
Proof. rewrite reply_eq, packet_of_mSize. done. Qed.
Lemma reply_mReqSeq : pk_mReqSeq p = req_seq.
Proof.
  rewrite reply_eq. unfold pk_mReqSeq. rewrite packet_of_word by lia.
  etrans; [by apply (word_at_app 0 [])|]. by apply u32_small.
Qed.
Lemma reply_mErrno : pk_mErrno p = u32 err.
Proof.
  rewrite reply_eq. unfold pk_mErrno. rewrite packet_of_word by lia.
  etrans; [by apply (word_at_app 4 (le_bytes 4 req_seq))|]. done.
Qed.
Lemma reply_mDataSize : pk_mDataSize p = sz.
Proof.
  rewrite reply_eq. unfold pk_mDataSize. rewrite packet_of_word by lia. rewrite app_assoc.
  etrans; [apply word_at_app; by rewrite length_app, !length_le_bytes|]. apply u32_small. lia.
Qed.
Lemma reply_mDataChan : pk_mDataChan p = id.
Proof.
  rewrite reply_eq. unfold pk_mDataChan. rewrite packet_of_word by lia. rewrite !app_assoc.
  rewrite <-(app_assoc _ _ junk).
  etrans; [apply word_at_app; by rewrite !length_app, !length_le_bytes|]. apply u32_small. lia.
Qed.
End ReplyFields.

Lemma wire_seq_pos q : 1 ≤ q → wire_seq q = q.
Proof. intros H. unfold wire_seq, first_seq. destruct (Z.ltb_spec q 1); lia. Qed.

Lemma find_chan_None m id : find_chan m id = None ↔ id ≠ 0 ∧ mChannels m !! id = None.
Proof. unfold find_chan. destruct (Z.eqb_spec id 0); naive_solver. Qed.

Section Handshake.
Context (size_of : list byte → Z) (opened : opened_listener).
#[local] Hint Extern 0 (mux_users wire) => exact (users_with size_of opened) : typeclass_instances.

(** A packet sent on a ready control channel. *)
Lemma wire_send_control (a b : mux) (w : wire) sz cmd rest :
  control_ready a b → sz = 16 + Z.of_nat (length rest) → sz ≤ MaxPacketSize →
  let seq := mSeq (mControlChan a) in
  let p := packet_of sz 0 seq cmd rest in
  Channel_Send 0 (packet_of sz 0 0 cmd rest) (a, w) =
  Ok ((true, p), (set_control (set_seq (seq + 1) (mControlChan a)) a, Wire (sent w ++ [p]) (events w))).
Proof.
  intros [Hid Hv Hl Hp Hq] Hsz Hle seq p.
  pose proof (wire_Channel_Send size_of opened 0 (mControlChan a) sz 0 cmd rest a w) as H.
  rewrite Hid, wire_seq_pos in H by lia. rewrite H by done.
  unfold next_seq. rewrite u32_small by lia. done.
Qed.

Lemma wire_Open (a b : mux) (w : wire) path :
  control_ready a b → Z.of_nat (length path) < MaxPathLen →
  let seq := mSeq (mControlChan a) in
  let req := open_request seq path in
  Open path (a, w) =
  Ok (seq, (set_waiting (<[seq := req]> (mWaitingPackets a))
              (set_control (set_seq (seq + 1) (mControlChan a)) a),
            Wire (sent w ++ [req]) (events w))).
Proof.
  intros Hc Hp seq req. unfold Open. unfold mbind at 1, ST_bind at 1, lift.
  rewrite OpenChanPacket_Create_eq by done. unfold mbind at 1, ST_bind at 1.
  pose proof Hp as Hp'. change MaxPathLen with 4076 in Hp'.
  unfold open_request. rewrite (wire_send_control a b) by
    (rewrite ?length_app, ?length_le_bytes; unfold MaxPacketSize; cbn [length]; done || lia).
  cbn [fst snd negb]. fold (open_request (mSeq (mControlChan a)) path). fold seq req.
  assert (pk_mSeq req = seq) as ->.
  { pose proof (request_mSeq seq path []) as H. rewrite app_nil_r in H. apply H.
    destruct Hc. unfold seq. lia. }
  done.
Qed.

Lemma wire_accept (m b : mux) (w : wire) seq path junk :
  let p := open_request seq path ++ junk in
  let sz := size_of path in
  let id := mNextChanId m in
  control_ready m b → 0 ≤ seq < 2 ^ 32 → NUL ∉ path → Z.of_nat (length path) < MaxPathLen →
  0 ≤ sz < 2 ^ 31 → 0 < id < 2 ^ 32 → Z.of_nat (size (mChannels m)) < 2 ^ 31 - 3 →
  ∃ next,
    let m' := set_control (set_seq (mSeq (mControlChan m) + 1) (mControlChan m))
      (set_next_id next (set_channels (<[id := opened_channel id sz]> (mChannels m)) m)) in
    find_chan m' next = None ∧
    (find_chan m' (u32 (id + 2)) = None → next = u32 (id + 2)) ∧
    Mux_OnReceive 0 p (m, w) = opened seq 0 (Some id) (Some path) false
      (m', Wire (sent w ++ [open_reply (mSeq (mControlChan m)) seq sz id]) (events w)).
Proof.
  intros p sz id Hc Hseq Hnul Hlen Hsz Hid Hch.
  set (m1 := set_channels (<[id := opened_channel id sz]> (mChannels m)) m).
  assert (Z.of_nat (size (mChannels m1)) < 2 ^ 31 - 2) as Hs1.
  { unfold m1; cbn [mChannels set_channels].
    pose proof (map_size_insert id (opened_channel id sz) (mChannels m)) as Hsi.
    destruct (mChannels m !! id); cbn in Hsi; lia. }
  destruct (free_id_exists m1 (u32 (id + 2)) Hs1) as (j & Hj & Hf & Ho).
  exists (nth_id (u32 (id + 2)) j). intros m'.
  split; [apply find_chan_None; apply find_chan_None in Hf; exact Hf|]. split.
  { intros Hn. assert (nth_id (u32 (id + 2)) 0 = u32 (id + 2)) as Hn0.
    { unfold nth_id. rewrite Z.add_0_r. apply u32_small, u32_range. }
    destruct j as [|j]; [done|]. destruct (Ho 0%nat ltac:(lia)) as [c Hc']. rewrite Hn0 in Hc'.
    assert (find_chan m1 (u32 (id + 2)) = None); [|congruence].
    apply find_chan_None. apply find_chan_None in Hn. exact Hn. }
  unfold Mux_OnReceive. change (0 =? 0) with true. mstep. unfold p. rewrite request_mCmd.
  unfold Mux_OnOpenChan. rewrite request_SizeOfPathLen, Z.eqb_refl by done. mstep.
  rewrite request_nul by done. mstep. rewrite bool_decide_true by done. mstep.
  rewrite request_path, request_mSeq by done.
  mstep. unfold user. cbn [OnCheckDataSize users_with mret ST_ret fst snd].
  fold sz. destruct (Z.ltb_spec sz 0); [lia|].
  unfold getm, modm. do 4 mstep. fold id. fold (opened_channel id sz).
  assert (next_free_id (S (S (size (mChannels m1)))) (set_next_id (u32 (id + 2)) m1, w) =
    Ok (tt, (set_next_id (nth_id (u32 (id + 2)) j) m1, w))) as Hrun.
  { apply next_free_id_run; [lia|apply u32_range|done..]. }
  mstep.
  match goal with |- context [next_free_id ?n ?s] =>
    change (next_free_id n s) with
      (next_free_id (S (S (size (mChannels m1)))) (set_next_id (u32 (id + 2)) m1, w)) end.
  rewrite Hrun, OpenChanReplyPacket_eq. do 2 mstep. unfold reply_packet.
  rewrite (wire_send_control _ b); [|by destruct Hc|done|done].
  done.
Qed.

Lemma wire_reply (m : mux) (w : wire) q seq sz id path junk :
  let p := open_reply q seq sz id ++ junk in
  0 ≤ q < 2 ^ 32 → 0 ≤ seq < 2 ^ 32 → 0 ≤ sz < 2 ^ 31 → 0 < id < 2 ^ 32 →
  find_chan m id = None → Z.land id CHANNEL_MASK ≠ side_Z (mSide m) →
  mWaitingPackets m !! seq = Some (open_request seq path) →
  NUL ∉ path → Z.of_nat (length path) < MaxPathLen →
  Mux_OnReceive 0 p (m, w) = opened seq 0 (Some id) (Some path) true
    (set_channels (<[id := opened_channel id sz]> (mChannels m)) (set_waiting (delete seq (mWaitingPackets m)) m), w).
Proof.
  intros p Hq Hseq Hsz Hid Hfree Hside Hwait Hnul Hlen.
  unfold Mux_OnReceive. change (0 =? 0) with true. mstep. unfold p. rewrite reply_mCmd.
  unfold Mux_OnOpenChanReply.
  rewrite reply_mSize, reply_mDataChan, reply_mReqSeq, reply_mErrno, reply_mDataSize by (done || lia).
  change (32 =? sizeof_OpenChanReplyPacket) with true. mstep. unfold GetChannel, getm. do 2 mstep.
  rewrite Hfree, bool_decide_true by done. do 2 mstep. unfold modm.
  destruct (Z.eqb_spec (Z.land id CHANNEL_MASK) (side_Z (mSide m))); [done|]. cbn [negb]. do 2 mstep.
  rewrite Hwait.
  pose proof (request_mCmd seq path []) as Hcmd. rewrite app_nil_r in Hcmd.
  pose proof (request_path seq path [] Hnul) as Hpath. rewrite app_nil_r in Hpath.
  rewrite Hcmd, bool_decide_true by done. do 3 mstep. change (negb (0 =? 0)) with false. cbv iota.
  cbv beta. rewrite Hpath. fold (opened_channel id sz). done.
Qed.
Lemma wire_refuse (m b : mux) (w : wire) seq path junk :
  let p := open_request seq path ++ junk in
  control_ready m b → 0 ≤ seq < 2 ^ 32 → NUL ∉ path → Z.of_nat (length path) < MaxPathLen → size_of path < 0 →
  Mux_OnReceive 0 p (m, w) =
  Ok (tt, (set_control (set_seq (mSeq (mControlChan m) + 1) (mControlChan m)) m,
           Wire (sent w ++ [reply_packet (mSeq (mControlChan m)) seq ReplyUnknownError 0 0]) (events w))).
Proof.
  intros p Hc Hseq Hnul Hlen Hsz.
  unfold Mux_OnReceive. change (0 =? 0) with true. mstep. unfold p. rewrite request_mCmd.
  unfold Mux_OnOpenChan. rewrite request_SizeOfPathLen, Z.eqb_refl by done. mstep.
  rewrite request_nul by done. mstep. rewrite bool_decide_true by done. mstep.
  rewrite request_path, request_mSeq by done.
  mstep. unfold user. cbn [OnCheckDataSize users_with mret ST_ret fst snd].
  destruct (Z.ltb_spec (size_of path) 0); [|lia]. rewrite OpenChanReplyPacket_eq. do 2 mstep.
  unfold reply_packet. by rewrite (wire_send_control _ b).
Qed.
(** A frame for the control channel, received alone; [buf] is the buffer that it is put in. *)
Lemma receive_control_run f cmd (m : mux) (w : wire) :
  let buf := f ++ drop (length f) (mInputBuf m) in
  let q := mSeqPeer (mControlChan m) in
  (∀ q r ch path peer, preserves same_input (opened q r ch path peer)) →
  idle (m, w) → frame f → pk_mCmd buf = cmd → cmd ≠ CloseChan → cmd ≠ Nak → cmd ≠ Data →
  pk_mChan buf = 0 → pk_mSeq buf = q → 1 ≤ q < 2 ^ 32 - 1 →
  mChanId (mControlChan m) = 0 → mValid (mControlChan m) = true → mListener (mControlChan m) = PMux →
  ReceiveRaw f (m, w) =
  match Mux_OnReceive 0 buf (set_control (set_seq_peer (q + 1) (mControlChan m))
                               (set_input (Z.of_nat (length f)) buf m), w) with
  | Ok (_, (m', w')) => Ok (true, (set_input 0 buf m', w'))
  | Fault e => Fault e
  end.
Proof.
  intros buf q Hkeep Hidle Hf Hcmd H1 H2 H3 Hi Hs Hq Hid Hv Hl.
  rewrite ReceiveRaw_one by (done || by apply users_keep).
  cbn [deliver]. unfold getm, modm. do 2 mstep. fold buf. mstep.
  rewrite (route_packet _ _ _ (mControlChan m) cmd); rewrite ?Hi; try done.
  assert (next_seq_peer q = q + 1) as Hnp by (unfold next_seq_peer, first_seq; rewrite u32_small; lia).
  fold q. rewrite Hl, Hnp. cbn [Listener_OnReceive]. unfold put_chan. cbn [Z.eqb].
  destruct (Mux_OnReceive 0 buf _) as [[[] [m' w']]|]; [|done]. by mstep.
Qed.
Lemma wire_receive_control f cmd (m m' : mux) (w w' : wire) :
  let buf := f ++ drop (length f) (mInputBuf m) in
  let q := mSeqPeer (mControlChan m) in
  (∀ q r ch path peer, preserves same_input (opened q r ch path peer)) →
  idle (m, w) → frame f → pk_mCmd buf = cmd → cmd ≠ CloseChan → cmd ≠ Nak → cmd ≠ Data →
  pk_mChan buf = 0 → pk_mSeq buf = q → 1 ≤ q < 2 ^ 32 - 1 →
  mChanId (mControlChan m) = 0 → mValid (mControlChan m) = true → mListener (mControlChan m) = PMux →
  Mux_OnReceive 0 buf (set_control (set_seq_peer (q + 1) (mControlChan m))
                         (set_input (Z.of_nat (length f)) buf m), w) = Ok (tt, (m', w')) →
  ReceiveRaw f (m, w) = Ok (true, (set_input 0 buf m', w')).
Proof. intros buf q. intros. rewrite (receive_control_run f cmd) by done. cbv zeta. fold buf q. by case_match; simplify_eq. Qed.
End Handshake.

(** C7: the opening handshake.  On two muxes whose control channels are in
    step, [Open(path)] on one side, [ReceiveRaw] of the request on the other
    and [ReceiveRaw] of the reply on the first leave both with a valid channel
    of the same number, type and size, which is the number that the accepting
    side had reserved; both listeners are told the path and the request's
    sequence number; the request is no longer waiting; the accepting side's
    next number is free; and the control channels are in step again. *)
Theorem open_handshake (size_of : list byte → Z) (path : list byte) (a b : mux) (wa wb : wire) :
  let U := wire_users size_of in
  let sz := size_of path in
  let id := mNextChanId b in
  let seq := mSeq (mControlChan a) in
  NUL ∉ path → Z.of_nat (length path) < MaxPathLen → 0 ≤ sz < 2 ^ 31 →
  control_ready a b → control_ready b a → mSide a ≠ mSide b → idle (a, wa) → idle (b, wb) →
  0 < id < 2 ^ 32 → Z.land id CHANNEL_MASK = side_Z (mSide b) →
  Z.of_nat (size (mChannels b)) < 2 ^ 31 - 3 → find_chan a id = None →
  ∃ req reply a1 a2 b1,
    Open (U := U) path (a, wa) = Ok (seq, (a1, Wire (sent wa ++ [req]) (events wa))) ∧
    ReceiveRaw (U := U) req (b, wb) =
      Ok (true, (b1, Wire (sent wb ++ [reply])
                          (events wb ++ [EvOpened seq 0 (Some id) (Some path) false]))) ∧
    ReceiveRaw (U := U) reply (a1, Wire (sent wa ++ [req]) (events wa)) =
      Ok (true, (a2, Wire (sent wa ++ [req])
                          (events wa ++ [EvOpened seq 0 (Some id) (Some path) true]))) ∧
    find_chan a2 id = Some (opened_channel id sz) ∧
    find_chan b1 id = Some (opened_channel id sz) ∧
    mWaitingPackets a2 = delete seq (mWaitingPackets a) ∧
    find_chan b1 (mNextChanId b1) = None ∧
    mSeqPeer (mControlChan b1) = mSeq (mControlChan a2) ∧
    mSeqPeer (mControlChan a2) = mSeq (mControlChan b1).
Proof.
  intros U sz id seq Hnul Hlen Hsz Hab Hba Hside Ha Hb Hid Hpar Hch Hfree. unfold U; clear U.
  pose proof (ctl_seq_pos _ _ Hab) as Hqa. pose proof (ctl_seq_pos _ _ Hba) as Hqb.
  pose proof (ctl_seq _ _ Hab) as Hsa. pose proof (ctl_seq _ _ Hba) as Hsb.
  set (req := open_request seq path). set (qb := mSeq (mControlChan b)).
  set (reply := open_reply qb seq sz id).
  set (a1 := set_waiting (<[seq := req]> (mWaitingPackets a))
               (set_control (set_seq (seq + 1) (mControlChan a)) a)).
  exists req, reply, a1.
  (* the accepting side *)
  set (buf1 := req ++ drop (length req) (mInputBuf b)).
  set (b0 := set_control (set_seq_peer (seq + 1) (mControlChan b))
               (set_input (Z.of_nat (length req)) buf1 b)).
  assert (control_ready b0 a) as Hb0 by (destruct Hba; split; done).
  destruct (wire_accept size_of log_opened b0 a wb seq path (drop (length req) (mInputBuf b)))
    as (next & Hnext & _ & Hacc); [done|lia|done..|].
  set (b1 := set_control (set_seq (mSeq (mControlChan b0) + 1) (mControlChan b0))
    (set_next_id next (set_channels (<[id := opened_channel id sz]> (mChannels b0)) b0))) in *.
  (* the opening side *)
  set (buf2 := reply ++ drop (length reply) (mInputBuf a)).
  set (a0 := set_control (set_seq_peer (qb + 1) (mControlChan a1))
               (set_input (Z.of_nat (length reply)) buf2 a1)).
  pose proof (wire_reply size_of log_opened a0 (Wire (sent wa ++ [req]) (events wa)) qb seq sz id path
    (drop (length reply) (mInputBuf a))) as Hrep.
  set (a2 := set_channels (<[id := opened_channel id sz]> (mChannels a0))
               (set_waiting (delete seq (mWaitingPackets a0)) a0)) in *.
  exists (set_input 0 buf2 a2), (set_input 0 buf1 b1).
  fold req buf1 in Hacc. cbv zeta in Hrep. fold reply buf2 in Hrep.
  assert (pk_mCmd buf1 = OpenChan ∧ pk_mChan buf1 = 0 ∧ pk_mSeq buf1 = seq) as (Hc1 & Hi1 & Hs1)
    by (split_and!; [apply request_mCmd|by apply request_mChan|apply request_mSeq; lia]).
  assert (pk_mCmd buf2 = OpenChanReply ∧ pk_mChan buf2 = 0 ∧ pk_mSeq buf2 = qb) as (Hc2 & Hi2 & Hs2)
    by (split_and!; [apply reply_mCmd|by apply reply_mChan|apply reply_mSeq; lia]).
  split_and!.
  - by apply wire_Open with b.
  - eapply wire_receive_control with (cmd := OpenChan); rewrite ?Hsa; try (done || apply Hba || apply log_opened_keeps).
    by apply open_request_frame.
  - eapply wire_receive_control with (cmd := OpenChanReply);
      change (mControlChan a1) with (set_seq (seq + 1) (mControlChan a)); cbn [mSeqPeer set_seq]; rewrite ?Hsb;
      try (done || apply Hab || apply log_opened_keeps).
    etrans; [apply Hrep|]; try (done || lia).
    + apply find_chan_None. apply find_chan_None in Hfree. exact Hfree.
    + rewrite Hpar. cbn. destruct (mSide a), (mSide b); done.
    + cbn. apply lookup_insert_eq.
  - unfold find_chan. destruct (Z.eqb_spec id 0); [lia|]. apply lookup_insert_eq.
  - unfold find_chan. destruct (Z.eqb_spec id 0); [lia|]. apply lookup_insert_eq.
  - cbn. apply delete_insert_eq.
  - apply find_chan_None. apply find_chan_None in Hnext. exact Hnext.
  - done.
  - done.
Qed.

(** C38: a refused open.  When the listener of the accepting side refuses the
    path ([OnCheckDataSize] is negative), [ReceiveRaw] of the request opens
    nothing, tells nobody and sends one [OpenChanReply] with [UnknownError] and
    channel 0.  The opener never reaches its test of [mErrno]: number 0 is its
    control channel, so [assert(GetChannel(reply->mDataChan) == nullptr)] fails
    while the request is still waiting. *)
Theorem refused_open_aborts (size_of : list byte → Z) (path : list byte) (a b : mux) (wa wb : wire) :
  let U := wire_users size_of in
  let seq := mSeq (mControlChan a) in
  size_of path < 0 → NUL ∉ path → Z.of_nat (length path) < MaxPathLen →
  control_ready a b → control_ready b a → idle (a, wa) → idle (b, wb) →
  ∃ req reply a1 b1,
    Open (U := U) path (a, wa) = Ok (seq, (a1, Wire (sent wa ++ [req]) (events wa))) ∧
    ReceiveRaw (U := U) req (b, wb) = Ok (true, (b1, Wire (sent wb ++ [reply]) (events wb))) ∧
    mChannels b1 = mChannels b ∧ mNextChanId b1 = mNextChanId b ∧
    pk_mErrno reply = ReplyUnknownError ∧ pk_mReqSeq reply = seq ∧ mWaitingPackets a1 !! seq = Some req ∧
    ReceiveRaw (U := U) reply (a1, Wire (sent wa ++ [req]) (events wa)) =
      Fault (AssertFailed "GetChannel(reply->mDataChan) == nullptr").
Proof.
  intros U seq Hsz Hnul Hlen Hab Hba Ha Hb. unfold U; clear U.
  pose proof (ctl_seq_pos _ _ Hab) as Hqa. pose proof (ctl_seq_pos _ _ Hba) as Hqb.
  pose proof (ctl_seq _ _ Hab) as Hsa. pose proof (ctl_seq _ _ Hba) as Hsb.
  set (qb := mSeq (mControlChan b)) in *.
  exists (open_request seq path), (reply_packet qb seq ReplyUnknownError 0 0).
  set (buf := open_request seq path ++ drop (length (open_request seq path)) (mInputBuf b)).
  set (b0 := set_control (set_seq_peer (seq + 1) (mControlChan b)) (set_input (Z.of_nat (length (open_request seq path))) buf b)).
  eexists _, (set_input 0 buf (set_control (set_seq (qb + 1) (mControlChan b0)) b0)).
  split; [by apply wire_Open with b|]. split.
  { eapply wire_receive_control with (cmd := OpenChan); rewrite ?Hsa; try (done || apply Hba || apply log_opened_keeps);
      try (by apply open_request_frame); try (apply request_mCmd || by apply request_mChan || (apply request_mSeq; lia)).
    apply (wire_refuse size_of log_opened b0 a); try done; [by destruct Hba|lia]. }
  do 2 (split; [done|]).
  pose proof (reply_mErrno qb seq ReplyUnknownError 0 0 []) as He. pose proof (reply_mReqSeq qb seq ReplyUnknownError 0 0 []) as Hr.
  rewrite app_nil_r in He, Hr. rewrite He, Hr by lia. do 2 (split; [done|]). split; [apply lookup_insert_eq|].
  rewrite (receive_control_run size_of log_opened _ OpenChanReply);
    cbn [mControlChan set_waiting set_control mSeqPeer set_seq]; rewrite ?Hsb; try (done || apply Hab || apply log_opened_keeps).
  apply reply_mSeq; lia.
Qed.

(** ** Unknown channels and closing *)
Lemma pk_mChan_range p : 0 ≤ pk_mChan p < 2 ^ 32.
Proof.
  pose proof (le_Z_range (take 4 (drop 4 p))) as H. rewrite length_take in H.
  unfold pk_mChan, word_at. split; [lia|]. eapply Z.lt_le_trans; [apply H|].
  change (2 ^ 32) with (256 ^ 4). apply Z.pow_le_mono_r; lia.
Qed.

Lemma delete_put_chan id c m :
  id ≠ 0 →
  set_channels (delete id (mChannels (put_chan id c m))) (put_chan id c m) =
  set_channels (delete id (mChannels m)) m.
Proof.
  intros Hid. unfold put_chan. destruct (Z.eqb_spec id 0); [done|].
  unfold set_channels; cbn. f_equal. apply delete_insert_eq.
Qed.

(** The application's listener behind a channel. *)
Definition listener_of (c : channel) : option Z :=
  match mListener c with
  | PApp l => Some l
  | PStream => match mStreamListener c with SApp l => Some l | _ => None end
  | _ => None
  end.

Section Closing.
Context (size_of : list byte → Z) (opened : opened_listener).
#[local] Hint Extern 0 (mux_users wire) => exact (users_with size_of opened) : typeclass_instances.

Lemma wire_SendNak (m : mux) (w : wire) id q :
  SendNak id q (m, w) = Ok (true, (m, Wire (sent w ++ [packet_of 16 id q Nak []]) (events w))).
Proof.
  unfold SendNak, sizeof_MuxPacket. rewrite MuxPacket_eq by (unfold MaxPacketSize; lia).
  mstep. rewrite packet_of_set_mSeq. apply wire_DoSend.
  - by rewrite packet_of_mSize, length_packet_of.
  - rewrite length_packet_of. unfold MaxPacketSize. cbn [length]. lia.
Qed.

Lemma wire_Channel_OnClose id c l (m : mux) (w : wire) :
  find_chan m id = Some c → listener_of c = Some l →
  Channel_OnClose id (m, w) =
  Ok (tt, (put_chan id (set_valid false c) m, Wire (sent w) (events w ++ [EvClose l id]))).
Proof.
  intros Hc Hl. unfold Channel_OnClose, get_chan. mstep. rewrite Hc.
  assert (Listener_OnClose (mListener c) id (m, w) =
          Ok (tt, (m, Wire (sent w) (events w ++ [EvClose l id])))) as Hrun.
  { revert Hl. unfold listener_of. destruct (mListener c); try done; [|by intros [= ->]].
    cbn [Listener_OnClose]. unfold Stream_OnClose, get_chan. mstep. rewrite Hc.
    by destruct (mStreamListener c); [done|done|intros [= ->]]. }
  mstep. rewrite Hrun. by apply upd_chan_put.
Qed.

Lemma wire_DoCloseChannel id c l (m : mux) (w : wire) :
  id ≠ 0 → find_chan m id = Some c → mType c = TypePacketChannel → listener_of c = Some l →
  DoCloseChannel id (m, w) =
  Ok (true, (set_channels (delete id (mChannels m)) m,
             Wire (sent w) (events w ++ [EvClose l id]))).
Proof.
  intros Hid Hc Ht Hl. unfold DoCloseChannel, GetChannel, getm. do 2 mstep. rewrite Hc.
  mstep. rewrite (wire_Channel_OnClose id c l) by done. mstep. unfold get_chan. mstep. rewrite find_put_chan.
  unfold erase_and_delete, modm. mstep. rewrite delete_put_chan by done.
  destruct (Z.eqb_spec id 0); [done|]. cbn [mType set_valid]. by rewrite Ht.
Qed.

Lemma wire_Channel_Close id c l (m : mux) (w : wire) :
  0 < id < 2 ^ 32 → find_chan m id = Some c → mChanId c = id → mValid c = true → mType c = TypePacketChannel →
  listener_of c = Some l →
  Channel_Close id (m, w) =
  Ok (tt, (set_channels (delete id (mChannels m)) m,
           Wire (sent w ++ [packet_of 16 id (wire_seq (mSeq c)) CloseChan []]) (events w ++ [EvClose l id]))).
Proof.
  intros Hid Hc Hcid Hv Ht Hl. unfold Channel_Close, get_chan. mstep. rewrite Hc, Hcid.
  unfold ChannelAskClose, GetChannel, getm. do 2 mstep. rewrite Hc.
  mstep. unfold get_chan at 1. cbn [fst snd]. rewrite Hc, Hv. unfold sizeof_MuxPacket.
  rewrite MuxPacket_eq by (unfold MaxPacketSize; lia). do 3 mstep.
  pose proof (wire_Channel_Send size_of opened id c 16 0 CloseChan [] m w) as Hsend.
  rewrite Hcid in Hsend. rewrite Hsend by (done || lia). cbn [mret ST_ret].
  mstep. rewrite (wire_DoCloseChannel id (set_seq (next_seq (mSeq c)) c) l); [|lia|apply find_put_chan|done|done].
  by rewrite delete_put_chan by lia.
Qed.

Lemma wire_receive_close id c l q junk (m : mux) (w : wire) :
  0 < id < 2 ^ 32 → find_chan m id = Some c → mType c = TypePacketChannel → listener_of c = Some l →
  Mux_HandleIncomingPacket (packet_of 16 id q CloseChan [] ++ junk) (m, w) =
  Ok (tt, (set_channels (delete id (mChannels m)) m,
           Wire (sent w) (events w ++ [EvClose l id]))).
Proof.
  intros Hid Hc Ht Hl. rewrite packet_of_app. unfold Mux_HandleIncomingPacket.
  rewrite packet_of_mCmd, packet_of_mSize, packet_of_mChan, (u32_small id) by done || lia.
  change (u32 16 =? sizeof_MuxPacket) with true. do 2 mstep.
  by rewrite (wire_DoCloseChannel id c l) by (done || lia).
Qed.
End Closing.

(** Routing.  A packet other than [CloseChan] and [Nak] for a channel
    that does not exist, or that is no longer valid, is answered by exactly one
    [Nak] packet with the same channel and sequence number, and changes nothing
    else. *)
Theorem unknown_channel_nak (size_of : list byte → Z) (p : list byte) (m : mux) (w : wire) :
  let U := wire_users size_of in
  pk_mCmd p ≠ CloseChan → pk_mCmd p ≠ Nak →
  (∀ c, find_chan m (pk_mChan p) = Some c → mValid c = false) →
  Mux_HandleIncomingPacket (U := U) p (m, w) =
  Ok (tt, (m, Wire (sent w ++ [packet_of 16 (pk_mChan p) (pk_mSeq p) Nak []]) (events w))).
Proof.
  intros U Hn1 Hn2 Hc. unfold U; clear U.
  transitivity ((channel ← GetChannel (pk_mChan p);
        match channel with
        | None => SendNak (U := wire_users size_of) (pk_mChan p) (pk_mSeq p) ;; mret tt
        | Some channel =>
            c ← get_chan channel;
            if mValid c then Channel_HandleIncomingPacket (U := wire_users size_of) channel p
            else SendNak (U := wire_users size_of) (pk_mChan p) (pk_mSeq p) ;; mret tt
        end) (m, w)).
  { unfold Mux_HandleIncomingPacket. destruct (pk_mCmd p); done. }
  unfold GetChannel, getm. do 2 mstep. destruct (find_chan m (pk_mChan p)) as [c|] eqn:Ec.
  - unfold get_chan. mstep. rewrite Ec, (Hc c eq_refl). mstep. by rewrite wire_SendNak.
  - mstep. by rewrite wire_SendNak.
Qed.

(** Closing.  [Close()] of a valid packet channel tells its listener, removes it
    from the mux and sends one [CloseChan] packet; when the peer receives that
    packet it tells its listener and removes its channel.  Neither side touches
    another channel, so the number is free again on both. *)
Theorem close_both_sides (size_of : list byte → Z) (id la lb : Z) (a b : mux) (wa wb : wire)
    (ca cb : channel) :
  let U := wire_users size_of in
  0 < id < 2 ^ 32 → find_chan a id = Some ca → find_chan b id = Some cb →
  mChanId ca = id → mValid ca = true → mType ca = TypePacketChannel → mType cb = TypePacketChannel →
  listener_of ca = Some la → listener_of cb = Some lb → idle (b, wb) →
  ∃ pkt a1 b1,
    Channel_Close (U := U) id (a, wa) =
      Ok (tt, (a1, Wire (sent wa ++ [pkt]) (events wa ++ [EvClose la id]))) ∧
    ReceiveRaw (U := U) pkt (b, wb) =
      Ok (true, (b1, Wire (sent wb) (events wb ++ [EvClose lb id]))) ∧
    mChannels a1 = delete id (mChannels a) ∧ mChannels b1 = delete id (mChannels b) ∧
    find_chan a1 id = None ∧ find_chan b1 id = None ∧ mInputBufSize b1 = 0.
Proof.
  intros U Hid Ha Hb Hca Hva Hta Htb Hla Hlb Hidle. unfold U; clear U.
  set (pkt := packet_of 16 id (wire_seq (mSeq ca)) CloseChan []).
  exists pkt, (set_channels (delete id (mChannels a)) a).
  exists (set_input 0 (pkt ++ drop (length pkt) (mInputBuf b)) (set_channels (delete id (mChannels b)) b)).
  split_and!; [..|done|done| | |done].
  - by apply (wire_Channel_Close size_of log_opened).
  - rewrite ReceiveRaw_one; [|apply wire_keeps_input|done|].
    2: { unfold frame, pkt. by rewrite length_packet_of, packet_of_mSize. }
    cbn [deliver]. unfold getm, modm. do 2 mstep. mstep. unfold pkt at 1.
    rewrite (wire_receive_close size_of _ id cb lb); done.
  - apply find_chan_None. split; [lia|]. apply lookup_delete_eq.
  - apply find_chan_None. split; [lia|]. apply lookup_delete_eq.
Qed.

(** [Close()] of a stream channel, which is valid and has a listener: the
    listener is told and the [CloseChan] packet is sent, and then the
    [StreamChannel] is deleted as a [Channel]. *)
Theorem close_stream_channel (size_of : list byte → Z) (id l : Z) (m : mux) (w : wire) (c : channel) :
  let U := wire_users size_of in
  0 < id < 2 ^ 32 → find_chan m id = Some c → mChanId c = id → mValid c = true →
  mType c = TypeStreamChannel → listener_of c = Some l →
  Channel_Close (U := U) id (m, w) = Fault (Undefined "delete of a StreamChannel through a Channel*").
Proof.
  intros U Hid Hc Hcid Hv Ht Hl. unfold U; clear U. unfold Channel_Close, get_chan. mstep. rewrite Hc, Hcid.
  unfold ChannelAskClose, GetChannel, getm. do 2 mstep. rewrite Hc.
  mstep. unfold get_chan at 1. cbn [fst snd]. rewrite Hc, Hv. unfold sizeof_MuxPacket.
  rewrite MuxPacket_eq by (unfold MaxPacketSize; lia). do 3 mstep.
  pose proof (wire_Channel_Send size_of log_opened id c 16 0 CloseChan [] m w) as Hsend.
  rewrite Hcid in Hsend. rewrite Hsend by (done || lia). cbn [mret ST_ret].
  unfold DoCloseChannel, GetChannel, getm. do 3 mstep. rewrite find_put_chan. mstep.
  rewrite (wire_Channel_OnClose size_of log_opened id (set_seq (next_seq (mSeq c)) c) l) by (apply find_put_chan || done).
  unfold get_chan. mstep. rewrite find_put_chan. unfold erase_and_delete, modm. mstep.
  destruct (Z.eqb_spec id 0); [lia|]. cbn [mType set_valid set_seq]. by rewrite Ht.
Qed.

(** A [CloseChan] packet for channel 0 makes the mux [delete] its own
    control channel, which is a member of the mux and was not allocated. *)
Theorem close_control_channel `{U : mux_users E} (p : list byte) (m : mux) (e : E) :
  pk_mCmd p = CloseChan → pk_mSize p = sizeof_MuxPacket → pk_mChan p = 0 →
  mListener (mControlChan m) = PMux →
  Mux_HandleIncomingPacket p (m, e) = Fault (Undefined "delete of a member object").
Proof.
  intros Hc Hs Hid Hl. unfold Mux_HandleIncomingPacket. rewrite Hc, Hs, Hid, Z.eqb_refl.
  do 2 mstep. unfold DoCloseChannel, GetChannel, getm. do 2 mstep.
  change (find_chan m 0) with (Some (mControlChan m)). mstep.
  unfold Channel_OnClose, get_chan. mstep. cbn [find_chan Z.eqb]. mstep. rewrite Hl.
  done.
Qed.

(** ** The theorems at concrete inputs *)
Abbreviation demo_users := (wire_users (fun _ => 0)).
Definition idle_mux (side : MuxSide) : mux := new_Mux side demo_buf.

Lemma next_free_id_finds_witness :
  ∃ id, next_free_id 3 (set_next_id 5 (demo_mux SideClient), demo_wire) =
      Ok (tt, (set_next_id id (demo_mux SideClient), demo_wire)) ∧
    id ≠ 0 ∧ find_chan (demo_mux SideClient) id = None ∧ 0 ≤ id < 2 ^ 32 ∧ Z.land id 1 = 1.
Proof.
  destruct (next_free_id_finds (set_next_id 5 (demo_mux SideClient)) demo_wire) as (id & H);
    [split; vm_compute; congruence|vm_compute; reflexivity|].
  exists id. exact H.
Defined.

Lemma ReceiveRaw_delivers_frames_witness :
  let hello := packet_of 16 0 1 Hello [] in
  ReceiveRaw (U := demo_users) (concat [hello; hello]) (idle_mux SideClient, demo_wire) =
  deliver (Mux_HandleIncomingPacket (U := demo_users)) [hello; hello]
    (idle_mux SideClient, demo_wire).
Proof.
  apply (ReceiveRaw_delivers_frames (U := demo_users)).
  - apply wire_keeps_input.
  - split; vm_compute; reflexivity.
  - repeat constructor; vm_compute; congruence.
Defined.

Lemma ReceiveRaw_partial_packet_witness :
  let data := packet_of 20 9 1 Data [] in
  let buf := data ++ drop 16 demo_buf in
  ReceiveRaw (U := demo_users) data (idle_mux SideClient, demo_wire) =
  (modm (set_input 16 buf) ;;
   Mux_HandleIncomingPacket (U := demo_users) buf ;;
   lift (Fault (Undefined "read outside the buffer"))) (idle_mux SideClient, demo_wire).
Proof.
  apply (ReceiveRaw_partial_packet (U := demo_users) (packet_of 20 9 1 Data [])).
  - apply wire_keeps_input.
  - split; vm_compute; reflexivity.
  - split; [split|]; vm_compute; congruence.
Defined.

Lemma ReceiveRaw_split_header_witness :
  let hello := packet_of 16 0 1 Hello [] in
  ∃ m1 m2,
    ReceiveRaw (U := demo_users) (take 8 hello) (idle_mux SideClient, demo_wire) =
      Ok (true, (m1, demo_wire)) ∧
    ReceiveRaw (U := demo_users) (drop 8 hello ++ hello) (m1, demo_wire) =
      Ok (true, (m2, demo_wire)) ∧
    mChannels m2 = ∅ ∧ mControlChan m2 = mControlChan (idle_mux SideClient) ∧
    ∀ data, ReceiveRaw (U := demo_users) data (m2, demo_wire) =
      Ok (bool_decide (data = []), (m2, demo_wire)).
Proof.
  apply (ReceiveRaw_split_header (U := demo_users)).
  - split; vm_compute; reflexivity.
  - repeat constructor; vm_compute; congruence.
  - discriminate.
  - vm_compute; lia.
  - discriminate.
  - vm_compute; congruence.
Defined.

Definition demo_path : list byte := [byte_of_Z 50].

Lemma open_handshake_witness :
  ∃ req reply a1 a2 b1,
    Open (U := demo_users) demo_path (idle_mux SideServer, demo_wire) =
      Ok (1, (a1, Wire [req] [])) ∧
    ReceiveRaw (U := demo_users) req (idle_mux SideClient, demo_wire) =
      Ok (true, (b1, Wire [reply] [EvOpened 1 0 (Some 5) (Some demo_path) false])) ∧
    ReceiveRaw (U := demo_users) reply (a1, Wire [req] []) =
      Ok (true, (a2, Wire [req] [EvOpened 1 0 (Some 5) (Some demo_path) true])) ∧
    find_chan a2 5 = Some (opened_channel 5 0) ∧ find_chan b1 5 = Some (opened_channel 5 0) ∧
    mWaitingPackets a2 = delete 1 ∅ ∧ find_chan b1 (mNextChanId b1) = None ∧
    mSeqPeer (mControlChan b1) = mSeq (mControlChan a2) ∧
    mSeqPeer (mControlChan a2) = mSeq (mControlChan b1).
Proof.
  apply (open_handshake (fun _ => 0) demo_path (idle_mux SideServer) (idle_mux SideClient)
    demo_wire demo_wire);
    try (split; vm_compute; congruence); try (vm_compute; congruence).
  - unfold demo_path. rewrite list_elem_of_singleton. vm_compute. congruence.
  - split; [reflexivity..|split; vm_compute; congruence|reflexivity].
  - split; [reflexivity..|split; vm_compute; congruence|reflexivity].
Defined.

Lemma refused_open_aborts_witness :
  let U := wire_users (fun _ => -1) in
  ∃ req reply a1 b1,
    Open (U := U) demo_path (idle_mux SideServer, demo_wire) = Ok (1, (a1, Wire [req] [])) ∧
    ReceiveRaw (U := U) req (idle_mux SideClient, demo_wire) = Ok (true, (b1, Wire [reply] [])) ∧
    mChannels b1 = ∅ ∧ mNextChanId b1 = 5 ∧
    pk_mErrno reply = ReplyUnknownError ∧ pk_mReqSeq reply = 1 ∧ mWaitingPackets a1 !! 1 = Some req ∧
    ReceiveRaw (U := U) reply (a1, Wire [req] []) =
      Fault (AssertFailed "GetChannel(reply->mDataChan) == nullptr").
Proof.
  apply (refused_open_aborts (fun _ => -1) demo_path (idle_mux SideServer) (idle_mux SideClient)
    demo_wire demo_wire); try (split; [reflexivity..|split; vm_compute; congruence|reflexivity]);
    try (split; vm_compute; congruence); try (vm_compute; congruence).
  unfold demo_path. rewrite list_elem_of_singleton. vm_compute. congruence.
Defined.

Lemma unknown_channel_nak_witness :
  let p := packet_of 20 9 1 Data [] in
  Mux_HandleIncomingPacket (U := demo_users) p (idle_mux SideClient, demo_wire) =
  Ok (tt, (idle_mux SideClient, Wire [packet_of 16 9 1 Nak []] [])).
Proof.
  apply (unknown_channel_nak (fun _ => 0) (packet_of 20 9 1 Data []) (idle_mux SideClient) demo_wire);
    vm_compute; congruence.
Defined.

Definition packet_chan : channel := set_listener (PApp 7) (new_Channel 5 100).
Definition packet_mux (side : MuxSide) : mux := set_channels {[5 := packet_chan]} (new_Mux side demo_buf).
Lemma close_both_sides_witness :
  ∃ pkt a1 b1,
    Channel_Close (U := demo_users) 5 (packet_mux SideClient, demo_wire) =
      Ok (tt, (a1, Wire [pkt] [EvClose 7 5])) ∧
    ReceiveRaw (U := demo_users) pkt (packet_mux SideServer, demo_wire) =
      Ok (true, (b1, Wire [] [EvClose 7 5])) ∧
    mChannels a1 = delete 5 {[5 := packet_chan]} ∧ mChannels b1 = delete 5 {[5 := packet_chan]} ∧
    find_chan a1 5 = None ∧ find_chan b1 5 = None ∧ mInputBufSize b1 = 0.
Proof.
  apply (close_both_sides (fun _ => 0) 5 7 7 (packet_mux SideClient) (packet_mux SideServer)
    demo_wire demo_wire packet_chan packet_chan); try (split; vm_compute; congruence); try reflexivity.
Defined.

Lemma close_stream_channel_witness :
  Channel_Close (U := demo_users) 5 (demo_mux SideClient, demo_wire) =
    Fault (Undefined "delete of a StreamChannel through a Channel*").
Proof.
  apply (close_stream_channel (fun _ => 0) 5 7 (demo_mux SideClient) demo_wire demo_chan);
    try (split; vm_compute; congruence); reflexivity.
Defined.
Lemma close_control_channel_witness :
  Mux_HandleIncomingPacket (U := demo_users) (packet_of 16 0 1 CloseChan [])
    (idle_mux SideClient, demo_wire) = Fault (Undefined "delete of a member object").
Proof. apply (close_control_channel (U := demo_users)); vm_compute; reflexivity. Defined.
