(* ===== verification/MuxTest.v ===== *)
(** * mux: the unit test

    The program that mux.cpp builds with TEST defined: its [Mock], which is the
    transport and the listener of both muxes, and [test_open], which opens a
    channel, sends data both ways and closes it.  The output of [printf] is left
    out. *)

From S2P Require Import Prelude Mux MuxSpec.

(** ** [Mock] *)

(** A field that no constructor sets is [None] until it is written. *)
Record ResourceInfo := Resource {
  r_mSize : Z; r_mHandler : Z; r_mSeq : option Z; r_mChanId : option Z; r_mErr : option Z; r_mFromPeer : option bool;
}.
(** [MockPacketListener]; the test's closure adds up what arrives. *)
Record MockListener := Listener { l_result : Z; l_mClosed : bool; l_mError : bool }.
(** [mPeer->mIncomings] is kept with the mock that writes to it. *)
Record Mock := MkMock { mResources : gmap Z ResourceInfo; to_peer : list (list byte); mock_listener : MockListener }.

Definition set_resource (id : Z) (r : ResourceInfo) (k : Mock) : Mock :=
  MkMock (<[id := r]> (mResources k)) (to_peer k) (mock_listener k).
Definition set_to_peer (fs : list (list byte)) (k : Mock) : Mock := MkMock (mResources k) fs (mock_listener k).
Definition set_mock_listener (l : MockListener) (k : Mock) : Mock := MkMock (mResources k) (to_peer k) l.

Definition digit (b : byte) : bool := (48 <=? Z_of_byte b) && (Z_of_byte b <=? 57).
(** [atoi] of a string without blanks and sign. *)
Fixpoint atoi_from (n : Z) (s : list byte) : Z :=
  match s with
  | b :: s => if digit b then atoi_from (10 * n + (Z_of_byte b - 48)) s else n
  | [] => n
  end.
Definition atoi : list byte → Z := atoi_from 0.

Definition AddResource (aId aSize aHandler : Z) (k : Mock) : Mock :=
  match mResources k !! aId with
  | Some _ => k
  | None => set_resource aId (Resource aSize aHandler None None None None) k
  end.

Definition Mock_OnChannelOpened (aSeq aErr : Z) (aChannel : option Z) (aPath : option (list byte)) (aFromPeer : bool) :
    ST (mux * Mock) unit :=
  match aPath with
  | None => lift (Fault (Undefined "atoi of a null pointer"))
  | Some path =>
      let id := atoi path in
      k ← gets snd;
      match mResources k !! id with
      | None => lift (Fault (AssertFailed "resource != nullptr"))
      | Some r =>
          if negb (aErr =? 0) then
            modify (fun s => (s.1, set_resource id (Resource (r_mSize r) (r_mHandler r) (r_mSeq r) (r_mChanId r)
              (Some aErr) (Some aFromPeer)) s.2))
          else
            match aChannel with
            | None => lift (Fault (Undefined "call through a null pointer"))
            | Some c =>
                upd_chan c (set_listener (PApp (r_mHandler r))) ;;
                ch ← get_chan c;
                modify (fun s => (s.1, set_resource id (Resource (r_mSize r) (r_mHandler r) (Some aSeq)
                  (Some (mChanId ch)) (Some aErr) (Some aFromPeer)) s.2))
            end
      end
  end.
Definition Mock_OnCheckDataSize (aPath : list byte) : ST Mock Z :=
  gets (fun k => match mResources k !! atoi aPath with Some r => r_mSize r | None => -1 end).
Definition Mock_Write (aData : list byte) : ST Mock Z := fun k =>
  Ok (Z.of_nat (length aData), set_to_peer (to_peer k ++ [aData]) k).

(** The closures of [test_open]; [char] is signed. *)
Definition char_Z (b : byte) : Z := let z := Z_of_byte b in if z <? 128 then z else z - 256.
Definition sum_payload (aPacket : list byte) : ST Mock unit :=
  sassert (bool_decide (pk_mCmd aPacket = Data)) "aPacket->mCmd == MuxPacket::MuxCmd::Data" ;;
  payload ← lift (read_at (pk_mPayload aPacket) 0 (pk_mPayloadSize aPacket));
  modify (fun k => let l := mock_listener k in
    set_mock_listener (Listener (foldl (fun n b => s32 (n + char_Z b)) (l_result l) payload) (l_mClosed l) (l_mError l)) k).
Definition Mock_OnReceive (aChannel : Z) (aPacket : list byte) : ST Mock unit := sum_payload aPacket.
Definition Mock_OnClose (aChannel : Z) : ST Mock unit :=
  modify (fun k => let l := mock_listener k in set_mock_listener (Listener (l_result l) true (l_mError l)) k).
Definition Mock_OnError (aChannel aErr : Z) : ST Mock unit :=
  modify (fun k => let l := mock_listener k in set_mock_listener (Listener (l_result l) (l_mClosed l) true) k).

(** There is no [StreamListener] in the test. *)
#[export] Instance Mock_users : mux_users Mock := {|
  Transport_Write := Mock_Write;
  OnCheckDataSize := Mock_OnCheckDataSize;
  OnChannelOpened := Mock_OnChannelOpened;
  App_OnReceive := fun _ c p => user (Mock_OnReceive c p);
  App_OnClose := fun _ c => user (Mock_OnClose c);
  App_OnError := fun _ c e => user (Mock_OnError c e);
  Str_OnReceive := fun _ _ _ _ => lift (Fault (Undefined "no StreamListener"));
  Str_OnClose := fun _ _ => lift (Fault (Undefined "no StreamListener"));
  Str_OnError := fun _ _ _ => lift (Fault (Undefined "no StreamListener"));
|}.

(** ** The two sides of the test *)
Record world := World { side1 : mux * Mock; side2 : mux * Mock }.
Definition on1 {A} (m : ST (mux * Mock) A) : ST world A := fun w =>
  match m (side1 w) with Ok (a, s) => Ok (a, World s (side2 w)) | Fault f => Fault f end.
Definition on2 {A} (m : ST (mux * Mock) A) : ST world A := fun w =>
  match m (side2 w) with Ok (a, s) => Ok (a, World (side1 w) s) | Fault f => Fault f end.

Fixpoint dispatch_loop (frames : list (list byte)) : ST (mux * Mock) unit :=
  match frames with
  | [] => mret tt
  | f :: frames => ReceiveRaw f ;; dispatch_loop frames
  end.
Definition Dispatch1 : ST world unit :=
  fs ← on2 (gets (fun s => to_peer s.2));
  on1 (dispatch_loop fs) ;;
  on2 (modify (fun s => (s.1, set_to_peer [] s.2))).
Definition Dispatch2 : ST world unit :=
  fs ← on1 (gets (fun s => to_peer s.2));
  on2 (dispatch_loop fs) ;;
  on1 (modify (fun s => (s.1, set_to_peer [] s.2))).

(** [GetResource(2)] *)
Definition resource2 : ST (mux * Mock) ResourceInfo :=
  r ← gets (fun s => mResources s.2 !! 2);
  match r with Some r => mret r | None => lift (Fault (Undefined "use of a null pointer")) end.
(** Reading a field. *)
Definition field {A} (f : option A) : ST world A :=
  lift (match f with Some a => Ok a | None => Fault (Undefined "use of an uninitialised field") end).
Definition listener_state : ST (mux * Mock) MockListener := gets (fun s => mock_listener s.2).

Definition check_opened (r : ResourceInfo) (from_peer : bool) (seq_open : Z) : ST world unit :=
  fp ← field (r_mFromPeer r); sassert (Bool.eqb fp from_peer) "mFromPeer" ;;
  seq ← field (r_mSeq r); sassert (seq =? seq_open) "resource->mSeq == seq_open" ;;
  err ← field (r_mErr r); sassert (err =? 0) "resource->mErr == 0".
Definition payload_packet (sz chan_id : Z) (b : byte) : ST world (list byte) :=
  lift (DataPacket_Create sz chan_id (replicate (Z.to_nat sz) b)).

(** [fresh]: what [new] finds in the memory of [mClosed] and [mError], which
    the constructor does not set; [buf]: what is in the muxes' buffers. *)
Definition test_world (fresh1 fresh2 : bool * bool) (buf : list byte) : world :=
  World (new_Mux SideServer buf, AddResource 2 8181 1 (MkMock ∅ [] (Listener 0 fresh1.1 fresh1.2)))
        (new_Mux SideClient buf, AddResource 2 18181 2 (MkMock ∅ [] (Listener 0 fresh2.1 fresh2.2))).
Definition test_open : ST world unit :=
  seq_open ← on1 (Open [byte_of_Z 50]);
  Dispatch2 ;;
  r2 ← on2 resource2; check_opened r2 false seq_open ;;
  Dispatch1 ;;
  r1 ← on1 resource2; check_opened r1 true seq_open ;;
  chan_id ← field (r_mChanId r1); id2 ← field (r_mChanId r2);
  sassert (chan_id =? id2) "resource1->mChanId == resource2->mChanId" ;;
  data ← payload_packet 389 chan_id (byte_of_Z 3);
  on1 (Channel_Send chan_id data) ;;
  l2 ← on2 listener_state; sassert (l_result l2 =? 0) "result2 == 0" ;;
  Dispatch2 ;;
  l2 ← on2 listener_state; sassert (l_result l2 =? 389 * 3) "result2 == sz * 3" ;;
  data ← payload_packet 512 chan_id (byte_of_Z 5);
  on2 (Channel_Send chan_id data) ;;
  l1 ← on1 listener_state; sassert (l_result l1 =? 0) "result1 == 0" ;;
  Dispatch1 ;;
  l1 ← on1 listener_state; sassert (l_result l1 =? 512 * 5) "result1 == sz * 5" ;;
  l2 ← on2 listener_state;
  sassert (negb (l_mClosed l1)) "!listener1->mClosed" ;;
  sassert (negb (l_mClosed l2)) "!listener2->mClosed" ;;
  on1 (Channel_Close chan_id) ;;
  l1 ← on1 listener_state; sassert (l_mClosed l1) "listener1->mClosed" ;;
  l2 ← on2 listener_state; sassert (negb (l_mClosed l2)) "!listener2->mClosed" ;;
  Dispatch2 ;;
  l2 ← on2 listener_state; sassert (l_mClosed l2) "listener2->mClosed" ;;
  c1 ← on1 (GetChannel chan_id); sassert (bool_decide (c1 = None)) "mux1.GetChannel(chan_id) == nullptr" ;;
  c2 ← on2 (GetChannel chan_id); sassert (bool_decide (c2 = None)) "mux2.GetChannel(chan_id) == nullptr" ;;
  sassert (negb (l_mError l1)) "listener1->mError == 0" ;;
  sassert (negb (l_mError l2)) "listener2->mError == 0".

Definition passes (fresh1 fresh2 : bool * bool) : bool :=
  match test_open (test_world fresh1 fresh2 (replicate 4096 NUL)) with Ok _ => true | Fault _ => false end.

(** The unit test passes just when the memory that [new] gives to the two
    listeners happens to be zero: [MockPacketListener] does not initialise
    [mClosed] and [mError]. *)
Theorem test_open_passes (fresh1 fresh2 : bool * bool) :
  passes fresh1 fresh2 = true ↔ fresh1 = (false, false) ∧ fresh2 = (false, false).
Proof.
  destruct fresh1 as [[] []], fresh2 as [[] []];
    match goal with |- passes ?a ?b = true ↔ _ =>
      let r := eval vm_compute in (passes a b) in
      assert (passes a b = r) as -> by (vm_compute; reflexivity) end; naive_solver.
Qed.
