(* ===== verification/MuxNet.v ===== *)
(** * mux: two muxes and what is in flight between them

    The protocol that two muxes speak, as an abstract machine: each endpoint
    opens, sends, closes and receives on its own, while packets of both are
    under way.  [MuxNetSpec] shows that the code does what the machine does;
    here is the invariant from which it follows that no packet is ever out of
    place, whatever the interleaving. *)

From stdpp Require Import functions.
From S2P Require Import Prelude Mux.

(** ** Packets and endpoints *)
Inductive msg :=
| MOpen (q : Z) (path : list byte)
| MReply (q req sz c : Z)
| MData (c q : Z) (d : list byte)
| MClose (c q : Z)
| MNak (c q : Z).

(** The channel that a packet is about, and the number of a control packet. *)
Definition msg_chan (m : msg) : option Z :=
  match m with MOpen _ _ => None | MReply _ _ _ c | MData c _ _ | MClose c _ | MNak c _ => Some c end.
Definition msg_ctl (m : msg) : option Z :=
  match m with MOpen q _ | MReply q _ _ _ => Some q | _ => None end.

Record achan := Achan { a_size : Z; a_seq : Z; a_peer : Z }.
(** [e_out]: the packets under way to the peer; [e_sent] and [e_got] remember
    what has been sent and what the listeners were given, channel by channel. *)
Record endpoint := Endpoint {
  e_side : Z; e_seq : Z; e_peer : Z; e_next : Z;
  e_chans : gmap Z achan; e_wait : gmap Z (list byte);
  e_out : list msg; e_sent : list (Z * list byte); e_got : list (Z * list byte);
}.
Definition e_start (side : Z) : endpoint := Endpoint side 1 1 (4 + side) ∅ ∅ [] [] [].

Definition put_out (m : msg) (x : endpoint) : endpoint :=
  Endpoint (e_side x) (e_seq x) (e_peer x) (e_next x) (e_chans x) (e_wait x) (e_out x ++ [m]) (e_sent x) (e_got x).
Definition put_chans (cs : gmap Z achan) (x : endpoint) : endpoint :=
  Endpoint (e_side x) (e_seq x) (e_peer x) (e_next x) cs (e_wait x) (e_out x) (e_sent x) (e_got x).
Definition put_wait (w : gmap Z (list byte)) (x : endpoint) : endpoint :=
  Endpoint (e_side x) (e_seq x) (e_peer x) (e_next x) (e_chans x) w (e_out x) (e_sent x) (e_got x).
Definition put_control (seq peer next : Z) (x : endpoint) : endpoint :=
  Endpoint (e_side x) seq peer next (e_chans x) (e_wait x) (e_out x) (e_sent x) (e_got x).
Definition put_sent (c : Z) (d : list byte) (x : endpoint) : endpoint :=
  Endpoint (e_side x) (e_seq x) (e_peer x) (e_next x) (e_chans x) (e_wait x) (e_out x) (e_sent x ++ [(c, d)]) (e_got x).
Definition put_got (c : Z) (d : list byte) (x : endpoint) : endpoint :=
  Endpoint (e_side x) (e_seq x) (e_peer x) (e_next x) (e_chans x) (e_wait x) (e_out x) (e_sent x) (e_got x ++ [(c, d)]).
Definition pop_out (x : endpoint) : endpoint :=
  Endpoint (e_side x) (e_seq x) (e_peer x) (e_next x) (e_chans x) (e_wait x) (tail (e_out x)) (e_sent x) (e_got x).

(** ** What an endpoint does *)
(** [ADeliver n]: up to [n] packets arrive at once. *)
Inductive action := AOpen (path : list byte) | ASend (c : Z) (d : list byte) | AClose (c : Z) | ADeliver (n : nat).

Section Protocol.
Context (size_of : list byte → Z).

Definition p_open (path : list byte) (x : endpoint) : endpoint :=
  put_wait (<[e_seq x := path]> (e_wait x))
    (put_out (MOpen (e_seq x) path) (put_control (e_seq x + 1) (e_peer x) (e_next x) x)).
Definition p_send (c : Z) (d : list byte) (x : endpoint) : endpoint :=
  match e_chans x !! c with
  | Some ch => put_sent c d (put_out (MData c (a_seq ch) d)
                 (put_chans (<[c := Achan (a_size ch) (a_seq ch + 1) (a_peer ch)]> (e_chans x)) x))
  | None => x
  end.
(** A channel of size 0 is a stream.  Nobody closes one: the code would delete
    a [StreamChannel] as a [Channel]. *)
Definition streamed (c : Z) (x : endpoint) : bool :=
  match e_chans x !! c with Some ch => a_size ch =? 0 | None => false end.
Definition p_close (c : Z) (x : endpoint) : endpoint :=
  if streamed c x then x else
  match e_chans x !! c with
  | Some ch => put_out (MClose c (a_seq ch)) (put_chans (delete c (e_chans x)) x)
  | None => x
  end.

(** [None]: the packet is out of place, or closes a stream. *)
Definition p_receive (m : msg) (x : endpoint) : option endpoint :=
  match m with
  | MOpen q path =>
      if negb (q =? e_peer x) then None else
      Some (put_out (MReply (e_seq x) q (size_of path) (e_next x))
        (put_chans (<[e_next x := Achan (size_of path) 1 1]> (e_chans x))
          (put_control (e_seq x + 1) (e_peer x + 1) (e_next x + 2) x)))
  | MReply q req sz c =>
      if negb (q =? e_peer x) then None else
      match e_chans x !! c, e_wait x !! req with
      | None, Some _ =>
          Some (put_chans (<[c := Achan sz 1 1]> (e_chans x))
            (put_wait (delete req (e_wait x)) (put_control (e_seq x) (e_peer x + 1) (e_next x) x)))
      | _, _ => None
      end
  | MData c q d =>
      match e_chans x !! c with
      | Some ch =>
          if negb (q =? a_peer ch) then None else
          Some (put_got c d (put_chans (<[c := Achan (a_size ch) (a_seq ch) (a_peer ch + 1)]> (e_chans x)) x))
      | None => Some (put_out (MNak c q) x)
      end
  | MClose c _ => if streamed c x then None else Some (put_chans (delete c (e_chans x)) x)
  | MNak c _ => match e_chans x !! c with Some _ => None | None => Some x end
  end.

(** The first [n] packets of [y] arrive. *)
Fixpoint p_deliver (n : nat) (x y : endpoint) : option (endpoint * endpoint) :=
  match n, e_out y with
  | S n, m :: _ => x ← p_receive m x; p_deliver n x (pop_out y)
  | _, _ => Some (x, y)
  end.
(** [x] acts. *)
Definition p_act (a : action) (x y : endpoint) : option (endpoint * endpoint) :=
  match a with
  | AOpen path => Some (p_open path x, y)
  | ASend c d => Some (p_send c d x, y)
  | AClose c => Some (p_close c x, y)
  | ADeliver n => p_deliver n x y
  end.
End Protocol.

(** ** One channel *)
Definition about (c : Z) (l : list msg) : list msg := filter (fun m => msg_chan m = Some c) l.
Definition datas (l : list msg) : list (list byte) :=
  omap (fun m => match m with MData _ _ d => Some d | _ => None end) l.
Definition on (c : Z) (l : list (Z * list byte)) : list (list byte) :=
  omap (fun p => if decide (p.1 = c) then Some p.2 else None) l.
#[global] Arguments about : simpl never.
#[global] Arguments on : simpl never.
Lemma about_app c l1 l2 : about c (l1 ++ l2) = about c l1 ++ about c l2.
Proof. apply list.filter_app. Qed.
Lemma about_one c m : about c [m] = if decide (msg_chan m = Some c) then [m] else [].
Proof. unfold about. by rewrite list.filter_cons, list.filter_nil. Qed.
Lemma on_app c l1 l2 : on c (l1 ++ l2) = on c l1 ++ on c l2.
Proof. apply omap_app. Qed.
Lemma datas_app l1 l2 : datas (l1 ++ l2) = datas l1 ++ datas l2.
Proof. apply omap_app. Qed.

Definition nak (m : msg) : Prop := match m with MNak _ _ => True | _ => False end.
Definition no_reply (m : msg) : Prop := match m with MReply _ _ _ _ => False | _ => True end.

(** The packets about [c] that are under way to an endpoint that has it and
    expects [p]: data in sequence up to the sender's next number, or up to its
    [CloseChan], which only [Nak]s follow. *)
Inductive flow (c : Z) : option Z → Z → list msg → Prop :=
| flow_open q : flow c (Some q) q []
| flow_data s p d l : flow c s (p + 1) l → flow c s p (MData c p d :: l)
| flow_close p l : Forall nak l → flow c None p (MClose c p :: l).

Lemma flow_send c q p l d : flow c (Some q) p l → flow c (Some (q + 1)) p (l ++ [MData c q d]).
Proof.
  remember (Some q) as s eqn:Hs. induction 1 as [q'|s p d' l _ IH|p l]; [|constructor; by apply IH|done].
  injection Hs as ->. repeat constructor.
Qed.
Lemma flow_shut c q p l : flow c (Some q) p l → flow c None p (l ++ [MClose c q]).
Proof.
  remember (Some q) as s eqn:Hs. induction 1 as [q'|s p d' l _ IH|p l]; [|constructor; by apply IH|done].
  injection Hs as ->. repeat constructor.
Qed.
Lemma flow_nak c q p l : flow c None p l → flow c None p (l ++ [MNak c q]).
Proof.
  remember None as s eqn:Hs. induction 1 as [q'|s p d' l _ IH|p l Hl]; [done|constructor; by apply IH|].
  constructor. apply Forall_app. split; [done|]. by repeat constructor.
Qed.
Lemma flow_no_reply c s p l : flow c s p l → Forall no_reply l.
Proof.
  induction 1 as [|s p d l _ IH|p l Hl]; [constructor|by constructor|]. constructor; [done|].
  eapply Forall_impl; [|exact Hl]. by intros [].
Qed.

(** What the two endpoints have of one channel: the channel, as the next
    numbers to send and to receive, and the parts of the lists that are about it. *)
Record slice := Slice {
  s_chan : option (Z * Z); s_out : list msg; s_sent : list (list byte); s_got : list (list byte);
}.
Definition slice_of (c : Z) (x : endpoint) : slice :=
  Slice ((fun ch => (a_seq ch, a_peer ch)) <$> e_chans x !! c) (about c (e_out x)) (on c (e_sent x)) (on c (e_got x)).
Definition no_slice : slice := Slice None [] [] [].

Section Channel.
Context (c : Z).
Implicit Types (x y : slice).

(** The peer has accepted the channel, and its reply is under way to [y]. *)
Definition in_flight x y : Prop :=
  y = no_slice ∧ ∃ q req sz l, s_out x = MReply q req sz c :: l ∧
    flow c (fst <$> s_chan x) 1 l ∧ datas l = s_sent x ∧ s_got x = [].

(** From [x] to [y]. *)
Definition carried x y : Prop :=
  match s_chan y with
  | Some (_, p) =>
      (flow c (fst <$> s_chan x) p (s_out x) ∨ in_flight y x ∧ p = 1) ∧ s_got y ++ datas (s_out x) = s_sent x
  | None => in_flight x y ∨ Forall no_reply (s_out x) ∧ s_got y `prefix_of` s_sent x
  end.
Definition linked x y : Prop := carried x y ∧ carried y x.
Lemma linked_sym x y : linked x y → linked y x.
Proof. by intros []. Qed.

Lemma linked_none : linked no_slice no_slice.
Proof. by split; right. Qed.

(** *** The steps of one channel *)
Definition app_out (m : msg) x : slice := Slice (s_chan x) (s_out x ++ [m]) (s_sent x) (s_got x).
Definition tail_out x : slice := Slice (s_chan x) (tail (s_out x)) (s_sent x) (s_got x).

Lemma linked_send x y q p d : s_chan x = Some (q, p) → linked x y →
  linked (Slice (Some (q + 1, p)) (s_out x ++ [MData c q d]) (s_sent x ++ [d]) (s_got x)) y.
Proof.
  intros Hx [Hxy Hyx]. split.
  - unfold carried in *. destruct (s_chan y) as [[q' p']|] eqn:Hy; cbn.
    + rewrite Hx in Hxy. destruct Hxy as [[Hf|[[-> _] _]] Hh]; [|done]. split.
      * left. cbn. by apply flow_send.
      * by rewrite datas_app, app_assoc, Hh.
    + destruct Hxy as [(Hny & q0 & req & sz & l & Ho & Hf & Hd & Hg)|[Hn Hp]].
      * left. split; [done|]. exists q0, req, sz, (l ++ [MData c q d]). rewrite Hx in Hf. cbn.
        split_and!; [by rewrite Ho|by apply flow_send|by rewrite datas_app, Hd|done].
      * right. split; [apply Forall_app; split; [done|by repeat constructor]|]. by apply prefix_app_r.
  - unfold carried in *. rewrite Hx in Hyx. cbn. destruct Hyx as [[Hf|[Hi Hp]] Hh]; (split; [|done]); [by left|right].
    split; [|done]. destruct Hi as (Hny & q0 & req & sz & l & Ho & Hf & Hd & Hg). split; [done|].
    exists q0, req, sz, (l ++ [MData c q d]). cbn. rewrite Hx in Hf.
    split_and!; [by rewrite Ho|by apply flow_send|by rewrite datas_app, Hd|done].
Qed.
Lemma linked_close x y q p : s_chan x = Some (q, p) → linked x y →
  linked (Slice None (s_out x ++ [MClose c q]) (s_sent x) (s_got x)) y.
Proof.
  intros Hx [Hxy Hyx]. split.
  - unfold carried in *. destruct (s_chan y) as [[q' p']|] eqn:Hy; cbn.
    + rewrite Hx in Hxy. destruct Hxy as [[Hf|[[-> _] _]] Hh]; [|done]. split.
      * left. cbn. by apply flow_shut.
      * by rewrite datas_app, app_nil_r.
    + destruct Hxy as [(Hny & q0 & req & sz & l & Ho & Hf & Hd & Hg)|[Hn Hp]].
      * left. split; [done|]. exists q0, req, sz, (l ++ [MClose c q]). rewrite Hx in Hf. cbn.
        split_and!; [by rewrite Ho|by apply flow_shut|by rewrite datas_app, app_nil_r|done].
      * right. split; [apply Forall_app; split; [done|by repeat constructor]|done].
  - unfold carried in *. rewrite Hx in Hyx. cbn. right. destruct Hyx as [[Hf|[[-> _] _]] Hh].
    + split; [by eapply flow_no_reply|]. by exists (datas (s_out y)).
    + split; [constructor|]. cbn in *. rewrite app_nil_r in Hh. by rewrite Hh.
Qed.

(** Receiving. *)
Lemma linked_data x y q d l q' p : s_out y = MData c q d :: l → s_chan x = Some (q', p) → linked x y →
  q = p ∧ linked (Slice (Some (q', p + 1)) (s_out x) (s_sent x) (s_got x ++ [d])) (tail_out y).
Proof.
  intros Hy Hx [Hxy Hyx]. unfold carried in Hyx. rewrite Hx, Hy in Hyx.
  destruct Hyx as [[Hf|[[-> _] _]] Hh]; [|done]. inversion Hf; subst. split; [done|]. split.
  - unfold carried in *. rewrite Hx in Hxy. cbn. destruct (s_chan y) as [[q1 p1]|] eqn:Hcy; cbn.
    + destruct Hxy as [[?|[Hi ?]] ?]; (split; [|done]); [by left|]. destruct Hi as [-> _]. done.
    + destruct Hxy as [[-> _]|?]; [done|by right].
  - unfold carried. cbn. rewrite Hy. cbn. split; [by left|]. by rewrite <-Hh, <-app_assoc.
Qed.
Lemma linked_data_gone x y q d l : s_out y = MData c q d :: l → s_chan x = None → linked x y →
  linked (app_out (MNak c q) x) (tail_out y).
Proof.
  intros Hy Hx [Hxy Hyx]. unfold carried in Hyx. rewrite Hx in Hyx.
  destruct Hyx as [(_ & q0 & req & sz & l' & Ho & _)|[Hn Hp]]; [congruence|].
  rewrite Hy in Hn. apply Forall_cons_1 in Hn as [_ Hn]. split.
  - unfold carried in *. cbn. rewrite Hx in Hxy. destruct (s_chan y) as [[q1 p1]|] eqn:Hcy; cbn.
    + destruct Hxy as [[Hf|[Hi ?]] Hh].
      * split; [left; rewrite Hx; by apply flow_nak|by rewrite datas_app, app_nil_r].
      * destruct Hi as (_ & q0 & req & sz & l' & Ho & _). congruence.
    + destruct Hxy as [[-> _]|[Hn' ?]]; [done|]. right. split; [|done]. apply Forall_app. split; [done|by repeat constructor].
  - unfold carried. cbn. rewrite Hx, Hy. cbn. by right.
Qed.
Lemma linked_shut x y q l : s_out y = MClose c q :: l → linked x y →
  linked (Slice None (s_out x) (s_sent x) (s_got x)) (tail_out y).
Proof.
  intros Hy [Hxy Hyx]. split.
  - unfold carried in *. cbn. destruct (s_chan y) as [[q1 p1]|] eqn:Hcy; cbn.
    + destruct (s_chan x) as [[q2 p2]|] eqn:Hcx.
      { destruct Hyx as [[Hf|[[-> _] _]] _]; [|done]. rewrite Hy in Hf. by inversion Hf. }
      destruct Hxy as [[Hf|[(_ & q0 & req & sz & l' & Ho & _) ?]] Hh]; [by split; [left|]|congruence].
    + destruct Hxy as [[-> _]|?]; [done|by right].
  - unfold carried in *. cbn. right. rewrite Hy in *. cbn. destruct (s_chan x) as [[q2 p2]|].
    + destruct Hyx as [[Hf|[[-> _] _]] Hh]; [|done]. apply flow_no_reply in Hf. apply Forall_cons_1 in Hf as [_ Hf].
      split; [done|]. by eexists.
    + destruct Hyx as [(_ & q0 & req & sz & l' & Ho & _)|[Hn Hp]]; [congruence|].
      apply Forall_cons_1 in Hn as [_ Hn]. done.
Qed.
Lemma linked_nak x y q l : s_out y = MNak c q :: l → linked x y → s_chan x = None ∧ linked x (tail_out y).
Proof.
  intros Hy [Hxy Hyx]. destruct (s_chan x) as [[q2 p2]|] eqn:Hcx.
  { exfalso. unfold carried in Hyx. rewrite Hcx in Hyx. destruct Hyx as [[Hf|[[-> _] _]] _]; [|done].
    rewrite Hy in Hf. inversion Hf. }
  split; [done|]. split; unfold carried in *; rewrite Hcx in *.
  - cbn. destruct (s_chan y) as [[q1 p1]|] eqn:Hcy; cbn.
    + destruct Hxy as [[Hf|[(_ & q0 & req & sz & l' & Ho & _) ?]] Hh]; [by split; [left|]|congruence].
    + destruct Hxy as [[-> _]|?]; [done|by right].
  - right. cbn. rewrite Hy in *. cbn. destruct Hyx as [(_ & q0 & req & sz & l' & Ho & _)|[Hn Hp]]; [congruence|].
    by apply Forall_cons_1 in Hn as [_ Hn].
Qed.
Lemma linked_reply x y q req sz l : s_out y = MReply q req sz c :: l → linked x y →
  x = no_slice ∧ linked (Slice (Some (1, 1)) (s_out x) (s_sent x) (s_got x)) (tail_out y).
Proof.
  intros Hy [Hxy Hyx]. destruct (s_chan x) as [[q2 p2]|] eqn:Hcx; unfold carried in Hyx; rewrite Hcx in Hyx.
  { exfalso. destruct Hyx as [[Hf|[[-> _] _]] _]; [|done]. rewrite Hy in Hf. inversion Hf. }
  destruct Hyx as [(-> & q0 & req0 & sz0 & l' & Ho & Hf & Hd & Hg)|[Hn _]].
  2: { rewrite Hy in Hn. by apply Forall_cons_1 in Hn as [[] _]. }
  rewrite Hy in Ho. injection Ho as _ _ _ <-. split; [done|]. split; unfold carried; cbn.
  - destruct (s_chan y) as [[q1 p1]|] eqn:Hcy; cbn.
    + unfold carried in Hxy. rewrite Hcy in Hxy. destruct Hxy as [[Hf1|[Hi ->]] Hh]; [inversion Hf1|].
      split; [left; constructor|by rewrite app_nil_r, Hg].
    + right. split; [constructor|]. rewrite Hg. done.
  - rewrite Hy. cbn. split; [by left|done].
Qed.

(** A new channel: [x] accepts it and sends its reply. *)
Lemma linked_new q req sz : linked (Slice (Some (1, 1)) [MReply q req sz c] [] []) no_slice.
Proof.
  assert (in_flight (Slice (Some (1, 1)) [MReply q req sz c] [] []) no_slice).
  { split; [done|]. exists q, req, sz, []. split_and!; try done. constructor. }
  split; unfold carried; cbn; [by left|]. split; [by right|done].
Qed.
End Channel.

(** ** The two endpoints *)

(** Consecutive numbers from [p] up to, but not including, [q]. *)
Fixpoint consec (p : Z) (l : list Z) (q : Z) : Prop :=
  match l with [] => p = q | n :: l => n = p ∧ consec (p + 1) l q end.
Lemma consec_snoc l : ∀ p q, consec p l q → consec p (l ++ [q]) (q + 1).
Proof. induction l as [|n l IH]; intros p q; cbn; [by intros ->|]. intros [-> H]. split; [done|by apply IH]. Qed.
Lemma consec_le l : ∀ p q, consec p l q → p ≤ q.
Proof. induction l as [|n l IH]; intros p q; cbn; [lia|]. intros [_ H%IH]. lia. Qed.

Definition ctl_numbers (l : list msg) : list Z := omap msg_ctl l.
(** The requests of [x] that are not settled: under way, or answered by a
    reply that is under way. *)
Definition open_numbers (l : list msg) : list Z :=
  omap (fun m => match m with MOpen q _ => Some q | _ => None end) l.
Definition reply_numbers (l : list msg) : list Z :=
  omap (fun m => match m with MReply _ req _ _ => Some req | _ => None end) l.
Definition requests (x y : endpoint) : list Z := open_numbers (e_out x) ++ reply_numbers (e_out y).

Definition good_path (p : list byte) : Prop := (NUL ∉ p) ∧ Z.of_nat (base.length p) < MaxPathLen.
Definition good_data (d : list byte) : Prop := 0 < Z.of_nat (base.length d) ≤ MaxPayloadSize.
Definition good_size (sz : Z) : Prop := 0 ≤ sz < 2 ^ 31.
Definition good_chan (k c : Z) : Prop := 0 < c ≤ 5 + 2 * k.

(** Numbers after [k] actions. *)
Definition msg_ok (k side : Z) (m : msg) : Prop :=
  match m with
  | MOpen q p => 1 ≤ q ≤ k ∧ good_path p
  | MReply q r sz c => 1 ≤ q ≤ k ∧ 1 ≤ r ≤ k ∧ good_size sz ∧ good_chan k c ∧ c mod 2 = side
  | MData c q d => good_chan k c ∧ 1 ≤ q ≤ k ∧ good_data d
  | MClose c q | MNak c q => good_chan k c ∧ 1 ≤ q ≤ k
  end.
Definition chan_ok (k c : Z) (ch : achan) : Prop :=
  good_chan k c ∧ 1 ≤ a_seq ch ≤ 1 + k ∧ 1 ≤ a_peer ch ∧ good_size (a_size ch).
Record local_ok (k : Z) (x : endpoint) : Prop := {
  lo_side : 0 ≤ e_side x < 2;
  lo_seq : 1 ≤ e_seq x ≤ 1 + k;
  lo_peer : 1 ≤ e_peer x;
  lo_next : e_next x mod 2 = e_side x ∧ 4 ≤ e_next x ≤ 5 + 2 * k;
  lo_chan : map_Forall (chan_ok k) (e_chans x);
  lo_wait : map_Forall (fun _ p => good_path p) (e_wait x);
  lo_out : Forall (msg_ok k (e_side x)) (e_out x);
}.

(** The control channel, from [x] to [y], and the numbers that [x] has not used. *)
Record control_ok (x y : endpoint) : Prop := {
  ct_seq : consec (e_peer y) (ctl_numbers (e_out x)) (e_seq x);
  ct_req : NoDup (requests x y);
  ct_wait : Forall (fun r => r < e_seq x ∧ is_Some (e_wait x !! r)) (requests x y);
  ct_fresh c : e_next x ≤ c → c mod 2 = e_side x → slice_of c x = no_slice ∧ slice_of c y = no_slice;
}.
Record net_ok (k : Z) (x y : endpoint) : Prop := {
  n_side : e_side x ≠ e_side y;
  n_slice c : linked c (slice_of c x) (slice_of c y);
  n_local : local_ok k x;
  n_local' : local_ok k y;
  n_ctl : control_ok x y;
  n_ctl' : control_ok y x;
}.
Lemma net_ok_sym k x y : net_ok k x y → net_ok k y x.
Proof. intros []. split; auto using linked_sym. Qed.

Lemma net_start : net_ok 0 (e_start 0) (e_start 1).
Proof.
  assert (∀ s c, slice_of c (e_start s) = no_slice) as Hs by done.
  assert (∀ s, 0 ≤ s < 2 → local_ok 0 (e_start s)) as Hl.
  { intros s Hr. split; cbn; try lia; [|apply map_Forall_empty..|constructor]. split; [|lia].
    replace (4 + s) with (s + 2 * 2) by lia. rewrite Z.mod_add, Z.mod_small by lia. done. }
  split; [done|intros c; rewrite !Hs; apply linked_none|by apply Hl|by apply Hl|..]; split; try done; constructor.
Qed.

Lemma msg_ok_mono k k' s m : k ≤ k' → msg_ok k s m → msg_ok k' s m.
Proof. intros Hk. destruct m; cbn; unfold good_chan; intuition lia. Qed.
Lemma chan_ok_mono k k' c ch : k ≤ k' → chan_ok k c ch → chan_ok k' c ch.
Proof. unfold chan_ok, good_chan. intuition lia. Qed.
Lemma local_ok_mono k k' x : k ≤ k' → local_ok k x → local_ok k' x.
Proof.
  intros Hk [? ? ? ? Hc ? Ho]. split; [done|lia|done|lia| |done|].
  - intros c ch Hl. eapply chan_ok_mono; [done|by apply Hc].
  - eapply Forall_impl; [|exact Ho]. intros m. by apply msg_ok_mono.
Qed.

(** *** Slices of what the steps leave *)
Definition numbers (ch : achan) : Z * Z := (a_seq ch, a_peer ch).
Lemma slice_out c m x : slice_of c (put_out m x) =
  if decide (msg_chan m = Some c) then app_out m (slice_of c x) else slice_of c x.
Proof.
  unfold slice_of, put_out, app_out. cbn. rewrite about_app, about_one.
  case_decide; [done|by rewrite app_nil_r].
Qed.
Lemma slice_chans c cs x : slice_of c (put_chans cs x) =
  Slice (numbers <$> cs !! c) (s_out (slice_of c x)) (s_sent (slice_of c x)) (s_got (slice_of c x)).
Proof. done. Qed.
Lemma slice_sent c c' d x : slice_of c (put_sent c' d x) =
  Slice (s_chan (slice_of c x)) (s_out (slice_of c x))
    (s_sent (slice_of c x) ++ if decide (c' = c) then [d] else []) (s_got (slice_of c x)).
Proof. unfold slice_of, put_sent. cbn. rewrite on_app. f_equal. unfold on. cbn. by case_decide. Qed.
Lemma slice_got c c' d x : slice_of c (put_got c' d x) =
  Slice (s_chan (slice_of c x)) (s_out (slice_of c x)) (s_sent (slice_of c x))
    (s_got (slice_of c x) ++ if decide (c' = c) then [d] else []).
Proof. unfold slice_of, put_got. cbn. rewrite on_app. f_equal. unfold on. cbn. by case_decide. Qed.
Lemma slice_pop c m l y : e_out y = m :: l → slice_of c (pop_out y) =
  if decide (msg_chan m = Some c) then tail_out (slice_of c y) else slice_of c y.
Proof.
  intros Hy. unfold slice_of, pop_out, tail_out. cbn. rewrite Hy. cbn. unfold about.
  rewrite list.filter_cons. by case_decide.
Qed.
Lemma slice_head c m l y : e_out y = m :: l → msg_chan m = Some c → ∃ l', s_out (slice_of c y) = m :: l'.
Proof. intros Hy Hm. cbn. rewrite Hy. unfold about. rewrite list.filter_cons, decide_True by done. eauto. Qed.

(** *** A step that concerns one channel *)
Record same_control (x x' : endpoint) : Prop := {
  sc_side : e_side x' = e_side x; sc_seq : e_seq x' = e_seq x; sc_peer : e_peer x' = e_peer x;
  sc_next : e_next x' = e_next x; sc_wait : e_wait x' = e_wait x;
  sc_ctl : ctl_numbers (e_out x') = ctl_numbers (e_out x);
  sc_open : open_numbers (e_out x') = open_numbers (e_out x);
  sc_reply : reply_numbers (e_out x') = reply_numbers (e_out x);
}.
Lemma same_control_out m x x' : msg_ctl m = None → e_out x' = e_out x ++ [m] → e_side x' = e_side x → e_seq x' = e_seq x →
  e_peer x' = e_peer x → e_next x' = e_next x → e_wait x' = e_wait x → same_control x x'.
Proof.
  intros Hm Ho ?????. unfold msg_ctl in Hm. split; try done; rewrite Ho;
    unfold ctl_numbers, open_numbers, reply_numbers; rewrite omap_app; destruct m; try done; cbn; by rewrite app_nil_r.
Qed.
Lemma same_control_pop m l y : e_out y = m :: l → msg_ctl m = None → same_control y (pop_out y).
Proof.
  intros Ho Hm. split; try done; cbn; rewrite Ho; unfold ctl_numbers, open_numbers, reply_numbers; by destruct m.
Qed.
Lemma same_control_refl x : same_control x x.
Proof. by split. Qed.
Lemma control_frame x y x' y' : same_control x x' → same_control y y' →
  (∀ c, slice_of c x = no_slice → slice_of c y = no_slice → slice_of c x' = no_slice ∧ slice_of c y' = no_slice) →
  control_ok x y → control_ok x' y'.
Proof.
  intros [] [] Hs [Hq Hr Hw Hf]. split.
  - congruence.
  - unfold requests in *. congruence.
  - unfold requests in *. by rewrite sc_open0, sc_reply1, sc_seq0, sc_wait0.
  - intros c. rewrite sc_next0, sc_side0. intros H1 H2. destruct (Hf c H1 H2). by apply Hs.
Qed.
Lemma net_channel k k' x y x' y' c : net_ok k x y →
  linked c (slice_of c x') (slice_of c y') →
  (∀ b, b ≠ c → slice_of b x' = slice_of b x ∧ slice_of b y' = slice_of b y) →
  (slice_of c x = no_slice → slice_of c y ≠ no_slice) →
  same_control x x' → same_control y y' → local_ok k' x' → local_ok k' y' → net_ok k' x' y'.
Proof.
  intros [Hs Hl _ _ Hxy Hyx] Hc Hne Hno Sx Sy Lx Ly.
  assert (∀ b, slice_of b x = no_slice → slice_of b y = no_slice →
    slice_of b x' = no_slice ∧ slice_of b y' = no_slice) as Hf.
  { intros b H1 H2. destruct (decide (b = c)) as [->|Hb]; [by apply Hno in H2|]. destruct (Hne b Hb). by split; congruence. }
  split; try done.
  - destruct Sx, Sy. congruence.
  - intros b. destruct (decide (b = c)) as [->|Hb]; [done|]. destruct (Hne b Hb) as [-> ->]. apply Hl.
  - by apply (control_frame x y).
  - apply (control_frame y x); try done. intros b H1 H2. destruct (Hf b H2 H1). by split.
Qed.

Lemma local_out k m z : local_ok k z → msg_ok k (e_side z) m → local_ok k (put_out m z).
Proof. intros [] Hm. split; try done. cbn. apply Forall_app. split; [done|by constructor]. Qed.
Lemma local_chans k cs z : local_ok k z → map_Forall (chan_ok k) cs → local_ok k (put_chans cs z).
Proof. by intros [] ?. Qed.
Lemma local_sent k c d z : local_ok k z → local_ok k (put_sent c d z).
Proof. by intros []. Qed.
Lemma local_got k c d z : local_ok k z → local_ok k (put_got c d z).
Proof. by intros []. Qed.
Lemma local_pop k z : local_ok k z → local_ok k (pop_out z).
Proof. intros [? ? ? ? ? ? Ho]. split; try done. cbn. by destruct Ho. Qed.
Lemma local_insert k c ch z : local_ok k z → chan_ok k c ch → map_Forall (chan_ok k) (<[c := ch]> (e_chans z)).
Proof. intros [] ?. by apply map_Forall_insert_2. Qed.
Lemma local_delete k c z : local_ok k z → map_Forall (chan_ok k) (delete c (e_chans z)).
Proof. intros []. by apply map_Forall_delete. Qed.

Section Steps.
Context (size_of : list byte → Z).
Context (k : Z) (x y : endpoint).
Hypothesis Hnet : net_ok k x y.
Let Hx : local_ok k x := n_local _ _ _ Hnet.
Let Hy : local_ok k y := n_local' _ _ _ Hnet.

Lemma local_next z : local_ok k z → local_ok (k + 1) z.
Proof. apply local_ok_mono. lia. Qed.

Lemma net_mono : net_ok (k + 1) x y.
Proof using All. destruct Hnet. split; auto using local_next. Qed.

(** The channel [c] of [x] is live. *)
Lemma slice_live c ch : e_chans x !! c = Some ch → s_chan (slice_of c x) = Some (a_seq ch, a_peer ch).
Proof. intros Hc. cbn. by rewrite Hc. Qed.

Lemma step_send c d : good_data d → net_ok (k + 1) (p_send c d x) y.
Proof using All.
  intros Hd. unfold p_send. destruct (e_chans x !! c) as [ch|] eqn:Hc; [|apply net_mono].
  pose proof (slice_live c ch Hc) as Hs. destruct (lo_chan _ _ Hx _ _ Hc) as (Hcb & Hq & Hp & Hsz).
  apply (net_channel k _ x y _ _ c); [done|..].
  - rewrite slice_sent, slice_out, slice_chans. cbn [msg_chan]. rewrite !decide_True by done. cbn.
    rewrite lookup_insert_eq. cbn. apply (linked_send c (slice_of c x)); [done|]. apply (n_slice _ _ _ Hnet).
  - intros b Hb. split; [|done]. rewrite slice_sent, slice_out, slice_chans, !decide_False by (cbn; congruence).
    cbn. by rewrite lookup_insert_ne, app_nil_r.
  - intros Hno. by rewrite Hno in Hs.
  - by apply (same_control_out (MData c (a_seq ch) d)).
  - done.
  - pose proof (local_next x Hx) as Hx'. apply local_sent, local_out; [apply local_chans; [done|]|].
    + apply local_insert; [done|]. unfold chan_ok, good_chan, good_size in *. cbn. lia.
    + cbn. unfold good_chan, good_data in *. lia.
  - by apply local_next.
Qed.
Lemma step_close c : net_ok (k + 1) (p_close c x) y.
Proof using All.
  unfold p_close. destruct (streamed c x); [apply net_mono|]. destruct (e_chans x !! c) as [ch|] eqn:Hc; [|apply net_mono].
  pose proof (slice_live c ch Hc) as Hs. destruct (lo_chan _ _ Hx _ _ Hc) as (Hcb & Hq & Hp & Hsz).
  apply (net_channel k _ x y _ _ c); [done|..].
  - rewrite slice_out, slice_chans. cbn [msg_chan]. rewrite !decide_True by done. cbn.
    rewrite lookup_delete_eq. cbn. apply (linked_close c (slice_of c x) _ _ (a_peer ch)); [done|]. apply (n_slice _ _ _ Hnet).
  - intros b Hb. split; [|done]. rewrite slice_out, slice_chans, !decide_False by (cbn; congruence).
    cbn. by rewrite lookup_delete_ne.
  - intros Hno. by rewrite Hno in Hs.
  - by apply (same_control_out (MClose c (a_seq ch))).
  - done.
  - pose proof (local_next x Hx) as Hx'. apply local_out; [apply local_chans; [done|]|].
    + by apply local_delete.
    + cbn. unfold good_chan in *. lia.
  - by apply local_next.
Qed.

(** Delivery of the first packet of [y]. *)
Lemma msgs_head m l : e_out y = m :: l → msg_ok k (e_side y) m.
Proof using All. intros Ho. pose proof (lo_out _ _ Hy) as H. rewrite Ho in H. by inversion H. Qed.
Lemma step_data c q d l : e_out y = MData c q d :: l →
  ∃ x', p_receive size_of (MData c q d) x = Some x' ∧ net_ok (k + 1) x' (pop_out y).
Proof using All.
  intros Ho. destruct (msgs_head _ _ Ho) as (Hcb & Hq & Hd). destruct (slice_head c _ l y Ho eq_refl) as [l' Hh].
  pose proof (n_slice _ _ _ Hnet c) as Hl. cbn.
  assert (slice_of c x = no_slice → slice_of c y ≠ no_slice) as Hno by (intros _ H; by rewrite H in Hh).
  assert (∀ b, b ≠ c → slice_of b (pop_out y) = slice_of b y) as Hpop.
  { intros b Hb. rewrite (slice_pop _ _ _ _ Ho). rewrite decide_False; [done|]. cbn. congruence. }
  assert (same_control y (pop_out y)) as Hsy by (by eapply same_control_pop).
  destruct (e_chans x !! c) as [ch|] eqn:Hc.
  - pose proof (slice_live c ch Hc) as Hs. destruct (linked_data c _ _ _ _ _ _ _ Hh Hs Hl) as [-> Hl'].
    rewrite Z.eqb_refl. cbn. eexists. split; [done|]. destruct (lo_chan _ _ Hx _ _ Hc) as (_ & Hcq & Hp & Hsz).
    apply (net_channel k _ x y _ _ c); try done.
    + rewrite slice_got, slice_chans, (slice_pop _ _ _ _ Ho). cbn [msg_chan]. rewrite !decide_True by done. cbn.
      rewrite lookup_insert_eq. exact Hl'.
    + intros b Hb. split; [|by apply Hpop]. rewrite slice_got, slice_chans, decide_False by congruence.
      cbn. by rewrite lookup_insert_ne, app_nil_r.
    + apply local_got, local_chans; [by apply local_next|]. apply local_insert; [by apply local_next|].
      unfold chan_ok, good_chan, good_size in *. cbn. lia.
    + apply local_pop. by apply local_next.
  - assert (s_chan (slice_of c x) = None) as Hs by (cbn; by rewrite Hc). eexists. split; [done|].
    pose proof (linked_data_gone c _ _ _ _ _ Hh Hs Hl) as Hl'.
    apply (net_channel k _ x y _ _ c); try done.
    + rewrite slice_out, (slice_pop _ _ _ _ Ho). cbn [msg_chan]. rewrite !decide_True by done. exact Hl'.
    + intros b Hb. split; [|by apply Hpop]. rewrite slice_out, decide_False; [done|]. cbn. congruence.
    + by apply (same_control_out (MNak c q)).
    + apply local_out; [by apply local_next|]. cbn. unfold good_chan in *. lia.
    + apply local_pop. by apply local_next.
Qed.
Lemma step_shut c q l : e_out y = MClose c q :: l → streamed c x = false →
  ∃ x', p_receive size_of (MClose c q) x = Some x' ∧ net_ok (k + 1) x' (pop_out y).
Proof using All.
  intros Ho Hs. destruct (slice_head c _ l y Ho eq_refl) as [l' Hh]. pose proof (n_slice _ _ _ Hnet c) as Hl.
  cbn [p_receive]. rewrite Hs. eexists. split; [done|]. apply (net_channel k _ x y _ _ c); try done.
  - rewrite slice_chans, (slice_pop _ _ _ _ Ho), decide_True, lookup_delete_eq by done.
    by apply (linked_shut c (slice_of c x) _ q l').
  - intros b Hb. rewrite slice_chans, (slice_pop _ _ _ _ Ho), decide_False by (cbn; congruence). cbn.
    by rewrite lookup_delete_ne.
  - intros _ H. by rewrite H in Hh.
  - by eapply same_control_pop.
  - apply local_chans; [by apply local_next|]. apply local_delete. by apply local_next.
  - apply local_pop. by apply local_next.
Qed.
Lemma step_nak c q l : e_out y = MNak c q :: l →
  ∃ x', p_receive size_of (MNak c q) x = Some x' ∧ net_ok (k + 1) x' (pop_out y).
Proof using All.
  intros Ho. destruct (slice_head c _ l y Ho eq_refl) as [l' Hh]. pose proof (n_slice _ _ _ Hnet c) as Hl.
  destruct (linked_nak c _ _ _ _ Hh Hl) as [Hs Hl']. cbn in Hs. exists x. split.
  - cbn. by destruct (e_chans x !! c).
  - apply (net_channel k _ x y _ _ c); try done.
    + by rewrite (slice_pop _ _ _ _ Ho), decide_True.
    + intros b Hb. split; [done|]. rewrite (slice_pop _ _ _ _ Ho), decide_False; [done|]. cbn. congruence.
    + intros _ H. by rewrite H in Hh.
    + by eapply same_control_pop.
    + by apply local_next.
    + apply local_pop. by apply local_next.
Qed.

(** *** The control channel *)
Lemma step_open path : good_path path → net_ok (k + 1) (p_open path x) y.
Proof using All.
  intros Hp. pose proof Hnet as [Hside Hsl _ _ [Cq Cr Cw Cf] [Dq Dr Dw Df]].
  pose proof (lo_seq _ _ Hx) as Hseq.
  assert (∀ c, slice_of c (p_open path x) = slice_of c x) as Hs.
  { intros c. unfold p_open, slice_of. cbn. by rewrite about_app, about_one, app_nil_r. }
  assert (requests (p_open path x) y ≡ₚ e_seq x :: requests x y) as Hreq.
  { unfold requests, open_numbers. cbn. rewrite omap_app, <-app_assoc. cbn. by rewrite Permutation_middle. }
  split; try done.
  - intros c. rewrite Hs. apply Hsl.
  - destruct (local_next x Hx) as [? ? ? ? ? ? Ho]. split; try done; cbn; [lia| |].
    + by apply map_Forall_insert_2.
    + apply Forall_app. split; [done|]. repeat constructor; cbn; try lia; apply Hp.
  - by apply local_next.
  - split.
    + cbn. unfold ctl_numbers. rewrite omap_app. by apply consec_snoc.
    + rewrite Hreq. apply list.NoDup_cons. split; [|done]. intros Hin.
      rewrite list.Forall_forall in Cw. destruct (Cw _ Hin). lia.
    + rewrite Hreq. constructor; [cbn; split; [lia|by rewrite lookup_insert_eq]|].
      eapply Forall_impl; [|exact Cw]. cbn. intros r [Hr ?]. split; [lia|]. by rewrite lookup_insert_ne by lia.
    + intros c. rewrite Hs. apply Cf.
  - split; try done.
    + unfold requests, reply_numbers in *. cbn. by rewrite omap_app, app_nil_r.
    + unfold requests, reply_numbers in *. cbn. by rewrite omap_app, app_nil_r.
    + intros c. rewrite Hs. apply Df.
Qed.
Lemma ctl_head m l q : e_out y = m :: l → msg_ctl m = Some q → q = e_peer x ∧ consec (e_peer x + 1) (ctl_numbers l) (e_seq y).
Proof using All.
  intros Ho Hm. pose proof (ct_seq _ _ (n_ctl' _ _ _ Hnet)) as H. rewrite Ho in H. unfold ctl_numbers in H. cbn in H.
  rewrite Hm in H. exact H.
Qed.
Lemma step_accept q path l : e_out y = MOpen q path :: l → good_size (size_of path) →
  ∃ x', p_receive size_of (MOpen q path) x = Some x' ∧ net_ok (k + 1) x' (pop_out y).
Proof using All.
  intros Ho Hsize. destruct (msgs_head _ _ Ho) as (Hq & Hp). destruct (ctl_head _ _ _ Ho eq_refl) as [-> Hcons].
  pose proof Hnet as [Hside Hsl _ _ [Cq Cr Cw Cf] [Dq Dr Dw Df]].
  pose proof (lo_seq _ _ Hx) as Hseq. destruct (lo_next _ _ Hx) as [Hpar Hnext]. pose proof (lo_side _ _ Hx) as Hxs.
  destruct (Cf (e_next x) ltac:(lia) Hpar) as [Hnx Hny].
  assert (∀ c, slice_of c (pop_out y) = slice_of c y) as Hpop.
  { intros c. by rewrite (slice_pop _ _ _ _ Ho). }
  cbn. rewrite Z.eqb_refl. cbn. eexists. split; [done|]. set (x' := put_out _ _).
  assert (slice_of (e_next x) x' = Slice (Some (1, 1)) [MReply (e_seq x) (e_peer x) (size_of path) (e_next x)] [] []) as Hnew.
  { unfold x'. rewrite slice_out, slice_chans, decide_True by done. cbn. rewrite lookup_insert_eq.
    injection Hnx as _ Hout Hsent Hgot. by rewrite Hout, Hsent, Hgot. }
  assert (∀ b, b ≠ e_next x → slice_of b x' = slice_of b x) as Hne.
  { intros b Hb. unfold x'. rewrite slice_out, slice_chans, decide_False by (cbn; congruence). cbn.
    by rewrite lookup_insert_ne. }
  split.
  - done.
  - intros c. rewrite Hpop. destruct (decide (c = e_next x)) as [->|Hc]; [|rewrite Hne by done; apply Hsl].
    rewrite Hnew, Hny. apply linked_new.
  - destruct (local_next x Hx) as [? ? ? ? ? ? Hout]. split; try done; cbn; try lia.
    + split; [|lia]. replace (e_next x + 2) with (e_next x + 1 * 2) by lia. by rewrite Z.mod_add by lia.
    + apply map_Forall_insert_2; [|done]. unfold chan_ok, good_chan. cbn. split_and!; try lia; apply Hsize.
    + apply Forall_app. split; [done|]. constructor; [|constructor]. cbn. unfold good_chan.
      split_and!; try lia; apply Hsize.
  - apply local_pop. by apply local_next.
  - split.
    + cbn. unfold ctl_numbers. rewrite omap_app. by apply consec_snoc.
    + unfold requests, open_numbers, reply_numbers in *. cbn. rewrite Ho, omap_app, app_nil_r in *. exact Cr.
    + unfold requests, open_numbers, reply_numbers in *. cbn. rewrite Ho, omap_app, app_nil_r in *.
      eapply Forall_impl; [|exact Cw]. cbn. intros r [Hr ?]. split; [lia|done].
    + cbn. intros c Hc Hcp. rewrite Hpop, Hne by lia. apply Cf; [lia|done].
  - assert (requests (pop_out y) x' ≡ₚ requests y x) as Hreq.
    { unfold requests, open_numbers, reply_numbers. cbn. rewrite Ho, omap_app. cbn.
      rewrite app_assoc. by rewrite Permutation_app_comm. }
    split.
    + cbn. rewrite Ho. exact Hcons.
    + by rewrite Hreq.
    + by rewrite Hreq.
    + cbn. intros c Hc Hcp. rewrite Hpop. rewrite Hne; [by apply Df|]. intros ->. by rewrite Hpar in Hcp.
Qed.
Lemma step_reply q req sz c l : e_out y = MReply q req sz c :: l →
  ∃ x', p_receive size_of (MReply q req sz c) x = Some x' ∧ net_ok (k + 1) x' (pop_out y).
Proof using All.
  intros Ho. destruct (msgs_head _ _ Ho) as (Hq & Hr & Hsz & Hc & Hpar). destruct (ctl_head _ _ _ Ho eq_refl) as [-> Hcons].
  pose proof Hnet as [Hside Hsl _ _ [Cq Cr Cw Cf] [Dq Dr Dw Df]].
  destruct (slice_head c _ l y Ho eq_refl) as [l' Hh]. destruct (linked_reply c _ _ _ _ _ _ Hh (Hsl c)) as [Hno Hlc].
  assert (e_chans x !! c = None) as Hnone.
  { apply (f_equal s_chan) in Hno. cbn in Hno. by destruct (e_chans x !! c). }
  assert (requests x y ≡ₚ req :: open_numbers (e_out x) ++ reply_numbers l) as Hreq.
  { unfold requests. rewrite Ho. cbn. by rewrite Permutation_middle. }
  rewrite Hreq in Cr, Cw. apply list.NoDup_cons in Cr as [Hreqn Cr]. inversion Cw as [|? ? [_ [path Hw]] Cw']; subst.
  cbn. rewrite Z.eqb_refl, Hnone, Hw. cbn. eexists. split; [done|]. set (x' := put_chans _ _).
  assert (∀ b, b ≠ c → slice_of b x' = slice_of b x ∧ slice_of b (pop_out y) = slice_of b y) as Hne.
  { intros b Hb. unfold x'. rewrite slice_chans, (slice_pop _ _ _ _ Ho), decide_False by (cbn; congruence). cbn.
    by rewrite lookup_insert_ne. }
  split.
  - done.
  - intros b. destruct (decide (b = c)) as [->|Hb]; [|destruct (Hne b Hb) as [-> ->]; apply Hsl].
    unfold x'. rewrite slice_chans, (slice_pop _ _ _ _ Ho), decide_True, lookup_insert_eq by done. exact Hlc.
  - destruct (local_next x Hx) as [? ? ? ? ? ? Hout]. split; try done; cbn; try lia.
    + apply map_Forall_insert_2; [|done]. unfold chan_ok, good_chan, good_size in *. cbn. lia.
    + by apply map_Forall_delete.
  - apply local_pop. by apply local_next.
  - split.
    + exact Cq.
    + unfold requests. cbn. by rewrite Ho.
    + unfold requests. cbn. rewrite Ho. cbn. eapply list.Forall_forall. intros r Hin.
      rewrite list.Forall_forall in Cw'. destruct (Cw' r Hin) as [? ?]. split; [done|].
      rewrite lookup_delete_ne; [done|]. by intros ->.
    + cbn. intros b Hb Hbp. destruct (Hne b) as [-> ->]; [|by apply Cf]. intros ->. congruence.
  - assert (requests (pop_out y) x' = requests y x) as Hreq'.
    { unfold requests, x'. cbn. by rewrite Ho. }
    split.
    + cbn. rewrite Ho. exact Hcons.
    + by rewrite Hreq'.
    + by rewrite Hreq'.
    + cbn. intros b Hb Hbp. destruct (Hne b) as [-> ->]; [|by apply Df]. intros ->.
      destruct (Df c Hb Hbp) as [Hs _]. by rewrite Hs in Hh.
Qed.
End Steps.

(** ** What a channel's size is *)

(** Both endpoints and the replies under way agree on the sizes: [kind] gives
    each channel's.  No path that is opened is refused, and no [CloseChan] for
    a stream is under way. *)
Section Sizes.
Context (size_of : list byte → Z).
Definition msg_sized (kind : Z → Z) (m : msg) : Prop :=
  match m with
  | MOpen _ p => good_size (size_of p)
  | MReply _ _ sz c => sz = kind c
  | MClose c _ => kind c ≠ 0
  | _ => True
  end.
Record sized (kind : Z → Z) (x : endpoint) : Prop := {
  sz_chans : map_Forall (fun c ch => a_size ch = kind c) (e_chans x);
  sz_out : Forall (msg_sized kind) (e_out x);
}.
Definition agreed (x y : endpoint) : Prop := ∃ kind, sized kind x ∧ sized kind y.
Lemma agreed_sym x y : agreed x y → agreed y x.
Proof. intros (kind & ? & ?). by exists kind. Qed.
Lemma agreed_start s1 s2 : agreed (e_start s1) (e_start s2).
Proof. exists (fun _ => 0). split; split; (apply map_Forall_empty || constructor). Qed.

Lemma sized_out kind m x : msg_sized kind m → sized kind x → sized kind (put_out m x).
Proof. intros Hm []. split; [done|]. cbn. apply Forall_app. split; [done|by constructor]. Qed.
Lemma sized_insert kind c ch x : a_size ch = kind c → sized kind x → sized kind (put_chans (<[c := ch]> (e_chans x)) x).
Proof. intros Hc []. split; [|done]. by apply map_Forall_insert_2. Qed.
Lemma sized_delete kind c x : sized kind x → sized kind (put_chans (delete c (e_chans x)) x).
Proof. intros []. split; [|done]. by apply map_Forall_delete. Qed.
Lemma sized_pop kind x : sized kind x → sized kind (pop_out x).
Proof. intros [? Ho]. split; [done|]. cbn. by destruct Ho. Qed.
Lemma sized_head kind x m l : sized kind x → e_out x = m :: l → msg_sized kind m.
Proof. intros [_ Ho] Hm. rewrite Hm in Ho. by inversion Ho. Qed.
Lemma sized_streamed kind c x : sized kind x → kind c ≠ 0 → streamed c x = false.
Proof.
  intros [Hc _] Hk. unfold streamed. destruct (e_chans x !! c) as [ch|] eqn:He; [|done].
  rewrite (Hc _ _ He). by apply Z.eqb_neq.
Qed.
(** A number that neither endpoint nor any packet has used may get any size. *)
Lemma sized_fresh kind c v x : slice_of c x = no_slice → sized kind x → sized (<[c := v]> kind) x.
Proof.
  intros Hf [Hc Ho]. split.
  - intros b ch Hb. destruct (decide (b = c)) as [->|]; [|rewrite fn_lookup_insert_ne by done; by apply Hc].
    apply (f_equal s_chan) in Hf. cbn in Hf. by rewrite Hb in Hf.
  - rewrite list.Forall_forall in *. intros m Hm. pose proof (Ho m Hm) as Hs.
    assert (msg_chan m ≠ Some c) as Hne.
    { intros He. apply (f_equal s_out) in Hf. cbn in Hf.
      assert (m ∈ about c (e_out x)) as Hin by (by apply list_elem_of_filter). rewrite Hf in Hin. by apply elem_of_nil in Hin. }
    destruct m; cbn in *; try done; rewrite fn_lookup_insert_ne by congruence; done.
Qed.

Lemma agreed_open path x y : good_size (size_of path) → agreed x y → agreed (p_open path x) y.
Proof.
  intros Hp (kind & Hx & Hy). exists kind. split; [|done]. pose proof (sized_out kind (MOpen (e_seq x) path) x Hp Hx) as [Hc Ho].
  by split.
Qed.
Lemma agreed_send c d x y : agreed x y → agreed (p_send c d x) y.
Proof.
  intros (kind & Hx & Hy). exists kind. split; [|done]. unfold p_send. destruct (e_chans x !! c) as [ch|] eqn:Hc; [|done].
  destruct (sized_out kind (MData c (a_seq ch) d) _ I
    (sized_insert kind c (Achan (a_size ch) (a_seq ch + 1) (a_peer ch)) x (sz_chans _ _ Hx _ _ Hc) Hx)). by split.
Qed.
Lemma agreed_close c x y : agreed x y → agreed (p_close c x) y.
Proof.
  intros (kind & Hx & Hy). exists kind. split; [|done]. unfold p_close, streamed. destruct (e_chans x !! c) as [ch|] eqn:Hc; [|done].
  destruct (Z.eqb_spec (a_size ch) 0) as [|Hz]; [done|]. apply (sized_out kind (MClose c (a_seq ch))); [|by apply sized_delete].
  cbn. by rewrite <-(sz_chans _ _ Hx _ _ Hc).
Qed.
Lemma agreed_receive k x y m l x' : net_ok k x y → agreed x y → e_out y = m :: l → p_receive size_of m x = Some x' →
  agreed x' (pop_out y).
Proof.
  intros Hn (kind & Hx & Hy) Ho. pose proof (sized_head _ _ _ _ Hy Ho) as Hm.
  destruct m as [q path|q req sz c|c q d|c q|c q]; cbn [p_receive].
  - destruct (q =? e_peer x); [|done]. cbn [negb]. intros [= <-].
    destruct (lo_next _ _ (n_local _ _ _ Hn)) as [Hpar _].
    destruct (ct_fresh _ _ (n_ctl _ _ _ Hn) (e_next x) ltac:(lia) Hpar) as [Fx Fy].
    exists (<[e_next x := size_of path]> kind). split; [|by apply sized_pop, sized_fresh].
    apply (sized_out _ (MReply _ _ _ _)); [cbn; by rewrite fn_lookup_insert|].
    pose proof (sized_fresh kind _ (size_of path) x Fx Hx) as Hx'.
    destruct (sized_insert _ (e_next x) (Achan (size_of path) 1 1) x (eq_sym (fn_lookup_insert kind _ _)) Hx'). by split.
  - destruct (q =? e_peer x); [|done]. cbn [negb]. destruct (e_chans x !! c); [done|]. destruct (e_wait x !! req); [|done].
    intros [= <-]. exists kind. split; [|by apply sized_pop]. destruct (sized_insert kind c (Achan sz 1 1) x Hm Hx). by split.
  - destruct (e_chans x !! c) as [ch|] eqn:Hc.
    + destruct (q =? a_peer ch); [|done]. cbn [negb]. intros [= <-]. exists kind. split; [|by apply sized_pop].
      destruct (sized_insert kind c (Achan (a_size ch) (a_seq ch) (a_peer ch + 1)) x (sz_chans _ _ Hx _ _ Hc) Hx). by split.
    + intros [= <-]. exists kind. split; [by apply sized_out|by apply sized_pop].
  - destruct (streamed c x); [done|]. intros [= <-]. exists kind. split; [by apply sized_delete|by apply sized_pop].
  - destruct (e_chans x !! c); [done|]. intros [= <-]. exists kind. split; [done|by apply sized_pop].
Qed.
End Sizes.

(** ** Every run *)

(** The listener of the peer accepts the path: it gives a size. *)
Definition action_ok (size_of : list byte → Z) (a : action) : Prop :=
  match a with AOpen p => good_path p ∧ good_size (size_of p) | ASend _ d => good_data d | _ => True end.

(** What an action may add to the numbers. *)
Definition cost (a : action) : Z := match a with ADeliver n => Z.of_nat n | _ => 1 end.
(** The users' actions and the packets that arrive. *)
Definition total (acts : list (MuxSide * action)) : Z := foldr (fun p n => cost p.2 + n) 0 acts.
Lemma cost_nonneg a : 0 ≤ cost a.
Proof. destruct a; cbn; lia. Qed.
Lemma total_nonneg acts : 0 ≤ total acts.
Proof. induction acts as [|p acts IH]; cbn; [lia|]. pose proof (cost_nonneg p.2). unfold total in IH. lia. Qed.

Section Runs.
Context (size_of : list byte → Z).

Definition sys_ok (k : Z) (x y : endpoint) : Prop := net_ok k x y ∧ agreed size_of x y.
Lemma sys_ok_sym k x y : sys_ok k x y → sys_ok k y x.
Proof. intros []. split; [by apply net_ok_sym|by apply agreed_sym]. Qed.
Lemma sys_start : sys_ok 0 (e_start 0) (e_start 1).
Proof. split; [apply net_start|apply agreed_start]. Qed.

Lemma p_receive_ok k x y m l : sys_ok k x y → e_out y = m :: l →
  ∃ x', p_receive size_of m x = Some x' ∧ sys_ok (k + 1) x' (pop_out y).
Proof.
  intros [Hn Ha] Ho.
  assert (∃ x', p_receive size_of m x = Some x' ∧ net_ok (k + 1) x' (pop_out y)) as (x' & Hr & Hn').
  { destruct Ha as (kind & Hx & Hy). pose proof (sized_head size_of _ _ _ _ Hy Ho) as Hm.
    destruct m; [by eapply step_accept|by eapply step_reply|by eapply step_data| |by eapply step_nak].
    eapply step_shut; [done..|]. by eapply sized_streamed. }
  exists x'. split; [done|]. split; [done|]. by eapply agreed_receive.
Qed.
Lemma p_deliver_ok n : ∀ k x y, sys_ok k x y →
  ∃ x' y', p_deliver size_of n x y = Some (x', y') ∧ sys_ok (k + Z.of_nat n) x' y'.
Proof.
  induction n as [|n IH]; intros k x y Hn; cbn [p_deliver].
  - exists x, y. by rewrite Z.add_0_r.
  - destruct (e_out y) as [|m l] eqn:Ho.
    + exists x, y. split; [done|]. destruct Hn as [Hn Ha]. split; [|done].
      destruct Hn. split; try done; (eapply local_ok_mono; [|done]); lia.
    + destruct (p_receive_ok k x y m l Hn Ho) as (x1 & -> & Hn1). cbn [mbind option_bind].
      destruct (IH _ _ _ Hn1) as (x' & y' & Hr & Hn'). exists x', y'. split; [done|].
      by replace (k + Z.of_nat (S n)) with (k + 1 + Z.of_nat n) by lia.
Qed.
Lemma p_act_ok a k x y : sys_ok k x y → action_ok size_of a →
  ∃ x' y', p_act size_of a x y = Some (x', y') ∧ sys_ok (k + cost a) x' y'.
Proof.
  intros Hs Ha. pose proof Hs as [Hn Hg]. destruct a as [path|c d|c|n]; cbn [p_act cost].
  - destruct Ha. eexists _, _. split; [done|split; [by apply step_open|by apply agreed_open]].
  - eexists _, _. split; [done|split; [by apply step_send|by apply agreed_send]].
  - eexists _, _. split; [done|split; [by apply step_close|by apply agreed_close]].
  - by apply p_deliver_ok.
Qed.
End Runs.

(** Who acts, and how. *)
Definition p_step (size_of : list byte → Z) (t : MuxSide * action) (x y : endpoint) : option (endpoint * endpoint) :=
  match t.1 with
  | SideServer => p_act size_of t.2 x y
  | SideClient => '(y, x) ← p_act size_of t.2 y x; Some (x, y)
  end.
Fixpoint p_run (size_of : list byte → Z) (acts : list (MuxSide * action)) (x y : endpoint) : option (endpoint * endpoint) :=
  match acts with
  | [] => Some (x, y)
  | t :: acts => '(x, y) ← p_step size_of t x y; p_run size_of acts x y
  end.

(** *** What is under way runs out *)

(** A packet, and the answer that it may have. *)
Definition msg_weight (m : msg) : nat := match m with MOpen _ _ | MData _ _ _ => 2 | _ => 1 end.
Definition weight (x : endpoint) : nat := sum_list_with msg_weight (e_out x).
Lemma weight_out m x : weight (put_out m x) = (weight x + msg_weight m)%nat.
Proof. unfold weight, put_out. cbn. rewrite sum_list_with_app. cbn. lia. Qed.
(** A packet goes, and at most a lighter one comes. *)
Lemma weight_receive size_of m x z : p_receive size_of m x = Some z → (weight z < weight x + msg_weight m)%nat.
Proof.
  destruct m; cbn; repeat case_match; try done; intros [= <-];
    rewrite ?weight_out; unfold weight; cbn; lia.
Qed.
Lemma weight_pop x m l : e_out x = m :: l → (weight (pop_out x) + msg_weight m = weight x)%nat.
Proof. intros Ho. unfold weight. cbn. rewrite Ho. cbn. lia. Qed.
Lemma weight_deliver size_of n : ∀ x y x' y', p_deliver size_of n x y = Some (x', y') →
  (weight x' + weight y' ≤ weight x + weight y)%nat.
Proof.
  induction n as [|n IH]; intros x y x' y'; cbn [p_deliver]; [intros [= <- <-]; lia|].
  destruct (e_out y) as [|m l] eqn:Ho; [intros [= <- <-]; lia|].
  destruct (p_receive size_of m x) as [z|] eqn:Hr; [|done]. cbn [mbind option_bind]. intros H%IH.
  pose proof (weight_receive _ _ _ _ Hr). pose proof (weight_pop _ _ _ Ho). lia.
Qed.
(** A delivery makes what is under way lighter. *)
Lemma weight_deliver_one size_of x y x' y' : e_out y ≠ [] → p_act size_of (ADeliver 1) x y = Some (x', y') →
  (weight x' + weight y' < weight x + weight y)%nat.
Proof.
  cbn. destruct (e_out y) as [|m l] eqn:Ho; [done|]. intros _. destruct (p_receive size_of m x) as [z|] eqn:Hr; [|done].
  cbn. intros [= <- <-]. pose proof (weight_receive _ _ _ _ Hr). pose proof (weight_pop _ _ _ Ho). lia.
Qed.
Lemma weight_act size_of a x y x' y' : p_act size_of a x y = Some (x', y') → (weight x' + weight y' ≤ weight x + weight y + 2)%nat.
Proof.
  destruct a as [path|c d|c|n]; cbn [p_act].
  - intros [= <- <-]. unfold p_open. change (weight (put_wait ?w ?z)) with (weight z). rewrite weight_out.
    change (weight (put_control ?a ?b ?c ?z)) with (weight z). cbn. lia.
  - intros [= <- <-]. unfold p_send. destruct (e_chans x !! c); [|lia].
    change (weight (put_sent ?a ?b ?z)) with (weight z). rewrite weight_out. cbn [msg_weight].
    change (weight (put_chans ?a ?z)) with (weight z). lia.
  - intros [= <- <-]. unfold p_close. destruct (streamed c x); [lia|]. destruct (e_chans x !! c); [|lia]. rewrite weight_out. cbn [msg_weight].
    change (weight (put_chans ?a ?z)) with (weight z). lia.
  - intros H%weight_deliver. lia.
Qed.
(** What the invariant says of the histories. *)
Lemma net_prefix k x y c : net_ok k x y → on c (e_got y) `prefix_of` on c (e_sent x).
Proof.
  intros Hn. destruct (n_slice _ _ _ Hn c) as [H _]. unfold carried in H. cbn in H.
  destruct (e_chans y !! c) as [ch|]; cbn in H.
  - destruct H as [_ H]. rewrite <-H. by eexists.
  - destruct H as [[Hy _]|[_ H]]; [|done]. apply (f_equal s_got) in Hy. cbn in Hy. rewrite Hy. apply prefix_nil.
Qed.
(** With nothing under way, both have the same channels, and everything that
    was sent on them has arrived. *)
Lemma settled_live c x y : s_out x = [] → s_out y = [] → carried c x y → is_Some (s_chan y) →
  is_Some (s_chan x) ∧ s_got y = s_sent x.
Proof.
  intros Hx Hy Hc [[q p] Hl]. unfold carried in Hc. rewrite Hl, Hx in Hc. destruct Hc as [[Hf|[(_ & ? & ? & ? & ? & H & _) _]] Hh].
  - inversion Hf as [q1 Hq1 Hq2| |]. rewrite <-Hq1 in *. cbn in Hh. rewrite app_nil_r in Hh. split; [|done].
    destruct (s_chan x); [by eexists|done].
  - congruence.
Qed.
Lemma net_settled k x y c : net_ok k x y → e_out x = [] → e_out y = [] →
  (is_Some (e_chans x !! c) ↔ is_Some (e_chans y !! c)) ∧
  (is_Some (e_chans y !! c) → on c (e_got y) = on c (e_sent x)).
Proof.
  intros Hn Hx Hy. destruct (n_slice _ _ _ Hn c) as [Hxy Hyx].
  assert (∀ z, is_Some (s_chan (slice_of c z)) ↔ is_Some (e_chans z !! c)) as Hl by (intros z; apply fmap_is_Some).
  assert (s_out (slice_of c x) = []) as Ox by (cbn; by rewrite Hx).
  assert (s_out (slice_of c y) = []) as Oy by (cbn; by rewrite Hy).
  pose proof (settled_live c _ _ Ox Oy Hxy) as H1. pose proof (settled_live c _ _ Oy Ox Hyx) as H2.
  rewrite !Hl in *. cbn in *. naive_solver.
Qed.
