(* ===== verification/MuxNetSpec.v ===== *)
(** * mux: two muxes under every interleaving

    Two programs of [Mux] that are joined by a transport which delivers the
    packets of each side in order.  Their users open, send and close as they
    like (no path that the peer refuses, and no closing of streams: the code
    goes wrong there), and packets arrive whenever they do; the code follows the machine of
    [MuxNet] step by step, so that no assertion fails, and what a listener is
    given is what was sent to it, in order. *)

From S2P Require Import Prelude Mux MuxSpec MuxNet.

Ltac Zify.zify_post_hook ::= Z.div_mod_to_equations.

(** ** The users *)

(** [SetListener] of a [Channel], or of the [StreamChannel] that it is. *)
Definition attach (l : Z) (c : channel) : channel :=
  match mType c with
  | TypeStreamChannel => set_stream_listener (SApp l) c
  | TypePacketChannel => set_listener (PApp l) c
  end.
(** As in the unit test, [OnChannelOpened] gives the channel its listener;
    a listener's name is that of its channel. *)
Definition attach_opened : opened_listener := fun seq err ch path peer =>
  match ch with Some id => upd_chan id (attach id) | None => mret tt end ;;
  log_event (EvOpened seq err ch path peer).

Section Net.
Context (size_of : list byte → Z).
Definition net_users : mux_users wire := users_with size_of attach_opened.
#[local] Existing Instance net_users.

(** A side: the mux, its transport and log, and what its user has sent. *)
Record peer := Peer { p_mux : mux; p_wire : wire; p_log : list (Z * list byte) }.
Definition p_state (x : peer) : mux * wire := (p_mux x, p_wire x).
Definition p_set (x : peer) (s : mux * wire) : peer := Peer s.1 s.2 (p_log x).

(** [Write] to a stream; to a packet channel, a [DataPacket] and [Send]. *)
Definition send_data (id : Z) (d : list byte) : ST (mux * wire) bool :=
  c ← get_chan id;
  match mType c with
  | TypeStreamChannel => Stream_Write id (Z.of_nat (base.length d)) d
  | TypePacketChannel =>
      pkt ← lift (DataPacket_Create (Z.of_nat (base.length d)) (mChanId c) d);
      r ← Channel_Send id pkt; mret r.1
  end.

(** [x] acts; a delivery gives it, in one call, the first packets that [y] has
    sent.  Nobody uses a channel that he does not have, or closes a stream,
    which is undefined ([MuxSpec.close_stream_channel]). *)
Definition act (a : action) (x y : peer) : outcome (peer * peer) :=
  match a with
  | AOpen path => '(_, s) ← Open path (p_state x); Ok (p_set x s, y)
  | ASend c d =>
      match mChannels (p_mux x) !! c with
      | Some _ => '(_, s) ← send_data c d (p_state x); Ok (Peer s.1 s.2 (p_log x ++ [(c, d)]), y)
      | None => Ok (x, y)
      end
  | AClose c =>
      match mChannels (p_mux x) !! c with
      | Some ch =>
          match mType ch with
          | TypePacketChannel => '(_, s) ← Channel_Close c (p_state x); Ok (p_set x s, y)
          | TypeStreamChannel => Ok (x, y)
          end
      | None => Ok (x, y)
      end
  | ADeliver n =>
      let fs := sent (p_wire y) in
      '(_, s) ← ReceiveRaw (concat (take n fs)) (p_state x);
      Ok (p_set x s, p_set y (p_mux y, Wire (drop n fs) (events (p_wire y))))
  end.
Definition step (t : MuxSide * action) (s c : peer) : outcome (peer * peer) :=
  match t.1 with
  | SideServer => act t.2 s c
  | SideClient => '(c, s) ← act t.2 c s; Ok (s, c)
  end.
Fixpoint run (acts : list (MuxSide * action)) (s c : peer) : outcome (peer * peer) :=
  match acts with
  | [] => Ok (s, c)
  | t :: acts => '(s, c) ← step t s c; run acts s c
  end.
Definition start (side : MuxSide) (buf : list byte) : peer := Peer (new_Mux side buf) (Wire [] []) [].

(** What the listeners were given, channel by channel. *)
Definition given (ev : event) : option (Z * list byte) :=
  match ev with
  | EvStream _ c _ d => Some (c, d)
  | EvReceive _ c p => Some (c, pk_mPayload p)
  | _ => None
  end.
Definition received (c : Z) (x : peer) : list (list byte) := on c (omap given (events (p_wire x))).
Definition sent_on (c : Z) (x : peer) : list (list byte) := on c (p_log x).

(** ** The machine in the code *)
Definition encode (m : msg) : list byte :=
  match m with
  | MOpen q path => open_request q path
  | MReply q req sz c => open_reply q req sz c
  | MData c q d => data_packet c q d
  | MClose c q => packet_of 16 c q CloseChan []
  | MNak c q => packet_of 16 c q Nak []
  end.
Definition concrete (c : Z) (ch : achan) : channel :=
  set_seq (a_seq ch) (set_seq_peer (a_peer ch) (attach c (opened_channel c (a_size ch)))).
Definition control (seq peer : Z) : channel := Channel 0 0 TypePacketChannel seq peer PMux SUninit true.

Record repr (x : endpoint) (p : peer) : Prop := {
  r_side : side_Z (mSide (p_mux p)) = e_side x;
  r_control : mControlChan (p_mux p) = control (e_seq x) (e_peer x);
  r_next : mNextChanId (p_mux p) = e_next x;
  r_chans c : mChannels (p_mux p) !! c = concrete c <$> e_chans x !! c;
  r_wait r : mWaitingPackets (p_mux p) !! r = open_request r <$> e_wait x !! r;
  r_idle : idle (p_state p);
  r_out : sent (p_wire p) = encode <$> e_out x;
  r_got : omap given (events (p_wire p)) = e_got x;
  r_log : p_log p = e_sent x;
}.

Lemma concrete_type c ch : mType (concrete c ch) = if a_size ch =? 0 then TypeStreamChannel else TypePacketChannel.
Proof. unfold concrete, opened_channel. by destruct (a_size ch =? 0). Qed.
Lemma concrete_id c ch : mChanId (concrete c ch) = c ∧ mValid (concrete c ch) = true ∧
  mSeq (concrete c ch) = a_seq ch ∧ mSeqPeer (concrete c ch) = a_peer ch ∧ listener_of (concrete c ch) = Some c.
Proof. unfold concrete, opened_channel. by destruct (a_size ch =? 0). Qed.

Lemma net_keeps q r ch path peer : preserves same_input (attach_opened q r ch path peer).
Proof.
  unfold attach_opened. apply (preserves_bind _); [destruct ch; [apply keep_upd_chan|apply (preserves_ret _)]|].
  intros _. by intros ??? [= _ <-].
Qed.
Lemma net_receive f (m m' : mux) (w w' : wire) :
  let buf := f ++ drop (base.length f) (mInputBuf m) in
  idle (m, w) → frame f →
  Mux_HandleIncomingPacket buf (set_input (Z.of_nat (base.length f)) buf m, w) = Ok (tt, (m', w')) →
  ReceiveRaw f (m, w) = Ok (true, (set_input 0 buf m', w')).
Proof.
  intros buf Hi Hf Hrun. rewrite ReceiveRaw_one by (done || apply users_keep, net_keeps).
  cbn [deliver]. unfold getm, modm. do 2 mstep. fold buf. mstep. rewrite Hrun. by mstep.
Qed.

(** *** What the users do *)
Lemma find_positive (m : mux) c : 0 < c → find_chan m c = mChannels m !! c.
Proof. intros Hc. unfold find_chan. by destruct (Z.eqb_spec c 0); [lia|]. Qed.
Lemma put_positive c ch m : 0 < c → put_chan c ch m = set_channels (<[c := ch]> (mChannels m)) m.
Proof. intros Hc. unfold put_chan. by destruct (Z.eqb_spec c 0); [lia|]. Qed.

Section Bounded.
Context (k : Z).
Hypothesis Hk : 0 ≤ k ∧ 2 * k + 8 < 2 ^ 31.

Lemma repr_ready x p : repr x p → local_ok k x →
  control_ready (p_mux p) (set_control (set_seq_peer (e_seq x) (mControlChan (p_mux p))) (p_mux p)).
Proof using All.
  intros Hr Hl. pose proof (lo_seq _ _ Hl). split; rewrite (r_control _ _ Hr); try done. cbn. lia.
Qed.
Lemma refine_open x p path : repr x p → local_ok k x → good_path path →
  ∃ r s, Open path (p_state p) = Ok (r, s) ∧ repr (p_open path x) (p_set p s).
Proof using All.
  intros Hr Hl [Hn Hlen]. pose proof (wire_Open size_of attach_opened _ _ (p_wire p) path (repr_ready _ _ Hr Hl) Hlen) as H.
  cbv zeta in H. eexists _, _. split; [exact H|]. rewrite (r_control _ _ Hr). destruct Hr. split; cbn; try done.
  - intros r. destruct (decide (r = e_seq x)) as [->|]; [by rewrite !lookup_insert_eq|by rewrite !lookup_insert_ne].
  - rewrite fmap_app. by f_equal.
Qed.

(** The channel [c], as the code has it. *)
Lemma repr_chan x p c ch : repr x p → local_ok k x → e_chans x !! c = Some ch →
  find_chan (p_mux p) c = Some (concrete c ch) ∧ 0 < c < 2 ^ 32 ∧ 1 ≤ a_seq ch < 2 ^ 32 - 1.
Proof using All.
  intros Hr Hl Hc. destruct (lo_chan _ _ Hl _ _ Hc) as ([? ?] & ? & _). unfold good_chan in *.
  rewrite find_positive by lia. rewrite (r_chans _ _ Hr), Hc. split; [done|lia].
Qed.
Definition with_seq (q : Z) (ch : achan) : achan := Achan (a_size ch) q (a_peer ch).
Definition with_peer (q : Z) (ch : achan) : achan := Achan (a_size ch) (a_seq ch) q.
Lemma send_data_eq c ch d (m : mux) (w : wire) :
  find_chan m c = Some (concrete c ch) → 0 < c < 2 ^ 32 → 1 ≤ a_seq ch < 2 ^ 32 - 1 → good_data d →
  send_data c d (m, w) = Ok (true, (put_chan c (concrete c (with_seq (a_seq ch + 1) ch)) m,
    Wire (sent w ++ [data_packet c (a_seq ch) d]) (events w))).
Proof using All.
  intros Hc Hcr Hq [Hd0 Hd1]. destruct (concrete_id c ch) as (Hid & Hv & Hs & _ & _).
  assert (next_seq (a_seq ch) = a_seq ch + 1) as Hn by (unfold next_seq; rewrite u32_small; lia).
  unfold send_data, get_chan. mstep. rewrite Hc. destruct (mType (concrete c ch)).
  - rewrite DataPacket_Create_eq by done. rewrite Hid. do 2 mstep.
    pose proof (wire_Channel_Send size_of attach_opened c (concrete c ch) (20 + Z.of_nat (base.length d)) 0 Data
      (le_bytes 4 (Z.of_nat (base.length d)) ++ d) m w Hc Hv) as H.
    rewrite Hid, Hs, wire_seq_pos, Hn in H by lia. cbv zeta in H. unfold net_users. rewrite H; [done|lia| |].
    + rewrite length_app, length_le_bytes. lia.
    + change MaxPayloadSize with 4076 in Hd1. unfold MaxPacketSize. lia.
  - unfold Stream_Write. rewrite Nat2Z.id.
    assert (chunks (base.length d) d = [d]) as Hch.
    { destruct d as [|b d]; [cbn in Hd0; lia|]. cbn [base.length chunks]. change MaxPayloadSize with 4076 in Hd1.
      rewrite firstn_all2, drop_ge by (cbn [base.length] in *; lia). by destruct (base.length d). }
    pose proof (Stream_Write_loop_eq size_of attach_opened (S (base.length d)) c d m w (concrete c ch) Hc Hv) as H.
    cbv zeta in H. rewrite Hch, Hid, Hs in H. cbn [base.length data_packets Nat.iter nat_rect] in H.
    rewrite wire_seq_pos, Hn in H by lia. unfold net_users. rewrite H; [done|lia|lia].
Qed.

(** *** Parts of a step *)
Lemma repr_insert x c ch m w l : 0 < c → repr x (Peer m w l) →
  repr (put_chans (<[c := ch]> (e_chans x)) x) (Peer (put_chan c (concrete c ch) m) w l).
Proof using All.
  intros Hc []. rewrite put_positive by done. split; try done. cbn.
  intros b. destruct (decide (b = c)) as [->|]; [by rewrite !lookup_insert_eq|by rewrite !lookup_insert_ne].
Qed.
Lemma repr_delete x c m w l : repr x (Peer m w l) →
  repr (put_chans (delete c (e_chans x)) x) (Peer (set_channels (delete c (mChannels m)) m) w l).
Proof using All.
  intros []. split; try done. cbn.
  intros b. destruct (decide (b = c)) as [->|]; [by rewrite !lookup_delete_eq|by rewrite !lookup_delete_ne].
Qed.
Lemma repr_out x g m se ev l : repr x (Peer m (Wire se ev) l) →
  repr (put_out g x) (Peer m (Wire (se ++ [encode g]) ev) l).
Proof using All. intros []. split; try done. cbn in *. rewrite fmap_app. by f_equal. Qed.
Lemma repr_event x e m se ev l : given e = None → repr x (Peer m (Wire se ev) l) → repr x (Peer m (Wire se (ev ++ [e])) l).
Proof using All. intros He []. split; try done. cbn in *. rewrite omap_app. cbn. by rewrite He, app_nil_r. Qed.
Lemma repr_got x c d e m se ev l : given e = Some (c, d) → repr x (Peer m (Wire se ev) l) →
  repr (put_got c d x) (Peer m (Wire se (ev ++ [e])) l).
Proof using All. intros He []. split; try done. cbn in *. rewrite omap_app. cbn. rewrite He. by f_equal. Qed.
Lemma repr_sent x c d m w l : repr x (Peer m w l) → repr (put_sent c d x) (Peer m w (l ++ [(c, d)])).
Proof using All. intros []. split; try done. cbn in *. by f_equal. Qed.
Lemma repr_pop x g out m se ev l : e_out x = g :: out → repr x (Peer m (Wire se ev) l) →
  ∃ rest, se = encode g :: rest ∧ repr (pop_out x) (Peer m (Wire rest ev) l).
Proof using All.
  intros Ho []. cbn in *. rewrite Ho in *. exists (encode <$> out). split; [done|].
  split; try done. cbn. by rewrite Ho.
Qed.
Lemma repr_input x m w l buf : repr x (Peer m w l) → Z.of_nat (base.length buf) = MaxPacketSize →
  repr x (Peer (set_input 0 buf m) w l).
Proof using All. by intros [] ?. Qed.

Lemma refine_send x p c d : repr x p → local_ok k x → good_data d →
  ∃ p', (∀ q, act (ASend c d) p q = Ok (p', q)) ∧ repr (p_send c d x) p'.
Proof using All.
  intros Hr Hl Hd. unfold act, p_send. rewrite (r_chans _ _ Hr). destruct (e_chans x !! c) as [ch|] eqn:Hc; cbn.
  - destruct (repr_chan _ _ _ _ Hr Hl Hc) as (Hf & Hcr & Hq). destruct p as [m w l]. unfold p_state. cbn in *.
    rewrite (send_data_eq c ch d m w Hf Hcr Hq Hd). cbn. eexists. split; [done|].
    apply repr_sent. destruct w as [se ev]. apply (repr_out _ (MData c (a_seq ch) d)). by apply repr_insert; [lia|].
  - eexists. split; [done|exact Hr].
Qed.
Lemma refine_close x p c : repr x p → local_ok k x →
  ∃ p', (∀ q, act (AClose c) p q = Ok (p', q)) ∧ repr (p_close c x) p'.
Proof using All.
  intros Hr Hl. unfold act, p_close, streamed. rewrite (r_chans _ _ Hr). destruct (e_chans x !! c) as [ch|] eqn:Hc; cbn.
  - pose proof (concrete_type c ch) as Ht. pose proof Ht as Ht'. cbn in Ht'. rewrite Ht'. destruct (a_size ch =? 0); [by eexists|]. destruct (repr_chan _ _ _ _ Hr Hl Hc) as (Hf & Hcr & Hq). destruct p as [m w l]. unfold p_state. cbn in *.
    destruct (concrete_id c ch) as (Hid & Hv & Hs & _ & Hln).
    pose proof (wire_Channel_Close size_of attach_opened c _ c m w Hcr Hf Hid Hv Ht Hln) as H.
    rewrite Hs, wire_seq_pos in H by lia. unfold net_users. rewrite H. eexists. split; [done|].
    destruct w as [se ev]. apply repr_event; [done|]. apply (repr_out _ (MClose c (a_seq ch))). by apply repr_delete.
  - eexists. split; [done|exact Hr].
Qed.

(** *** What arrives *)
Lemma encode_frame side g : msg_ok k side g → frame (encode g).
Proof using All.
  destruct g as [q path|q r sz c|c q d|c q|c q]; cbn [msg_ok encode].
  - intros [_ [_ Hp]]. by apply open_request_frame.
  - intros _. unfold frame, reply_packet. by rewrite length_packet_of, packet_of_mSize.
  - intros (_ & _ & _ & Hd). by apply data_packet_frame.
  - intros _. unfold frame. by rewrite length_packet_of, packet_of_mSize.
  - intros _. unfold frame. by rewrite length_packet_of, packet_of_mSize.
Qed.
(** The handler's run on the packet at the front of the buffer. *)
Lemma refine_handler x x' p g side :
  let f := encode g in
  let buf := f ++ drop (base.length f) (mInputBuf (p_mux p)) in
  repr x p → msg_ok k side g →
  (∃ m' w', Mux_HandleIncomingPacket buf (set_input (Z.of_nat (base.length f)) buf (p_mux p), p_wire p) =
     Ok (tt, (m', w')) ∧ repr x' (Peer (set_input 0 buf m') w' (p_log p))) →
  ∃ s, ReceiveRaw (encode g) (p_state p) = Ok (true, s) ∧ repr x' (p_set p s).
Proof using All.
  intros f buf Hr Hg (m' & w' & Hrun & Hr'). exists (set_input 0 buf m', w'). split; [|done].
  apply (net_receive f (p_mux p)); [apply (r_idle _ _ Hr)|by eapply encode_frame|exact Hrun].
Qed.
(** [buf] is a whole buffer. *)
Lemma buf_length x p g side : repr x p → msg_ok k side g →
  Z.of_nat (base.length (encode g ++ drop (base.length (encode g)) (mInputBuf (p_mux p)))) = MaxPacketSize.
Proof using All.
  intros Hr Hg. destruct (encode_frame _ _ Hg) as [Hl _]. destruct (r_idle _ _ Hr) as [_ Hb]. cbn in Hb.
  rewrite length_app, length_drop. unfold MaxPacketSize in *. lia.
Qed.

Lemma data_given c q d junk : good_data d → 0 ≤ c < 2 ^ 32 → 0 ≤ q < 2 ^ 32 →
  let p := data_packet c q d ++ junk in
  pk_mPayload (take (Z.to_nat (pk_mSize p)) p) = d.
Proof using All.
  intros [_ Hd] Hc Hq p. unfold p. rewrite data_mSize by done.
  assert (Z.to_nat (20 + Z.of_nat (base.length d)) = base.length (data_packet c q d)) as ->.
  { unfold data_packet. rewrite length_packet_of, length_app, length_le_bytes. lia. }
  rewrite take_app_length. unfold pk_mPayload, data_packet. replace 20%nat with (16 + 4)%nat by done.
  by rewrite <-drop_drop, packet_of_rest, drop_app_exact by apply length_le_bytes.
Qed.
Lemma receive_data x p c q d ch : repr x p → local_ok k x → good_data d → 1 ≤ q ≤ k →
  e_chans x !! c = Some ch → q = a_peer ch →
  let x' := put_got c d (put_chans (<[c := Achan (a_size ch) (a_seq ch) (a_peer ch + 1)]> (e_chans x)) x) in
  ∃ s, ReceiveRaw (encode (MData c q d)) (p_state p) = Ok (true, s) ∧ repr x' (p_set p s).
Proof using All.
  intros Hr Hl Hd Hq Hc -> x'. destruct (repr_chan _ _ _ _ Hr Hl Hc) as (Hf & Hcr & _).
  assert (msg_ok k 0 (MData c (a_peer ch) d)) as Hg by (cbn; split_and!; [apply (lo_chan _ _ Hl _ _ Hc)|lia|lia|apply Hd..]).
  apply (refine_handler x x' _ _ 0 Hr Hg). pose proof (buf_length _ _ _ _ Hr Hg) as Hb. set (buf := _ ++ _) in *.
  destruct p as [m w l]. cbn in Hf. cbn [p_mux p_wire p_log] in *. destruct (concrete_id c ch) as (Hid & Hv & _ & Hp & _).
  set (m1 := set_input _ buf m). assert (next_seq_peer (a_peer ch) = a_peer ch + 1) as Hn
    by (unfold next_seq_peer, first_seq; rewrite u32_small; lia).
  set (c' := concrete c (Achan (a_size ch) (a_seq ch) (a_peer ch + 1))).
  assert (∃ e, given e = Some (c, d) ∧ Mux_HandleIncomingPacket buf (m1, w) =
    Ok (tt, (put_chan c c' m1, Wire (sent w) (events w ++ [e])))) as (e & He & Hrun).
  { unfold buf. cbn [encode]. rewrite (route_data c (a_peer ch) d _ m1 w (concrete c ch)) by (done || lia || apply Hd).
    rewrite Hn. unfold c', concrete, attach, opened_channel. cbn [a_size a_seq a_peer].
    destruct (a_size ch =? 0); cbn [mType new_StreamChannel new_Channel mListener set_seq set_seq_peer set_stream_listener
      set_listener Listener_OnReceive].
    - eexists. split; [|unfold Stream_OnReceive, get_chan; rewrite data_mCmd, bool_decide_true by done;
        do 2 mstep; rewrite find_put_chan; cbn [mStreamListener]; rewrite data_mPayloadSize, data_mPayload by (done || lia || apply Hd); reflexivity].
      done.
    - eexists. split; [|reflexivity]. cbn [given]. by rewrite data_given by (done || lia). }
  exists (put_chan c c' m1), (Wire (sent w) (events w ++ [e])). split; [exact Hrun|].
  rewrite put_positive by lia. destruct w as [se ev]. apply (repr_got _ c d e); [done|].
  pose proof (repr_insert x c (Achan (a_size ch) (a_seq ch) (a_peer ch + 1)) m (Wire se ev) l ltac:(lia) Hr) as H.
  rewrite put_positive in H by lia. apply (repr_input _ _ _ _ buf H Hb).
Qed.

(** The code does not know the channel. *)
Lemma repr_absent x p c : repr x p → 0 < c → e_chans x !! c = None → find_chan (p_mux p) c = None.
Proof using All. intros Hr Hc Hn. by rewrite find_positive, (r_chans _ _ Hr), Hn by done. Qed.
Lemma receive_unknown x p c q d : repr x p → msg_ok k 0 (MData c q d) → e_chans x !! c = None →
  ∃ s, ReceiveRaw (encode (MData c q d)) (p_state p) = Ok (true, s) ∧ repr (put_out (MNak c q) x) (p_set p s).
Proof using All.
  intros Hr Hg Hc. apply (refine_handler x _ _ _ 0 Hr Hg). pose proof (buf_length _ _ _ _ Hr Hg) as Hb.
  destruct Hg as ([Hc1 Hc2] & Hq & Hd). unfold good_chan in *. pose proof (repr_absent _ _ _ Hr Hc1 Hc) as Hf.
  set (buf := _ ++ _) in *. destruct p as [m w l]. cbn [p_mux p_wire p_log] in *. set (m1 := set_input _ buf m).
  assert (pk_mCmd buf = Data ∧ pk_mChan buf = c ∧ pk_mSeq buf = q) as (H1 & H2 & H3).
  { unfold buf. cbn [encode]. split_and!; [apply data_mCmd|apply data_mChan; lia|apply data_mSeq; lia]. }
  exists m1, (Wire (sent w ++ [encode (MNak c q)]) (events w)). split.
  - rewrite route_unknown by (rewrite ?H1, ?H2; done). rewrite H2, H3. mstep.
    by rewrite (wire_SendNak size_of attach_opened).
  - destruct w as [se ev]. apply (repr_out _ (MNak c q)). by apply (repr_input x m _ _ buf).
Qed.
Lemma receive_close x p c q : repr x p → local_ok k x → msg_ok k 0 (MClose c q) → streamed c x = false →
  ∃ s, ReceiveRaw (encode (MClose c q)) (p_state p) = Ok (true, s) ∧
    repr (put_chans (delete c (e_chans x)) x) (p_set p s).
Proof using All.
  intros Hr Hl Hg Hns. apply (refine_handler x _ _ _ 0 Hr Hg). pose proof (buf_length _ _ _ _ Hr Hg) as Hb.
  destruct Hg as ([Hc1 Hc2] & Hq). set (buf := _ ++ _) in *. destruct p as [m w l]. cbn [p_mux p_wire p_log] in *.
  set (m1 := set_input _ buf m). destruct w as [se ev]. unfold streamed in Hns. destruct (e_chans x !! c) as [ch|] eqn:Hc.
  - destruct (repr_chan _ _ _ _ Hr Hl Hc) as (Hf & Hcr & _). destruct (concrete_id c ch) as (_ & _ & _ & _ & Hln).
    assert (mType (concrete c ch) = TypePacketChannel) as Ht by (by rewrite concrete_type, Hns).
    eexists _, _. split; [apply (wire_receive_close size_of attach_opened c (concrete c ch) c q _ m1 (Wire se ev) Hcr Hf Ht Hln)|].
    apply repr_event; [done|]. pose proof (repr_delete x c m (Wire se ev) l Hr) as H. exact (repr_input _ _ _ _ buf H Hb).
  - pose proof (repr_absent _ _ _ Hr Hc1 Hc) as Hf. cbn [p_mux] in Hf. exists m1, (Wire se ev). split.
    + unfold buf. cbn [encode]. rewrite packet_of_app. unfold Mux_HandleIncomingPacket.
      rewrite packet_of_mCmd, packet_of_mSize, packet_of_mChan, (u32_small c) by done || lia.
      change (u32 16 =? sizeof_MuxPacket) with true. do 2 mstep.
      unfold DoCloseChannel, GetChannel, getm. do 2 mstep. change (find_chan m1 c) with (find_chan m c). by rewrite Hf.
    + rewrite delete_id by done. replace (put_chans (e_chans x) x) with x by (by destruct x). by apply (repr_input x m _ _ buf).
Qed.
Lemma receive_nak x p c q : repr x p → msg_ok k 0 (MNak c q) → e_chans x !! c = None →
  ∃ s, ReceiveRaw (encode (MNak c q)) (p_state p) = Ok (true, s) ∧ repr x (p_set p s).
Proof using All.
  intros Hr Hg Hc. apply (refine_handler x _ _ _ 0 Hr Hg). pose proof (buf_length _ _ _ _ Hr Hg) as Hb.
  destruct Hg as ([Hc1 Hc2] & Hq). pose proof (repr_absent _ _ _ Hr Hc1 Hc) as Hf.
  set (buf := _ ++ _) in *. destruct p as [m w l]. cbn [p_mux p_wire p_log] in *. set (m1 := set_input _ buf m).
  exists m1, w. split.
  - unfold buf. cbn [encode]. rewrite packet_of_app. unfold Mux_HandleIncomingPacket.
    rewrite packet_of_mCmd, packet_of_mSize, packet_of_mChan, (u32_small c) by done || lia.
    change (u32 16 =? sizeof_MuxPacket) with true. do 2 mstep.
    unfold DoErrorChannel, GetChannel, getm. do 2 mstep. change (find_chan m1 c) with (find_chan m c). by rewrite Hf.
  - by apply (repr_input x m _ _ buf).
Qed.

(** The control channel. *)
Lemma concrete_opened c sz : attach c (opened_channel c sz) = concrete c (Achan sz 1 1).
Proof using All. unfold concrete, opened_channel. cbn. by destruct (sz =? 0). Qed.
Lemma attach_run q r c path b sz (m : mux) (w : wire) : 0 < c → mChannels m !! c = Some (opened_channel c sz) →
  attach_opened q r (Some c) path b (m, w) =
  Ok (tt, (set_channels (<[c := concrete c (Achan sz 1 1)]> (mChannels m)) m,
           Wire (sent w) (events w ++ [EvOpened q r (Some c) path b]))).
Proof using All.
  intros Hc Hm. unfold attach_opened. mstep. rewrite (upd_chan_put c _ m w (opened_channel c sz)).
  - rewrite put_positive, concrete_opened by done. done.
  - by rewrite find_positive.
Qed.
Definition control_step (buf : list byte) (m : mux) (f : list byte) (peer : Z) : mux :=
  set_control (set_seq_peer (peer + 1) (mControlChan m)) (set_input (Z.of_nat (base.length f)) buf m).
Lemma route_control x p f buf cmd : repr x p → 1 ≤ e_peer x < 2 ^ 32 - 1 →
  pk_mCmd buf = cmd → cmd ≠ CloseChan → cmd ≠ Nak → cmd ≠ Data → pk_mChan buf = 0 → pk_mSeq buf = e_peer x →
  Mux_HandleIncomingPacket buf (set_input (Z.of_nat (base.length f)) buf (p_mux p), p_wire p) =
  Mux_OnReceive 0 buf (control_step buf (p_mux p) f (e_peer x), p_wire p).
Proof using All.
  intros Hr Hp Hcmd H1 H2 H3 Hc Hq. pose proof (r_control _ _ Hr) as Hctl.
  rewrite (route_packet _ _ _ (mControlChan (p_mux p)) cmd); rewrite ?Hc, ?Hctl, ?Hq; try done.
  assert (next_seq_peer (e_peer x) = e_peer x + 1) as Hn by (unfold next_seq_peer, first_seq; rewrite u32_small; lia).
  unfold control_step. rewrite Hctl. cbn [mSeqPeer control mListener Listener_OnReceive]. by rewrite Hn.
  rewrite <-Hctl. done.
Qed.
Lemma receive_reply x p q r sz c side path : repr x p → local_ok k x → msg_ok k side (MReply q r sz c) → side ≠ e_side x →
  q = e_peer x → e_chans x !! c = None → e_wait x !! r = Some path →
  let x' := put_chans (<[c := Achan sz 1 1]> (e_chans x))
    (put_wait (delete r (e_wait x)) (put_control (e_seq x) (e_peer x + 1) (e_next x) x)) in
  ∃ s, ReceiveRaw (encode (MReply q r sz c)) (p_state p) = Ok (true, s) ∧ repr x' (p_set p s).
Proof using All.
  intros Hr Hl Hg Hside -> Hc Hw x'. apply (refine_handler x _ _ _ side Hr Hg). pose proof (buf_length _ _ _ _ Hr Hg) as Hb.
  destruct Hg as (Hq & Hrq & Hsz & [Hc1 Hc2] & Hpar). destruct (lo_wait _ _ Hl _ _ Hw) as [Hpn Hpl].
  pose proof (repr_absent _ _ _ Hr Hc1 Hc) as Hf. unfold good_size in Hsz. set (buf := _ ++ _) in *.
  rewrite (route_control x p _ buf OpenChanReply Hr);
    [|lia|apply reply_mCmd|done..|apply reply_mChan|apply reply_mSeq; lia].
  pose proof (wire_reply size_of attach_opened (control_step buf (p_mux p) (encode (MReply (e_peer x) r sz c)) (e_peer x))
    (p_wire p) (e_peer x) r sz c path (drop (base.length (encode (MReply (e_peer x) r sz c))) (mInputBuf (p_mux p)))) as H.
  cbv zeta in H. unfold net_users. cbn [encode] in *. fold buf in H. rewrite H; clear H.
  - rewrite (attach_run _ _ _ _ _ sz); [|lia|cbn; by rewrite lookup_insert_eq]. cbn [mChannels set_channels].
    rewrite insert_insert_eq. eexists _, _. split; [reflexivity|]. destruct Hr. split; try done; cbn.
    + by rewrite r_control0.
    + intros b. destruct (decide (b = c)) as [->|]; [by rewrite !lookup_insert_eq|by rewrite !lookup_insert_ne].
    + intros b. destruct (decide (b = r)) as [->|]; [by rewrite !lookup_delete_eq|by rewrite !lookup_delete_ne].
    + rewrite omap_app. cbn. by rewrite app_nil_r.
  - lia.
  - lia.
  - lia.
  - lia.
  - apply find_chan_None. apply find_chan_None in Hf. exact Hf.
  - cbn. rewrite (r_side _ _ Hr). unfold CHANNEL_MASK. change 1 with (Z.ones 1). rewrite Z.land_ones by lia.
    change (2 ^ 1) with 2. congruence.
  - cbn. by rewrite (r_wait _ _ Hr), Hw.
  - done.
  - done.
Qed.

Lemma size_bound x p : repr x p → local_ok k x → Z.of_nat (base.size (mChannels (p_mux p))) < 2 ^ 31 - 3.
Proof using All.
  intros Hr Hl. assert (dom (mChannels (p_mux p)) ⊆ list_to_set (seqZ 1 (5 + 2 * k))) as Hsub.
  { intros c [ch Hc]%elem_of_dom. rewrite (r_chans _ _ Hr) in Hc. apply fmap_Some in Hc as (a & Ha & _).
    destruct (lo_chan _ _ Hl _ _ Ha) as ([? ?] & _). apply elem_of_list_to_set, elem_of_seqZ. lia. }
  apply subseteq_size in Hsub. rewrite size_dom, size_list_to_set, length_seqZ in Hsub by apply NoDup_seqZ. lia.
Qed.
Lemma receive_open x p q path : good_size (size_of path) → repr x p → local_ok k x →
  msg_ok k 0 (MOpen q path) → q = e_peer x → e_chans x !! (e_next x + 2) = None →
  let c := e_next x in
  let x' := put_out (MReply (e_seq x) q (size_of path) c)
    (put_chans (<[c := Achan (size_of path) 1 1]> (e_chans x)) (put_control (e_seq x + 1) (e_peer x + 1) (c + 2) x)) in
  ∃ s, ReceiveRaw (encode (MOpen q path)) (p_state p) = Ok (true, s) ∧ repr x' (p_set p s).
Proof using All.
  intros Hsize Hr Hl Hg -> Hnext c x'. apply (refine_handler x _ _ _ 0 Hr Hg). pose proof (buf_length _ _ _ _ Hr Hg) as Hb.
  destruct Hg as (Hq & Hpn & Hpl). destruct (lo_next _ _ Hl) as [_ Hc]. fold c in Hc. pose proof (lo_seq _ _ Hl) as Hseq.
  set (buf := _ ++ _) in *. rewrite (route_control x p _ buf OpenChan Hr);
    [|lia|apply request_mCmd|done..|apply request_mChan|apply request_mSeq; lia].
  set (m0 := control_step _ _ _ _). pose proof (repr_ready _ _ Hr Hl) as Hready.
  assert (mControlChan m0 = control (e_seq x) (e_peer x + 1)) as Hc0 by (unfold m0, control_step; cbn; by rewrite (r_control _ _ Hr)).
  assert (control_ready m0 (set_control (set_seq_peer (e_seq x) (mControlChan m0)) m0)) as Hready0.
  { split; rewrite Hc0; try done. cbn. lia. }
  assert (mNextChanId m0 = c) as Hn0 by apply (r_next _ _ Hr).
  pose proof (wire_accept size_of attach_opened m0 _ (p_wire p) (e_peer x) path
    (drop (base.length (encode (MOpen (e_peer x) path))) (mInputBuf (p_mux p))) Hready0 ltac:(lia) Hpn Hpl Hsize) as H.
  cbv zeta in H. rewrite Hn0 in H. destruct (H ltac:(lia)) as (next & _ & Hnext' & Hrun); clear H.
  { change (mChannels m0) with (mChannels (p_mux p)). by apply (size_bound x). }
  rewrite u32_small in Hnext' by lia.
  assert (next = c + 2) as ->.
  { apply Hnext', find_chan_None. split; [lia|]. cbn. rewrite lookup_insert_ne by lia.
    rewrite (r_chans _ _ Hr). fold c in Hnext. by rewrite Hnext. }
  unfold net_users. unfold buf. cbn [encode] in *. rewrite Hrun.
  rewrite (attach_run _ _ _ _ _ (size_of path)); [|lia|cbn; by rewrite lookup_insert_eq].
  eexists _, _. split; [reflexivity|]. rewrite Hc0. destruct Hr. split; try done; cbn.
  - intros b. rewrite insert_insert_eq.
    destruct (decide (b = c)) as [->|]; [by rewrite !lookup_insert_eq|by rewrite !lookup_insert_ne].
  - rewrite r_out0, fmap_app. done.
  - rewrite omap_app. cbn. by rewrite app_nil_r.
Qed.

(** *** Every step *)
Lemma refine_receive x y p m l z : sys_ok size_of k x y → repr x p → e_out y = m :: l → p_receive size_of m x = Some z →
  ∃ s, ReceiveRaw (encode m) (p_state p) = Ok (true, s) ∧ repr z (p_set p s).
Proof using All.
  intros [Hn (kind & _ & Hy)] Hr Ho. pose proof (sized_head _ _ _ _ _ Hy Ho) as Hk'. pose proof (n_local _ _ _ Hn) as Hl. pose proof (n_side _ _ _ Hn) as Hside.
  pose proof (msgs_head size_of k x y Hn _ _ Ho) as Hm.
  destruct m as [q path|q r sz c|c q d|c q|c q]; cbn [p_receive]; intros Hz.
  - destruct (Z.eqb_spec q (e_peer x)) as [Hq|]; [|done]. injection Hz as <-.
    apply receive_open; try done. destruct (lo_next _ _ Hl) as [Hpar ?].
    destruct (ct_fresh _ _ (n_ctl _ _ _ Hn) (e_next x + 2)) as [Hf _]; [lia| |].
    + replace (e_next x + 2) with (e_next x + 1 * 2) by lia. by rewrite Z.mod_add by lia.
    + apply (f_equal s_chan) in Hf. cbn in Hf. by destruct (e_chans x !! (e_next x + 2)).
  - destruct (Z.eqb_spec q (e_peer x)) as [Hq|]; [|done]. destruct (e_chans x !! c) eqn:Hc; [done|].
    destruct (e_wait x !! r) as [path|] eqn:Hw; [|done]. injection Hz as <-. by eapply receive_reply.
  - destruct (e_chans x !! c) as [ch|] eqn:Hc.
    + destruct (Z.eqb_spec q (a_peer ch)) as [Hq|]; [|done]. injection Hz as <-. by apply receive_data; [..|apply Hm|apply Hm|done|].
    + injection Hz as <-. by apply receive_unknown.
  - destruct (streamed c x) eqn:Hs; [done|]. injection Hz as <-. by apply receive_close.
  - destruct (e_chans x !! c) eqn:Hc; [done|]. injection Hz as <-. by apply receive_nak.
Qed.
(** A user's action. *)
Lemma refine_user a x y x' y' p q : net_ok k x y → action_ok size_of a → (match a with ADeliver _ => False | _ => True end) →
  repr x p → repr y q → p_act size_of a x y = Some (x', y') →
  ∃ p' q', act a p q = Ok (p', q') ∧ repr x' p' ∧ repr y' q'.
Proof using All.
  intros Hn Ha Hu Hp Hq. pose proof (n_local _ _ _ Hn) as Hl. destruct a as [path|c d|c|n]; cbn [p_act]; [..|done].
  - intros [= <- <-]. destruct (refine_open x p path Hp Hl (proj1 Ha)) as (r & s & Hs & Hr). cbn. rewrite Hs. eauto.
  - intros [= <- <-]. destruct (refine_send x p c d Hp Hl Ha) as (p' & Hs & Hr). eauto.
  - intros [= <- <-]. destruct (refine_close x p c Hp Hl) as (p' & Hs & Hr). eauto.
Qed.
End Bounded.

(** ** Every run *)
Lemma repr_start side buf : Z.of_nat (base.length buf) = MaxPacketSize → repr (e_start (side_Z side)) (start side buf).
Proof. intros Hb. split; try done; cbn. by destruct side. Qed.
Definition all_ok (acts : list (MuxSide * action)) : Prop := Forall (fun p => action_ok size_of p.2) acts.
(** Deliveries of one packet each. *)
Definition deliveries (acts : list (MuxSide * action)) : Prop := Forall (fun p => p.2 = ADeliver 1) acts.
Lemma deliveries_ok acts : deliveries acts → all_ok acts.
Proof. apply Forall_impl. by intros p ->. Qed.
Lemma run_app a1 a2 : ∀ s c s' c', run a1 s c = Ok (s', c') → run (a1 ++ a2) s c = run a2 s' c'.
Proof.
  induction a1 as [|t a1 IH]; intros s c s' c'; cbn [run app]; [by intros [= -> ->]|].
  destruct (step t s c) as [[s1 c1]|]; [|done]. apply IH.
Qed.

(** What is under way to a side. *)
Definition pending (side : MuxSide) (x y : endpoint) : list msg :=
  match side with SideServer => e_out y | SideClient => e_out x end.

(** *** Packets that arrive together *)
Lemma deliver_cons f fs (s s1 : mux * wire) : deliver Mux_HandleIncomingPacket [f] s = Ok (true, s1) →
  deliver Mux_HandleIncomingPacket (f :: fs) s = deliver Mux_HandleIncomingPacket fs s1.
Proof.
  cbn [deliver]. unfold getm, modm, gets, modify, mbind, ST_bind. cbn [fst snd].
  destruct (Mux_HandleIncomingPacket _ _) as [[[] s']|]; [|done]. by intros [= <-].
Qed.

Lemma refine_deliver n : ∀ k x y x' y' p q, 0 ≤ k → 2 * (k + Z.of_nat n) + 8 < 2 ^ 31 → sys_ok size_of k x y → repr x p → repr y q →
  p_deliver size_of n x y = Some (x', y') →
  ∃ s, deliver Mux_HandleIncomingPacket (take n (sent (p_wire q))) (p_state p) = Ok (true, s) ∧ repr x' (p_set p s) ∧
    repr y' (p_set q (p_mux q, Wire (drop n (sent (p_wire q))) (events (p_wire q)))) ∧
    Forall frame (take n (sent (p_wire q))).
Proof using All.
  induction n as [|n IH]; intros k x y x' y' p q Hk Hb Hn Hp Hq; cbn [p_deliver].
  - intros [= <- <-]. exists (p_state p). destruct p, q as [? [] ?]. by split_and!.
  - destruct q as [mq [se ev] lq]. cbn [p_wire p_mux sent events]. destruct (e_out y) as [|m l] eqn:Ho.
    + pose proof (r_out _ _ Hq) as Hse. cbn in Hse. rewrite Ho in Hse. cbn in Hse. subst se. intros [= <- <-].
      exists (p_state p). destruct p. by split_and!.
    + destruct (p_receive size_of m x) as [z|] eqn:Hz; [|done]. cbn [mbind option_bind].
      destruct (p_receive_ok size_of k x y m l Hn Ho) as (z' & Hz' & Hn1). rewrite Hz in Hz'. injection Hz' as <-.
      destruct (refine_receive k ltac:(lia) x y p m l z Hn Hp Ho Hz) as (s1 & Hs & Hp1).
      destruct (repr_pop k ltac:(lia) y m l mq se ev lq Ho Hq) as (rest & -> & Hq1). intros Hd.
      pose proof (encode_frame k ltac:(lia) (e_side y) m (msgs_head size_of k x y (proj1 Hn) _ _ Ho)) as Hf.
      rewrite ReceiveRaw_one in Hs by (apply users_keep, net_keeps || apply (r_idle _ _ Hp) || done).
      destruct (IH (k + 1) z (pop_out y) x' y' (p_set p s1) (Peer mq (Wire rest ev) lq)) as (s & H1 & H2 & H3 & H4);
        [lia|lia|done..|].
      exists s. cbn [take drop]. rewrite (deliver_cons _ _ _ _ Hs). split_and!; [|done|exact H3|by constructor].
      destruct s1. exact H1.
Qed.
Lemma refine_act a k x y x' y' p q : 0 ≤ k → 2 * (k + cost a) + 8 < 2 ^ 31 → sys_ok size_of k x y → action_ok size_of a → repr x p → repr y q →
  p_act size_of a x y = Some (x', y') → ∃ p' q', act a p q = Ok (p', q') ∧ repr x' p' ∧ repr y' q'.
Proof using All.
  intros Hk Hb Hn Ha Hp Hq Hact. destruct a as [path|c d|c|n]; cbn [cost] in Hb;
    [eapply (refine_user k); by (done || lia || apply Hn)..|].
  destruct (refine_deliver n k x y x' y' p q Hk Hb Hn Hp Hq Hact) as (s & Hs & Hp' & Hq' & Hf). cbn [act].
  rewrite ReceiveRaw_concat by (apply users_keep, net_keeps || apply (r_idle _ _ Hp) || done). rewrite Hs. cbn. eauto.
Qed.
Lemma refine_step k t x y s c : 0 ≤ k → 2 * (k + cost t.2) + 8 < 2 ^ 31 → sys_ok size_of k x y → action_ok size_of t.2 → repr x s → repr y c →
  ∃ x' y' s' c', p_step size_of t x y = Some (x', y') ∧ step t s c = Ok (s', c') ∧ repr x' s' ∧ repr y' c' ∧
    sys_ok size_of (k + cost t.2) x' y' ∧ (weight x' + weight y' ≤ weight x + weight y + 2)%nat ∧
    (t.2 = ADeliver 1 → pending t.1 x y ≠ [] → (weight x' + weight y' < weight x + weight y)%nat).
Proof using All.
  intros Hk Hb Hn Ha Hx Hy. destruct t as [[] a]; cbn [fst snd step p_step] in *.
  - destruct (p_act_ok size_of a k x y Hn Ha) as (x1 & y1 & Hp & Hn1).
    destruct (refine_act a k x y x1 y1 s c Hk Hb Hn Ha Hx Hy Hp) as (s1 & c1 & Hs & Hx1 & Hy1).
    exists x1, y1, s1, c1. split_and!; try done; [by eapply weight_act|]. intros -> Ho. by eapply weight_deliver_one.
  - apply sys_ok_sym in Hn. destruct (p_act_ok size_of a k y x Hn Ha) as (y1 & x1 & Hp & Hn1).
    destruct (refine_act a k y x y1 x1 c s Hk Hb Hn Ha Hy Hx Hp) as (c1 & s1 & Hs & Hy1 & Hx1).
    pose proof (weight_act _ _ _ _ _ _ Hp). rewrite Hp, Hs. exists x1, y1, s1, c1.
    split_and!; try done; [by apply sys_ok_sym|lia|]. intros -> Ho. pose proof (weight_deliver_one _ _ _ _ _ Ho Hp). lia.
Qed.
Lemma refine_run acts : ∀ k x y s c, 0 ≤ k → 2 * (k + total acts) + 8 < 2 ^ 31 →
  sys_ok size_of k x y → all_ok acts → repr x s → repr y c →
  ∃ x' y' s' c', p_run size_of acts x y = Some (x', y') ∧ run acts s c = Ok (s', c') ∧ repr x' s' ∧ repr y' c' ∧
    sys_ok size_of (k + total acts) x' y' ∧ (weight x' + weight y' ≤ weight x + weight y + 2 * base.length acts)%nat.
Proof using All.
  induction acts as [|t acts IH]; intros k x y s c Hk Hlen Hn Hok Hx Hy.
  { exists x, y, s, c. cbn. rewrite Z.add_0_r. split_and!; try done. lia. }
  pose proof (cost_nonneg t.2). pose proof (total_nonneg acts).
  change (total (t :: acts)) with (cost t.2 + total acts) in *. apply list.Forall_cons in Hok as [Ha Hok].
  destruct (refine_step k t x y s c) as (x1 & y1 & s1 & c1 & Hp & Hs & Hx1 & Hy1 & Hn1 & Hw1 & _); [lia|lia|done..|].
  destruct (IH (k + cost t.2) x1 y1 s1 c1) as (x' & y' & s' & c' & Hr & Hs' & Hx' & Hy' & Hn' & Hw); [lia|lia|done..|].
  exists x', y', s', c'. cbn [run p_run base.length]. rewrite Hp, Hs, Z.add_assoc. split_and!; try done. lia.
Qed.

(** As long as something is under way, a delivery takes it on. *)
Lemma drain n : ∀ k x y s c, 0 ≤ k → 2 * (k + Z.of_nat n) + 8 < 2 ^ 31 → (weight x + weight y ≤ n)%nat →
  sys_ok size_of k x y → repr x s → repr y c →
  ∃ acts k' x' y' s' c', (base.length acts ≤ n)%nat ∧ deliveries acts ∧ run acts s c = Ok (s', c') ∧
    repr x' s' ∧ repr y' c' ∧ sys_ok size_of k' x' y' ∧ e_out x' = [] ∧ e_out y' = [].
Proof using All.
  induction n as [|n IH]; intros k x y s c Hk Hlen Hw Hn Hx Hy;
    (destruct (decide (e_out x = [] ∧ e_out y = [])) as [[Ox Oy]|Ho];
      [exists [], k, x, y, s, c; split_and!; first [done|cbn; lia|constructor]|]);
    (assert (∃ side : MuxSide, pending side x y ≠ []) as [side Hside]
      by (destruct (decide (e_out x = [])); [exists SideServer; naive_solver|by exists SideClient])).
  { assert (∀ z, e_out z ≠ [] → (0 < weight z)%nat) as Hpos.
    { intros z Hz. destruct (e_out z) as [|m l] eqn:Hm; [done|]. pose proof (weight_pop z m l Hm). destruct m; cbn in *; lia. }
    destruct side; apply Hpos in Hside; lia. }
  destruct (refine_step k (side, ADeliver 1) x y s c) as (x1 & y1 & s1 & c1 & Hp & Hs & Hx1 & Hy1 & Hn1 & _ & Hw1);
    try done; cbn [snd cost] in *; try lia. specialize (Hw1 eq_refl Hside).
  destruct (IH (k + 1) x1 y1 s1 c1) as (acts & k' & x' & y' & s' & c' & Hl & Hd & Hr & H); [lia|lia|lia|done..|].
  exists ((side, ADeliver 1) :: acts), k', x', y', s', c'. cbn [run base.length]. rewrite Hs.
  split_and!; try lia; try done; try apply H. by constructor.
Qed.

(** From the start. *)
Lemma refine_start acts bs bc :
  Z.of_nat (base.length bs) = MaxPacketSize → Z.of_nat (base.length bc) = MaxPacketSize →
  all_ok acts → 2 * total acts + 8 < 2 ^ 31 →
  ∃ x y s c, p_run size_of acts (e_start 0) (e_start 1) = Some (x, y) ∧
    run acts (start SideServer bs) (start SideClient bc) = Ok (s, c) ∧
    repr x s ∧ repr y c ∧ sys_ok size_of (total acts) x y ∧
    (weight x + weight y ≤ 2 * base.length acts)%nat.
Proof.
  intros Hs Hc Hok Hlen.
  exact (refine_run acts 0 _ _ _ _ ltac:(lia) Hlen (sys_start size_of) Hok (repr_start SideServer bs Hs) (repr_start SideClient bc Hc)).
Qed.
Lemma repr_prefix k x y p q ch : net_ok k x y → repr x p → repr y q → received ch q `prefix_of` sent_on ch p.
Proof.
  intros Hn Hp Hq. unfold received, sent_on. rewrite (r_got _ _ Hq), (r_log _ _ Hp). by apply (net_prefix k).
Qed.
Lemma repr_live x p ch : repr x p → is_Some (mChannels (p_mux p) !! ch) ↔ is_Some (e_chans x !! ch).
Proof. intros Hp. rewrite (r_chans _ _ Hp). apply fmap_is_Some. Qed.
Lemma repr_settled k x y p q ch : net_ok k x y → repr x p → repr y q → e_out x = [] → e_out y = [] →
  (is_Some (mChannels (p_mux p) !! ch) ↔ is_Some (mChannels (p_mux q) !! ch)) ∧
  (is_Some (mChannels (p_mux p) !! ch) → received ch p = sent_on ch q).
Proof.
  intros Hn Hp Hq Ox Oy. rewrite (repr_live _ _ _ Hp), (repr_live _ _ _ Hq).
  unfold received, sent_on. rewrite (r_got _ _ Hp), (r_log _ _ Hq).
  destruct (net_settled k y x ch (net_ok_sym _ _ _ Hn) Oy Ox) as [H1 H2]. by split.
Qed.
End Net.

(** ** What the two muxes promise *)

(** C5: two muxes under every interleaving.  A server and a client are made by
    the constructor and joined by a transport that delivers the packets of each
    side in order, whole, one or several of them in one call of [ReceiveRaw].
    Whatever their users open, send and close, and whenever packets arrive
    (fewer than 2^30 actions and packets in all), no assertion of either fails
    and nothing undefined happens, as long as no path that is opened is one
    that the peer refuses (a refusal makes the opener's assertion fail) and
    packet channels only are closed ([close] of a stream is undefined: the
    [StreamChannel] is deleted as a [Channel]): requests cross, both sides
    close the same channel, data meets a channel that is already closed.  On every channel and
    in both directions, what the listener has been given is a prefix of what
    was sent, byte for byte and in order.  A path is shorter than MaxPathLen,
    and an action sends one non-empty packet; a longer [Write] is several of
    them. *)
Theorem every_run_is_safe (size_of : list byte → Z) (acts : list (MuxSide * action)) (bs bc : list byte) :
  Z.of_nat (base.length bs) = MaxPacketSize → Z.of_nat (base.length bc) = MaxPacketSize →
  all_ok size_of acts → 2 * total acts + 8 < 2 ^ 31 →
  ∃ s c, run size_of acts (start SideServer bs) (start SideClient bc) = Ok (s, c) ∧
    ∀ ch, received ch c `prefix_of` sent_on ch s ∧ received ch s `prefix_of` sent_on ch c.
Proof.
  intros Hs Hc Hok Hlen.
  destruct (refine_start size_of acts bs bc Hs Hc Hok Hlen) as (x & y & s & c & _ & Hr & Hx & Hy & [Hn _] & _).
  exists s, c. split; [done|]. intros ch. split; [by eapply repr_prefix|].
  eapply repr_prefix; [by apply net_ok_sym|done|done].
Qed.

(** C6: everything arrives.  After any such run (no path that is opened is
    refused by the peer, and packet channels only are closed) at most two deliveries of
    one packet per action leave nothing under way; then the two muxes have the same channels,
    and on each of them both listeners have been given exactly what was sent. *)
Theorem every_run_settles (size_of : list byte → Z) (acts : list (MuxSide * action)) (bs bc : list byte) :
  Z.of_nat (base.length bs) = MaxPacketSize → Z.of_nat (base.length bc) = MaxPacketSize →
  all_ok size_of acts → 2 * (total acts + 2 * Z.of_nat (base.length acts)) + 8 < 2 ^ 31 →
  ∃ dels s c, deliveries dels ∧ (base.length dels ≤ 2 * base.length acts)%nat ∧
    run size_of (acts ++ dels) (start SideServer bs) (start SideClient bc) = Ok (s, c) ∧
    sent (p_wire s) = [] ∧ sent (p_wire c) = [] ∧
    ∀ ch, (is_Some (mChannels (p_mux s) !! ch) ↔ is_Some (mChannels (p_mux c) !! ch)) ∧
      (is_Some (mChannels (p_mux s) !! ch) → received ch c = sent_on ch s ∧ received ch s = sent_on ch c).
Proof.
  intros Hs Hc Hok Hlen.
  destruct (refine_start size_of acts bs bc Hs Hc Hok) as (x & y & s & c & _ & Hr & Hx & Hy & Hn & Hw); [lia|].
  destruct (drain size_of (2 * base.length acts) (total acts) x y s c (total_nonneg acts) ltac:(lia) Hw Hn Hx Hy)
    as (dels & k & x' & y' & s' & c' & Hl & Hd & Hr' & Hx' & Hy' & [Hn' _] & Ox & Oy).
  exists dels, s', c'. split_and!; [done|done|by rewrite (run_app _ _ _ _ _ _ _ Hr)|..].
  - by rewrite (r_out _ _ Hx'), Ox.
  - by rewrite (r_out _ _ Hy'), Oy.
  - intros ch. destruct (repr_settled k x' y' s' c' ch Hn' Hx' Hy' Ox Oy) as [H1 H2].
    destruct (repr_settled k y' x' c' s' ch (net_ok_sym _ _ _ Hn') Hy' Hx' Oy Ox) as [_ H3]. split; [done|].
    intros Hlive. split; [by apply H3, H1|by apply H2].
Qed.

(** ** A run *)

(** Two opens cross; the client closes its channel while data for it is under
    way, which the client answers with a [Nak].  The server's path is of a
    packet channel, the client's of a stream; another path is refused. *)
Definition stream_path : list byte := [byte_of_Z 51].
Definition demo_size (path : list byte) : Z :=
  if decide (path = demo_path) then 100 else if decide (path = stream_path) then 0 else -1.
Definition demo_acts : list (MuxSide * action) :=
  [(SideServer, AOpen demo_path); (SideClient, AOpen stream_path);
   (SideClient, ADeliver 1); (SideServer, ADeliver 2); (SideClient, ADeliver 1);
   (SideServer, ASend 5 [Byte.x41; Byte.x42]); (SideServer, ASend 5 [Byte.x43]); (SideClient, ASend 4 [Byte.x44]);
   (SideClient, ADeliver 1); (SideClient, AClose 5); (SideClient, ADeliver 1); (SideServer, ASend 4 [Byte.x45]);
   (SideServer, ADeliver 1)].
Lemma demo_acts_ok : all_ok demo_size demo_acts.
Proof.
  assert (good_path demo_path ∧ good_size (demo_size demo_path)) by
    (split; [split; [unfold demo_path; rewrite list_elem_of_singleton; discriminate|reflexivity]|by vm_compute]).
  assert (good_path stream_path ∧ good_size (demo_size stream_path)) by
    (split; [split; [unfold stream_path; rewrite list_elem_of_singleton; discriminate|reflexivity]|by vm_compute]).
  unfold all_ok, demo_acts. repeat (apply list.Forall_cons_2; [cbn; first [done|by unfold good_data]|]). constructor.
Qed.
Lemma every_run_is_safe_witness :
  ∃ s c, run demo_size demo_acts (start SideServer demo_buf) (start SideClient demo_buf) = Ok (s, c) ∧
    ∀ ch, received ch c `prefix_of` sent_on ch s ∧ received ch s `prefix_of` sent_on ch c.
Proof.
  apply (every_run_is_safe demo_size demo_acts demo_buf demo_buf).
  - vm_compute. reflexivity.
  - vm_compute. reflexivity.
  - apply demo_acts_ok.
  - vm_compute. reflexivity.
Defined.
Lemma every_run_settles_witness :
  ∃ dels s c, deliveries dels ∧ (base.length dels ≤ 26)%nat ∧
    run demo_size (demo_acts ++ dels) (start SideServer demo_buf) (start SideClient demo_buf) = Ok (s, c) ∧
    sent (p_wire s) = [] ∧ sent (p_wire c) = [] ∧
    ∀ ch, (is_Some (mChannels (p_mux s) !! ch) ↔ is_Some (mChannels (p_mux c) !! ch)) ∧
      (is_Some (mChannels (p_mux s) !! ch) → received ch c = sent_on ch s ∧ received ch s = sent_on ch c).
Proof.
  apply (every_run_settles demo_size demo_acts demo_buf demo_buf).
  - vm_compute. reflexivity.
  - vm_compute. reflexivity.
  - apply demo_acts_ok.
  - vm_compute. reflexivity.
Defined.
(** What the listeners of that run have been given. *)
Example demo_received :
  (fun r => match r with
   | Ok (s, c) => Some (received 5 c, received 4 s, received 4 c, sent_on 5 s, base.length (sent (p_wire s)))
   | Fault _ => None
   end) (run demo_size demo_acts (start SideServer demo_buf) (start SideClient demo_buf)) =
  Some ([[Byte.x41; Byte.x42]], [[Byte.x44]], [], [[Byte.x41; Byte.x42]; [Byte.x43]], 1%nat).
Proof. vm_compute. reflexivity. Qed.
