(* ===== verification/Message.v ===== *)
(** * msghelper: messages with file descriptors (toolkits/msghelper.cpp)

    [send_msg] and [msg_receiver] over a socket layer that is a parameter:
    [sendmsg] gets the bytes and the ints of the [SCM_RIGHTS] control message,
    [recvmsg] gives bytes and descriptors, or an error. *)

From S2P Require Import Prelude.

Inductive recvmsg_result :=
| RecvErr
| RecvMsg (bytes : list byte) (trunc : bool) (fds : list Z).

Class sockets (E : Type) := {
  (** [sendmsg(sock, &msg, 0)]; [None] is an int that was never written. *)
  sendmsg : Z → list byte → list (option Z) → ST E Z;
  (** [recvmsg(fd, &msg, 0)] with room for [size] bytes and [room] descriptors. *)
  recvmsg : Z → Z → Z → ST E recvmsg_result;
}.

(** The kernel's layout of a control message on x86_64. *)
Definition CMSG_ALIGN (n : Z) : Z := round8 n.
Definition sizeof_cmsghdr : Z := 16.
Definition CMSG_LEN (n : Z) : Z := CMSG_ALIGN sizeof_cmsghdr + n.
Definition CMSG_SPACE (n : Z) : Z := CMSG_ALIGN n + CMSG_ALIGN sizeof_cmsghdr.
Definition sizeof_int : Z := 4.

(** [if (sendfd1) *data++ = sendfd1; if (sendfd2) *data++ = sendfd2;] *)
Definition written_fds (sendfd1 sendfd2 : Z) : list Z :=
  (if negb (sendfd1 =? 0) then [sendfd1] else []) ++
  (if negb (sendfd2 =? 0) then [sendfd2] else []).

(** The control buffer's ints: [size] of them, of which [w] have been written. *)
Definition control_ints (size : Z) (w : list Z) : outcome (list (option Z)) :=
  if bool_decide (Z.of_nat (length w) ≤ size)
  then Ok (map Some w ++ replicate (Z.to_nat size - length w) None)
  else Fault (Undefined "write outside the control buffer").

(** The ints under [cmsg_len]: the first [cmsgcnt] of the control buffer. *)
Definition control_data (sendfd1 sendfd2 : Z) : outcome (list (option Z)) :=
  let cmsgcnt := (if 0 <=? sendfd1 then 1 else 0) + (if 0 <=? sendfd2 then 1 else 0) in
  let cmsgsz := CMSG_SPACE (sizeof_int * cmsgcnt) in
  if 0 <? cmsgcnt then
    ints ← control_ints ((cmsgsz - CMSG_ALIGN sizeof_cmsghdr) / sizeof_int)
             (written_fds sendfd1 sendfd2);
    mret (take (Z.to_nat cmsgcnt) ints)
  else mret [].

Definition send_msg {E} `{sockets E} (sock : Z) (buf : list byte) (bufsz sendfd1 sendfd2 : Z) : ST E Z :=
  ints ← lift (control_data sendfd1 sendfd2);
  bytes ← lift (read_at buf 0 bufsz);
  sendmsg sock bytes ints.

Definition data_buf_size : Z := 1024 * 8.
Definition fd_rcvd_size : Z := 2.

Record msg_receiver := MsgReceiver {
  rc_fd : Z;
  fd_rcvd_num : Z;
  fd_rcvd : list Z;
  data_bytes : Z;
  data : list byte;   (** what [recvmsg] stored; the rest of the block is uninitialised *)
}.

Definition new_msg_receiver (fd : Z) : msg_receiver := MsgReceiver fd 0 [0; 0] 0 [].

Definition receive_one {E} `{sockets E} : ST (msg_receiver * E) bool := fun '(rc, e) =>
  match recvmsg (rc_fd rc) data_buf_size fd_rcvd_size e with
  | Fault f => Fault f
  | Ok (RecvErr, e) =>
      Ok (false, (MsgReceiver (rc_fd rc) (fd_rcvd_num rc) (fd_rcvd rc) (-1) (data rc), e))
  | Ok (RecvMsg bytes trunc fds, e) =>
      let n := Z.of_nat (length bytes) in
      cassert (sizeof_int <=? n) "(unsigned)data_bytes >= sizeof(int)" ;;
      cassert (negb trunc) "!(msg.msg_flags & MSG_TRUNC)" ;;
      let nfds := Z.of_nat (length fds) in
      let controllen := if nfds =? 0 then 0 else CMSG_SPACE (sizeof_int * nfds) in
      if CMSG_SPACE sizeof_int <=? controllen then
        let num := CMSG_LEN (sizeof_int * nfds) / CMSG_LEN sizeof_int in
        cassert (num <=? fd_rcvd_size) "fd_rcvd_num <= fd_rcvd_size" ;;
        fds' ← read_at fds 0 num;
        rcvd ← write_at (fd_rcvd rc) 0 fds';
        Ok (true, (MsgReceiver (rc_fd rc) num rcvd n bytes, e))
      else Ok (true, (MsgReceiver (rc_fd rc) (fd_rcvd_num rc) (fd_rcvd rc) n bytes, e))
  end.

(** ** Lemmas *)
Lemma send_msg_ints {E} `{sockets E} sock (bytes : list byte) bufsz fd1 fd2 ints (e : E) :
  bufsz = Z.of_nat (length bytes) → control_data fd1 fd2 = Ok ints →
  send_msg sock bytes bufsz fd1 fd2 e = sendmsg sock bytes ints e.
Proof.
  intros -> Hc. unfold send_msg. rewrite Hc. do 2 mstep. unfold read_at.
  rewrite bool_decide_true by lia. rewrite drop_0, Nat2Z.id, firstn_all. done.
Qed.

Lemma control_data_cases fd1 fd2 :
  control_data fd1 fd2 = Ok (
    if decide (0 ≤ fd1) then
      if decide (fd1 = 0) then
        if decide (fd2 < 0) then [Some fd2] else
        if decide (fd2 = 0) then [None; None] else [Some fd2; None]
      else
        if decide (fd2 < 0) then [Some fd1] else
        if decide (fd2 = 0) then [Some fd1; None] else [Some fd1; Some fd2]
    else if decide (0 ≤ fd2) then [Some fd1] else []).
Proof.
  unfold control_data, written_fds.
  destruct (Z.leb_spec 0 fd1), (Z.leb_spec 0 fd2), (Z.eqb_spec fd1 0), (Z.eqb_spec fd2 0);
    try lia; repeat case_decide; try lia; done.
Qed.

Lemma control_data_neg fd : fd < 0 → control_data fd (-1) = Ok [].
Proof. intros. rewrite control_data_cases. repeat case_decide; (done || lia). Qed.
(** One descriptor goes as it was given, unless it is 0. *)
Lemma control_data_one fd : 0 < fd → control_data fd (-1) = Ok [Some fd].
Proof. intros. rewrite control_data_cases. repeat case_decide; (done || lia). Qed.

(** The receiver after a message with at most two descriptors. *)
Definition received (rc : msg_receiver) (bytes : list byte) (fds : list Z) : msg_receiver :=
  match fds with
  | [] => MsgReceiver (rc_fd rc) (fd_rcvd_num rc) (fd_rcvd rc) (Z.of_nat (length bytes)) bytes
  | fd :: _ => MsgReceiver (rc_fd rc) 1 (fd :: tail (fd_rcvd rc)) (Z.of_nat (length bytes)) bytes
  end.
Lemma receive_one_eq {E} `{sockets E} rc (e e' : E) bytes fds :
  recvmsg (rc_fd rc) data_buf_size fd_rcvd_size e = Ok (RecvMsg bytes false fds, e') →
  sizeof_int ≤ Z.of_nat (length bytes) → Z.of_nat (length fds) ≤ fd_rcvd_size →
  length (fd_rcvd rc) = Z.to_nat fd_rcvd_size →
  receive_one (rc, e) = Ok (true, (received rc bytes fds, e')).
Proof.
  intros Hr Hl Hf Hn. unfold receive_one. rewrite Hr. change fd_rcvd_size with 2 in *.
  destruct (Z.leb_spec sizeof_int (Z.of_nat (length bytes))); [|lia]. ostep.
  cbn [cassert negb]. ostep. destruct (fd_rcvd rc) as [|r0 [|r1 [|]]] eqn:Er; try done.
  destruct fds as [|fd1 [|fd2 [|]]]; [| | |simpl in *; lia]; unfold received; by rewrite Er.
Qed.

(** which descriptors [send_msg] really passes.  Writing them never
    leaves the control buffer, and the control message consists of exactly the
    given descriptors that are not negative, in order, if and only if both are
    negative, or the first is positive and the second is not 0: the code counts
    descriptors with [>= 0] and copies them with [!= 0], so descriptor 0 is
    never copied (in its place goes the other argument, -1 by default, or an
    uninitialised int), and the second is not passed without the first. *)
Theorem send_msg_passes_fds (fd1 fd2 : Z) :
  let want := map Some ((if decide (0 ≤ fd1) then [fd1] else []) ++
                        (if decide (0 ≤ fd2) then [fd2] else [])) in
  ∃ sent, control_data fd1 fd2 = Ok sent ∧
    (sent = want ↔ (fd1 < 0 ∧ fd2 < 0) ∨ (0 < fd1 ∧ fd2 ≠ 0)).
Proof.
  intros want. rewrite control_data_cases. eexists; split; [done|]. unfold want.
  repeat case_decide; simpl; split; intros ?; simplify_eq; (done || lia || (f_equal; lia)).
Qed.

(** [receive_one] takes a message of at least four bytes and leaves its
    bytes and its first descriptor in the receiver, and it never counts more
    than one: for two descriptors [cmsg_len / CMSG_LEN(sizeof(int))] is
    24 / 20 = 1, so the second is lost.  Without descriptors the count of the
    previous message stays. *)
Theorem receive_one_descriptors {E} `{sockets E} (rc : msg_receiver) (e e' : E)
    (bytes : list byte) (fds : list Z) :
  recvmsg (rc_fd rc) data_buf_size fd_rcvd_size e = Ok (RecvMsg bytes false fds, e') →
  sizeof_int ≤ Z.of_nat (length bytes) → Z.of_nat (length fds) ≤ fd_rcvd_size →
  length (fd_rcvd rc) = Z.to_nat fd_rcvd_size →
  ∃ rc', receive_one (rc, e) = Ok (true, (rc', e')) ∧
    data rc' = bytes ∧ data_bytes rc' = Z.of_nat (length bytes) ∧ rc_fd rc' = rc_fd rc ∧
    match fds with
    | [] => fd_rcvd_num rc' = fd_rcvd_num rc ∧ fd_rcvd rc' = fd_rcvd rc
    | fd :: _ => fd_rcvd_num rc' = 1 ∧ head (fd_rcvd rc') = Some fd
    end.
Proof.
  intros Hr Hl Hf Hn. exists (received rc bytes fds).
  split; [by apply receive_one_eq|]. unfold received. destruct fds; done.
Qed.

(** ** The theorems at concrete inputs *)
Lemma receive_one_descriptors_witness :
  let S : sockets unit := {| sendmsg _ _ _ := mret 0;
    recvmsg _ _ _ := mret (RecvMsg (le_bytes 4 1) false [8; 9]) |} in
  ∃ rc', receive_one (new_msg_receiver 3, tt) = Ok (true, (rc', tt)) ∧
    data rc' = le_bytes 4 1 ∧ data_bytes rc' = 4 ∧ rc_fd rc' = 3 ∧
    fd_rcvd_num rc' = 1 ∧ head (fd_rcvd rc') = Some 8.
Proof.
  intros S. apply (receive_one_descriptors (H := S) (new_msg_receiver 3) tt tt (le_bytes 4 1) [8; 9]);
    (reflexivity || vm_compute; congruence).
Defined.
