(* ===== verification/Bridge.v ===== *)
(** * The bridge: requests of a sandboxed process (sandbox/bridge.cpp, scout.h)

    [sandbox_bridge] runs inside the process that the scout watches.  Each
    [send_*] packs a request for the Command Center, sends it over the scout's
    socket, waits for the reply and unpacks it.  The socket layer and the
    trampoline through which the bridge makes its own system calls are
    parameters. *)

From S2P Require Import Prelude TinyPack Message.

(** ** scout.h *)
Inductive scout_cmd :=
| cmd_hello | cmd_open | cmd_openat | cmd_access | cmd_fstat | cmd_stat | cmd_lstat
| cmd_execve | cmd_readlink | cmd_unlink | cmd_vfork.
Definition scout_cmd_Z (c : scout_cmd) : Z :=
  match c with
  | cmd_hello => 1 | cmd_open => 2 | cmd_openat => 3 | cmd_access => 4 | cmd_fstat => 5
  | cmd_stat => 6 | cmd_lstat => 7 | cmd_execve => 8 | cmd_readlink => 9 | cmd_unlink => 10
  | cmd_vfork => 11
  end.
(** The enumeration as a packed field: its values fit [int]. *)
Definition cmd_field (c : scout_cmd) : int := Int (scout_cmd_Z c).

Definition FLAG_FILTER_INSTALLED : Z := 0x1.
Definition FLAG_CC_COMM_READY : Z := 0x2.

Definition NR_rt_sigaction : Z := 13.
Definition NR_dup : Z := 32.
Definition NR_dup2 : Z := 33.
Definition NR_getpid : Z := 39.
Definition SIGSYS : Z := 31.

(** [SYSCALL(nr, ...)], a call through the trampoline at its fixed address. *)
Class trampoline (E : Type) := SYSCALL : Z → list Z → ST E Z.

Record sandbox_bridge := Bridge { sock : Z; rcvr : msg_receiver }.

(** [set_sock(fd)]. *)
Definition set_sock (fd : Z) : sandbox_bridge := Bridge fd (new_msg_receiver fd).

(** [*(int* )(ptr + off)]. *)
Definition int_at (buf : list byte) (off : Z) : outcome Z :=
  s32 ∘ le_Z <$> read_at buf off 4.

Section Bridge.
Context {E : Type} `{Sk : sockets E} `{Tr : trampoline E}.
Context (malloc : Z → list byte).
Definition M : Type → Type := ST (sandbox_bridge * E).

Definition bridge_receive : M bool := fun '(b, e) =>
  match receive_one (rcvr b, e) with
  | Ok (ok, (rc, e)) => Ok (ok, (Bridge (sock b) rc, e))
  | Fault f => Fault f
  end.
Definition get_rcvr : M msg_receiver := gets (fun s => rcvr s.1).
Definition bridge_syscall (nr : Z) (args : list Z) : M Z := fun '(b, e) =>
  match SYSCALL nr args e with Ok (r, e) => Ok (r, (b, e)) | Fault f => Fault f end.

(** [buf = pack.pack_size_prefix(); send_msg(sock, buf,
    pack.get_size_prefix(), fd); free(buf);], whose result is not used. *)
Definition send_pack {B} `{packer B} (pack : B) (fd : Z) : M unit := fun '(b, e) =>
  buf ← pack_size_prefix malloc pack;
  n ← get_size_prefix pack;
  match send_msg (sock b) buf n fd (-1) e with
  | Ok (_, e) => Ok (tt, (b, e))
  | Fault f => Fault f
  end.

Definition receive_int_msg : M Z :=
  ok ← bridge_receive;
  sassert ok "ok" ;;
  rc ← get_rcvr;
  sassert (data_bytes rc =? 2 * sizeof_int) "rcvr->get_data_bytes() == 2 * sizeof(int)" ;;
  n ← lift (int_at (data rc) 0);
  sassert (n =? sizeof_int) "*(int* )ptr == sizeof(int)" ;;
  sassert (s32 (n + sizeof_int) =? data_bytes rc)
    "(int)(*(int* )ptr + sizeof(int)) == rcvr->get_data_bytes()" ;;
  lift (int_at (data rc) 4).

(** [receive_struct_msg(rcvr, buf)]: the result and [*buf]. *)
Definition receive_struct_msg {T} `{value_trait T} (buf : T) : M (Z * T) :=
  ok ← bridge_receive;
  sassert ok "ok" ;;
  rc ← get_rcvr;
  let unpacker := field (field (field tt (UInt 0)) (Int 0)) buf in
  done ← lift (check_completed unpacker (data rc) 0 (data_bytes rc));
  sassert done "unpacker.check_completed()" ;;
  n ← lift (up_get_size unpacker (data rc) 0 (data_bytes rc));
  sassert (n =? data_bytes rc) "unpacker.get_size() == rcvr->get_data_bytes()" ;;
  r ← lift (unpack unpacker (data rc) 0 (data_bytes rc));
  let '(_, payload_sz, r, v) := r in
  sassert (s32 (uint_val payload_sz + sizeof_int) =? data_bytes rc)
    "(int)(payload_sz + sizeof(int)) == rcvr->get_data_bytes()" ;;
  mret (int_val r, v).

Definition send_open (path : cstr) (flags mode : Z) : M Z :=
  send_pack (field (field (field (field tt (cmd_field cmd_open)) path) (Int flags)) (UInt mode)) (-1) ;;
  mret 0.

Definition send_openat (dirfd : Z) (path : cstr) (flags mode : Z) : M Z :=
  send_pack (field (field (field (field (field tt (cmd_field cmd_openat)) (Int dirfd)) path)
    (Int flags)) (UInt mode)) dirfd ;;
  bridge_receive ;;
  rc ← get_rcvr;
  sassert (data_bytes rc =? 2 * sizeof_int) "rcvr->get_data_bytes() == 2 * sizeof(int)" ;;
  n ← lift (int_at (data rc) 0);
  sassert (s32 (n + sizeof_int) =? data_bytes rc)
    "(int)(*(int* )ptr + sizeof(int)) == rcvr->get_data_bytes()" ;;
  let unpacker := field tt (Int 0) in
  done ← lift (check_completed unpacker (data rc) 4 (data_bytes rc - 4));
  sassert done "unpacker.check_completed()" ;;
  r ← lift (unpack unpacker (data rc) 4 (data_bytes rc - 4));
  let r := int_val r.2 in
  if 0 <=? r then
    sassert (fd_rcvd_num rc =? 1) "rcvr->get_fd_rcvd_num() == 1" ;;
    match head (fd_rcvd rc) with
    | Some fd => mret fd
    | None => lift (Fault (Undefined "read outside fd_rcvd"))
    end
  else mret r.

Definition send_dup (oldfd : Z) : M Z := r ← bridge_syscall NR_dup [oldfd]; mret (s32 r).
Definition send_dup2 (oldfd newfd : Z) : M Z :=
  r ← bridge_syscall NR_dup2 [oldfd; newfd]; mret (s32 r).

Definition send_access (path : cstr) (mode : Z) : M Z :=
  send_pack (field (field (field tt (cmd_field cmd_access)) path) (Int mode)) (-1) ;;
  ok ← bridge_receive;
  if negb ok then mret (-1) else
  rc ← get_rcvr;
  sassert (data_bytes rc =? sizeof_int * 2) "rcvr->get_data_bytes() == sizeof(int) * 2" ;;
  n ← lift (int_at (data rc) 0);
  sassert (n =? sizeof_int) "*(int* )ptr == sizeof(int)" ;;
  let unpacker := field tt (Int 0) in
  done ← lift (check_completed unpacker (data rc) 4 sizeof_int);
  sassert done "unpacker.check_completed()" ;;
  r ← lift (unpack unpacker (data rc) 4 sizeof_int);
  mret (int_val r.2).

(** The functions with a [struct stat*] also give what it points to. *)
Definition send_fstat (fd : Z) (statbuf : struct_stat) : M (Z * struct_stat) :=
  send_pack (field (field tt (cmd_field cmd_fstat)) (Int fd)) fd ;;
  receive_struct_msg statbuf.
Definition send_stat (path : cstr) (statbuf : struct_stat) : M (Z * struct_stat) :=
  send_pack (field (field tt (cmd_field cmd_stat)) path) (-1) ;;
  receive_struct_msg statbuf.
Definition send_lstat (path : cstr) (statbuf : struct_stat) : M (Z * struct_stat) :=
  send_pack (field (field tt (cmd_field cmd_lstat)) path) (-1) ;;
  receive_struct_msg statbuf.

Definition send_execve (filename : cstr) : M Z :=
  pid ← bridge_syscall NR_getpid [];
  if pid <? 0 then mret (s32 pid) else
  send_pack (field (field (field tt (cmd_field cmd_execve)) (Int (s32 pid))) filename) (-1) ;;
  ok ← bridge_receive;
  if negb ok then mret (-1) else mret 0.

(** The result is a [size_t]; the second part is what [buf] points to. *)
Definition send_readlink (path : cstr) (buf : list byte) (bufsize : Z) : M (Z * list byte) :=
  send_pack (field (field (field tt (cmd_field cmd_readlink)) path) (SizeT bufsize)) (-1) ;;
  ok ← bridge_receive;
  if negb ok then mret (u64 (-1), buf) else
  rc ← get_rcvr;
  let unpacker := field (field (field tt (UInt 0)) (Int 0)) (FixedBuf buf (s32 bufsize)) in
  done ← lift (check_completed unpacker (data rc) 0 (data_bytes rc));
  sassert done "unpacker.check_completed()" ;;
  r ← lift (unpack unpacker (data rc) 0 (data_bytes rc));
  let '(_, payload_sz, retv, fbuf) := r in
  n ← lift (up_get_size unpacker (data rc) 0 (data_bytes rc));
  sassert (u32 n =? u32 (data_bytes rc))
    "(unsigned int)unpacker.get_size() == (unsigned int)rcvr->get_data_bytes()" ;;
  sassert (uint_val payload_sz + sizeof_int =? u32 (data_bytes rc))
    "payload_sz + sizeof(unsigned int) == (unsigned int)rcvr->get_data_bytes()" ;;
  mret (u64 (int_val retv), fb_buf fbuf).

Definition send_unlink (path : cstr) : M Z :=
  send_pack (field (field tt (cmd_field cmd_unlink)) path) (-1) ;;
  receive_int_msg.

Definition send_vfork : M Z :=
  pid ← bridge_syscall NR_getpid [];
  send_pack (field (field tt (cmd_field cmd_vfork)) (Int (s32 pid))) (-1) ;;
  mret 0.

(** [act] and [oldact] as addresses, 0 for [nullptr]. *)
Definition send_rt_sigaction (signum act oldact sigsetsz : Z) : M Z :=
  if (signum =? SIGSYS) && negb (act =? 0) then mret 0
  else
    r ← bridge_syscall NR_rt_sigaction [signum; act; oldact; sigsetsz];
    mret (s32 r).
End Bridge.
