(* ===== verification/CmdCenter.v ===== *)
(** * The Command Center (loader/cmdcenter.cpp, cmdcenter.h)

    The process outside of the sandbox: it keeps the sockets of the scouts,
    serves their requests with its own system calls, and starts missions.  The
    kernel ([cc_os]) and the tracing tools ([tracer]: ptracetools.cpp and
    flightdeck.cpp) are interfaces. *)

From S2P Require Import Prelude TinyPack Message Bridge.

Inductive epoll_op := EPOLL_CTL_ADD | EPOLL_CTL_DEL.

(** One [epoll_event]: [data.fd] and the two event bits the code looks at. *)
Record epoll_event := EpollEvent { ev_fd : Z; ev_rdhup : bool; ev_in : bool }.
Inductive wait_result := WaitError (errno : Z) | WaitEvents (events : list epoll_event).
Definition EINTR : Z := 4.

(** The system calls that are done for the scouts: result and [errno]. *)
Class files (E : Type) := {
  os_close : Z → ST E Z;
  os_openat : Z → list byte → Z → Z → ST E (Z * Z);
  os_access : list byte → Z → ST E (Z * Z);
  os_fstat : Z → ST E (Z * Z * struct_stat);
  os_stat : list byte → ST E (Z * Z * struct_stat);
  os_lstat : list byte → ST E (Z * Z * struct_stat);
  (** The last part is the buffer of the given size after the call. *)
  os_readlink : list byte → Z → ST E (Z * Z * list byte);
  os_unlink : list byte → ST E (Z * Z);
}.

Class cc_os (E : Type) := {
  cc_sockets :: sockets E;
  cc_files :: files E;
  epoll_create1 : ST E Z;
  epoll_ctl : Z → epoll_op → Z → ST E Z;
  epoll_wait : Z → ST E wait_result;
  os_send : Z → list byte → ST E Z;
}.

Class tracer (E : Type) := {
  ptrace_attach : Z → ST E Z;
  ptrace_setoptions : Z → Z → ST E Z;
  ptrace_cont : Z → ST E Z;
  ptrace_waittrap : Z → ST E Z;
  ptrace_stepi : Z → ST E Z;
  ptrace_detach : Z → ST E Z;
  scout_takeoff : Z → Z → ST E Z;
}.
Definition PTRACE_O_TRACEEXEC : Z := 0x10.
Definition PTRACE_EVENT_EXEC : Z := 4.

Definition CARRIER_SOCK : Z := 73.
Definition SCOUT_CONNECT_CMD : Z := 0x37fa.
Definition STOP_MSG_LOOP_CMD : Z := 0x37fb.

(** The members, and the global [sigchld_ignore] of cmdcenter.cpp. *)
Record cmdcenter := CmdCenter {
  stopping_message : bool;
  efd : Z;
  carrierfd : Z;
  scoutfds : list Z;
  sigchld_ignore : bool;
}.
Definition new_cmdcenter (fd : Z) : cmdcenter := CmdCenter false (-1) fd [] false.
Definition set_stopping v c := CmdCenter v (efd c) (carrierfd c) (scoutfds c) (sigchld_ignore c).
Definition set_efd v c := CmdCenter (stopping_message c) v (carrierfd c) (scoutfds c) (sigchld_ignore c).
Definition set_scoutfds v c := CmdCenter (stopping_message c) (efd c) (carrierfd c) v (sigchld_ignore c).
Definition set_sigchld_ignore v c := CmdCenter (stopping_message c) (efd c) (carrierfd c) (scoutfds c) v.

(** What a [char*] points to, read as a C string by a system call. *)
Definition c_str (s : cstr) : outcome (list byte) :=
  if bool_decide (NUL ∈ cmem s) then Ok (take (Z.to_nat (strlen (cmem s))) (cmem s))
  else Fault (Undefined "string without end").

Section CmdCenter.
Context {E : Type} `{Os : cc_os E} `{Tr : tracer E}.
Context (malloc : Z → list byte).
Definition M : Type → Type := ST (cmdcenter * E).

Definition getc {A} (f : cmdcenter → A) : M A := gets (fun s => f s.1).
Definition modc (f : cmdcenter → cmdcenter) : M unit := modify (fun s => (f s.1, s.2)).
Definition os {A} (m : ST E A) : M A := fun s =>
  match m s.2 with Ok (a, e) => Ok (a, (s.1, e)) | Fault f => Fault f end.

(** [if (r < 0) r = -errno;] *)
Definition neg_errno (r : Z * Z) : Z := if r.1 <? 0 then - r.2 else r.1.

Definition send_msg_packer {B} `{packer B} (sock : Z) (p : B) (fd1 fd2 : Z) : M Z :=
  reply ← lift (pack_size_prefix malloc p);
  n ← lift (get_size_prefix p);
  os (send_msg sock reply n fd1 fd2).

Definition init : M bool :=
  fd ← os epoll_create1;
  modc (set_efd fd) ;;
  if fd <? 0 then mret false else
  cfd ← getc carrierfd;
  r ← os (epoll_ctl fd EPOLL_CTL_ADD cfd);
  mret (negb (r <? 0)).

Definition add_scout (scoutfd : Z) : M bool :=
  fds ← getc scoutfds;
  sassert (bool_decide (scoutfd ∉ fds))
    "find(scoutfds.begin(), scoutfds.end(), scoutfd) == scoutfds.end()" ;;
  modc (set_scoutfds (fds ++ [scoutfd])) ;;
  ep ← getc efd;
  r ← os (epoll_ctl ep EPOLL_CTL_ADD scoutfd);
  mret (negb (r <? 0)).

(** [scoutfds.remove_if(...)]: the predicate is called on each element in
    order; it captures [success] and gives its value. *)
Fixpoint remove_if (scoutfd : Z) (success : bool) (l : list Z) : M (bool * list Z) :=
  match l with
  | [] => mret (success, [])
  | v :: l =>
      success ← (if v =? scoutfd then
                   ep ← getc efd;
                   os (epoll_ctl ep EPOLL_CTL_DEL scoutfd) ;;
                   os (os_close scoutfd) ;;
                   mret true
                 else mret success);
      r ← remove_if scoutfd success l;
      mret (r.1, if (success : bool) then r.2 else v :: r.2)
  end.
Definition remove_scout (scoutfd : Z) : M bool :=
  fds ← getc scoutfds;
  r ← remove_if scoutfd false fds;
  modc (set_scoutfds r.2) ;;
  mret r.1.

Definition stop_msg_loop : M unit :=
  os (os_send CARRIER_SOCK (le_bytes 4 STOP_MSG_LOOP_CMD)) ;; mret tt.

Definition handle_exec (pid sock : Z) : M bool :=
  r ← os (ptrace_attach pid);
  if r <? 0 then mret false else
  os (ptrace_setoptions pid PTRACE_O_TRACEEXEC) ;;
  os (ptrace_cont pid) ;;
  r ← send_msg_packer sock (field tt (Int 1)) (-1) (-1);
  if r <? 0 then mret false else
  evt ← os (ptrace_waittrap pid);
  if evt <? 0 then mret false else
  ok ← (if evt =? PTRACE_EVENT_EXEC then
          r ← os (ptrace_stepi pid);
          if r <? 0 then mret false else
          r ← os (scout_takeoff pid FLAG_FILTER_INSTALLED);
          mret (negb (r <? 0))
        else sassert (evt =? 0) "evt == 0" ;; mret true);
  if negb ok then mret false else
  r ← os (ptrace_setoptions pid 0);
  if r <? 0 then mret false else
  modc (set_sigchld_ignore false) ;;
  r ← os (ptrace_detach pid);
  mret (negb (r <? 0)).

(** A local [msg_receiver] that receives one message. *)
Definition receive_message (fd : Z) : M (bool * msg_receiver) := fun s =>
  match receive_one (new_msg_receiver fd, s.2) with
  | Ok (ok, (rc, e)) => Ok ((ok, rc), (s.1, e))
  | Fault f => Fault f
  end.

Definition handle_carrier_msg : M bool :=
  cfd ← getc carrierfd;
  r ← receive_message cfd;
  if negb r.1 then mret false else
  let rc := r.2 in
  sassert (data_bytes rc =? sizeof_int) "rcvr->get_data_bytes() == sizeof(int)" ;;
  cmd ← lift (int_at (data rc) 0);
  if cmd =? SCOUT_CONNECT_CMD then
    sassert (fd_rcvd_num rc =? 1) "rcvr->get_fd_rcvd_num() == 1" ;;
    match head (fd_rcvd rc) with
    | Some sock => add_scout sock ;; mret true
    | None => lift (Fault (Undefined "read outside fd_rcvd"))
    end
  else if cmd =? STOP_MSG_LOOP_CMD then modc (set_stopping true) ;; mret true
  else mret true.

(** The variables of a request, unpacked from the bytes between [ptr] and
    [data_end]. *)
Definition request {B} `{unpacker B} (target : B) (rc : msg_receiver) (ptr data_end : Z) : M B :=
  ok ← lift (check_completed target (data rc) ptr (u32 (data_end - ptr)));
  sassert ok "unpacker.check_completed()" ;;
  lift (unpack target (data rc) ptr (u32 (data_end - ptr))).

(** [rcvr->get_fd_rcvd()[0]] *)
Definition received_fd (rc : msg_receiver) : M Z :=
  match head (fd_rcvd rc) with
  | Some fd => mret fd
  | None => lift (Fault (Undefined "read outside fd_rcvd"))
  end.

(** [_E(send_msg_packer, sock, packer); ...; break;]: false on an error. *)
Definition reply {B} `{packer B} (sock : Z) (p : B) : M bool :=
  r ← send_msg_packer sock p (-1) (-1); mret (negb (r <? 0)).

(** The cases of [handle_scout_msg], each with its packed arguments. *)
Definition handle_openat (sock : Z) (rc : msg_receiver) (ptr data_end : Z) : M bool :=
  v ← request (field (field (field (field tt (Int 0)) (CStr [])) (Int 0)) (UInt 0)) rc ptr data_end;
  let '(_, dirfd, path, flags, mode) := v in
  sassert ((fd_rcvd_num rc =? 1) || (int_val dirfd <? 0))
    "rcvr->get_fd_rcvd_num() == 1 || dirfd < 0" ;;
  dirfd ← (if 0 <=? int_val dirfd then received_fd rc else mret (int_val dirfd));
  path ← lift (c_str path);
  r ← os (os_openat dirfd path (int_val flags) (uint_val mode));
  let fd := neg_errno r in
  (if 0 <=? dirfd then os (os_close dirfd) ;; mret tt else mret tt) ;;
  r ← send_msg_packer sock (field tt (Int fd)) fd (-1);
  os (os_close fd) ;;
  mret (negb (r <? 0)).

Definition handle_access (sock : Z) (rc : msg_receiver) (ptr data_end : Z) : M bool :=
  v ← request (field (field tt (CStr [])) (Int 0)) rc ptr data_end;
  let '(_, path, mode) := v in
  path ← lift (c_str path);
  r ← os (os_access path (int_val mode));
  send_msg_packer sock (field tt (Int (neg_errno r))) (-1) (-1) ;;
  mret true.

(** A [sleep(300)] before the assertion fails is not modelled. *)
Definition handle_fstat (sock : Z) (rc : msg_receiver) (ptr data_end : Z) : M bool :=
  v ← request (field tt (Int 0)) rc ptr data_end;
  let fd := int_val v.2 in
  sassert ((fd <? 0) || (fd_rcvd_num rc =? 1)) "rcvr->get_fd_rcvd_num() == 1" ;;
  fd ← (if 0 <=? fd then received_fd rc else mret fd);
  r ← os (os_fstat fd);
  (if 0 <=? fd then os (os_close fd) ;; mret tt else mret tt) ;;
  reply sock (field (field tt (Int (neg_errno r.1))) r.2).

Definition handle_stat (sock : Z) (rc : msg_receiver) (ptr data_end : Z) : M bool :=
  v ← request (field tt (CStr [])) rc ptr data_end;
  path ← lift (c_str v.2);
  r ← os (os_stat path);
  reply sock (field (field tt (Int (neg_errno r.1))) r.2).

Definition handle_lstat (sock : Z) (rc : msg_receiver) (ptr data_end : Z) : M bool :=
  v ← request (field tt (CStr [])) rc ptr data_end;
  path ← lift (c_str v.2);
  r ← os (os_lstat path);
  reply sock (field (field tt (Int (neg_errno r.1))) r.2).

Definition handle_execve (sock : Z) (rc : msg_receiver) (ptr data_end : Z) : M bool :=
  v ← request (field (field tt (Int 0)) (CStr [])) rc ptr data_end;
  let '(_, pid, path) := v in
  modc (set_sigchld_ignore true) ;;
  ok ← handle_exec (int_val pid) sock;
  modc (set_sigchld_ignore false) ;;
  mret ok.

Definition handle_readlink (sock : Z) (rc : msg_receiver) (ptr data_end : Z) : M bool :=
  v ← request (field (field tt (CStr [])) (SizeT 0)) rc ptr data_end;
  let '(_, path, bufsize) := v in
  path ← lift (c_str path);
  r ← os (os_readlink path (size_t_val bufsize));
  let retv := neg_errno (s32 r.1.1, r.1.2) in
  reply sock (field (field tt (Int retv)) (FixedBuf r.2 (s32 (size_t_val bufsize)))).

Definition handle_unlink (sock : Z) (rc : msg_receiver) (ptr data_end : Z) : M bool :=
  v ← request (field tt (CStr [])) rc ptr data_end;
  path ← lift (c_str v.2);
  r ← os (os_unlink path);
  reply sock (field tt (Int (neg_errno r))).

(** [switch (cmd)]. *)
Definition scout_request (cmd sock : Z) (rc : msg_receiver) (ptr data_end : Z) : M bool :=
  match cmd with
  | 1 (* cmd_hello *) =>
      sassert (ptr =? data_end) "ptr == data_end" ;;
      sassert (fd_rcvd_num rc =? 0) "rcvr->get_fd_rcvd_num() == 0" ;;
      mret true
  | 3 (* cmd_openat *) => handle_openat sock rc ptr data_end
  | 4 (* cmd_access *) => handle_access sock rc ptr data_end
  | 5 (* cmd_fstat *) => handle_fstat sock rc ptr data_end
  | 6 (* cmd_stat *) => handle_stat sock rc ptr data_end
  | 7 (* cmd_lstat *) => handle_lstat sock rc ptr data_end
  | 8 (* cmd_execve *) => handle_execve sock rc ptr data_end
  | 9 (* cmd_readlink *) => handle_readlink sock rc ptr data_end
  | 10 (* cmd_unlink *) => handle_unlink sock rc ptr data_end
  | _ => mret false
  end.

Definition handle_scout_msg (sock : Z) : M bool :=
  r ← receive_message sock;
  if negb r.1 then mret false else
  let rc := r.2 in
  payload_bytes ← lift (int_at (data rc) 0);
  sassert (u32 (data_bytes rc) =? u64 (payload_bytes + sizeof_int))
    "(unsigned)rcvr->get_data_bytes() == (payload_bytes + sizeof(int))" ;;
  cmd ← lift (int_at (data rc) 4);
  scout_request cmd sock rc 8 (4 + payload_bytes).

Fixpoint handle_events (events : list epoll_event) : M bool :=
  match events with
  | [] => mret true
  | ev :: events =>
      if ev_rdhup ev then remove_scout (ev_fd ev) ;; handle_events events
      else if ev_in ev then
        cfd ← getc carrierfd;
        if ev_fd ev =? cfd then
          r ← handle_carrier_msg;
          if negb r then mret r else handle_events events
        else handle_scout_msg (ev_fd ev) ;; handle_events events
      else handle_events events
  end.

(** [retry_intr:] at most [n] interrupted waits in a row. *)
Fixpoint handle_message (n : nat) : M bool :=
  match n with
  | O => lift (Fault (Undefined "out of fuel"))
  | S n =>
      ep ← getc efd;
      r ← os (epoll_wait ep);
      match r with
      | WaitError errno =>
          if errno =? EINTR then
            stop ← getc stopping_message;
            if (stop : bool) then mret false else handle_message n
          else mret false
      | WaitEvents events => handle_events events
      end
  end.

Fixpoint handle_messages (n : nat) : M unit :=
  match n with
  | O => lift (Fault (Undefined "out of fuel"))
  | S n' =>
      stop ← getc stopping_message;
      more ← (if (stop : bool) then mret false else handle_message n);
      if (more : bool) then handle_messages n' else modc (set_stopping false)
  end.

(** [cmdcenter(fd)] and its destructor. *)
Definition destroy : M unit :=
  fds ← getc scoutfds;
  ep ← getc efd;
  (fix closes (l : list Z) : M unit :=
     match l with [] => mret tt | fd :: l => os (os_close fd) ;; closes l end) fds ;;
  os (os_close ep) ;; mret tt.
End CmdCenter.
