(* ===== verification/Rpc.v ===== *)
(** * Requests from end to end

    The bridge and the Command Center joined by a socket pair: [world] holds
    the messages that are under way in both directions, and the state of the
    kernel's files.  When the bridge waits for a reply, the Command Center
    handles the request that is under way; when there is none, the bridge
    waits for ever. *)

From S2P Require Import Prelude TinyPack Message Bridge CmdCenter.

(** Descriptors that travel in a message are duplicated into the receiver. *)
Class passing (F : Type) := {
  dup_to_center : Z → ST F Z;
  dup_to_scout : Z → ST F Z;
}.

Record world (F : Type) := World {
  to_center : list (list byte * list Z);
  to_scout : list (list byte * list Z);
  fsys : F;
}.
Arguments World {F}. Arguments to_center {F}. Arguments to_scout {F}. Arguments fsys {F}.

Section World.
Context {F : Type} `{Fi : files F} `{Pa : passing F} `{Tr : tracer (world F)}.
Context (malloc : Z → list byte).

(** The kernel refuses a control message with an int that is no descriptor. *)
Fixpoint pass_fds (dup : Z → ST F Z) (ints : list (option Z)) : ST F (option (list Z)) :=
  match ints with
  | [] => mret (Some [])
  | None :: _ => mret None
  | Some fd :: ints =>
      if fd <? 0 then mret None else
      fd' ← dup fd;
      rest ← pass_fds dup ints;
      mret (cons fd' <$> rest)
  end.

Definition in_files {A} (m : ST F A) : ST (world F) A := fun w =>
  match m (fsys w) with
  | Ok (a, f) => Ok (a, World (to_center w) (to_scout w) f)
  | Fault e => Fault e
  end.

Definition push_center m (w : world F) := World (to_center w ++ [m]) (to_scout w) (fsys w).
Definition push_scout m (w : world F) := World (to_center w) (to_scout w ++ [m]) (fsys w).

(** What [recvmsg] gives for a datagram, with room for [size] bytes. *)
Definition datagram (size : Z) (m : list byte * list Z) : recvmsg_result :=
  RecvMsg (take (Z.to_nat size) m.1) (size <? Z.of_nat (length m.1)) m.2.

#[export] Instance center_sockets : sockets (world F) := {
  sendmsg _ bytes ints :=
    fds ← in_files (pass_fds dup_to_scout ints);
    match fds with
    | Some fds => modify (push_scout (bytes, fds)) ;; mret (Z.of_nat (length bytes))
    | None => mret (-1)
    end;
  recvmsg _ size _ := fun w =>
    match to_center w with
    | [] => Fault (Blocked "the Command Center waits for a request")
    | m :: ms => Ok (datagram size m, World ms (to_scout w) (fsys w))
    end;
}.

#[export] Instance center_files : files (world F) := {
  os_close fd := in_files (os_close fd);
  os_openat d p f m := in_files (os_openat d p f m);
  os_access p m := in_files (os_access p m);
  os_fstat fd := in_files (os_fstat fd);
  os_stat p := in_files (os_stat p);
  os_lstat p := in_files (os_lstat p);
  os_readlink p n := in_files (os_readlink p n);
  os_unlink p := in_files (os_unlink p);
}.

(** The event loop is not used here: one scout, served when it waits. *)
#[export] Instance center_os : cc_os (world F) := {
  epoll_create1 := mret 3;
  epoll_ctl _ _ _ := mret 0;
  epoll_wait _ := mret (WaitEvents []);
  os_send _ bytes := mret (Z.of_nat (length bytes));
}.

Abbreviation scout_env := (cmdcenter * world F)%type.

Definition serve : ST scout_env unit := fun '(c, w) =>
  match to_scout w, to_center w with
  | [], _ :: _ => match handle_scout_msg malloc 75 (c, w) with
                  | Ok (_, s) => Ok (tt, s)
                  | Fault e => Fault e
                  end
  | _, _ => Ok (tt, (c, w))
  end.

#[export] Instance scout_sockets : sockets scout_env := {
  sendmsg _ bytes ints := fun '(c, w) =>
    match in_files (pass_fds dup_to_center ints) w with
    | Ok (Some fds, w) => Ok (Z.of_nat (length bytes), (c, push_center (bytes, fds) w))
    | Ok (None, w) => Ok (-1, (c, w))
    | Fault e => Fault e
    end;
  recvmsg _ size _ := fun s =>
    match serve s with
    | Ok (_, (c, w)) =>
        match to_scout w with
        | [] => Fault (Blocked "the bridge waits for a reply")
        | m :: ms => Ok (datagram size m, (c, World (to_center w) ms (fsys w)))
        end
    | Fault e => Fault e
    end;
}.
End World.

(** ** The steps of a request *)
Section Steps.
Context {F : Type} `{Fi : files F} `{Pa : passing F} `{Tr : tracer (world F)}.
Context (malloc : Z → list byte).
Hypothesis malloc_length : ∀ n, 0 ≤ n → Z.of_nat (length (malloc n)) = n.
Abbreviation env := (cmdcenter * world F)%type.
#[local] Existing Instances center_sockets center_files center_os.
#[local] Instance net : sockets env := scout_sockets malloc.

(** A chain as the bytes of a message. *)
Definition message {B} `{chain_codec B} (b : B) : list byte :=
  le_bytes 4 (Z.of_nat (length (b_wire b))) ++ b_wire b.
Lemma length_message {B} `{chain_codec B} (b : B) :
  length (message b) = (4 + length (b_wire b))%nat.
Proof. unfold message. rewrite length_app, length_le_bytes. done. Qed.

Section Chain.
Context {B : Type} `{Cc : chain_codec B} (b : B).
Hypothesis Hok : b_ok b.
Hypothesis Hlen : Z.of_nat (length (b_wire b)) + 4 < 2 ^ 31.

Lemma send_pack_step br (e : env) fd ints :
  control_data fd (-1) = Ok ints →
  send_pack malloc b fd (br, e) =
  match sendmsg (sock br) (message b) ints e with
  | Ok (_, e) => Ok (tt, (br, e)) | Fault f => Fault f end.
Proof.
  intros Hc. unfold send_pack. rewrite (pack_size_prefix_spec malloc malloc_length b) by (done || lia). ostep.
  rewrite (get_size_prefix_spec b) by done. ostep. fold (message b).
  rewrite (send_msg_ints _ _ _ _ _ ints); [done| |done]. rewrite length_message. lia.
Qed.

Lemma send_pack_nofd br c (w : world F) fd :
  fd < 0 →
  send_pack malloc b fd (br, (c, w)) = Ok (tt, (br, (c, push_center (message b, []) w))).
Proof.
  intros Hfd. rewrite (send_pack_step _ _ _ []) by (by apply control_data_neg).
  destruct w. done.
Qed.

Lemma send_pack_fd br c (w : world F) fd fd' f' :
  0 < fd → dup_to_center fd (fsys w) = Ok (fd', f') →
  send_pack malloc b fd (br, (c, w)) =
  Ok (tt, (br, (c, push_center (message b, [fd']) (World (to_center w) (to_scout w) f')))).
Proof.
  intros Hfd Hd. rewrite (send_pack_step _ _ _ [Some fd]) by (by apply control_data_one).
  cbn [sendmsg net scout_sockets]. unfold in_files. cbn [pass_fds].
  destruct (Z.ltb_spec fd 0); [lia|]. mstep. rewrite Hd. done.
Qed.

(** Descriptor 0 is replaced by -1, which the kernel refuses. *)
Lemma send_pack_fd0 br c (w : world F) :
  send_pack malloc b 0 (br, (c, w)) = Ok (tt, (br, (c, w))).
Proof. rewrite (send_pack_step _ _ _ [Some (-1)]) by done. by destruct w. Qed.

Lemma send_msg_packer_step sk c (w : world F) fd ints :
  control_data fd (-1) = Ok ints →
  send_msg_packer malloc sk b fd (-1) (c, w) =
  match sendmsg sk (message b) ints w with
  | Ok (r, w) => Ok (r, (c, w)) | Fault f => Fault f end.
Proof.
  intros Hc. unfold send_msg_packer. rewrite (pack_size_prefix_spec malloc malloc_length b) by (done || lia). mstep.
  rewrite (get_size_prefix_spec b) by done. mstep. fold (message b). unfold os. cbn [fst snd].
  rewrite (send_msg_ints _ _ _ _ _ ints); [done| |done]. rewrite length_message. lia.
Qed.
Lemma send_msg_packer_nofd sk c (w : world F) fd :
  fd < 0 →
  send_msg_packer malloc sk b fd (-1) (c, w) =
  Ok (Z.of_nat (length (message b)), (c, push_scout (message b, []) w)).
Proof.
  intros Hfd. rewrite (send_msg_packer_step _ _ _ _ []) by (by apply control_data_neg).
  destruct w. done.
Qed.
Lemma send_msg_packer_fd sk c (w : world F) fd fd' f' :
  0 < fd → dup_to_scout fd (fsys w) = Ok (fd', f') →
  send_msg_packer malloc sk b fd (-1) (c, w) =
  Ok (Z.of_nat (length (message b)),
      (c, push_scout (message b, [fd']) (World (to_center w) (to_scout w) f'))).
Proof.
  intros Hfd Hd. rewrite (send_msg_packer_step _ _ _ _ [Some fd]) by (by apply control_data_one).
  cbn [sendmsg center_sockets]. unfold in_files. mstep. cbn [pass_fds].
  destruct (Z.ltb_spec fd 0); [lia|]. mstep. rewrite Hd. done.
Qed.
Lemma reply_step sk c (w : world F) :
  reply malloc sk b (c, w) = Ok (true, (c, push_scout (message b, []) w)).
Proof.
  unfold reply. mstep. rewrite send_msg_packer_nofd by lia.
  destruct (Z.ltb_spec (Z.of_nat (length (message b))) 0); [lia|]. done.
Qed.

Lemma request_step (target : B) rc pre p (s : env) :
  b_dst target b → data rc = pre ++ b_wire b → p = Z.of_nat (length pre) →
  request target rc p (p + Z.of_nat (length (b_wire b))) s = Ok (b, s).
Proof.
  intros Hd Hrc ->. unfold request. rewrite Hrc.
  replace (u32 _) with (Z.of_nat (length (b_wire b))) by (rewrite u32_small; lia).
  pose proof (check_completed_wire target b pre [] (Z.of_nat (length (b_wire b)))) as Hcc.
  rewrite app_nil_r in Hcc. rewrite Hcc by (done || lia). mstep. mstep.
  unfold unpack. pose proof (b_read_law target b pre [] (Z.of_nat (length (b_wire b)))) as Hr.
  rewrite app_nil_r in Hr. rewrite Hr by (done || lia). done.
Qed.
End Chain.

Lemma datagram_fits m :
  Z.of_nat (length m.1) ≤ data_buf_size → datagram data_buf_size m = RecvMsg m.1 false m.2.
Proof.
  intros H. unfold datagram. destruct (Z.ltb_spec data_buf_size (Z.of_nat (length m.1))); [lia|].
  by rewrite firstn_all2 by lia.
Qed.

Lemma int_at_front x rest :
  - 2 ^ 31 ≤ x < 2 ^ 31 → int_at (le_bytes 4 x ++ rest) 0 = Ok x.
Proof.
  intros Hx. unfold int_at. pose proof (read_at_app [] (le_bytes 4 x) rest) as Hr.
  rewrite length_le_bytes in Hr. cbn [app] in Hr.
  change (Z.of_nat (length [])) with 0 in Hr. change (Z.of_nat 4) with 4 in Hr. rewrite Hr. ostep. unfold compose.
  rewrite le_Z_le_bytes. change (256 ^ Z.of_nat 4) with (2 ^ 32). fold (u32 x).
  by rewrite s32_u32, s32_small.
Qed.
Lemma int_at_second x y rest :
  - 2 ^ 31 ≤ y < 2 ^ 31 → int_at (le_bytes 4 x ++ le_bytes 4 y ++ rest) 4 = Ok y.
Proof.
  intros Hy. unfold int_at. pose proof (read_at_app (le_bytes 4 x) (le_bytes 4 y) rest) as Hr.
  rewrite !length_le_bytes in Hr. change (Z.of_nat 4) with 4 in Hr. rewrite Hr. ostep. unfold compose.
  rewrite le_Z_le_bytes. change (256 ^ Z.of_nat 4) with (2 ^ 32). fold (u32 y).
  by rewrite s32_u32, s32_small.
Qed.

(** The Command Center receives a request and looks at its command. *)
Lemma handle_scout_msg_step {B} `{Cc : chain_codec B} (b : B) sk c (w : world F) cmd rest fds ms :
  to_center w = (message b, fds) :: ms → b_wire b = le_bytes 4 cmd ++ rest →
  - 2 ^ 31 ≤ cmd < 2 ^ 31 → 8 + Z.of_nat (length rest) ≤ data_buf_size → (length fds ≤ 2)%nat →
  handle_scout_msg malloc sk (c, w) =
  scout_request malloc cmd sk (received (new_msg_receiver sk) (message b) fds) 8
    (8 + Z.of_nat (length rest)) (c, World ms (to_scout w) (fsys w)).
Proof.
  intros Hq Hw Hcmd Hl Hf. unfold handle_scout_msg.
  assert (length (b_wire b) = (4 + length rest)%nat) as Hn
    by (rewrite Hw, length_app, length_le_bytes; done).
  pose proof (length_message b) as Hm. rewrite Hn in Hm. change data_buf_size with 8192 in Hl.
  mstep. unfold receive_message. cbn [fst snd].
  rewrite (receive_one_eq (new_msg_receiver sk) w (World ms (to_scout w) (fsys w)) (message b) fds).
  - cbn [negb fst snd].
    assert (data (received (new_msg_receiver sk) (message b) fds) =
            le_bytes 4 (4 + Z.of_nat (length rest)) ++ le_bytes 4 cmd ++ rest) as Hd.
    { destruct fds; cbn; unfold message; rewrite Hn, Hw; do 2 f_equal; lia. }
    assert (data_bytes (received (new_msg_receiver sk) (message b) fds) =
            8 + Z.of_nat (length rest)) as Hb by (destruct fds; cbn [received data_bytes]; lia).
    rewrite Hd, Hb, int_at_front by lia. mstep.
    unfold sizeof_int. rewrite u32_small, u64_small by lia.
    replace (8 + Z.of_nat (length rest) =? 4 + Z.of_nat (length rest) + 4) with true by lia.
    mstep. rewrite int_at_second by done. mstep. f_equal. lia.
  - cbn [recvmsg center_sockets cc_sockets center_os rc_fd new_msg_receiver]. rewrite Hq.
    rewrite datagram_fits; [done|]. cbn [fst]. change data_buf_size with 8192. lia.
  - unfold sizeof_int. lia.
  - change fd_rcvd_size with 2. lia.
  - done.
Qed.

(** The bridge waits until the Command Center has handled its request. *)
Lemma bridge_receive_step br c (w : world F) m ok c' (w' : world F) rep fds :
  to_scout w = [] → to_center w = [m] →
  handle_scout_msg malloc 75 (c, w) = Ok (ok, (c', w')) → to_scout w' = [(rep, fds)] →
  sizeof_int ≤ Z.of_nat (length rep) ≤ data_buf_size → (length fds ≤ 2)%nat →
  length (fd_rcvd (rcvr br)) = 2%nat →
  bridge_receive (br, (c, w)) =
  Ok (true, (Bridge (sock br) (received (rcvr br) rep fds), (c', World (to_center w') [] (fsys w')))).
Proof.
  intros Hs Hq Hh Hs' Hl Hf Hn. unfold bridge_receive.
  rewrite (receive_one_eq _ _ (c', World (to_center w') [] (fsys w')) rep fds); [done| | | |].
  - cbn [recvmsg net scout_sockets]. unfold serve. rewrite Hs, Hq, Hh, Hs'.
    rewrite datagram_fits; [done|]. cbn [fst]. lia.
  - lia.
  - change fd_rcvd_size with 2. lia.
  - done.
Qed.

(** No request is under way: the bridge waits for ever. *)
Lemma bridge_receive_blocked br c (w : world F) :
  to_scout w = [] → to_center w = [] →
  bridge_receive (br, (c, w)) = Fault (Blocked "the bridge waits for a reply").
Proof.
  intros Hs Hq. unfold bridge_receive, receive_one. cbn [recvmsg net scout_sockets].
  unfold serve. by rewrite Hs, Hq, Hs.
Qed.

(** *** Paths and replies *)
Definition path_of (s : list byte) : cstr := CStr (s ++ [NUL]).
Definition path_ok (s : list byte) : Prop := (NUL ∉ s) ∧ Z.of_nat (length s) ≤ 8000.

Lemma path_codec s : path_ok s → v_ok (path_of s).
Proof.
  intros [Hn Hl]. split; cbn [cmem path_of]; [by exists s|]. rewrite length_app. cbn [length]. lia.
Qed.
Lemma c_str_path s : path_ok s → c_str (path_of s) = Ok s.
Proof.
  intros [Hn Hl]. unfold c_str. cbn [cmem path_of]. rewrite bool_decide_true by set_solver.
  by rewrite strlen_app, Nat2Z.id, take_app_length.
Qed.
Lemma length_path s : Z.of_nat (length (v_wire (path_of s))) = Z.of_nat (length s) + 5.
Proof. cbn [v_wire cstr_codec path_of cmem]. rewrite !length_app, length_le_bytes. cbn [length]. lia. Qed.

Definition int_ok (z : Z) : Prop := - 2 ^ 31 ≤ z < 2 ^ 31.
Lemma int_wire_8 z : Z.of_nat (length (v_wire (Int z))) ≤ 8.
Proof. cbn [v_wire pod_codec to_rep int_pod]. rewrite length_le_bytes. lia. Qed.
Lemma size_t_wire_8 z : Z.of_nat (length (v_wire (SizeT z))) ≤ 8.
Proof. cbn [v_wire pod_codec to_rep size_t_pod]. rewrite length_le_bytes. lia. Qed.
Lemma v_ok_int z : int_ok z → v_ok (Int z).
Proof. done. Qed.

(** [receive_int_msg] and the two ways in which [send_access] and
    [send_openat] read the same reply. *)
Lemma message_int r : message (field tt (Int r)) = le_bytes 4 4 ++ le_bytes 4 r.
Proof. unfold message, field. cbn [b_wire field_chain unit_chain v_wire pod_codec to_rep int_pod
  int_val fst snd]. by rewrite app_nil_l, length_le_bytes. Qed.

Lemma length_message_int r : length (message (field tt (Int r))) = 8%nat.
Proof. by rewrite message_int, length_app, !length_le_bytes. Qed.
Lemma length_int_wire r : length (b_wire (field tt (Int r))) = 4%nat.
Proof. pose proof (length_message_int r) as H. rewrite length_message in H. lia. Qed.
Lemma message_int_at r : int_at (message (field tt (Int r))) 0 = Ok 4.
Proof. rewrite message_int. by apply int_at_front. Qed.
Lemma message_int_at4 r : int_ok r → int_at (message (field tt (Int r))) 4 = Ok r.
Proof.
  intros Hr. rewrite message_int, <-(app_nil_r (le_bytes 4 r)). by apply int_at_second.
Qed.

Lemma int_reply_unpack r :
  int_ok r →
  check_completed (field tt (Int 0)) (message (field tt (Int r))) 4 4 = Ok true ∧
  unpack (field tt (Int 0)) (message (field tt (Int r))) 4 4 = Ok (field tt (Int r)).
Proof.
  intros Hr. assert (b_ok (field tt (Int r))) as Hok by (split; done).
  assert (length (b_wire (field tt (Int r))) = 4%nat) as Hl
    by (cbn [b_wire field_chain unit_chain v_wire pod_codec to_rep int_pod fst snd field];
        by rewrite app_nil_l, length_le_bytes).
  pose proof (check_completed_wire (field tt (Int 0)) (field tt (Int r)) (le_bytes 4 4) [] 4
    Hok ltac:(split; done) ltac:(lia) ltac:(lia)) as H1.
  pose proof (b_read_law (field tt (Int 0)) (field tt (Int r)) (le_bytes 4 4) [] 4
    Hok ltac:(split; done) ltac:(lia) ltac:(lia)) as H2.
  unfold message. rewrite Hl, app_nil_r in *. done.
Qed.

(** A reply of a result and one more value, as the bridge unpacks it. *)
Section PairReply.
Context {T : Type} `{Vc : value_codec T} (r : Z) (v d : T).
Hypothesis Hr : int_ok r.
Hypothesis Hv : v_ok v.
Hypothesis Hd : v_dst d v.
Hypothesis Hlen : Z.of_nat (length (v_wire v)) ≤ 8184.
Let rep := field (field tt (Int r)) v.
Let n := 4 + Z.of_nat (length (v_wire v)).
Let unp := field (field (field tt (UInt n)) (Int r)) v.
Let target := field (field (field tt (UInt 0)) (Int 0)) d.

Lemma pair_reply_ok : b_ok rep.
Proof. repeat split; try apply Hr; done. Qed.
Lemma pair_message : message rep = b_wire unp.
Proof.
  unfold message, rep, unp, field. cbn [b_wire field_chain unit_chain v_wire pod_codec to_rep
    int_pod uint_pod int_val uint_val fst snd]. rewrite !app_nil_l, length_app, length_le_bytes.
  rewrite <-app_assoc. do 2 f_equal. lia.
Qed.
Lemma length_pair_message : Z.of_nat (length (message rep)) = n + 4.
Proof.
  rewrite length_message. unfold rep, field. cbn [b_wire field_chain unit_chain v_wire pod_codec
    to_rep int_pod int_val fst snd]. rewrite app_nil_l, length_app, length_le_bytes. unfold n. lia.
Qed.
Lemma pair_unp_ok : b_ok unp ∧ b_dst target unp.
Proof.
  split; repeat split; try done; try apply Hr; 
    unfold unp, field, n; cbn [uint_val snd fst]; lia.
Qed.
Lemma pair_unpack :
  let data := message rep in
  let size := Z.of_nat (length data) in
  check_completed target data 0 size = Ok true ∧
  up_get_size target data 0 size = Ok size ∧
  unpack target data 0 size = Ok unp.
Proof.
  pose proof pair_unp_ok as [Ho Ht]. pose proof length_pair_message as Hl.
  cbv zeta. rewrite pair_message in *.
  assert (n + 4 < 2 ^ 31) by (subst n; lia).
  pose proof (check_completed_wire target unp [] [] (Z.of_nat (length (b_wire unp)))) as H1.
  pose proof (b_rsize_law target unp [] [] (Z.of_nat (length (b_wire unp)))) as H2.
  pose proof (b_read_law target unp [] [] (Z.of_nat (length (b_wire unp)))) as H3.
  rewrite app_nil_r in *. split_and!; [apply H1|apply H2|apply H3]; (done || lia).
Qed.
End PairReply.

(** [receive_struct_msg] after the Command Center's reply. *)
Lemma receive_struct_step {T} `{Vc : value_codec T} (r : Z) (v d : T) br (s : env) br' s' :
  int_ok r → v_ok v → v_dst d v → Z.of_nat (length (v_wire v)) ≤ 8184 →
  bridge_receive (br, s) = Ok (true, (br', s')) →
  data (rcvr br') = message (field (field tt (Int r)) v) →
  data_bytes (rcvr br') = Z.of_nat (length (message (field (field tt (Int r)) v))) →
  receive_struct_msg d (br, s) = Ok ((r, v), (br', s')).
Proof.
  intros Hr Hv Hd Hl Hrec Hdata Hbytes. unfold receive_struct_msg. mstep. rewrite Hrec. mstep.
  unfold get_rcvr. mstep. mstep. rewrite Hdata, Hbytes.
  destruct (pair_unpack r v d Hr Hv Hd Hl) as (H1 & H2 & H3). rewrite H1, H2, H3.
  do 4 mstep. rewrite Z.eqb_refl. mstep. unfold field. cbn [fst snd uint_val int_val].
  rewrite (length_pair_message r v). rewrite s32_small by (unfold sizeof_int; lia).
  rewrite Z.eqb_refl. done.
Qed.

(** *** A request and its reply *)
Definition br_ok (br : sandbox_bridge) : Prop := length (fd_rcvd (rcvr br)) = 2%nat.
Definition after (br : sandbox_bridge) (rep : list byte) (fds : list Z) : sandbox_bridge :=
  Bridge (sock br) (received (rcvr br) rep fds).

Lemma round_trip {B} `{Cc : chain_codec B} (b : B) br c f cmd rest fds ok c' f' rep fds' :
  b_wire b = le_bytes 4 cmd ++ rest → int_ok cmd →
  8 + Z.of_nat (length rest) ≤ data_buf_size → (length fds ≤ 2)%nat →
  sizeof_int ≤ Z.of_nat (length rep) ≤ data_buf_size → (length fds' ≤ 2)%nat → br_ok br →
  scout_request malloc cmd 75 (received (new_msg_receiver 75) (message b) fds) 8
    (8 + Z.of_nat (length rest)) (c, World [] [] f) = Ok (ok, (c', World [] [(rep, fds')] f')) →
  bridge_receive (br, (c, World [(message b, fds)] [] f)) =
  Ok (true, (after br rep fds', (c', World [] [] f'))).
Proof.
  intros Hw Hcmd Hl Hf Hrl Hf' Hbr Hh.
  rewrite (bridge_receive_step br c _ (message b, fds) ok c' (World [] [(rep, fds')] f') rep fds');
    [done|done|done| |done|done|done|done].
  by erewrite handle_scout_msg_step.
Qed.

(** The data of a received request, after the size and the command. *)
Lemma request_data {B} `{Cc : chain_codec B} (b : B) sk fds cmd rest :
  b_wire b = le_bytes 4 cmd ++ rest →
  data (received (new_msg_receiver sk) (message b) fds) =
  (le_bytes 4 (Z.of_nat (length (b_wire b))) ++ le_bytes 4 cmd) ++ rest.
Proof. intros Hw. rewrite <-app_assoc, <-Hw. by destruct fds. Qed.

Lemma request_args {B A} `{Cc : chain_codec B} `{Ca : chain_codec A} (b : B) (a target : A)
    sk fds cmd (s : env) :
  b_wire b = le_bytes 4 cmd ++ b_wire a → b_ok a → b_dst target a →
  8 + Z.of_nat (length (b_wire a)) ≤ data_buf_size →
  request target (received (new_msg_receiver sk) (message b) fds) 8
    (8 + Z.of_nat (length (b_wire a))) s = Ok (a, s).
Proof.
  intros Hw Ha Hd Hl. change data_buf_size with 8192 in Hl.
  eapply (request_step a Ha); [lia|done| |].
  - by apply request_data.
  - by rewrite length_app, !length_le_bytes.
Qed.

Lemma send_pack_world {B} `{Cc : chain_codec B} (b : B) br c f fd :
  b_ok b → Z.of_nat (length (b_wire b)) + 4 < 2 ^ 31 → fd < 0 →
  send_pack malloc b fd (br, (c, World [] [] f)) =
  Ok (tt, (br, (c, World [(message b, [])] [] f))).
Proof. intros Hb Hl Hfd. by rewrite (send_pack_nofd b Hb). Qed.

Lemma os_files {A} (m : ST F A) c f :
  os (in_files m) (c, World [] [] f) =
  match m f with Ok (a, f) => Ok (a, (c, World [] [] f)) | Fault e => Fault e end.
Proof. unfold os, in_files. cbn [fst snd fsys]. by destruct (m f) as [[??]|]. Qed.

Lemma answer_int sk c f r :
  int_ok r →
  send_msg_packer malloc sk (field tt (Int r)) (-1) (-1) (c, World [] [] f) =
  Ok (8, (c, World [] [(message (field tt (Int r)), [])] f)).
Proof.
  intros Hr. rewrite send_msg_packer_nofd; [|by split|rewrite length_int_wire; lia|lia].
  by rewrite length_message_int.
Qed.

(** The requests of one path, and of a path and one more value. *)
Section PathRequests.
Context (s : list byte) (br : sandbox_bridge) (c : cmdcenter) (f f' : F).
Hypothesis Hs : path_ok s.
Hypothesis Hbr : br_ok br.

Definition path_chain (cmd : scout_cmd) := field (field tt (cmd_field cmd)) (path_of s).
Lemma path_chain_facts cmd :
  let b := path_chain cmd in let a := field tt (path_of s) in
  b_ok b ∧ b_ok a ∧ b_wire b = le_bytes 4 (scout_cmd_Z cmd) ++ b_wire a ∧
  8 + Z.of_nat (length (b_wire a)) ≤ data_buf_size ∧
  Z.of_nat (length (b_wire b)) + 4 < 2 ^ 31 ∧ int_ok (scout_cmd_Z cmd).
Proof.
  intros b a. pose proof (path_codec s Hs) as Hp. pose proof (length_path s) as Hl.
  destruct Hs as [_ Hsl].
  assert (b_wire b = le_bytes 4 (scout_cmd_Z cmd) ++ b_wire a) as Hw by done.
  assert (Z.of_nat (length (b_wire a)) = Z.of_nat (length s) + 5) as Hla by exact Hl.
  split_and!; [split; [split; [done|]|done]|by split|done| | |].
  - by destruct cmd.
  - change data_buf_size with 8192. lia.
  - rewrite Hw, length_app, length_le_bytes. lia.
  - by destruct cmd.
Qed.

Section PathAndValue.
Context {T : Type} `{Vc : value_codec T} (v : T).
Hypothesis Hv : v_ok v.
Hypothesis Hvl : Z.of_nat (length (v_wire v)) ≤ 8.
Lemma path_value_facts cmd :
  let b := field (path_chain cmd) v in let a := field (field tt (path_of s)) v in
  b_ok b ∧ b_ok a ∧ b_wire b = le_bytes 4 (scout_cmd_Z cmd) ++ b_wire a ∧
  8 + Z.of_nat (length (b_wire a)) ≤ data_buf_size ∧
  Z.of_nat (length (b_wire b)) + 4 < 2 ^ 31 ∧ int_ok (scout_cmd_Z cmd).
Proof.
  intros b a. destruct (path_chain_facts cmd) as (Hb & Ha & Hw & Hl & Hl' & Hi).
  pose proof (length_path s) as Hlp. destruct Hs as [_ Hsl].
  assert (b_wire b = le_bytes 4 (scout_cmd_Z cmd) ++ b_wire a) as Hw'.
  { change (b_wire b) with (b_wire (path_chain cmd) ++ v_wire v).
    change (b_wire a) with (b_wire (field tt (path_of s)) ++ v_wire v).
    by rewrite Hw, <-app_assoc. }
  assert (Z.of_nat (length (b_wire a)) ≤ Z.of_nat (length s) + 13) as Hla.
  { change (b_wire a) with (([] ++ v_wire (path_of s)) ++ v_wire v). rewrite length_app, app_nil_l. lia. }
  split_and!; [by split|by split|done| | |done].
  - change data_buf_size with 8192. lia.
  - rewrite Hw', length_app, length_le_bytes. lia.
Qed.
End PathAndValue.

Lemma access_step mode r :
  int_ok mode → os_access s mode f = Ok (r, f') → int_ok (neg_errno r) →
  send_access malloc (path_of s) mode (br, (c, World [] [] f)) =
  Ok (neg_errno r, (after br (message (field tt (Int (neg_errno r)))) [], (c, World [] [] f'))).
Proof.
  intros Hm Ho Hr. unfold send_access.
  destruct (path_value_facts (Int mode) (v_ok_int _ Hm) (int_wire_8 _) cmd_access)
    as (Hb & Ha & Hw & Hl & Hl' & Hi).
  set (b := field (path_chain cmd_access) (Int mode)) in *.
  set (a := field (field tt (path_of s)) (Int mode)) in *.
  mstep. rewrite (send_pack_world b) by (done || lia). mstep.
  erewrite (round_trip b br c f 4 (b_wire a) [] true c f' (message (field tt (Int (neg_errno r)))) []);
    try (done || cbn [length]; lia).
  - cbn [negb]. unfold get_rcvr. mstep. mstep.
    cbn [after rcvr received data data_bytes]. rewrite length_message_int, message_int_at.
    do 3 mstep.
    destruct (int_reply_unpack (neg_errno r) Hr) as [H1 H2]. unfold sizeof_int.
    rewrite H1. mstep. mstep. rewrite H2. done.
  - cbn [scout_request]. unfold handle_access. mstep.
    rewrite (request_args b a _ _ _ 4 _ Hw) by done.
    unfold a, field. rewrite c_str_path by done. mstep. mstep.
    cbn [os_access center_files cc_files center_os int_val]. rewrite os_files, Ho. mstep.
    by rewrite answer_int.
Qed.

Lemma unlink_step r :
  os_unlink s f = Ok (r, f') → int_ok (neg_errno r) →
  send_unlink malloc (path_of s) (br, (c, World [] [] f)) =
  Ok (neg_errno r, (after br (message (field tt (Int (neg_errno r)))) [], (c, World [] [] f'))).
Proof.
  intros Ho Hr. unfold send_unlink.
  destruct (path_chain_facts cmd_unlink) as (Hb & Ha & Hw & Hl & Hl' & Hi).
  set (b := path_chain cmd_unlink) in *. set (a := field tt (path_of s)) in *.
  mstep. rewrite (send_pack_world b) by (done || lia). unfold receive_int_msg. mstep.
  erewrite (round_trip b br c f 10 (b_wire a) [] true c f' (message (field tt (Int (neg_errno r)))) []);
    try (done || cbn [length]; lia).
  - mstep. unfold get_rcvr. mstep. mstep.
    cbn [after rcvr received data data_bytes]. rewrite length_message_int, message_int_at.
    do 3 mstep. by rewrite message_int_at4.
  - cbn [scout_request]. unfold handle_unlink. mstep.
    rewrite (request_args b a _ _ _ 10 _ Hw) by done.
    unfold a, field. cbn [snd]. rewrite c_str_path by done. mstep. mstep.
    cbn [os_unlink center_files cc_files center_os int_val]. rewrite os_files, Ho. unfold reply.
    mstep. by rewrite answer_int.
Qed.

Lemma stat_wire st : v_ok st → length (v_wire (st : struct_stat)) = 144%nat.
Proof. done. Qed.

(** A reply of a result and a value, sent by [reply]. *)
Lemma answer_pair {T} `{Vc : value_codec T} sk r (v : T) g :
  int_ok r → v_ok v → Z.of_nat (length (v_wire v)) ≤ 8184 →
  reply malloc sk (field (field tt (Int r)) v) (c, World [] [] g) =
  Ok (true, (c, World [] [(message (field (field tt (Int r)) v), [])] g)).
Proof.
  intros Hr Hv Hl. rewrite reply_step; [done|by apply pair_reply_ok|].
  pose proof (length_pair_message r v) as Hlm. rewrite length_message in Hlm. lia.
Qed.

Lemma stat_step r st d :
  os_stat s f = Ok ((r, st), f') → int_ok (neg_errno r) → v_ok st →
  send_stat malloc (path_of s) d (br, (c, World [] [] f)) =
  Ok ((neg_errno r, st),
      (after br (message (field (field tt (Int (neg_errno r))) st)) [], (c, World [] [] f'))).
Proof.
  intros Ho Hr Hst. unfold send_stat.
  destruct (path_chain_facts cmd_stat) as (Hb & Ha & Hw & Hl & Hl' & Hi).
  set (b := path_chain cmd_stat) in *. set (a := field tt (path_of s)) in *.
  pose proof (stat_wire st Hst) as Hwl. pose proof (length_pair_message (neg_errno r) st) as Hlm.
  mstep. rewrite (send_pack_world b) by (done || lia).
  eapply receive_struct_step; [done|done|done|lia| |done|done].
  eapply (round_trip b br c f 6 (b_wire a) [] true c f'); try (done || cbn [length]; lia).
  { unfold sizeof_int. change data_buf_size with 8192. lia. }
  cbn [scout_request]. unfold handle_stat. mstep.
  rewrite (request_args b a _ _ _ 6 _ Hw) by done.
  unfold a, field. cbn [snd]. rewrite c_str_path by done. mstep. mstep.
  cbn [os_stat center_files cc_files center_os int_val]. rewrite os_files, Ho.
  apply answer_pair; [done|done|lia].
Qed.

Lemma lstat_step r st d :
  os_lstat s f = Ok ((r, st), f') → int_ok (neg_errno r) → v_ok st →
  send_lstat malloc (path_of s) d (br, (c, World [] [] f)) =
  Ok ((neg_errno r, st),
      (after br (message (field (field tt (Int (neg_errno r))) st)) [], (c, World [] [] f'))).
Proof.
  intros Ho Hr Hst. unfold send_lstat.
  destruct (path_chain_facts cmd_lstat) as (Hb & Ha & Hw & Hl & Hl' & Hi).
  set (b := path_chain cmd_lstat) in *. set (a := field tt (path_of s)) in *.
  pose proof (stat_wire st Hst) as Hwl. pose proof (length_pair_message (neg_errno r) st) as Hlm.
  mstep. rewrite (send_pack_world b) by (done || lia).
  eapply receive_struct_step; [done|done|done|lia| |done|done].
  eapply (round_trip b br c f 7 (b_wire a) [] true c f'); try (done || cbn [length]; lia).
  { unfold sizeof_int. change data_buf_size with 8192. lia. }
  cbn [scout_request]. unfold handle_lstat. mstep.
  rewrite (request_args b a _ _ _ 7 _ Hw) by done.
  unfold a, field. cbn [snd]. rewrite c_str_path by done. mstep. mstep.
  cbn [os_lstat center_files cc_files center_os int_val]. rewrite os_files, Ho.
  apply answer_pair; [done|done|lia].
Qed.

(** The reply is [bufsize] bytes and 12 more; a longer one than the
    receiver's block of 8192 bytes is cut off by the kernel. *)
Lemma readlink_step bufsize buf r link :
  0 ≤ bufsize ≤ 8180 → Z.of_nat (length buf) = bufsize → Z.of_nat (length link) = bufsize →
  os_readlink s bufsize f = Ok ((r, link), f') → int_ok r.1 → int_ok (neg_errno r) →
  send_readlink malloc (path_of s) buf bufsize (br, (c, World [] [] f)) =
  Ok ((u64 (neg_errno r), link),
      (after br (message (field (field tt (Int (neg_errno r))) (FixedBuf link bufsize))) [],
       (c, World [] [] f'))).
Proof.
  intros Hn Hbl Hll Ho Hr1 Hr. unfold send_readlink.
  assert (v_ok (SizeT bufsize)) as Hv by (cbn; lia).
  destruct (path_value_facts (SizeT bufsize) Hv (size_t_wire_8 _) cmd_readlink)
    as (Hb & Ha & Hw & Hl & Hl' & Hi).
  set (b := field (path_chain cmd_readlink) (SizeT bufsize)) in *.
  set (a := field (field tt (path_of s)) (SizeT bufsize)) in *.
  set (fb := FixedBuf link bufsize). set (d := FixedBuf buf bufsize).
  assert (v_ok fb) as Hfb by (split; cbn; [done|lia]).
  assert (v_dst d fb) as Hd by (split; cbn; [done|lia]).
  assert (Z.of_nat (length (v_wire fb)) = bufsize + 4) as Hwl.
  { cbn [v_wire fixedbuf_codec fb fb_size fb_buf]. rewrite length_app, length_le_bytes. lia. }
  pose proof (length_pair_message (neg_errno r) fb) as Hlm.
  mstep. rewrite (send_pack_world b) by (done || lia). mstep.
  erewrite (round_trip b br c f 9 (b_wire a) [] true c f' (message (field (field tt (Int (neg_errno r))) fb)) []);
    try (done || cbn [length]; lia).
  - cbn [negb]. unfold get_rcvr. mstep. mstep.
    cbn [after rcvr received data data_bytes]. rewrite (s32_small bufsize) by lia. fold d.
    destruct (pair_unpack (neg_errno r) fb d Hr Hfb Hd ltac:(lia)) as (H1 & H2 & H3).
    cbv zeta in H1, H2, H3. rewrite H1. do 2 mstep. rewrite H3. mstep. unfold field at 1 2 3.
    cbv iota. rewrite H2. mstep. rewrite Z.eqb_refl. mstep. cbn [uint_val].
    rewrite Hlm. unfold sizeof_int. rewrite u32_small by lia. rewrite Z.eqb_refl. done.
  - unfold sizeof_int. change data_buf_size with 8192. lia.
  - cbn [scout_request]. unfold handle_readlink. mstep.
    rewrite (request_args b a _ _ _ 9 _ Hw) by done.
    unfold a, field. rewrite c_str_path by done. mstep. mstep.
    cbn [os_readlink center_files cc_files center_os size_t_val]. rewrite os_files, Ho. cbn [fst snd].
    rewrite (s32_small bufsize), (s32_small r.1) by (done || lia).
    destruct r as [r0 err]. fold fb. apply answer_pair; [done|done|lia].
Qed.

(** *** Requests with a descriptor *)

(** What a descriptor argument is on the Command Center's side: a negative
    one stays, a positive one is duplicated into it. *)
Definition passed_fd (fd : Z) (g : F) (fd' : Z) (fds : list Z) (g' : F) : Prop :=
  (fd < 0 ∧ fd' = fd ∧ fds = [] ∧ g' = g) ∨
  (0 < fd ∧ 0 ≤ fd' ∧ fds = [fd'] ∧ dup_to_center fd g = Ok (fd', g')).

Lemma send_pack_passed {B} `{Cc : chain_codec B} (b : B) g fd fd' fds g' :
  b_ok b → Z.of_nat (length (b_wire b)) + 4 < 2 ^ 31 → passed_fd fd g fd' fds g' →
  send_pack malloc b fd (br, (c, World [] [] g)) =
  Ok (tt, (br, (c, World [(message b, fds)] [] g'))).
Proof.
  intros Hb Hl [(Hfd & -> & -> & ->)|(Hfd & Hge & -> & Hd)].
  - by apply send_pack_world.
  - by rewrite (send_pack_fd b Hb Hl br c (World [] [] g) fd fd' g').
Qed.

(** The handlers' [if (fd >= 0) fd = rcvr->get_fd_rcvd()[0];] and the
    assertion before it. *)
Lemma passed_fd_received fd fd' fds g g' bytes :
  passed_fd fd g fd' fds g' →
  let rc := received (new_msg_receiver 75) bytes fds in
  ((fd <? 0) || (fd_rcvd_num rc =? 1)) = true ∧
  ∀ st : env, (if 0 <=? fd then received_fd rc else mret fd) st = Ok (fd', st).
Proof.
  intros [(Hfd & -> & -> & ->)|(Hfd & Hge & -> & Hd)] rc.
  - destruct (Z.ltb_spec fd 0), (Z.leb_spec 0 fd); try lia. done.
  - destruct (Z.ltb_spec fd 0), (Z.leb_spec 0 fd); try lia. done.
Qed.

Lemma passed_fd_length fd g fd' fds g' : passed_fd fd g fd' fds g' → (length fds ≤ 2)%nat.
Proof. intros [(?&?&->&?)|(?&?&->&?)]; cbn; lia. Qed.

(** [if (fd >= 0) close(fd);] *)
Definition closed_fd (fd : Z) (g g' : F) : Prop :=
  if decide (0 ≤ fd) then ∃ r, os_close fd g = Ok (r, g') else g' = g.
Lemma closed_fd_step fd g g' :
  closed_fd fd g g' →
  (if 0 <=? fd then os (os_close (files := center_files) fd) ;; mret tt else mret tt)
    (c, World [] [] g) = Ok (tt, (c, World [] [] g')).
Proof.
  unfold closed_fd. case_decide as Hge; destruct (Z.leb_spec 0 fd); try lia; [|by intros ->].
  intros [r Hr]. mstep. cbn [os_close center_files]. by rewrite os_files, Hr.
Qed.

Lemma fstat_step fd fd' fds f1 f2 r st d :
  int_ok fd → passed_fd fd f fd' fds f1 →
  os_fstat fd' f1 = Ok ((r, st), f2) → closed_fd fd' f2 f' → int_ok (neg_errno r) → v_ok st →
  send_fstat malloc fd d (br, (c, World [] [] f)) =
  Ok ((neg_errno r, st),
      (after br (message (field (field tt (Int (neg_errno r))) st)) [], (c, World [] [] f'))).
Proof.
  intros Hfd Hp Ho Hc Hr Hst. unfold send_fstat.
  set (b := field (field tt (cmd_field cmd_fstat)) (Int fd)). set (a := field tt (Int fd)).
  assert (b_ok b) as Hb by (repeat split; apply Hfd || done).
  assert (b_ok a) as Ha by (repeat split; apply Hfd).
  assert (b_wire b = le_bytes 4 5 ++ b_wire a) as Hw by done.
  assert (length (b_wire a) = 4%nat) as Hla by apply length_int_wire.
  assert (length (b_wire b) = 8%nat) as Hlb by (rewrite Hw, length_app, length_le_bytes; lia).
  pose proof (stat_wire st Hst) as Hwl. pose proof (length_pair_message (neg_errno r) st) as Hlm.
  pose proof (passed_fd_length _ _ _ _ _ Hp) as Hlf.
  assert (8 + Z.of_nat (length (b_wire a)) ≤ data_buf_size) as Hl
    by (change data_buf_size with 8192; lia).
  mstep. rewrite (send_pack_passed b f fd fd' fds f1) by (done || lia).
  eapply receive_struct_step; [done|done|done|lia| |done|done].
  eapply (round_trip b br c f1 5 (b_wire a) fds true c f'); try (done || cbn [length]; lia).
  { unfold sizeof_int. change data_buf_size with 8192. lia. }
  cbn [scout_request]. unfold handle_fstat. mstep.
  rewrite (request_args b a _ _ _ 5 _ Hw) by done. unfold a, field. cbn [snd int_val].
  destruct (passed_fd_received fd fd' fds f f1 (message b) Hp) as [H1 H2]. cbv zeta in H1, H2.
  rewrite H1. do 2 mstep. rewrite H2. mstep.
  cbn [os_fstat center_files cc_files center_os]. rewrite os_files, Ho. mstep.
  rewrite (closed_fd_step fd' f2 f' Hc). apply answer_pair; [done|done|lia].
Qed.

(** The reply of [openat]: the descriptor travels in the message. *)
Definition opened_fd (fd : Z) (g : F) (fd' : Z) (fds : list Z) (g' : F) : Prop :=
  (fd < 0 ∧ fd' = fd ∧ fds = [] ∧ g' = g) ∨
  (0 < fd ∧ fds = [fd'] ∧ dup_to_scout fd g = Ok (fd', g')).

Lemma openat_step dirfd dir fds flags mode f1 r f2 f3 fd' fds' f4 rc :
  int_ok dirfd → int_ok flags → 0 ≤ mode < 2 ^ 32 →
  passed_fd dirfd f dir fds f1 →
  os_openat dir s flags mode f1 = Ok (r, f2) → closed_fd dir f2 f3 →
  let fd := neg_errno r in
  int_ok fd → opened_fd fd f3 fd' fds' f4 → os_close fd f4 = Ok (rc, f') →
  send_openat malloc dirfd (path_of s) flags mode (br, (c, World [] [] f)) =
  Ok (fd', (after br (message (field tt (Int fd))) fds', (c, World [] [] f'))).
Proof.
  intros Hdf Hfl Hmode Hp Ho Hc fd Hfd Hop Hcl. unfold send_openat.
  set (b := field (field (field (field (field tt (cmd_field cmd_openat)) (Int dirfd)) (path_of s))
              (Int flags)) (UInt mode)).
  set (a := field (field (field (field tt (Int dirfd)) (path_of s)) (Int flags)) (UInt mode)).
  pose proof (path_codec s Hs) as Hpc. pose proof (length_path s) as Hlp.
  assert (b_ok b) as Hb by (repeat split; apply Hdf || apply Hfl || apply Hmode || apply Hpc || done).
  assert (b_ok a) as Ha by (repeat split; apply Hdf || apply Hfl || apply Hmode || apply Hpc || done).
  assert (b_wire b = le_bytes 4 3 ++ b_wire a) as Hw.
  { unfold a, b, field. cbn [b_wire field_chain unit_chain fst snd]. by rewrite <-!app_assoc. }
  assert (Z.of_nat (length (b_wire a)) = Z.of_nat (length s) + 17) as Hla.
  { unfold a, field. cbn [b_wire field_chain unit_chain fst snd]. rewrite !length_app.
    cbn [v_wire pod_codec to_rep int_pod uint_pod length]. rewrite !length_le_bytes. lia. }
  assert (Z.of_nat (length (b_wire b)) = Z.of_nat (length s) + 21) as Hlb
    by (rewrite Hw, length_app, length_le_bytes; lia).
  pose proof (proj2 Hs) as Hsl. pose proof (passed_fd_length _ _ _ _ _ Hp) as Hlf.
  assert (8 + Z.of_nat (length (b_wire a)) ≤ data_buf_size) as Hl
    by (change data_buf_size with 8192; lia).
  assert (length fds' ≤ 2)%nat as Hlf' by (destruct Hop as [(?&?&->&?)|(?&->&?)]; cbn; lia).
  mstep. rewrite (send_pack_passed b f dirfd dir fds f1) by (done || lia). mstep.
  erewrite (round_trip b br c f1 3 (b_wire a) fds true c f' (message (field tt (Int fd))) fds');
    try (done || cbn [length]; lia).
  - unfold get_rcvr. mstep. cbn [after rcvr].
    assert (data (received (rcvr br) (message (field tt (Int fd))) fds') =
            message (field tt (Int fd))) as Hd by (by destruct fds').
    assert (data_bytes (received (rcvr br) (message (field tt (Int fd))) fds') = 8) as Hdb
      by (destruct fds'; cbn [received data_bytes]; by rewrite length_message_int).
    rewrite Hd, Hdb, message_int_at. change (8 =? 2 * sizeof_int) with true. do 2 mstep.
    change (s32 (4 + sizeof_int) =? 8) with true. mstep. change (8 - 4) with 4.
    destruct (int_reply_unpack fd Hfd) as [H1 H2]. mstep. rewrite H1. do 2 mstep.
    rewrite H2. mstep. cbn [field snd int_val].
    destruct Hop as [(Hneg & -> & -> & ->)|(Hpos & -> & Hdup)].
    + destruct (Z.leb_spec 0 fd); [lia|done].
    + destruct (Z.leb_spec 0 fd); [done|lia].
  - cbn [scout_request]. unfold handle_openat. mstep.
    rewrite (request_args b a _ _ _ 3 _ Hw) by done. unfold a, field at 1 2 3 4.
    cbn [int_val uint_val].
    destruct (passed_fd_received dirfd dir fds f f1 (message b) Hp) as [H1 H2]. cbv zeta in H1, H2.
    rewrite orb_comm in H1. rewrite H1. do 2 mstep. rewrite H2. mstep.
    rewrite c_str_path by done. mstep.
    cbn [os_openat center_files cc_files center_os]. rewrite os_files, Ho. mstep.
    rewrite (closed_fd_step dir f2 f3 Hc). mstep. fold fd.
    assert (b_ok (field tt (Int fd))) as Hok by (by split).
    assert (send_msg_packer malloc 75 (field tt (Int fd)) fd (-1) (c, World [] [] f3) =
      Ok (8, (c, World [] [(message (field tt (Int fd)), fds')] f4))) as ->.
    { destruct Hop as [(Hneg & -> & -> & ->)|(Hpos & -> & Hdup)].
      - rewrite send_msg_packer_nofd; [by rewrite length_message_int|done|rewrite length_int_wire; lia|lia].
      - rewrite (send_msg_packer_fd (field tt (Int fd)) Hok) with (fd' := fd') (f' := f4);
          [by rewrite length_message_int|rewrite length_int_wire; lia|lia|done]. }
    mstep. cbn [os_close center_files cc_files center_os].
    unfold os, in_files. cbn [fst snd fsys]. by rewrite Hcl.
Qed.
End PathRequests.
End Steps.

(** ** What a sandboxed program sees *)
Section Remote.
Context {F : Type} `{Fi : files F} `{Pa : passing F} `{Tr : tracer (world F)}.
Context (malloc : Z → list byte).
#[local] Existing Instances center_sockets center_files center_os.
#[local] Instance remote_net : sockets (cmdcenter * world F) := scout_sockets malloc.

(** [run] ends with this result, the kernel's files in this state, no
    message under way and the Command Center unchanged. *)
Definition answers {A} (run : ST (sandbox_bridge * (cmdcenter * world F)) A)
    (br : sandbox_bridge) (c : cmdcenter) (f : F) (a : A) (f' : F) : Prop :=
  ∃ br', run (br, (c, World [] [] f)) = Ok (a, (br', (c, World [] [] f'))) ∧
    sock br' = sock br ∧ br_ok br'.

Lemma after_ok br rep fds : br_ok br → br_ok (after br rep fds).
Proof.
  unfold br_ok, after. cbn [rcvr]. destruct fds; [done|]. cbn [received fd_rcvd length].
  destruct (fd_rcvd (rcvr br)); [done|]. cbn. lia.
Qed.
Lemma answers_after {A} (run : ST (sandbox_bridge * (cmdcenter * world F)) A) br c f a f' rep fds :
  run (br, (c, World [] [] f)) = Ok (a, (after br rep fds, (c, World [] [] f'))) →
  br_ok br → answers run br c f a f'.
Proof. intros H Hbr. exists (after br rep fds). split_and!; [done|done|by apply after_ok]. Qed.
End Remote.

(** C1: a sandboxed program's [access], [unlink], [stat] and [lstat] are those
    of the Command Center.  For every path of up to 8000 bytes the bridge's
    call returns the result of the same system call, made by the Command Center
    with the same arguments, or minus its [errno]; [stat] and [lstat] also
    transfer the whole structure.  The request and the reply pass the packing,
    the length checks and the dispatch on both sides. *)
Theorem path_requests_remote {F} `{Fi : files F} `{Pa : passing F} `{Tr : tracer (world F)}
    (malloc : Z → list byte) (s : list byte) (br : sandbox_bridge) (c : cmdcenter) (f f' : F) (r : Z * Z) :
  (∀ n, 0 ≤ n → Z.of_nat (length (malloc n)) = n) →
  path_ok s → br_ok br → int_ok (neg_errno r) →
  (∀ mode, int_ok mode → os_access s mode f = Ok (r, f') →
     answers (send_access (Sk := remote_net malloc) malloc (path_of s) mode) br c f (neg_errno r) f') ∧
  (os_unlink s f = Ok (r, f') →
     answers (send_unlink (Sk := remote_net malloc) malloc (path_of s)) br c f (neg_errno r) f') ∧
  (∀ st d, v_ok st → os_stat s f = Ok ((r, st), f') →
     answers (send_stat (Sk := remote_net malloc) malloc (path_of s) d) br c f (neg_errno r, st) f') ∧
  (∀ st d, v_ok st → os_lstat s f = Ok ((r, st), f') →
     answers (send_lstat (Sk := remote_net malloc) malloc (path_of s) d) br c f (neg_errno r, st) f').
Proof.
  intros Hm Hs Hbr Hr. split_and!; intros.
  - eapply answers_after; [by apply access_step|done].
  - eapply answers_after; [by apply unlink_step|done].
  - eapply answers_after; [by apply stat_step|done].
  - eapply answers_after; [by apply lstat_step|done].
Qed.

(** So is [readlink], into a buffer of up to 8180 bytes; the bridge copies
    the whole buffer of the Command Center, whatever the length of the link. *)
Theorem readlink_remote {F} `{Fi : files F} `{Pa : passing F} `{Tr : tracer (world F)}
    (malloc : Z → list byte) (s buf link : list byte) (bufsize : Z) (br : sandbox_bridge)
    (c : cmdcenter) (f f' : F) (r : Z * Z) :
  (∀ n, 0 ≤ n → Z.of_nat (length (malloc n)) = n) →
  path_ok s → br_ok br → int_ok r.1 → int_ok (neg_errno r) → 0 ≤ bufsize ≤ 8180 →
  Z.of_nat (length buf) = bufsize → Z.of_nat (length link) = bufsize →
  os_readlink s bufsize f = Ok ((r, link), f') →
  answers (send_readlink (Sk := remote_net malloc) malloc (path_of s) buf bufsize) br c f
    (u64 (neg_errno r), link) f'.
Proof. intros. eapply answers_after; [by apply readlink_step|done]. Qed.

(** C30: and [openat]: the directory's descriptor is duplicated into the
    Command Center and closed there after the call, the opened descriptor is
    duplicated into the program, which gets the duplicate's number, and closed
    in the Command Center; a negative [errno] comes back as it is. *)
Theorem openat_remote {F} `{Fi : files F} `{Pa : passing F} `{Tr : tracer (world F)}
    (malloc : Z → list byte) (s : list byte) (br : sandbox_bridge) (c : cmdcenter)
    (f0 f1 f2 f3 f4 f5 : F) (dirfd dir flags mode fd' rc : Z) (fds fds' : list Z) (r : Z * Z) :
  (∀ n, 0 ≤ n → Z.of_nat (length (malloc n)) = n) →
  path_ok s → br_ok br → int_ok dirfd → int_ok flags → 0 ≤ mode < 2 ^ 32 →
  passed_fd dirfd f0 dir fds f1 →
  os_openat dir s flags mode f1 = Ok (r, f2) →
  closed_fd dir f2 f3 →
  int_ok (neg_errno r) → opened_fd (neg_errno r) f3 fd' fds' f4 →
  os_close (neg_errno r) f4 = Ok (rc, f5) →
  answers (send_openat (Sk := remote_net malloc) malloc dirfd (path_of s) flags mode) br c f0 fd' f5.
Proof. intros. eapply answers_after; [by eapply openat_step|done]. Qed.

(** And [fstat], for a negative or a positive descriptor. *)
Theorem fstat_remote {F} `{Fi : files F} `{Pa : passing F} `{Tr : tracer (world F)}
    (malloc : Z → list byte) (br : sandbox_bridge) (c : cmdcenter)
    (f0 f1 f2 f3 : F) (fd fd' : Z) (fds : list Z) (r : Z * Z) (st d : struct_stat) :
  (∀ n, 0 ≤ n → Z.of_nat (length (malloc n)) = n) →
  br_ok br → int_ok fd → passed_fd fd f0 fd' fds f1 →
  os_fstat fd' f1 = Ok ((r, st), f2) → closed_fd fd' f2 f3 → int_ok (neg_errno r) → v_ok st →
  answers (send_fstat (Sk := remote_net malloc) malloc fd d) br c f0 (neg_errno r, st) f3.
Proof. intros. eapply answers_after; [by eapply fstat_step|done]. Qed.

(** Descriptor 0 cannot be passed.  A sandboxed program that calls [fstat]
    on its standard input, or [openat] relative to descriptor 0, waits for
    ever: the request is never sent, because [send_msg] puts -1 in the place of
    the descriptor and the kernel refuses the message, and the bridge ignores
    this and waits for the reply. *)
Theorem fd0_requests_block {F} `{Fi : files F} `{Pa : passing F} `{Tr : tracer (world F)}
    (malloc : Z → list byte) (br : sandbox_bridge) (c : cmdcenter) (f : F) :
  (∀ n, 0 ≤ n → Z.of_nat (length (malloc n)) = n) →
  (∀ d, send_fstat (Sk := remote_net malloc) malloc 0 d (br, (c, World [] [] f)) =
        Fault (Blocked "the bridge waits for a reply")) ∧
  (∀ s flags mode, path_ok s → int_ok flags → 0 ≤ mode < 2 ^ 32 →
     send_openat (Sk := remote_net malloc) malloc 0 (path_of s) flags mode (br, (c, World [] [] f)) =
     Fault (Blocked "the bridge waits for a reply")).
Proof.
  intros Hm. split.
  - intros d. unfold send_fstat.
    assert (b_ok (field (field tt (cmd_field cmd_fstat)) (Int 0))) as Hb by (repeat split; done).
    mstep. rewrite (send_pack_fd0 malloc Hm _ Hb); [|done].
    unfold receive_struct_msg. mstep. by rewrite bridge_receive_blocked.
  - intros s flags mode Hs Hfl Hmode. unfold send_openat.
    pose proof (path_codec s Hs) as Hpc. pose proof (length_path s) as Hlp. destruct Hs as [_ Hsl].
    set (b := field _ (UInt mode)).
    assert (b_ok b) as Hb by (repeat split; apply Hfl || apply Hmode || apply Hpc || done).
    mstep. rewrite (send_pack_fd0 malloc Hm b Hb).
    + mstep. by rewrite bridge_receive_blocked.
    + unfold b, field. cbn [b_wire field_chain unit_chain fst snd]. rewrite !length_app.
      cbn [v_wire pod_codec to_rep int_pod uint_pod length]. rewrite !length_le_bytes. lia.
Qed.

(** [open] and [vfork] are not served.  [send_open] reports 0 to the
    program for every path, without waiting for an answer; the Command Center
    does not know the command: it refuses the message without any system call. *)
Theorem open_not_served {F} `{Fi : files F} `{Pa : passing F} `{Tr : tracer (world F)}
    (malloc : Z → list byte) (s : list byte) (flags mode : Z) (br : sandbox_bridge) (c : cmdcenter) (f : F) :
  (∀ n, 0 ≤ n → Z.of_nat (length (malloc n)) = n) →
  path_ok s → int_ok flags → 0 ≤ mode < 2 ^ 32 →
  ∃ m, send_open (Sk := remote_net malloc) malloc (path_of s) flags mode (br, (c, World [] [] f)) =
         Ok (0, (br, (c, World [m] [] f))) ∧
    handle_scout_msg malloc 75 (c, World [m] [] f) = Ok (false, (c, World [] [] f)).
Proof.
  intros Hm Hs Hfl Hmode.
  pose proof (path_codec s Hs) as Hpc. pose proof (length_path s) as Hlp. destruct Hs as [_ Hsl].
  set (b := field (field (field (field tt (cmd_field cmd_open)) (path_of s)) (Int flags)) (UInt mode)).
  assert (b_ok b) as Hb by (repeat split; apply Hfl || apply Hmode || apply Hpc || done).
  set (rest := (v_wire (path_of s) ++ le_bytes 4 flags) ++ le_bytes 4 mode).
  assert (b_wire b = le_bytes 4 2 ++ rest) as Hw.
  { unfold b, rest, field. cbn [b_wire field_chain unit_chain fst snd]. by rewrite <-!app_assoc. }
  assert (Z.of_nat (length rest) = Z.of_nat (length s) + 13) as Hlr.
  { unfold rest. rewrite !length_app, !length_le_bytes. lia. }
  exists (message b, []). split.
  - unfold send_open. fold b. mstep. rewrite (send_pack_world malloc Hm b); [done|done| |lia].
    rewrite Hw, length_app, length_le_bytes. lia.
  - rewrite (handle_scout_msg_step malloc b 75 c _ 2 rest [] []); [done|done|done|done| |cbn; lia].
    change data_buf_size with 8192. lia.
Qed.

(** ** The theorems at concrete inputs *)

(** A kernel that counts its calls: every path exists except that [unlink]
    fails with [EACCES] (13). *)
Definition count {A} (a : A) : ST Z A := fun n => Ok (a, n + 1).
Definition demo_stat : struct_stat := Stat (replicate 144 (byte_of_Z 1)).
Definition demo_files : files Z := {|
  os_close _ := count 0;
  os_openat _ _ _ _ := count (5, 0);
  os_access _ _ := count (0, 0);
  os_fstat _ := count (0, 0, demo_stat);
  os_stat _ := count (0, 0, demo_stat);
  os_lstat _ := count (0, 0, demo_stat);
  os_readlink _ n := count (1, 0, replicate (Z.to_nat n) NUL);
  os_unlink _ := count (-1, 13);
|}.
Definition demo_passing : passing Z := {| dup_to_center _ := count 8; dup_to_scout _ := count 9 |}.
Definition demo_tracer : tracer (world Z) := {|
  ptrace_attach _ := mret 0; ptrace_setoptions _ _ := mret 0; ptrace_cont _ := mret 0;
  ptrace_waittrap _ := mret 0; ptrace_stepi _ := mret 0; ptrace_detach _ := mret 0;
  scout_takeoff _ _ := mret 0;
|}.
Definition demo_malloc (n : Z) : list byte := replicate (Z.to_nat n) NUL.
Definition demo_bridge : sandbox_bridge := set_sock 3.
Definition demo_center : cmdcenter := new_cmdcenter 74.
(** "/x" *)
Definition demo_path : list byte := [byte_of_Z 47; byte_of_Z 120].

Lemma demo_malloc_length n : 0 ≤ n → Z.of_nat (length (demo_malloc n)) = n.
Proof. intros H. unfold demo_malloc. rewrite length_replicate. lia. Qed.
Lemma demo_path_ok : path_ok demo_path.
Proof.
  split; [|vm_compute; congruence]. intros H. apply list_elem_of_In in H.
  revert H. vm_compute. intuition discriminate.
Qed.

Section Witnesses.
#[local] Existing Instances demo_files demo_passing demo_tracer.
Abbreviation net0 := (remote_net demo_malloc).

Lemma path_requests_remote_witness :
  answers (send_unlink (Sk := net0) demo_malloc (path_of demo_path)) demo_bridge demo_center 0 (-13) 1.
Proof.
  refine (proj1 (proj2 (path_requests_remote demo_malloc demo_path demo_bridge demo_center 0 1
    (-1, 13) demo_malloc_length demo_path_ok eq_refl _)) eq_refl).
  split; vm_compute; congruence.
Defined.

Lemma readlink_remote_witness :
  answers (send_readlink (Sk := net0) demo_malloc (path_of demo_path) (replicate 4 NUL) 4)
    demo_bridge demo_center 0 (u64 1, replicate 4 NUL) 1.
Proof.
  refine (readlink_remote demo_malloc demo_path (replicate 4 NUL) (replicate 4 NUL) 4 demo_bridge
    demo_center 0 1 (1, 0) demo_malloc_length demo_path_ok eq_refl _ _ _ eq_refl eq_refl eq_refl);
    split; vm_compute; congruence.
Defined.

Lemma openat_remote_witness :
  answers (send_openat (Sk := net0) demo_malloc 4 (path_of demo_path) 0 0) demo_bridge demo_center 0 9 5.
Proof.
  refine (openat_remote demo_malloc demo_path demo_bridge demo_center 0 1 2 3 4 5 4 8 0 0 9 0 [8] [9]
    (5, 0) demo_malloc_length demo_path_ok eq_refl _ _ _ _ eq_refl _ _ _ eq_refl).
  1-3: split; vm_compute; congruence.
  - right. split_and!; [done|done|done|done].
  - by exists 0.
  - split; vm_compute; congruence.
  - right. split_and!; done.
Defined.

Lemma fstat_remote_witness :
  answers (send_fstat (Sk := net0) demo_malloc 4 (Stat [])) demo_bridge demo_center 0 (0, demo_stat) 3.
Proof.
  refine (fstat_remote demo_malloc demo_bridge demo_center 0 1 2 3 4 8 [8] (0, 0) demo_stat (Stat [])
    demo_malloc_length eq_refl _ _ eq_refl _ _ eq_refl).
  - split; vm_compute; congruence.
  - right. split_and!; done.
  - by exists 0.
  - split; vm_compute; congruence.
Defined.

Lemma fd0_requests_block_witness :
  send_fstat (Sk := net0) demo_malloc 0 (Stat []) (demo_bridge, (demo_center, World [] [] 0)) =
  Fault (Blocked "the bridge waits for a reply").
Proof. apply (fd0_requests_block demo_malloc demo_bridge demo_center 0 demo_malloc_length). Defined.

Lemma open_not_served_witness :
  ∃ m, send_open (Sk := net0) demo_malloc (path_of demo_path) 0 0
         (demo_bridge, (demo_center, World [] [] 0)) = Ok (0, (demo_bridge, (demo_center, World [m] [] 0))) ∧
    handle_scout_msg demo_malloc 75 (demo_center, World [m] [] 0) =
      Ok (false, (demo_center, World [] [] 0)).
Proof.
  refine (open_not_served demo_malloc demo_path 0 0 demo_bridge demo_center 0 demo_malloc_length
    demo_path_ok _ _); split; vm_compute; congruence.
Defined.
End Witnesses.
