(* ===== verification/CenterLoop.v ===== *)
(** * The Command Center's list of scouts and its message loop

    What holds between two messages, whatever the kernel and the scouts do
    (cmdcenter::handle_message), and what remove_scout does to the list. *)

From S2P Require Import Prelude TinyPack Message Bridge CmdCenter.

Section Loop.
Context {E : Type} `{Os : cc_os E} `{Tr : tracer E}.
Context (malloc : Z → list byte).
Abbreviation St := (cmdcenter * E)%type.

(** ** The invariant between two messages *)
Record center_inv (c : cmdcenter) : Prop := {
  scouts_nodup : NoDup (scoutfds c);
  sigchld_handled : sigchld_ignore c = false;
}.

(** [scoutfds] stays without duplicates; the flag is only changed by the
    handler of [cmd_execve]. *)
Definition keeps_scouts (s s' : St) : Prop :=
  (NoDup (scoutfds s.1) → NoDup (scoutfds s'.1)) ∧
  (sigchld_ignore s.1 = false → sigchld_ignore s'.1 = false).
#[local] Instance keeps_scouts_preorder : PreOrder keeps_scouts.
Proof. split; [done|]. intros s1 s2 s3 [??] [??]. split; auto. Qed.

Lemma keep_getc {A} (f : cmdcenter → A) : preserves keeps_scouts (getc f).
Proof. apply preserves_gets, _. Qed.
Lemma keep_modc f :
  (∀ c, scoutfds (f c) = scoutfds c ∧ (sigchld_ignore c = false → sigchld_ignore (f c) = false)) →
  preserves keeps_scouts (modc f).
Proof.
  intros Hf. apply (preserves_modify _). intros [c e]. destruct (Hf c) as [H1 H2].
  split; cbn; [by rewrite H1|done].
Qed.
Lemma keep_stopping v : preserves keeps_scouts (modc (set_stopping v)).
Proof. apply keep_modc. by intros []. Qed.
Lemma keep_sigchld_false : preserves keeps_scouts (modc (set_sigchld_ignore false)).
Proof. apply keep_modc. by intros []. Qed.
Lemma keep_os {A} (m : ST E A) : preserves keeps_scouts (os m).
Proof.
  intros [c e] a s'. unfold os. cbn. destruct (m e) as [[??]|]; [|done]. by intros [= _ <-].
Qed.
Lemma keep_receive_message fd : preserves keeps_scouts (receive_message fd).
Proof.
  intros [c e] a s'. unfold receive_message. cbn [snd].
  destruct (receive_one _) as [[? [??]]|]; [|done]. by intros [= _ <-].
Qed.
#[local] Hint Resolve keep_getc keep_os keep_stopping keep_sigchld_false keep_receive_message
  keeps_scouts_preorder : preserve.

Lemma keep_add_scout fd : preserves keeps_scouts (add_scout fd).
Proof.
  intros [c e] a s' H. unfold add_scout in H.
  apply ST_bind_Ok in H as (fds & s1 & [= <- <-] & H). cbn [fst] in H.
  apply ST_bind_Ok in H as (u & s1 & [Hb [= _ ->]]%sassert_Ok & H).
  apply bool_decide_eq_true in Hb.
  apply ST_bind_Ok in H as (u' & s1 & [= _ <-] & H).
  assert (keeps_scouts (c, e) (set_scoutfds (scoutfds c ++ [fd]) c, e)) as H1.
  { split; cbn; [|done]. intros Hn. apply list.NoDup_app. split_and!; [done| |apply NoDup_singleton].
    intros x Hx ->%list_elem_of_singleton. done. }
  etrans; [exact H1|]. revert H.
  match goal with |- ?m ?s = _ → _ => assert (preserves keeps_scouts m) as Hp by preserve end.
  apply Hp.
Qed.

Lemma remove_if_sublist fd b l s r s' :
  remove_if fd b l s = Ok (r, s') → r.2 `sublist_of` l ∧ s'.1 = s.1.
Proof.
  revert b s r s'. induction l as [|v l IH]; intros b s r s' H; cbn [remove_if] in H.
  { injection H as <- <-. split; [constructor|done]. }
  apply ST_bind_Ok in H as (b' & s1 & Hb & H).
  apply ST_bind_Ok in H as (r' & s2 & Hr & H). injection H as <- <-.
  apply IH in Hr as [Hsub ->]. split.
  - cbn [snd]. destruct b'; by constructor.
  - destruct (v =? fd).
    + unfold getc, os, gets, mbind, ST_bind in Hb. cbn in Hb.
      destruct (epoll_ctl _ _ _ _) as [[? e1]|]; [|done]. cbn in Hb.
      destruct (os_close _ e1) as [[??]|]; [|done]. by injection Hb as _ <-.
    + by injection Hb as _ <-.
Qed.
Lemma keep_remove_scout fd : preserves keeps_scouts (remove_scout fd).
Proof.
  intros [c e] a s' H. unfold remove_scout in H.
  apply ST_bind_Ok in H as (fds & s1 & [= <- <-] & H).
  apply ST_bind_Ok in H as (r & s1 & Hr & H). apply remove_if_sublist in Hr as [Hsub E1].
  injection H as _ <-. cbn [fst snd] in *. rewrite E1. split; cbn; [|done].
  intros Hn. by eapply sublist_NoDup.
Qed.
#[local] Hint Resolve keep_add_scout keep_remove_scout : preserve.

Lemma keep_send_msg_packer {B} `{packer B} sk (p : B) fd1 fd2 :
  preserves keeps_scouts (send_msg_packer malloc sk p fd1 fd2).
Proof. unfold send_msg_packer. preserve. Qed.
Lemma keep_request {B} `{unpacker B} (t : B) rc p q : preserves keeps_scouts (request t rc p q).
Proof. unfold request. preserve. Qed.
Lemma keep_received_fd rc : preserves keeps_scouts (received_fd rc).
Proof. unfold received_fd. preserve. Qed.
#[local] Hint Resolve keep_send_msg_packer keep_request keep_received_fd : preserve.

Lemma keep_handle_exec pid sk : preserves keeps_scouts (handle_exec malloc pid sk).
Proof. unfold handle_exec. preserve. Qed.
#[local] Hint Resolve keep_handle_exec : preserve.

(** The handler sets [sigchld_ignore], and clears it on every path. *)
Lemma keep_handle_execve sk rc p q : preserves keeps_scouts (handle_execve malloc sk rc p q).
Proof.
  intros s a s' H. unfold handle_execve in H.
  apply ST_bind_Ok in H as (v & s1 & Hv & H). destruct v as [[u pid] path].
  apply keep_request in Hv. etrans; [exact Hv|].
  apply ST_bind_Ok in H as (u1 & s2 & [= _ <-] & H).
  apply ST_bind_Ok in H as (ok & s3 & Hh & H). apply keep_handle_exec in Hh as [Hh _].
  apply ST_bind_Ok in H as (u2 & s4 & [= _ <-] & H). injection H as _ <-.
  split; cbn in *; done.
Qed.
#[local] Hint Resolve keep_handle_execve : preserve.

Lemma keep_handle_scout_msg sk : preserves keeps_scouts (handle_scout_msg malloc sk).
Proof.
  unfold handle_scout_msg, scout_request, handle_openat, handle_access, handle_fstat, handle_stat,
    handle_lstat, handle_readlink, handle_unlink, reply. preserve.
Qed.
Lemma keep_handle_carrier_msg : preserves keeps_scouts handle_carrier_msg.
Proof. unfold handle_carrier_msg. preserve. Qed.
#[local] Hint Resolve keep_handle_scout_msg keep_handle_carrier_msg : preserve.

Lemma keep_handle_events evs : preserves keeps_scouts (handle_events malloc evs).
Proof. induction evs as [|ev evs IH]; cbn [handle_events]; preserve. Qed.
#[local] Hint Resolve keep_handle_events : preserve.
Lemma keep_handle_message n : preserves keeps_scouts (handle_message malloc n).
Proof. induction n as [|n IH]; cbn [handle_message]; preserve. Qed.
#[local] Hint Resolve keep_handle_message : preserve.
Lemma keep_handle_messages n : preserves keeps_scouts (handle_messages malloc n).
Proof. induction n as [|n IH]; cbn [handle_messages]; preserve. Qed.

End Loop.

(** ** [remove_scout] *)
Section Remove.
Context {E : Type} `{Os : cc_os E}.
Abbreviation St := (cmdcenter * E)%type.

Lemma remove_if_true fd l (s : St) :
  fd ∉ l → remove_if fd true l s = Ok ((true, []), s).
Proof.
  revert s. induction l as [|v l IH]; intros s Hf; [done|]. rewrite not_elem_of_cons in Hf.
  cbn [remove_if]. destruct (Z.eqb_spec v fd); [naive_solver|]. mstep. mstep.
  by rewrite IH by naive_solver.
Qed.
Lemma remove_if_none fd l (s : St) :
  fd ∉ l → remove_if fd false l s = Ok ((false, l), s).
Proof.
  revert s. induction l as [|v l IH]; intros s Hf; [done|]. rewrite not_elem_of_cons in Hf.
  cbn [remove_if]. destruct (Z.eqb_spec v fd); [naive_solver|]. mstep. mstep.
  by rewrite IH by naive_solver.
Qed.
Lemma remove_if_split fd pre post (s : St) :
  fd ∉ pre → fd ∉ post →
  remove_if fd false (pre ++ fd :: post) s =
  (os (epoll_ctl (efd s.1) EPOLL_CTL_DEL fd) ;; os (os_close fd) ;; mret (true, pre)) s.
Proof.
  revert s. induction pre as [|v pre IH]; intros [c e] Hpre Hpost.
  - cbn [app remove_if]. rewrite Z.eqb_refl. unfold getc, gets, os, mbind, ST_bind. cbn [fst snd].
    destruct (epoll_ctl _ _ _ _) as [[a e1]|]; [|done]. cbn [fst snd].
    destruct (os_close fd e1) as [[b e2]|]; [|done]. cbn [mret ST_ret].
    by rewrite remove_if_true.
  - rewrite not_elem_of_cons in Hpre. cbn [app remove_if].
    destruct (Z.eqb_spec v fd); [naive_solver|]. mstep. mstep.
    rewrite IH by naive_solver. unfold os, mbind, ST_bind. cbn [fst snd].
    destruct (epoll_ctl _ _ _ _) as [[a e1]|]; [|done]. cbn [fst snd].
    by destruct (os_close fd e1) as [[b e2]|].
Qed.
End Remove.

(** Removing one scout forgets others.  [remove_scout] leaves only the
    scouts in front of the removed one: its predicate answers the captured
    [success], which stays true, for every element after it.  Only the one
    descriptor is taken out of the epoll set and closed, so the others leak and
    are still served, but the list no longer has them; [remove_scout] of an
    unknown descriptor changes nothing. *)
Theorem remove_scout_forgets {E} `{Os : cc_os E} (c : cmdcenter) (e : E) (fd : Z) :
  NoDup (scoutfds c) →
  (∀ pre post, scoutfds c = pre ++ fd :: post →
     remove_scout fd (c, e) =
     (os (epoll_ctl (efd c) EPOLL_CTL_DEL fd) ;; os (os_close fd) ;;
      modc (set_scoutfds pre) ;; mret true) (c, e)) ∧
  (fd ∉ scoutfds c → remove_scout fd (c, e) = Ok (false, (c, e))).
Proof.
  intros Hn. split.
  - intros pre post Hl. rewrite Hl in Hn. apply list.NoDup_app in Hn as (_ & Hd & Hn).
    apply list.NoDup_cons in Hn as [Hp _]. unfold remove_scout, getc. mstep. mstep.
    rewrite Hl. rewrite remove_if_split; [|intros H; by eapply Hd; [exact H|left]|done].
    unfold os, modc, modify, mbind, ST_bind. cbn [fst snd].
    destruct (epoll_ctl _ _ _ _) as [[a e1]|]; [|done]. cbn [fst snd].
    by destruct (os_close fd e1) as [[b e2]|].
  - intros Hf. unfold remove_scout, getc. mstep. mstep. rewrite remove_if_none by done.
    by destruct c.
Qed.

(** C35: between two messages the Command Center's list of scouts has no
    duplicates and SIGCHLD is not being ignored: every round of the message
    loop, whatever the kernel, the scouts and the tracee do, either keeps this
    or ends in a fault. *)
Theorem message_loop_inv {E} `{Os : cc_os E} `{Tr : tracer E} (malloc : Z → list byte) (n : nat)
    (c c' : cmdcenter) (e e' : E) (ok : bool) :
  center_inv c → handle_message malloc n (c, e) = Ok (ok, (c', e')) → center_inv c'.
Proof.
  intros [Hn Hs] H. apply keep_handle_message in H as [H1 H2]. split; [by apply H1|by apply H2].
Qed.

(** ** The theorems at concrete inputs *)
Section LoopWitnesses.
(** A kernel in which every call succeeds, and a stop message arrives. *)
#[local] Instance loop_sockets : sockets unit := {
  sendmsg _ _ _ := mret 0; recvmsg _ _ _ := mret (RecvMsg (le_bytes 4 STOP_MSG_LOOP_CMD) false []) }.
#[local] Instance loop_files : files unit := {
  os_close _ := mret 0; os_openat _ _ _ _ := mret (0, 0); os_access _ _ := mret (0, 0);
  os_fstat _ := mret (0, 0, Stat []); os_stat _ := mret (0, 0, Stat []);
  os_lstat _ := mret (0, 0, Stat []); os_readlink _ _ := mret (0, 0, []);
  os_unlink _ := mret (0, 0) }.
#[local] Instance loop_os : cc_os unit := {
  epoll_create1 := mret 3; epoll_ctl _ _ _ := mret 0;
  epoll_wait _ := mret (WaitEvents [EpollEvent 5 true false; EpollEvent 74 false true]);
  os_send _ _ := mret 4 }.
#[local] Instance loop_tracer : tracer unit := {
  ptrace_attach _ := mret 0; ptrace_setoptions _ _ := mret 0; ptrace_cont _ := mret 0;
  ptrace_waittrap _ := mret 0; ptrace_stepi _ := mret 0; ptrace_detach _ := mret 0;
  scout_takeoff _ _ := mret 0 }.
Definition three_scouts : cmdcenter := CmdCenter false 3 74 [4; 5; 6] false.

Lemma remove_scout_forgets_witness :
  remove_scout 5 (three_scouts, tt) = Ok (true, (set_scoutfds [4] three_scouts, tt)).
Proof.
  refine (proj1 (remove_scout_forgets three_scouts tt 5 _) [4] [6] eq_refl).
  apply (bool_decide_unpack _). vm_compute. exact I.
Defined.

Lemma message_loop_inv_witness :
  center_inv (set_stopping true (set_scoutfds [4] three_scouts)).
Proof.
  refine (message_loop_inv (fun n => replicate (Z.to_nat n) NUL) 1 three_scouts _ tt tt true _ _).
  - split; [|reflexivity]. apply (bool_decide_unpack _). vm_compute. exact I.
  - vm_compute. reflexivity.
Defined.
End LoopWitnesses.
