(* ===== verification/Filter.v ===== *)
(** * The seccomp filter (sandbox/filter.cpp, seccomp.h)

    The classic BPF program that the kernel runs for every system call of a
    sandboxed process.  [filter] is the program, instruction by instruction;
    [bpf_run] runs such a program on the object representation of
    [struct seccomp_data]. *)

From S2P Require Import Prelude Bridge.

(** ** System call numbers (x86_64) *)
Definition NR_open : Z := 2.
Definition NR_stat : Z := 4.
Definition NR_fstat : Z := 5.
Definition NR_lstat : Z := 6.
Definition NR_access : Z := 21.
Definition NR_vfork : Z := 58.
Definition NR_execve : Z := 59.
Definition NR_unlink : Z := 87.
Definition NR_readlink : Z := 89.
Definition NR_openat : Z := 257.

Definition SECCOMP_RET_TRAP : Z := 0x00030000.
Definition SECCOMP_RET_ALLOW : Z := 0x7fff0000.

(** bridge.h *)
Definition TRAMPOLINE_ADDR : Z := 0x200000000000.

(** ** The language of the filter *)

(** The instructions that the filter uses: [BPF_STMT(BPF_LD | BPF_W | BPF_ABS, k)],
    [BPF_JUMP(BPF_JMP | BPF_JGE | BPF_K, k, jt, jf)], the same with [BPF_JEQ],
    and [BPF_STMT(BPF_RET | BPF_K, k)]. *)
Inductive sock_filter :=
| LD_W_ABS (k : Z)
| JGE_K (k : Z) (jt jf : nat)
| JEQ_K (k : Z) (jt jf : nat)
| RET_K (k : Z).

Record seccomp_data := SeccompData {
  nr : Z;
  arch : Z;
  instruction_pointer : Z;
  args : list Z;
}.
Definition offsetof_nr : Z := 0.
Definition offsetof_instruction_pointer : Z := 8.
Definition seccomp_data_bytes (d : seccomp_data) : list byte :=
  le_bytes 4 (nr d) ++ le_bytes 4 (arch d) ++ le_bytes 8 (instruction_pointer d) ++
  (args d ≫= le_bytes 8).

(** [pc] only grows, so the length of the program is enough fuel; a jump past
    the end gives no verdict. *)
Fixpoint bpf_run (n : nat) (prog : list sock_filter) (pc : nat) (A : Z) (d : list byte)
    : outcome Z :=
  match n with
  | O => Fault (Undefined "no verdict")
  | S n =>
      match prog !! pc with
      | None => Fault (Undefined "jump out of the filter")
      | Some (LD_W_ABS k) => w ← read_at d k 4; bpf_run n prog (S pc) (le_Z w) d
      | Some (JGE_K k jt jf) => bpf_run n prog (S pc + (if (k <=? A)%Z then jt else jf))%nat A d
      | Some (JEQ_K k jt jf) => bpf_run n prog (S pc + (if (A =? k)%Z then jt else jf))%nat A d
      | Some (RET_K k) => Ok k
      end
  end.

(** ** The program *)
Definition filter : list sock_filter := [
  LD_W_ABS offsetof_instruction_pointer;
  JGE_K 4096 2 0;
  LD_W_ABS (offsetof_instruction_pointer + 4);
  JEQ_K (u32 (Z.shiftr TRAMPOLINE_ADDR 32)) 14 0;
  LD_W_ABS offsetof_nr;
  JEQ_K NR_rt_sigaction 13 0;
  JEQ_K NR_dup 12 0;
  JEQ_K NR_dup2 11 0;
  JEQ_K NR_open 10 0;
  JEQ_K NR_openat 9 0;
  JEQ_K NR_access 8 0;
  JEQ_K NR_fstat 7 0;
  JEQ_K NR_lstat 6 0;
  JEQ_K NR_execve 5 0;
  JEQ_K NR_readlink 4 0;
  JEQ_K NR_stat 3 0;
  JEQ_K NR_unlink 2 0;
  JEQ_K NR_vfork 1 0;
  RET_K SECCOMP_RET_ALLOW;
  RET_K SECCOMP_RET_TRAP
].

(** [sandbox_filter_prog], and what it answers for a system call. *)
Definition sandbox_filter_prog : nat * list sock_filter := (length filter, filter).
Definition verdict (d : seccomp_data) : outcome Z :=
  bpf_run sandbox_filter_prog.1 sandbox_filter_prog.2 0 0 (seccomp_data_bytes d).

(** ** Lemmas *)
Definition in_trampoline (ip : Z) : bool :=
  (TRAMPOLINE_ADDR <=? ip) && (ip <? TRAMPOLINE_ADDR + 4096).
Definition trapped : list Z :=
  [NR_rt_sigaction; NR_dup; NR_dup2; NR_open; NR_openat; NR_access; NR_fstat; NR_lstat;
   NR_execve; NR_readlink; NR_stat; NR_unlink; NR_vfork].

Record data_ok (d : seccomp_data) : Prop := {
  data_nr : 0 ≤ nr d < 2 ^ 32;
  data_ip : 0 ≤ instruction_pointer d < 2 ^ 64;
}.

Lemma le_bytes_split n m z :
  le_bytes (n + m) z = le_bytes n z ++ le_bytes m (z / 256 ^ Z.of_nat n).
Proof.
  revert z. induction n as [|n IH]; intros z.
  - change (256 ^ Z.of_nat 0) with 1. by rewrite Z.div_1_r.
  - cbn [Nat.add]. change (le_bytes (S (n + m)) z) with (byte_of_Z z :: le_bytes (n + m) (z / 256)).
    change (le_bytes (S n) z) with (byte_of_Z z :: le_bytes n (z / 256)).
    rewrite IH, Z.div_div by lia. cbn [app]. do 3 f_equal.
    rewrite Nat2Z.inj_succ, Z.pow_succ_r by lia. done.
Qed.

Lemma seccomp_data_bytes_split d :
  seccomp_data_bytes d =
  (le_bytes 4 (nr d) ++ le_bytes 4 (arch d)) ++ le_bytes 4 (instruction_pointer d) ++
  le_bytes 4 (instruction_pointer d / 2 ^ 32) ++ (args d ≫= le_bytes 8).
Proof.
  unfold seccomp_data_bytes. change (le_bytes 8 ?z) with (le_bytes (4 + 4) z).
  by rewrite (le_bytes_split 4 4), <-!app_assoc.
Qed.

Lemma load_nr d : data_ok d →
  ∃ w, read_at (seccomp_data_bytes d) offsetof_nr 4 = Ok w ∧ le_Z w = nr d.
Proof.
  intros [Hn _]. exists (le_bytes 4 (nr d)). split.
  - exact (read_at_app [] (le_bytes 4 (nr d)) _).
  - rewrite le_Z_le_bytes. by rewrite Z.mod_small.
Qed.
Lemma load_ip_low d :
  ∃ w, read_at (seccomp_data_bytes d) offsetof_instruction_pointer 4 = Ok w ∧
       le_Z w = instruction_pointer d mod 2 ^ 32.
Proof.
  exists (le_bytes 4 (instruction_pointer d)). split; [|by rewrite le_Z_le_bytes].
  rewrite seccomp_data_bytes_split.
  exact (read_at_app (le_bytes 4 (nr d) ++ le_bytes 4 (arch d)) (le_bytes 4 (instruction_pointer d)) _).
Qed.
Lemma load_ip_high d : data_ok d →
  ∃ w, read_at (seccomp_data_bytes d) (offsetof_instruction_pointer + 4) 4 = Ok w ∧
       le_Z w = instruction_pointer d / 2 ^ 32.
Proof.
  intros [_ Hi]. exists (le_bytes 4 (instruction_pointer d / 2 ^ 32)). split.
  - rewrite seccomp_data_bytes_split, (app_assoc (le_bytes 4 (nr d) ++ le_bytes 4 (arch d))).
    exact (read_at_app ((le_bytes 4 (nr d) ++ le_bytes 4 (arch d)) ++ le_bytes 4 (instruction_pointer d))
      (le_bytes 4 (instruction_pointer d / 2 ^ 32)) _).
  - rewrite le_Z_le_bytes. apply Z.mod_small. split; [apply Z.div_pos; lia|].
    apply Z.div_lt_upper_bound; lia.
Qed.

Lemma in_trampoline_halves ip : 0 ≤ ip →
  in_trampoline ip = negb (4096 <=? ip mod 2 ^ 32) && (ip / 2 ^ 32 =? 8192).
Proof.
  intros H. unfold in_trampoline. change TRAMPOLINE_ADDR with (8192 * 2 ^ 32).
  pose proof (Z.div_mod ip (2 ^ 32) ltac:(lia)) as Hd.
  pose proof (Z.mod_pos_bound ip (2 ^ 32) ltac:(lia)) as Hm.
  apply eq_true_iff_eq. rewrite !andb_true_iff, negb_true_iff. lia.
Qed.

(** One instruction. *)
Section Steps.
Context (n : nat) (prog : list sock_filter) (pc : nat) (A : Z) (d : list byte).
Lemma bpf_load k w :
  prog !! pc = Some (LD_W_ABS k) → read_at d k 4 = Ok w →
  bpf_run (S n) prog pc A d = bpf_run n prog (S pc) (le_Z w) d.
Proof. intros Hp Hr. cbn [bpf_run]. by rewrite Hp, Hr. Qed.
Lemma bpf_jge k jt jf :
  prog !! pc = Some (JGE_K k jt jf) →
  bpf_run (S n) prog pc A d = bpf_run n prog (if (k <=? A)%Z then (S pc + jt)%nat else (S pc + jf)%nat) A d.
Proof. intros Hp. cbn [bpf_run]. rewrite Hp. by destruct (k <=? A). Qed.
Lemma bpf_jeq k jt jf :
  prog !! pc = Some (JEQ_K k jt jf) →
  bpf_run (S n) prog pc A d = bpf_run n prog (if (A =? k)%Z then (S pc + jt)%nat else (S pc + jf)%nat) A d.
Proof. intros Hp. cbn [bpf_run]. rewrite Hp. by destruct (A =? k). Qed.
Lemma bpf_ret k :
  prog !! pc = Some (RET_K k) → bpf_run (S n) prog pc A d = Ok k.
Proof. intros Hp. cbn [bpf_run]. by rewrite Hp. Qed.
End Steps.

(** A run of comparisons that all jump to the same verdict. *)
Lemma bpf_chain prog d A (yes no : Z) (target : nat) ks : ∀ n pc,
  (length ks < n)%nat →
  (∀ i k, ks !! i = Some k → prog !! (pc + i)%nat = Some (JEQ_K k (target - S (pc + i)) 0) ∧
                            (pc + i < target)%nat) →
  prog !! (pc + length ks)%nat = Some (RET_K no) → prog !! target = Some (RET_K yes) →
  bpf_run n prog pc A d = Ok (if bool_decide (A ∈ ks) then yes else no).
Proof.
  induction ks as [|k ks IH]; intros n pc Hn Hks Hno Hyes; (destruct n as [|n]; [simpl in Hn; lia|]).
  - rewrite Nat.add_0_r in Hno. rewrite (bpf_ret _ _ _ _ _ no) by done. done.
  - destruct (Hks 0%nat k eq_refl) as [H0 Ht]. rewrite Nat.add_0_r in *.
    rewrite (bpf_jeq _ _ _ _ _ _ _ _ H0). cbn [length] in *.
    destruct (Z.eqb_spec A k) as [->|Hne].
    + rewrite bool_decide_true by (left). replace (S pc + (target - S pc))%nat with target by lia.
      destruct n as [|n]; [lia|]. by apply bpf_ret.
    + rewrite (IH n (S pc + 0)%nat); [|lia| | |done].
      * erewrite bool_decide_ext; [done|]. rewrite elem_of_cons. naive_solver.
      * intros i k' Hi. specialize (Hks (S i) k' Hi).
        by replace (S pc + 0 + i)%nat with (pc + S i)%nat by lia.
      * by replace (S pc + 0 + length ks)%nat with (pc + S (length ks))%nat by lia.
Qed.

(** The part of the filter after the checks of the instruction pointer. *)
Lemma filter_numbers n A d : data_ok d → (15 < n)%nat →
  bpf_run n filter 4 A (seccomp_data_bytes d) =
  Ok (if bool_decide (nr d ∈ trapped) then SECCOMP_RET_TRAP else SECCOMP_RET_ALLOW).
Proof.
  intros Hd Hl. destruct n as [|n]; [lia|]. destruct (load_nr d Hd) as (w & Hw & <-).
  erewrite bpf_load by (done || reflexivity).
  apply (bpf_chain _ _ _ _ _ 19); [simpl; lia| |done|done].
  intros i k Hi. pose proof (lookup_lt_Some _ _ _ Hi) as Hlt.
  do 13 (destruct i as [|i]; [injection Hi as <-; split; [done|lia]|]). simpl in Hlt. lia.
Qed.

(** The checks of the instruction pointer. *)
Lemma verdict_prefix d :
  data_ok d →
  if in_trampoline (instruction_pointer d) then verdict d = Ok SECCOMP_RET_ALLOW
  else ∃ n A, (15 < n)%nat ∧ verdict d = bpf_run n filter 4 A (seccomp_data_bytes d).
Proof.
  intros Hd. unfold verdict. change (sandbox_filter_prog.1) with 20%nat.
  change (sandbox_filter_prog.2) with filter.
  destruct (load_ip_low d) as (w & Hw & Hl). destruct (load_ip_high d Hd) as (w' & Hw' & Hh).
  rewrite in_trampoline_halves by apply Hd.
  erewrite bpf_load by (done || reflexivity). erewrite bpf_jge by reflexivity. rewrite Hl.
  destruct (4096 <=? _); cbn [negb andb].
  - eexists _, _. split; [|reflexivity]. lia.
  - erewrite bpf_load by (done || reflexivity). erewrite bpf_jeq by reflexivity. rewrite Hh.
    change (u32 (Z.shiftr TRAMPOLINE_ADDR 32)) with 8192.
    destruct (_ =? 8192); [by apply bpf_ret|]. eexists _, _. split; [|reflexivity]. lia.
Qed.

(** ** Properties *)

(** C10: the filter allows a system call from the trampoline page, traps the
    thirteen calls that the sandbox takes over when they come from elsewhere,
    and allows every other call; it always reaches a verdict. *)
Theorem filter_decides d :
  data_ok d →
  verdict d = Ok (if in_trampoline (instruction_pointer d) then SECCOMP_RET_ALLOW
                  else if bool_decide (nr d ∈ trapped) then SECCOMP_RET_TRAP
                  else SECCOMP_RET_ALLOW).
Proof.
  intros Hd. pose proof (verdict_prefix d Hd) as H.
  destruct (in_trampoline _); [done|]. destruct H as (n & A & Hn & ->). by apply filter_numbers.
Qed.

(** The calls that a sandboxed program can make in two ways. *)
Definition X32_SYSCALL_BIT : Z := 0x40000000.

Lemma x32_not_trapped n : n ∈ trapped →
  0 ≤ Z.lor n X32_SYSCALL_BIT < 2 ^ 32 ∧ Z.lor n X32_SYSCALL_BIT ∉ trapped.
Proof.
  unfold trapped. intros Ht.
  repeat (apply elem_of_cons in Ht as [->|Ht];
    [split; [by vm_compute|apply (bool_decide_unpack _); by vm_compute]|]).
  by apply not_elem_of_nil in Ht.
Qed.

(** The filter does not look at the architecture of a call, and the x32
    form of a call (bit 30 of its number set) is allowed, although the call
    that it stands for is trapped. *)
Theorem filter_allows_x32 d a :
  data_ok d → in_trampoline (instruction_pointer d) = false → nr d ∈ trapped →
  verdict (SeccompData (nr d) a (instruction_pointer d) (args d)) = Ok SECCOMP_RET_TRAP ∧
  verdict (SeccompData (Z.lor (nr d) X32_SYSCALL_BIT) a (instruction_pointer d) (args d)) =
    Ok SECCOMP_RET_ALLOW.
Proof.
  intros [Hn Hi] Hip Ht. destruct (x32_not_trapped _ Ht) as [Hx Hx'].
  split; [set (d' := SeccompData (nr d) _ _ _)|set (d' := SeccompData _ _ _ _)];
    assert (data_ok d') as Hd by (by split); pose proof (verdict_prefix d' Hd) as H;
    change (instruction_pointer d') with (instruction_pointer d) in H; rewrite Hip in H;
    destruct H as (n & A & Hl & ->); rewrite filter_numbers by done; subst d'; cbn [nr].
  - by rewrite bool_decide_true.
  - by rewrite bool_decide_false.
Qed.

(** ** Witnesses *)
Definition open_call : seccomp_data := SeccompData NR_open 0xc000003e 0x401000 [0; 0; 0; 0; 0; 0].
Lemma open_call_ok : data_ok open_call.
Proof. split; by vm_compute. Qed.

Lemma filter_decides_witness :
  verdict open_call = Ok SECCOMP_RET_TRAP ∧
  verdict (SeccompData NR_open 0xc000003e (TRAMPOLINE_ADDR + 25) []) = Ok SECCOMP_RET_ALLOW ∧
  verdict (SeccompData 39 0xc000003e 0x401000 []) = Ok SECCOMP_RET_ALLOW.
Proof.
  split_and!.
  - exact (filter_decides open_call open_call_ok).
  - exact (filter_decides (SeccompData NR_open 0xc000003e (TRAMPOLINE_ADDR + 25) [])
      ltac:(split; by vm_compute)).
  - exact (filter_decides (SeccompData 39 0xc000003e 0x401000 []) ltac:(split; by vm_compute)).
Defined.

Lemma filter_allows_x32_witness :
  verdict (SeccompData 0x40000002 0xc000003e 0x401000 [0; 0; 0; 0; 0; 0]) = Ok SECCOMP_RET_ALLOW.
Proof.
  refine (proj2 (filter_allows_x32 open_call 0xc000003e open_call_ok eq_refl _)).
  apply (bool_decide_unpack _). by vm_compute.
Defined.
