(* ===== verification/Machine.v ===== *)
(** * Registers, memory and instructions of the sandboxed process

    The signal handler of seccomp.cpp edits the saved registers of the
    interrupted code and lays out a stack frame for the assembly code of
    fakeframe-trampoline-x86_64.S.  This file has what both use: the
    registers ([gregs]), a byte-addressed memory, and the instructions that
    the assembly files are written in. *)

From stdpp Require Import functions.
From S2P Require Import Prelude.

Inductive greg :=
| R8 | R9 | R10 | R11 | R12 | R13 | R14 | R15
| RDI | RSI | RBP | RBX | RDX | RAX | RCX | RSP | RIP.
#[export] Instance greg_eq_dec : EqDecision greg.
Proof. solve_decision. Defined.

(** The values are unsigned 64-bit numbers. *)
Abbreviation gregs := (greg → Z).
Abbreviation memory := (gmap Z byte).

(** ** Memory accesses; an access outside the mapped memory is a fault. *)
Fixpoint mem_read (n : nat) (a : Z) (m : memory) : outcome (list byte) :=
  match n with
  | O => Ok []
  | S n =>
      match m !! a with
      | Some b => bs ← mem_read n (a + 1) m; Ok (b :: bs)
      | None => Fault (Undefined "read of unmapped memory")
      end
  end.
Fixpoint mem_write (a : Z) (bs : list byte) (m : memory) : outcome memory :=
  match bs with
  | [] => Ok m
  | b :: bs =>
      match m !! a with
      | Some _ => mem_write (a + 1) bs (<[a := b]> m)
      | None => Fault (Undefined "write to unmapped memory")
      end
  end.
Definition load64 (a : Z) (m : memory) : outcome Z := le_Z <$> mem_read 8 a m.
Definition store64 (a v : Z) (m : memory) : outcome memory := mem_write a (le_bytes 8 v) m.

(** The bytes from an address on: of a C string, and at most [n] bytes. *)
Fixpoint string_from (n : nat) (a : Z) (m : memory) : list byte :=
  match n with
  | O => []
  | S n =>
      match m !! a with
      | Some b => if decide (b = NUL) then [b] else b :: string_from n (a + 1) m
      | None => []
      end
  end.
Fixpoint mapped_from (n : nat) (a : Z) (m : memory) : list byte :=
  match n with
  | O => []
  | S n => match m !! a with Some b => b :: mapped_from n (a + 1) m | None => [] end
  end.

(** What [mmap] does to the memory: zeroed bytes. *)
Fixpoint map_zeros (n : nat) (a : Z) (m : memory) : memory :=
  match n with O => m | S n => map_zeros n (a + 1) (<[a := NUL]> m) end.

(** ** Instructions *)
Inductive instr :=
| POP (r : greg)
| PUSH (r : greg)
| MOV (src dst : greg)
| MOVI (imm : Z) (dst : greg)
| LOAD (off : Z) (base dst : greg)
| STORE (src : greg) (off : Z) (base : greg)
| SUBI (imm : Z) (dst : greg)
| SYSCALL_INSN
| RETQ.

Record cpu := Cpu { regs : gregs; ram : memory }.

Section Exec.
(** The system call instruction, as the kernel answers it. *)
Context (kernel : cpu → outcome cpu).

Definition exec1 (i : instr) (c : cpu) : outcome cpu :=
  let g := regs c in
  match i with
  | POP r =>
      v ← load64 (g RSP) (ram c);
      Ok (Cpu (<[r := v]> (<[RSP := u64 (g RSP + 8)]> g)) (ram c))
  | PUSH r =>
      m ← store64 (u64 (g RSP - 8)) (g r) (ram c);
      Ok (Cpu (<[RSP := u64 (g RSP - 8)]> g) m)
  | MOV src dst => Ok (Cpu (<[dst := g src]> g) (ram c))
  | MOVI imm dst => Ok (Cpu (<[dst := u64 imm]> g) (ram c))
  | LOAD off base dst =>
      v ← load64 (u64 (g base + off)) (ram c); Ok (Cpu (<[dst := v]> g) (ram c))
  | STORE src off base =>
      m ← store64 (u64 (g base + off)) (g src) (ram c); Ok (Cpu g m)
  | SUBI imm dst => Ok (Cpu (<[dst := u64 (g dst - imm)]> g) (ram c))
  | SYSCALL_INSN => kernel c
  | RETQ =>
      v ← load64 (g RSP) (ram c);
      Ok (Cpu (<[RIP := v]> (<[RSP := u64 (g RSP + 8)]> g)) (ram c))
  end.
Fixpoint exec (prog : list instr) (c : cpu) : outcome cpu :=
  match prog with
  | [] => Ok c
  | i :: prog => c ← exec1 i c; exec prog c
  end.
End Exec.

(** ** Lemmas *)
Definition mapped (m : memory) (a n : Z) : Prop := ∀ x, a ≤ x < a + n → is_Some (m !! x).
Definition bytes_at (m : memory) (a : Z) (bs : list byte) : Prop :=
  ∀ i b, bs !! i = Some b → m !! (a + Z.of_nat i) = Some b.
Definition word_at (m : memory) (a v : Z) : Prop := bytes_at m a (le_bytes 8 v).
Definition words_at (m : memory) (a : Z) (ws : list Z) : Prop :=
  ∀ i w, ws !! i = Some w → word_at m (a + 8 * Z.of_nat i) w.

(** Two memories that differ between [a] and [a + n] only, and are mapped
    alike. *)
Definition same_outside (a n : Z) (m m' : memory) : Prop :=
  (∀ x, ¬ (a ≤ x < a + n) → m' !! x = m !! x) ∧ (∀ x, is_Some (m !! x) ↔ is_Some (m' !! x)).

Lemma same_outside_refl a n m : same_outside a n m m.
Proof. split; naive_solver. Qed.
Lemma same_outside_trans a n m1 m2 m3 :
  same_outside a n m1 m2 → same_outside a n m2 m3 → same_outside a n m1 m3.
Proof.
  intros [H1 H2] [H3 H4]. split; [|naive_solver].
  intros x Hx. by rewrite H3, H1.
Qed.
Lemma same_outside_weaken a n b k m m' :
  same_outside a n m m' → b ≤ a → a + n ≤ b + k → same_outside b k m m'.
Proof. intros [H1 H2] Hb Hk. split; [|done]. intros x Hx. apply H1. lia. Qed.
Lemma mapped_same m m' a n b k : same_outside b k m m' → mapped m a n → mapped m' a n.
Proof. intros [_ H] Hm x Hx. apply H. by apply Hm. Qed.
Lemma mapped_part m a n b k : mapped m a n → a ≤ b → b + k ≤ a + n → mapped m b k.
Proof. intros H Hb Hk x Hx. apply H. lia. Qed.

Lemma bytes_at_cons m a b bs :
  bytes_at m a (b :: bs) ↔ m !! a = Some b ∧ bytes_at m (a + 1) bs.
Proof.
  split.
  - intros H. split.
    + specialize (H 0%nat b eq_refl). by rewrite Z.add_0_r in H.
    + intros i c Hi. specialize (H (S i) c Hi). by replace (a + 1 + Z.of_nat i) with (a + Z.of_nat (S i)) by lia.
  - intros [Hb H] [|i] c Hi; cbn in Hi.
    + injection Hi as ->. by rewrite Z.add_0_r.
    + specialize (H i c Hi). by replace (a + Z.of_nat (S i)) with (a + 1 + Z.of_nat i) by lia.
Qed.
Lemma bytes_at_same m m' a bs b n :
  same_outside b n m m' → bytes_at m a bs →
  a + Z.of_nat (length bs) ≤ b ∨ b + n ≤ a → bytes_at m' a bs.
Proof.
  intros [H _] Hm Hd i c Hi. rewrite H; [by apply Hm|].
  apply lookup_lt_Some in Hi. lia.
Qed.

Lemma mem_read_bytes m bs : ∀ a, bytes_at m a bs → mem_read (length bs) a m = Ok bs.
Proof.
  induction bs as [|b bs IH]; intros a H; [done|]. apply bytes_at_cons in H as [Hb H].
  cbn [length mem_read]. rewrite Hb, IH by done. done.
Qed.
Lemma mem_write_bytes bs : ∀ m a,
  mapped m a (Z.of_nat (length bs)) →
  ∃ m', mem_write a bs m = Ok m' ∧ bytes_at m' a bs ∧
        same_outside a (Z.of_nat (length bs)) m m'.
Proof.
  induction bs as [|b bs IH]; intros m a Hm.
  - exists m. split_and!; [done|done|apply same_outside_refl].
  - cbn [length mem_write] in *. destruct (Hm a ltac:(lia)) as [c Hc]. rewrite Hc.
    assert (same_outside a 1 m (<[a := b]> m)) as Hs.
    { split; intros x; [intros Hx; by rewrite lookup_insert_ne by lia|].
      destruct (decide (x = a)) as [->|Hne]; [by rewrite Hc, lookup_insert_eq|].
      by rewrite lookup_insert_ne. }
    destruct (IH (<[a := b]> m) (a + 1)) as (m' & Hw & Hb & Ho).
    { eapply mapped_same; [exact Hs|]. eapply mapped_part; [exact Hm|lia|lia]. }
    exists m'. split_and!; [done| |].
    + apply bytes_at_cons. split; [|done]. destruct Ho as [Ho _].
      rewrite Ho by lia. by rewrite lookup_insert_eq.
    + eapply same_outside_trans; eapply same_outside_weaken; try done; lia.
Qed.

Lemma load64_word m a v : word_at m a v → load64 a m = Ok (u64 v).
Proof.
  intros H. unfold load64. apply mem_read_bytes in H. rewrite length_le_bytes in H.
  rewrite H. ostep. by rewrite le_Z_le_bytes.
Qed.
Lemma store64_word m a v : mapped m a 8 →
  ∃ m', store64 a v m = Ok m' ∧ word_at m' a v ∧ same_outside a 8 m m'.
Proof.
  intros H. unfold store64. pose proof (mem_write_bytes (le_bytes 8 v) m a) as Hw.
  rewrite length_le_bytes in Hw. by apply Hw.
Qed.

Lemma word_at_same m m' a v b n :
  same_outside b n m m' → word_at m a v → a + 8 ≤ b ∨ b + n ≤ a → word_at m' a v.
Proof. intros Hs Hw Hd. eapply bytes_at_same; [done|done|]. by rewrite length_le_bytes. Qed.
Lemma words_at_same m m' a ws b n :
  same_outside b n m m' → words_at m a ws →
  a + 8 * Z.of_nat (length ws) ≤ b ∨ b + n ≤ a → words_at m' a ws.
Proof.
  intros Hs Hw Hd i w Hi. pose proof (lookup_lt_Some _ _ _ Hi).
  eapply word_at_same; [done|by apply Hw|lia].
Qed.
Lemma words_at_nil m a : words_at m a [].
Proof. by intros i w Hi. Qed.
Lemma words_at_cons m a w ws :
  words_at m a (w :: ws) ↔ word_at m a w ∧ words_at m (a + 8) ws.
Proof.
  split.
  - intros H. split.
    + specialize (H 0%nat w eq_refl). by rewrite Z.mul_0_r, Z.add_0_r in H.
    + intros i v Hi. specialize (H (S i) v Hi). by replace (a + 8 + 8 * Z.of_nat i) with (a + 8 * Z.of_nat (S i)) by lia.
  - intros [Hb H] [|i] v Hi; cbn in Hi.
    + injection Hi as ->. by rewrite Z.mul_0_r, Z.add_0_r.
    + specialize (H i v Hi). by replace (a + 8 * Z.of_nat (S i)) with (a + 8 + 8 * Z.of_nat i) by lia.
Qed.
Lemma words_at_load m a ws i w :
  words_at m a ws → ws !! i = Some w → load64 (a + 8 * Z.of_nat i) m = Ok (u64 w).
Proof. intros H Hi. by apply load64_word, H. Qed.

Lemma string_from_bytes m s : ∀ n a,
  NUL ∉ s → bytes_at m a (s ++ [NUL]) → (length s < n)%nat → string_from n a m = s ++ [NUL].
Proof.
  induction s as [|b s IH]; intros n a Hs Hm Hn; (destruct n as [|n]; [simpl in Hn; lia|]);
    cbn [app] in Hm; apply bytes_at_cons in Hm as [Hb Hm]; cbn [string_from]; rewrite Hb.
  - done.
  - apply not_elem_of_cons in Hs as [Hne Hs]. rewrite decide_False by done.
    cbn [length] in Hn. rewrite IH by (done || lia). done.
Qed.

Lemma map_zeros_lookup n : ∀ a m x,
  map_zeros n a m !! x = if decide (a ≤ x < a + Z.of_nat n) then Some NUL else m !! x.
Proof.
  induction n as [|n IH]; intros a m x; cbn [map_zeros].
  - rewrite decide_False by lia. done.
  - rewrite IH. destruct (decide (x = a)) as [->|Hne].
    + rewrite decide_False, decide_True, lookup_insert_eq by lia. done.
    + rewrite lookup_insert_ne by done. by apply decide_ext; lia.
Qed.

Lemma map_zeros_mapped n a m b k : a ≤ b → b + k ≤ a + Z.of_nat n → mapped (map_zeros n a m) b k.
Proof. intros Hb Hk x Hx. rewrite map_zeros_lookup, decide_True by lia. by eexists. Qed.
Lemma map_zeros_keeps n a m b k : mapped m b k → mapped (map_zeros n a m) b k.
Proof.
  intros Hm x Hx. rewrite map_zeros_lookup. destruct (decide _); [by eexists|by apply Hm].
Qed.

(** The mapped addresses are at most as many as the map has entries. *)
Lemma mapped_size m a n : 0 ≤ n → mapped m a n → n ≤ Z.of_nat (base.size m).
Proof.
  intros Hn Hm. rewrite <-size_dom.
  assert (base.size (list_to_set (C:=gset Z) (seqZ a n)) = Z.to_nat n) as Hs
    by (rewrite size_list_to_set by apply NoDup_seqZ; by rewrite length_seqZ).
  assert ((Z.to_nat n ≤ base.size (dom m))%nat); [|lia]. rewrite <-Hs.
  apply subseteq_size. intros x Hx%elem_of_list_to_set%elem_of_seqZ. apply elem_of_dom. apply Hm. lia.
Qed.
Lemma bytes_mapped m a (v : list byte) n : bytes_at m a v → length v = n → mapped m a (Z.of_nat n).
Proof.
  intros Hb Hn x Hx. destruct (v !! Z.to_nat (x - a)) as [b|] eqn:Hv.
  - apply Hb in Hv. exists b. rewrite <-Hv. f_equal. lia.
  - apply lookup_ge_None in Hv. lia.
Qed.
Lemma bytes_at_app m a b c : bytes_at m a (b ++ c) ↔ bytes_at m a b ∧ bytes_at m (a + Z.of_nat (length b)) c.
Proof.
  revert a. induction b as [|x b IH]; intros a; cbn [app].
  - rewrite Z.add_0_r. split; [split; [by intros i y|done]|by intros [_ H]].
  - rewrite !bytes_at_cons, IH. cbn [length].
    replace (a + Z.of_nat (S (length b))) with (a + 1 + Z.of_nat (length b)) by lia. tauto.
Qed.
Lemma words_at_app m a b c : words_at m a (b ++ c) ↔ words_at m a b ∧ words_at m (a + 8 * Z.of_nat (length b)) c.
Proof.
  revert a. induction b as [|x b IH]; intros a; cbn [app].
  - rewrite Z.mul_0_r, Z.add_0_r. split; [by split; [apply words_at_nil|]|by intros [_ H]].
  - rewrite !words_at_cons, IH. cbn [length].
    replace (a + 8 * Z.of_nat (S (length b))) with (a + 8 + 8 * Z.of_nat (length b)) by lia. tauto.
Qed.
Lemma words_mapped m a ws : words_at m a ws → mapped m a (8 * Z.of_nat (length ws)).
Proof.
  revert a. induction ws as [|w ws IH]; intros a H x Hx; [cbn in Hx; lia|].
  apply words_at_cons in H as [Hw H]. cbn [length] in Hx.
  destruct (decide (x < a + 8)) as [Hlt|Hge].
  - apply (bytes_mapped _ _ _ 8 Hw (length_le_bytes 8 w)). lia.
  - apply (IH (a + 8) H). lia.
Qed.

Lemma bytes_at_read m bs : ∀ a, mem_read (length bs) a m = Ok bs → bytes_at m a bs.
Proof.
  induction bs as [|b bs IH]; intros a H; [by intros i y|]. cbn [length mem_read] in H.
  destruct (m !! a) as [c|] eqn:Hc; [|done]. inv_ok H. apply bytes_at_cons. by eauto.
Qed.
Lemma words_at_bytes m ws : ∀ a, bytes_at m a (concat (map (le_bytes 8) ws)) → words_at m a ws.
Proof.
  induction ws as [|w ws IH]; intros a H; [apply words_at_nil|]. cbn [map concat] in H.
  apply bytes_at_app in H as [Hw H]. rewrite length_le_bytes in H. apply words_at_cons. by eauto.
Qed.

(** Memories that agree where [R] holds. *)
Definition keeps (R : Z → Prop) (m m' : memory) : Prop := ∀ x, R x → m' !! x = m !! x.
Lemma keeps_refl R m : keeps R m m.
Proof. by intros x. Qed.
Lemma keeps_trans R m1 m2 m3 : keeps R m1 m2 → keeps R m2 m3 → keeps R m1 m3.
Proof. intros H1 H2 x Hx. by rewrite H2, H1. Qed.
Lemma keeps_bytes R m m' a bs : keeps R m m' → bytes_at m a bs →
  (∀ x, a ≤ x < a + Z.of_nat (length bs) → R x) → bytes_at m' a bs.
Proof.
  intros Hk Hb HR i b Hi. rewrite Hk; [by apply Hb|]. apply HR. apply lookup_lt_Some in Hi. lia.
Qed.
Lemma keeps_words R m m' a ws : keeps R m m' → words_at m a ws →
  (∀ x, a ≤ x < a + 8 * Z.of_nat (length ws) → R x) → words_at m' a ws.
Proof.
  intros Hk Hw HR i w Hi. pose proof (lookup_lt_Some _ _ _ Hi).
  eapply keeps_bytes; [exact Hk|by apply Hw|]. rewrite length_le_bytes. intros x Hx. apply HR. lia.
Qed.
