(* ===== verification/Tinylibc.v ===== *)
(** * The C library of the sandbox (sandbox/tinylibc.cpp)

    The sandbox runs inside programs and cannot use their libc.  The routines
    work on the memory of the process byte by byte; the wrappers make their
    system calls through the trampoline, which the filter lets pass.  The
    trampoline and the kernel behind it are the interface [trampoline_os]. *)

From stdpp Require Import functions.
From S2P Require Import Prelude Machine.

(** [td__syscall_trampo(number, ...)] may read and write the process's memory. *)
Class trampoline_os (E : Type) := { trampo : Z → list Z → ST (memory * E) Z }.

Definition NR_write : Z := 1.
Definition NR_close : Z := 3.
Definition NR_mmap : Z := 9.
Definition NR_rt_sigaction : Z := 13.
Definition NR_dup2 : Z := 33.
Definition NR_getpid : Z := 39.
Definition NR_sendmsg : Z := 46.
Definition NR_recvmsg : Z := 47.
Definition NR_socketpair : Z := 53.
Definition NR_exit : Z := 60.
Definition NR_fcntl : Z := 72.
Definition NR_prctl : Z := 157.
Definition NR_seccomp : Z := 317.
Definition SA_RESTORER : Z := 0x4000000.

(** ** Memory routines *)
Definition load8 (a : Z) (m : memory) : outcome byte :=
  match m !! a with Some b => Ok b | None => Fault (Undefined "read of unmapped memory") end.
Definition store8 (a : Z) (b : byte) (m : memory) : outcome memory := mem_write a [b] m.

(** The loop of [memcpy]; the result is [d] at the end. *)
Fixpoint memcpy_loop (n : nat) (d s : Z) (m : memory) : outcome (Z * memory) :=
  match n with
  | O => Ok (d, m)
  | S n =>
      b ← load8 s m;
      m ← store8 d b m;
      memcpy_loop n (d + 1) (s + 1) m
  end.
Definition memcpy (dest src n : Z) (m : memory) : outcome (Z * memory) := memcpy_loop (Z.to_nat n) dest src m.

(** [n] is signed; the loop's counter is an [int]. *)
Fixpoint bzero_loop (n : nat) (p : Z) (m : memory) : outcome memory :=
  match n with
  | O => Ok m
  | S n => m ← store8 p NUL m; bzero_loop n (p + 1) m
  end.
Definition bzero (s n : Z) (m : memory) : outcome memory :=
  if 2 ^ 31 <=? n then Fault (Undefined "signed overflow") else bzero_loop (Z.to_nat n) s m.

(** The [while] over the bytes, with an [int] counter.  A string is mapped memory,
    so the walk visits fewer addresses than the memory has. *)
Fixpoint strlen_loop (n : nat) (s count : Z) (m : memory) : outcome Z :=
  match n with
  | O => Fault (Undefined "no end of string")
  | S n =>
      b ← load8 s m;
      if decide (b = NUL) then Ok count else
      if count =? 2 ^ 31 - 1 then Fault (Undefined "signed overflow") else
      strlen_loop n (s + 1) (count + 1) m
  end.
Definition strlen (s : Z) (m : memory) : outcome Z :=
  if s =? 0 then Ok 0 else strlen_loop (S (base.size m)) s 0 m.

(** ** System calls *)
Section Calls.
Context {E : Type} `{Os : trampoline_os E}.
Definition M : Type → Type := ST (memory * E).

Definition in_mem {A} (f : memory → outcome (A * memory)) : M A := fun s =>
  match f s.1 with Ok (a, m) => Ok (a, (m, s.2)) | Fault e => Fault e end.
Definition get_mem {A} (f : memory → outcome A) : M A := in_mem (fun m => a ← f m; Ok (a, m)).
Definition set_mem (f : memory → outcome memory) : M unit := in_mem (fun m => m ← f m; Ok (tt, m)).

(** The wrappers that return the [long] of the trampoline, and those that return
    it as an [int]. *)
Definition SYSCALL : Z → list Z → M Z := trampo.
Definition int_call (number : Z) (args : list Z) : M Z := r ← SYSCALL number args; mret (s32 r).

Definition mmap (addr length prot flags fd offset : Z) : M Z := SYSCALL NR_mmap [addr; length; prot; flags; fd; offset].
Definition write (fd buf count : Z) : M Z := SYSCALL NR_write [fd; buf; count].
(** [arg3 = arg4 = arg5 = 0;] *)
Definition prctl (option arg2 arg3 arg4 arg5 : Z) : M Z := int_call NR_prctl [option; arg2; 0; 0; 0].
Definition seccomp (operation flags args : Z) : M Z := int_call NR_seccomp [operation; flags; args].
Definition close (fd : Z) : M Z := int_call NR_close [fd].
Definition socketpair (domain type protocol sv : Z) : M Z := int_call NR_socketpair [domain; type; protocol; sv].
Definition sendmsg (sockfd msg flags : Z) : M Z := int_call NR_sendmsg [sockfd; msg; flags].
Definition recvmsg (sockfd msg flags : Z) : M Z := SYSCALL NR_recvmsg [sockfd; msg; flags].
Definition dup2 (oldfd newfd : Z) : M Z := int_call NR_dup2 [oldfd; newfd].
Definition fcntl (fd cmd v : Z) : M Z := int_call NR_fcntl [fd; cmd; v].
Definition getpid : M Z := int_call NR_getpid [].
Definition abort : M unit := SYSCALL NR_exit [255] ;; mret tt.

(** [text] is the address of the literal [" error\n"]. *)
Definition perror (text s : Z) : M unit :=
  n ← get_mem (strlen s);
  write 1 s n ;;
  write 1 text 7 ;;
  mret tt.

(** *** sigaction *)
(** [kact] and [koldact] are the addresses of the local structures: handler,
    flags, restorer and mask, 8 bytes each. *)
Definition sigaction (sig_trampoline kact koldact signum act oldact : Z) : M Z :=
  (if negb (act =? 0) then
     h ← get_mem (load64 act);
     set_mem (store64 kact h) ;;
     fl ← get_mem (load64 (act + 8));
     set_mem (store64 (kact + 8) (Z.lor fl SA_RESTORER)) ;;
     set_mem (store64 (kact + 16) sig_trampoline) ;;
     mask ← get_mem (load64 (act + 24));
     set_mem (store64 (kact + 24) mask)
   else mret tt) ;;
  r ← SYSCALL NR_rt_sigaction
        [signum; if act =? 0 then 0 else kact; if oldact =? 0 then 0 else koldact; 8];
  (if negb (oldact =? 0) then
     h ← get_mem (load64 koldact);
     set_mem (store64 oldact h) ;;
     fl ← get_mem (load64 (koldact + 8));
     set_mem (store64 (oldact + 8) fl) ;;
     rest ← get_mem (load64 (koldact + 16));
     set_mem (store64 (oldact + 16) rest)
   else mret tt) ;;
  mret (s32 r).

(** *** printptr *)
Definition hex_digit (v : Z) : byte := byte_of_Z (if v <? 10 then 48 + v else 97 + (v - 10)).
(** [for (auto i = 60; i >= 0; i -= 4)] *)
Fixpoint print_digits (n : nat) (i bidx buf addr : Z) (m : memory) : outcome memory :=
  match n with
  | O => Ok m
  | S n =>
      if i <? 0 then Ok m else
      m ← store8 (buf + bidx) (hex_digit (Z.land 0xf (Z.shiftr addr i))) m;
      print_digits n (i - 4) (bidx + 1) buf addr m
  end.
(** [buf] is the address of the local array. *)
Definition printptr (buf p : Z) : M unit :=
  let addr := s64 p in
  set_mem (fun m =>
    m ← store8 buf (byte_of_Z 48) m;
    m ← store8 (buf + 1) (byte_of_Z 120) m;
    m ← store8 (buf + 18) (byte_of_Z 10) m;
    print_digits 17 60 2 buf addr m) ;;
  write 1 buf 19 ;;
  mret tt.
End Calls.

(** ** What they do *)
Lemma load8_at m a b bs : bytes_at m a (b :: bs) → load8 a m = Ok b.
Proof. intros [H _]%bytes_at_cons. unfold load8. by rewrite H. Qed.
Lemma store8_step a b m : mapped m a 1 →
  ∃ m', store8 a b m = Ok m' ∧ m' !! a = Some b ∧ same_outside a 1 m m'.
Proof.
  intros H. destruct (mem_write_bytes [b] m a H) as (m' & Hw & [Hb _]%bytes_at_cons & Ho). by exists m'.
Qed.

(** Copying forwards is right when no byte is overwritten before it is read. *)
Lemma memcpy_loop_spec bs : ∀ d s m,
  bytes_at m s bs → mapped m d (Z.of_nat (length bs)) →
  d ≤ s ∨ s + Z.of_nat (length bs) ≤ d →
  ∃ m', memcpy_loop (length bs) d s m = Ok (d + Z.of_nat (length bs), m') ∧
    bytes_at m' d bs ∧ same_outside d (Z.of_nat (length bs)) m m'.
Proof.
  induction bs as [|b bs IH]; intros d s m Hs Hd Ho.
  { exists m. rewrite Z.add_0_r. split; [done|]. split; [by intros i c|apply same_outside_refl]. }
  cbn [memcpy_loop length] in *. rewrite (load8_at _ _ _ _ Hs). ostep.
  apply bytes_at_cons in Hs as [_ Hs].
  destruct (store8_step d b m) as (m1 & Hw & Hb & Ho1); [eapply mapped_part; [exact Hd|lia|lia]|].
  rewrite Hw. ostep.
  assert (bytes_at m1 (s + 1) bs) as Hs1.
  { destruct bs as [|c bs]; [by intros i x|]. eapply bytes_at_same; [exact Ho1|done|]. cbn [length] in *. lia. }
  destruct (IH (d + 1) (s + 1) m1 Hs1) as (m2 & Hrun & Hb2 & Ho2).
  { eapply mapped_same; [exact Ho1|]. eapply mapped_part; [exact Hd|lia|lia]. }
  { lia. }
  exists m2. split; [rewrite Hrun; do 2 f_equal; lia|]. split.
  - apply bytes_at_cons. split; [|done]. destruct Ho2 as [Ho2 _]. rewrite Ho2 by lia. done.
  - eapply same_outside_trans; eapply same_outside_weaken; [exact Ho1|lia|lia|exact Ho2|lia|lia].
Qed.

(** [memcpy] has the effect of the block copies of the other models: it
    leaves at [dest] the bytes that were at [src], also when [dest] is below
    [src] and the two overlap, and changes nothing else.  Its result is
    [dest + n], where that of the C library is [dest]. *)
Theorem memcpy_copies m dest src bs :
  bytes_at m src bs → mapped m dest (Z.of_nat (length bs)) →
  dest ≤ src ∨ src + Z.of_nat (length bs) ≤ dest →
  ∃ m', memcpy dest src (Z.of_nat (length bs)) m = Ok (dest + Z.of_nat (length bs), m') ∧
    bytes_at m' dest bs ∧ same_outside dest (Z.of_nat (length bs)) m m'.
Proof. intros Hs Hd Ho. unfold memcpy. rewrite Nat2Z.id. by apply memcpy_loop_spec. Qed.

Lemma bzero_loop_spec n : ∀ p m, mapped m p (Z.of_nat n) →
  ∃ m', bzero_loop n p m = Ok m' ∧ bytes_at m' p (replicate n NUL) ∧ same_outside p (Z.of_nat n) m m'.
Proof.
  induction n as [|n IH]; intros p m Hm.
  { exists m. split; [done|]. split; [by intros i c|apply same_outside_refl]. }
  cbn [bzero_loop replicate].
  destruct (store8_step p NUL m) as (m1 & Hw & Hb & Ho1); [eapply mapped_part; [exact Hm|lia|lia]|].
  rewrite Hw. ostep. destruct (IH (p + 1) m1) as (m2 & Hrun & Hb2 & Ho2).
  { eapply mapped_same; [exact Ho1|]. eapply mapped_part; [exact Hm|lia|lia]. }
  exists m2. split; [done|]. split.
  - apply bytes_at_cons. split; [|done]. destruct Ho2 as [Ho2 _]. rewrite Ho2 by lia. done.
  - eapply same_outside_trans; eapply same_outside_weaken; [exact Ho1|lia|lia|exact Ho2|lia|lia].
Qed.
Lemma bzero_clears m s n : n < 2 ^ 31 → mapped m s n →
  ∃ m', bzero s n m = Ok m' ∧ bytes_at m' s (replicate (Z.to_nat n) NUL) ∧ same_outside s (Z.max 0 n) m m'.
Proof.
  intros Hn Hm. unfold bzero. destruct (Z.leb_spec (2 ^ 31) n); [lia|].
  replace (Z.max 0 n) with (Z.of_nat (Z.to_nat n)) by lia. apply bzero_loop_spec.
  intros x Hx. apply Hm. lia.
Qed.

Lemma strlen_loop_spec str : ∀ n s count m, NUL ∉ str → bytes_at m s (str ++ [NUL]) → (length str < n)%nat →
  0 ≤ count → count + Z.of_nat (length str) < 2 ^ 31 →
  strlen_loop n s count m = Ok (count + Z.of_nat (length str)).
Proof.
  induction str as [|b str IH]; intros [|n] s count m Hnul Hb Hn Hc Hlen; cbn [length strlen_loop app] in *; [lia| |lia|].
  - rewrite (load8_at _ _ _ _ Hb). ostep. rewrite decide_True by done. by rewrite Z.add_0_r.
  - rewrite (load8_at _ _ _ _ Hb). ostep. apply not_elem_of_cons in Hnul as [Hne Hnul].
    rewrite decide_False by done. destruct (Z.eqb_spec count (2 ^ 31 - 1)); [lia|].
    apply bytes_at_cons in Hb as [_ Hb]. rewrite (IH n (s + 1) (count + 1) m) by (done || lia). f_equal. lia.
Qed.
(** [strlen] is that of the models, on any string of less than 2 GiB. *)
Lemma strlen_counts m s str : s ≠ 0 → NUL ∉ str → bytes_at m s (str ++ [NUL]) → Z.of_nat (length str) < 2 ^ 31 →
  strlen s m = Ok (Prelude.strlen (str ++ [NUL])).
Proof.
  intros Hs Hnul Hb Hlen. unfold strlen. destruct (Z.eqb_spec s 0); [done|].
  pose proof (bytes_mapped m s _ _ Hb eq_refl) as Hm. apply mapped_size in Hm; [|lia].
  rewrite length_app in Hm. cbn [length] in Hm.
  rewrite (strlen_loop_spec str) by (done || lia). by rewrite strlen_app.
Qed.

(** *** printptr *)
Definition digit_of (b : byte) : Z := let z := Z_of_byte b in if z <? 97 then z - 48 else z - 97 + 10.
(** The number that hexadecimal digits stand for. *)
Definition hex_value (ds : list byte) : Z := fold_left (fun v d => 16 * v + digit_of d) ds 0.
Definition hex_digits (n : nat) (addr : Z) : list byte :=
  map (fun k => hex_digit (Z.land 0xf (Z.shiftr addr (4 * Z.of_nat k)))) (rev (seq 0 n)).

Lemma digit_of_hex v : 0 ≤ v < 16 → digit_of (hex_digit v) = v.
Proof.
  intros H. apply Z.eqb_eq.
  exact (forall_below (fun v => digit_of (hex_digit v) =? v) 0 16 ltac:(vm_compute; reflexivity) v ltac:(lia)).
Qed.
Lemma nibble_range z : 0 ≤ Z.land 0xf z < 16.
Proof. rewrite Z.land_comm. change 0xf with (Z.ones 4). rewrite Z.land_ones by lia. apply Z.mod_pos_bound. lia. Qed.
Lemma hex_digits_S n addr :
  hex_digits (S n) addr = hex_digit (Z.land 0xf (Z.shiftr addr (4 * Z.of_nat n))) :: hex_digits n addr.
Proof. unfold hex_digits. by rewrite seq_S, rev_app_distr. Qed.
Lemma length_hex_digits n addr : length (hex_digits n addr) = n.
Proof. unfold hex_digits. by rewrite length_map, length_rev, length_seq. Qed.
Lemma hex_fold n addr : ∀ v,
  fold_left (fun v d => 16 * v + digit_of d) (hex_digits n addr) v = 16 ^ Z.of_nat n * v + addr mod 16 ^ Z.of_nat n.
Proof.
  induction n as [|n IH]; intros v.
  - cbn. rewrite Z.mod_1_r. lia.
  - rewrite hex_digits_S. cbn [fold_left]. rewrite IH, digit_of_hex by apply nibble_range.
    rewrite Nat2Z.inj_succ, Z.pow_succ_r by lia.
    rewrite Z.land_comm. change 0xf with (Z.ones 4). rewrite Z.land_ones, Z.shiftr_div_pow2 by lia.
    replace (2 ^ (4 * Z.of_nat n)) with (16 ^ Z.of_nat n) by (rewrite Z.pow_mul_r by lia; done). change (2 ^ 4) with 16.
    rewrite (Z.mul_comm 16 (16 ^ Z.of_nat n)), Z.rem_mul_r by lia. lia.
Qed.
Lemma hex_value_digits addr : hex_value (hex_digits 16 (s64 addr)) = u64 addr.
Proof.
  unfold hex_value. rewrite hex_fold. change (16 ^ Z.of_nat 16) with (2 ^ 64).
  change (u64 (s64 addr) = u64 addr).
  unfold s64, u64. destruct (Z.ltb_spec (addr mod 2 ^ 64) (2 ^ 63)) as [_|_]; [by apply Z.mod_mod|].
  replace (addr mod 2 ^ 64 - 2 ^ 64) with (addr mod 2 ^ 64 + (-1) * 2 ^ 64) by lia.
  rewrite Z.mod_add by done. by apply Z.mod_mod.
Qed.

Lemma print_digits_spec buf addr k : ∀ n bidx m, (k < n)%nat → mapped m (buf + bidx) (Z.of_nat k) →
  ∃ m', print_digits n (4 * Z.of_nat k - 4) bidx buf addr m = Ok m' ∧
    bytes_at m' (buf + bidx) (hex_digits k addr) ∧ same_outside (buf + bidx) (Z.of_nat k) m m'.
Proof.
  induction k as [|k IH]; intros [|n] bidx m Hn Hm; [lia| |lia|]; cbn [print_digits].
  - exists m. split; [done|]. split; [by intros i c|apply same_outside_refl].
  - destruct (Z.ltb_spec (4 * Z.of_nat (S k) - 4) 0); [lia|].
    destruct (store8_step (buf + bidx) (hex_digit (Z.land 0xf (Z.shiftr addr (4 * Z.of_nat (S k) - 4)))) m)
      as (m1 & Hw & Hb & Ho1); [eapply mapped_part; [exact Hm|lia|lia]|].
    rewrite Hw. ostep. replace (4 * Z.of_nat (S k) - 4 - 4) with (4 * Z.of_nat k - 4) by lia.
    replace (buf + (bidx + 1)) with (buf + bidx + 1) in * by lia.
    destruct (IH n (bidx + 1) m1) as (m2 & Hrun & Hb2 & Ho2); [lia| |].
    { eapply mapped_same; [exact Ho1|]. eapply mapped_part; [exact Hm|lia|lia]. }
    replace (buf + (bidx + 1)) with (buf + bidx + 1) in * by lia.
    exists m2. split; [exact Hrun|]. split.
    + rewrite hex_digits_S. apply bytes_at_cons. split; [|exact Hb2]. destruct Ho2 as [Ho2 _]. rewrite Ho2 by lia.
      rewrite Hb. do 4 f_equal. lia.
    + eapply same_outside_trans; eapply same_outside_weaken; [exact Ho1|lia|lia|exact Ho2|lia|lia].
Qed.

Section Results.
Context {E : Type} `{Os : trampoline_os E}.

(** [printptr] writes ["0x"], sixteen digits whose value is the pointer, and a
    newline, to descriptor 1, from its own array. *)
Lemma printptr_writes buf p m (e : E) : mapped m buf 19 →
  ∃ m', printptr buf p (m, e) = (write 1 buf 19 ;; mret tt) (m', e) ∧
    bytes_at m' buf (map byte_of_Z [48; 120] ++ hex_digits 16 (s64 p) ++ [byte_of_Z 10]) ∧
    hex_value (hex_digits 16 (s64 p)) = u64 p ∧ same_outside buf 19 m m'.
Proof.
  intros Hm.
  destruct (store8_step buf (byte_of_Z 48) m) as (m1 & Hw1 & Hb1 & Ho1); [eapply mapped_part; [exact Hm|lia|lia]|].
  pose proof (mapped_same _ _ _ _ _ _ Ho1 Hm) as Hm1.
  destruct (store8_step (buf + 1) (byte_of_Z 120) m1) as (m2 & Hw2 & Hb2 & Ho2); [eapply mapped_part; [exact Hm1|lia|lia]|].
  pose proof (mapped_same _ _ _ _ _ _ Ho2 Hm1) as Hm2.
  destruct (store8_step (buf + 18) (byte_of_Z 10) m2) as (m3 & Hw3 & Hb3 & Ho3); [eapply mapped_part; [exact Hm2|lia|lia]|].
  pose proof (mapped_same _ _ _ _ _ _ Ho3 Hm2) as Hm3.
  destruct (print_digits_spec buf (s64 p) 16 17 2 m3) as (m4 & Hrun & Hb4 & Ho4); [lia|eapply mapped_part; [exact Hm3|lia|lia]|].
  exists m4. split; [|split; [|split; [apply hex_value_digits|]]].
  - unfold printptr. cbv zeta. rewrite (ST_bind_step _ (set_mem _) (m, e) tt (m4, e)); [done|].
    unfold set_mem, in_mem. cbn [fst snd]. rewrite Hw1. ostep. rewrite Hw2. ostep. rewrite Hw3. ostep.
    change (4 * Z.of_nat 16 - 4) with 60 in Hrun. by rewrite Hrun.
  - cbn [map app]. destruct Ho4 as [Ho4 _], Ho3 as [Ho3 _], Ho2 as [Ho2 _].
    apply bytes_at_cons. split; [by rewrite Ho4, Ho3, Ho2 by lia|].
    apply bytes_at_cons. split; [by rewrite Ho4, Ho3 by lia|].
    apply bytes_at_app. rewrite length_hex_digits.
    replace (buf + 1 + 1) with (buf + 2) by lia. split; [done|].
    replace (buf + 2 + Z.of_nat 16) with (buf + 18) by lia. apply bytes_at_cons. split; [by rewrite Ho4 by lia|]. by intros i c.
  - eapply same_outside_trans; [eapply same_outside_weaken; [exact Ho1|lia|lia]|].
    eapply same_outside_trans; [eapply same_outside_weaken; [exact Ho2|lia|lia]|].
    eapply same_outside_trans; eapply same_outside_weaken; [exact Ho3|lia|lia|exact Ho4|lia|lia].
Qed.

Lemma load64_step m (e : E) a v : word_at m a v → get_mem (load64 a) (m, e) = Ok (u64 v, (m, e)).
Proof. intros H. unfold get_mem, in_mem. cbn [fst snd]. by rewrite (load64_word m a v H). Qed.
Lemma store64_step m (e : E) a v : mapped m a 8 →
  ∃ m', set_mem (store64 a v) (m, e) = Ok (tt, (m', e)) ∧ word_at m' a v ∧ same_outside a 8 m m'.
Proof.
  intros H. destruct (store64_word m a v H) as (m' & Hw & Hv & Ho). exists m'. split; [|done].
  unfold set_mem, in_mem. cbn [fst snd]. by rewrite Hw.
Qed.

(** [sigaction] hands the kernel the handler, mask and flags it is given,
    with [SA_RESTORER] and the sandbox's [sig_trampoline] added, in a structure
    of its own, and changes nothing else before the call; its result is that of
    the kernel. *)
Theorem sigaction_installs (trampoline kact koldact signum act h fl rest mask : Z) m (e : E) :
  act ≠ 0 → words_at m act [h; fl; rest; mask] → mapped m kact 32 → act + 32 ≤ kact ∨ kact + 32 ≤ act →
  ∃ m', sigaction trampoline kact koldact signum act 0 (m, e) =
      (r ← SYSCALL NR_rt_sigaction [signum; kact; 0; 8]; mret (s32 r)) (m', e) ∧
    words_at m' kact [u64 h; Z.lor (u64 fl) SA_RESTORER; trampoline; u64 mask] ∧ same_outside kact 32 m m'.
Proof.
  intros Ha Hw Hm Hd.
  apply words_at_cons in Hw as [H0 [H1 [_ [H3 _]%words_at_cons]%words_at_cons]%words_at_cons].
  replace (act + 8 + 8 + 8) with (act + 24) in H3 by lia.
  destruct (store64_step m e kact (u64 h)) as (m1 & R1 & W1 & O1); [eapply mapped_part; [exact Hm|lia|lia]|].
  pose proof (mapped_same _ _ _ _ _ _ O1 Hm) as Hm1. apply (word_at_same _ _ _ _ _ _ O1) in H1, H3; [|lia..].
  destruct (store64_step m1 e (kact + 8) (Z.lor (u64 fl) SA_RESTORER)) as (m2 & R2 & W2 & O2); [eapply mapped_part; [exact Hm1|lia|lia]|].
  pose proof (mapped_same _ _ _ _ _ _ O2 Hm1) as Hm2. apply (word_at_same _ _ _ _ _ _ O2) in H3, W1; [|lia..].
  destruct (store64_step m2 e (kact + 16) trampoline) as (m3 & R3 & W3 & O3); [eapply mapped_part; [exact Hm2|lia|lia]|].
  pose proof (mapped_same _ _ _ _ _ _ O3 Hm2) as Hm3. apply (word_at_same _ _ _ _ _ _ O3) in H3, W1, W2; [|lia..].
  destruct (store64_step m3 e (kact + 24) (u64 mask)) as (m4 & R4 & W4 & O4); [eapply mapped_part; [exact Hm3|lia|lia]|].
  apply (word_at_same _ _ _ _ _ _ O4) in W1, W2, W3; [|lia..].
  exists m4. split; [|split].
  - unfold sigaction. destruct (Z.eqb_spec act 0) as [|_]; [done|]. cbn [negb Z.eqb].
    rewrite (ST_bind_step _ _ (m, e) tt (m4, e)); [done|].
    rewrite (ST_bind_step _ _ _ _ _ (load64_step m e _ _ H0)), (ST_bind_step _ _ _ _ _ R1).
    rewrite (ST_bind_step _ _ _ _ _ (load64_step m1 e _ _ H1)), (ST_bind_step _ _ _ _ _ R2), (ST_bind_step _ _ _ _ _ R3).
    by rewrite (ST_bind_step _ _ _ _ _ (load64_step m3 e _ _ H3)).
  - rewrite !words_at_cons. replace (kact + 8 + 8) with (kact + 16) by lia.
    replace (kact + 16 + 8) with (kact + 24) by lia. by split_and!.
  - eapply same_outside_trans; [eapply same_outside_weaken; [exact O1|lia|lia]|].
    eapply same_outside_trans; [eapply same_outside_weaken; [exact O2|lia|lia]|].
    eapply same_outside_trans; eapply same_outside_weaken; [exact O3|lia|lia|exact O4|lia|lia].
Qed.
End Results.

(** ** The theorems at concrete inputs *)
Definition demo_memory : memory := map_zeros 128 4096 ∅.
Lemma memcpy_copies_witness : ∃ m',
  memcpy 4100 4104 8 demo_memory = Ok (4108, m') ∧ bytes_at m' 4100 (replicate 8 NUL) ∧
  same_outside 4100 8 demo_memory m'.
Proof.
  apply (memcpy_copies demo_memory 4100 4104 (replicate 8 NUL)).
  - by apply bytes_at_read.
  - apply map_zeros_mapped; by vm_compute.
  - left. lia.
Defined.

#[local] Instance demo_trampoline : trampoline_os unit := { trampo _ _ := mret 0 }.
Lemma sigaction_installs_witness : ∃ m',
  sigaction 7 4160 4192 31 4096 0 (demo_memory, tt) =
    (r ← SYSCALL NR_rt_sigaction [31; 4160; 0; 8]; mret (s32 r)) (m', tt) ∧
  words_at m' 4160 [u64 0; Z.lor (u64 0) SA_RESTORER; 7; u64 0] ∧ same_outside 4160 32 demo_memory m'.
Proof.
  apply (sigaction_installs 7 4160 4192 31 4096 0 0 0 0 demo_memory tt).
  - lia.
  - apply words_at_bytes, (bytes_at_read _ (replicate 32 NUL)). by vm_compute.
  - apply map_zeros_mapped; by vm_compute.
  - left. lia.
Defined.
