(* ===== verification/Scout.v ===== *)
(** * The scout (sandbox/scout.cpp, bootstrap.cpp, install_* of seccomp.cpp)

    The code that prepares a process for the sandbox, when the library is
    loaded into it: the trampoline page for the sandbox's own system calls,
    the channel to the Command Center, the handler of SIGSYS and the filter.
    The kernel is an interface; the process's memory is that of [Machine]. *)

From stdpp Require Import functions.
From S2P Require Import Prelude Message Bridge CmdCenter Machine Filter.

(** ** The process *)
Record process (E : Type) := Process {
  ctx : gregs;              (** the registers of the code the sandbox interrupts *)
  mem : memory;
  sct_sock : Z;             (** [scout::sock] of the only scout *)
  global_flags : Z;
  td_syscall_trampo : Z;    (** [td__syscall_trampo] and [td__vfork_trampo] *)
  td_vfork_trampo : Z;
  bridge : sandbox_bridge;
  kern : E;
}.
Arguments Process {E}. Arguments ctx {E}. Arguments mem {E}. Arguments sct_sock {E}.
Arguments global_flags {E}. Arguments td_syscall_trampo {E}. Arguments td_vfork_trampo {E}.
Arguments bridge {E}. Arguments kern {E}.

Section Updates.
Context {E : Type}.
Implicit Types p : process E.
Definition set_ctx v p := Process v (mem p) (sct_sock p) (global_flags p)
  (td_syscall_trampo p) (td_vfork_trampo p) (bridge p) (kern p).
Definition set_mem v p := Process (ctx p) v (sct_sock p) (global_flags p)
  (td_syscall_trampo p) (td_vfork_trampo p) (bridge p) (kern p).
Definition set_sct_sock v p := Process (ctx p) (mem p) v (global_flags p)
  (td_syscall_trampo p) (td_vfork_trampo p) (bridge p) (kern p).
Definition set_flags v p := Process (ctx p) (mem p) (sct_sock p) v
  (td_syscall_trampo p) (td_vfork_trampo p) (bridge p) (kern p).
Definition set_trampo v w p := Process (ctx p) (mem p) (sct_sock p) (global_flags p)
  v w (bridge p) (kern p).
Definition set_bridge v p := Process (ctx p) (mem p) (sct_sock p) (global_flags p)
  (td_syscall_trampo p) (td_vfork_trampo p) v (kern p).
Definition set_kern (v : E) p := Process (ctx p) (mem p) (sct_sock p) (global_flags p)
  (td_syscall_trampo p) (td_vfork_trampo p) (bridge p) v.
End Updates.

(** The system calls of the scout, which tinylibc.cpp wraps; a negative
    result is an error. *)
Class scout_os (E : Type) := {
  so_sockets :: sockets E;
  socketpair : ST E (Z * (Z * Z));
  so_close : Z → ST E Z;
  so_dup2 : Z → Z → ST E Z;
  so_fcntl : Z → Z → Z → ST E Z;
  so_mmap : Z → Z → ST E Z;           (** address and length; [MAP_FIXED] *)
  so_sigaction : Z → ST E Z;          (** the handler is [sigsys] *)
  so_prctl : Z → Z → ST E Z;
  so_seccomp : Z → Z → nat * list sock_filter → ST E Z;
  so_perror : string → ST E unit;
}.
Definition F_SETFD : Z := 2.
Definition FD_CLOEXEC : Z := 1.
Definition PR_SET_NO_NEW_PRIVS : Z := 38.
Definition SECCOMP_SET_MODE_FILTER : Z := 1.

Section Scout.
Context {E : Type} `{Os : scout_os E}.
Definition M : Type → Type := ST (process E).

Definition sys {A} (m : ST E A) : M A := fun p =>
  match m (kern p) with Ok (a, e) => Ok (a, set_kern e p) | Fault f => Fault f end.
Definition getp {A} (f : process E → A) : M A := gets f.
Definition in_mem {A} (f : memory → outcome (A * memory)) : M A := fun p =>
  match f (mem p) with Ok (a, m) => Ok (a, set_mem m p) | Fault e => Fault e end.

Lemma in_mem_step {A} (f : memory → outcome (A * memory)) p a m :
  f (mem p) = Ok (a, m) → in_mem f p = Ok (a, set_mem m p).
Proof. unfold in_mem. by intros ->. Qed.

(** *** scout::establish_cc_channel *)
Definition establish_cc_channel : M bool :=
  '(r, (sock0, sock1)) ← sys socketpair;
  if r <? 0 then sys (so_perror "socketpair") ;; mret false else
  r ← sys (sendmsg CARRIER_SOCK (le_bytes 4 SCOUT_CONNECT_CMD) [Some sock1]);
  if r <? 0 then
    sys (so_perror "sendmsg") ;;
    sys (so_close sock0) ;;
    sys (so_close sock1) ;;
    mret false
  else
  sys (so_close sock1) ;;
  sock ← getp sct_sock;
  (if negb (sock =? -1) then
     sys (so_dup2 sock0 sock) ;; sys (so_close sock0) ;; mret tt
   else modify (set_sct_sock sock0)) ;;
  sock ← getp sct_sock;
  sys (so_fcntl sock F_SETFD FD_CLOEXEC) ;;
  mret true.

(** *** install_filter of seccomp.cpp *)
Definition install_filter : M Z :=
  r ← sys (so_prctl PR_SET_NO_NEW_PRIVS 1);
  if r <? 0 then sys (so_perror "prctl") ;; lift (Fault (Aborted "prctl")) else
  r ← sys (so_seccomp SECCOMP_SET_MODE_FILTER 0 sandbox_filter_prog);
  if negb (r =? 0) then sys (so_perror "seccomp") ;; lift (Fault (Aborted "seccomp")) else
  mret 0.
Definition install_seccomp_filter : M bool := install_filter ;; mret true.

Definition install_seccomp_sigsys (ccsock : Z) : M unit :=
  modify (set_bridge (set_sock ccsock)) ;;
  r ← sys (so_sigaction SIGSYS);
  if r <? 0 then sys (so_perror "sigaction") ;; lift (Fault (Aborted "sigaction")) else
  mret tt.
Definition install_sigsys : M bool :=
  sock ← getp sct_sock; install_seccomp_sigsys sock ;; mret true.

(** *** scout::init_sandbox *)
Definition has_flag (f : Z) (p : process E) : bool := negb (Z.land (global_flags p) f =? 0).
Definition init_sandbox : M bool :=
  ready ← getp (has_flag FLAG_CC_COMM_READY);
  (if negb ready then establish_cc_channel ;; mret tt else mret tt) ;;
  sigsys_r ← install_sigsys;
  sassert sigsys_r "sigsys_r" ;;
  installed ← getp (has_flag FLAG_FILTER_INSTALLED);
  (if negb installed then
     filter_r ← install_seccomp_filter; sassert filter_r "filter_r"
   else mret tt) ;;
  mret true.

(** *** scout::install_syscall_trampo *)
Section Trampoline.
(** The addresses of the assembly functions in the library. *)
Context (syscall_trampoline vfork_trampoline : Z).

Definition install_syscall_trampo : M bool :=
  ptr ← sys (so_mmap TRAMPOLINE_ADDR 4096);
  sassert (negb (ptr =? 0)) "ptr != nullptr" ;;
  sassert (ptr =? TRAMPOLINE_ADDR) "ptr == (void* )TRAMPOLINE_ADDR" ;;
  in_mem (fun m => Ok (tt, map_zeros 4096 ptr m)) ;;
  in_mem (fun m =>
    code ← mem_read 4096 syscall_trampoline m;
    m ← mem_write ptr code m;
    Ok (tt, m)) ;;
  modify (set_trampo ptr (ptr + (vfork_trampoline - syscall_trampoline))) ;;
  mret true.

(** The constructor of [bootstrap]; [flags_addr] is [&global_flags], which
    the relocation has added, and [tinymalloc_init] is that of [MemBlock]. *)
Definition bootstrap (flags_addr : Z) (tinymalloc_init : M unit) : M unit :=
  modify (fun p => set_flags (u64 (global_flags p - flags_addr)) p) ;;
  modify (set_sct_sock (-1)) ;;
  syscall_r ← install_syscall_trampo;
  sassert syscall_r "syscall_r" ;;
  tinymalloc_init ;;
  init_sandbox ;;
  mret tt.
End Trampoline.
End Scout.

(** ** The descriptors of a process

    What the kernel promises about descriptors: [fds e] are the open ones. *)
Class fd_kernel (E : Type) `{Os : scout_os E} := {
  fds : E → gset Z;
  socketpair_law e : ∃ r a b e',
    socketpair e = Ok ((r, (a, b)), e') ∧
    (r < 0 ∧ fds e' = fds e ∨
     0 ≤ r ∧ 0 ≤ a ∧ 0 ≤ b ∧ a ≠ b ∧ (a ∉ fds e) ∧ (b ∉ fds e) ∧ fds e' = {[a; b]} ∪ fds e);
  sendmsg_law s bytes ints e : ∃ r e', sendmsg s bytes ints e = Ok (r, e') ∧ fds e' = fds e;
  close_law fd e : ∃ r e', so_close fd e = Ok (r, e') ∧ fds e' = fds e ∖ {[fd]};
  dup2_law a b e : a ∈ fds e → ∃ e', so_dup2 a b e = Ok (b, e') ∧ fds e' = {[b]} ∪ fds e;
  fcntl_law a c v e : ∃ r e', so_fcntl a c v e = Ok (r, e') ∧ fds e' = fds e;
  perror_law s e : ∃ e', so_perror s e = Ok (tt, e') ∧ fds e' = fds e;
}.

(** Run the next call of the kernel with its law. *)
Ltac syscall H := mstep; unfold sys at 1; cbn [kern set_kern set_sct_sock]; rewrite H; cbn [fst snd].

(** C31: a scout that sets up its channel never loses a descriptor.  When it
    fails, the open descriptors and the scout's socket are as before; when it
    succeeds, its end of the pair is the only new descriptor, or, if the scout
    had a socket, has replaced it under the same number. *)
Theorem establish_cc_channel_fds {E} `{Os : scout_os E} `{!fd_kernel E} (p : process E) :
  ∃ ok p',
    establish_cc_channel p = Ok (ok, p') ∧
    if ok : bool then
      if decide (sct_sock p = -1)
      then (sct_sock p' ∉ fds (kern p)) ∧ fds (kern p') = {[sct_sock p']} ∪ fds (kern p)
      else sct_sock p' = sct_sock p ∧
           (sct_sock p ∈ fds (kern p) → fds (kern p') = fds (kern p))
    else sct_sock p' = sct_sock p ∧ fds (kern p') = fds (kern p).
Proof.
  unfold establish_cc_channel.
  destruct (socketpair_law (kern p)) as (r & a & b & e1 & H1 & Hf1). syscall H1.
  destruct (Z.ltb_spec r 0) as [Hr|Hr].
  { destruct (perror_law "socketpair" e1) as (e2 & H2 & Hf2). syscall H2.
    eexists false, _. split; [reflexivity|]. cbn. split; [done|]. rewrite Hf2. destruct Hf1; naive_solver lia. }
  destruct Hf1 as [[]|(_ & Ha & Hb & Hab & Han & Hbn & Hf1)]; [lia|].
  destruct (sendmsg_law CARRIER_SOCK (le_bytes 4 SCOUT_CONNECT_CMD) [Some b] e1)
    as (r2 & e2 & H2 & Hf2). syscall H2.
  destruct (Z.ltb_spec r2 0) as [Hr2|Hr2].
  { destruct (perror_law "sendmsg" e2) as (e3 & H3 & Hf3). syscall H3.
    destruct (close_law a e3) as (r4 & e4 & H4 & Hf4). syscall H4.
    destruct (close_law b e4) as (r5 & e5 & H5 & Hf5). syscall H5.
    eexists false, _. split; [reflexivity|]. cbn. split; [done|].
    rewrite Hf5, Hf4, Hf3, Hf2, Hf1. set_solver. }
  destruct (close_law b e2) as (r3 & e3 & H3 & Hf3). syscall H3.
  assert (fds e3 = {[a]} ∪ fds (kern p)) as Hf by (rewrite Hf3, Hf2, Hf1; set_solver).
  unfold getp. mstep. cbn [sct_sock set_kern].
  destruct (Z.eqb_spec (sct_sock p) (-1)) as [Hs|Hs]; cbn [negb].
  - mstep. mstep. cbn [sct_sock set_sct_sock].
    destruct (fcntl_law a F_SETFD FD_CLOEXEC e3) as (r4 & e4 & H4 & Hf4). syscall H4.
    eexists true, _. split; [reflexivity|]. cbn. rewrite decide_True by done.
    split; [done|]. by rewrite Hf4, Hf.
  - destruct (dup2_law a (sct_sock p) e3) as (e4 & H4 & Hf4); [set_solver|].
    destruct (close_law a e4) as (r5 & e5 & H5 & Hf5).
    destruct (fcntl_law (sct_sock p) F_SETFD FD_CLOEXEC e5) as (r6 & e6 & H6 & Hf6).
    mstep. syscall H4. syscall H5. cbn [mret ST_ret]. mstep. cbn [sct_sock set_kern]. syscall H6.
    eexists true, _. split; [reflexivity|]. cbn. rewrite decide_False by done. split; [done|].
    intros Hin. rewrite Hf6, Hf5, Hf4, Hf. set_solver.
Qed.

(** The trampoline page holds a copy of the code at [syscall_trampoline],
    no other memory changes, and the filter lets every call pass that the
    sandbox makes from the page afterwards, [vfork] included. *)
Theorem install_syscall_trampo_page {E} `{Os : scout_os E} (p : process E) sy vf code e' :
  so_mmap TRAMPOLINE_ADDR 4096 (kern p) = Ok (TRAMPOLINE_ADDR, e') →
  bytes_at (mem p) sy code → length code = 4096%nat →
  sy + 4096 ≤ TRAMPOLINE_ADDR ∨ TRAMPOLINE_ADDR + 4096 ≤ sy →
  0 ≤ vf - sy < 4096 →
  ∃ p', install_syscall_trampo sy vf p = Ok (true, p') ∧
    bytes_at (mem p') TRAMPOLINE_ADDR code ∧
    (∀ x, in_trampoline x = false → mem p' !! x = mem p !! x) ∧
    td_syscall_trampo p' = TRAMPOLINE_ADDR ∧
    td_vfork_trampo p' = TRAMPOLINE_ADDR + (vf - sy) ∧
    ∀ d, data_ok d → td_syscall_trampo p' ≤ instruction_pointer d < td_syscall_trampo p' + 4096 →
      verdict d = Ok SECCOMP_RET_ALLOW.
Proof.
  intros Hmm Hc Hl Hd Hv.
  set (m1 := map_zeros 4096 TRAMPOLINE_ADDR (mem p)).
  assert (bytes_at m1 sy code) as Hc1.
  { intros i b Hi. unfold m1. rewrite map_zeros_lookup, decide_False; [by apply Hc|].
    apply lookup_lt_Some in Hi. lia. }
  pose proof (mem_read_bytes m1 code sy Hc1) as Hr. rewrite Hl in Hr.
  destruct (mem_write_bytes code m1 TRAMPOLINE_ADDR) as (m2 & Hw & Hb & Ho & _).
  { intros x Hx. unfold m1. rewrite map_zeros_lookup, decide_True by lia. eauto. }
  exists (set_trampo TRAMPOLINE_ADDR (TRAMPOLINE_ADDR + (vf - sy)) (set_mem m2 (set_mem m1 (set_kern e' p)))).
  split.
  { unfold install_syscall_trampo. mstep. unfold sys at 1. rewrite Hmm. cbn [fst snd].
    do 2 (rewrite (ST_bind_step _ _ _ tt (set_kern e' p)) by reflexivity).
    rewrite (ST_bind_step _ _ _ _ _ (in_mem_step _ (set_kern e' p) tt m1 eq_refl)).
    rewrite (ST_bind_step _ _ _ tt (set_mem m2 (set_mem m1 (set_kern e' p)))); [reflexivity|].
    apply in_mem_step. cbn [mem set_mem]. rewrite Hr. ostep. by rewrite Hw. }
  cbn [mem td_syscall_trampo td_vfork_trampo set_trampo set_mem].
  split_and!; [done| |done|done|].
  - intros x Hx. unfold in_trampoline in Hx. rewrite Ho by lia. unfold m1.
    by rewrite map_zeros_lookup, decide_False by lia.
  - intros d Hok Hip. pose proof (verdict_prefix d Hok) as Hvp.
    replace (in_trampoline (instruction_pointer d)) with true in Hvp; [done|].
    unfold in_trampoline. lia.
Qed.

(** ** Witnesses: a kernel that is a set of descriptors. *)
Definition demo_kernel : Type := gset Z.
#[local] Instance demo_sockets : sockets demo_kernel := {
  sendmsg _ bytes _ := mret (Z.of_nat (length bytes));
  recvmsg _ _ _ := mret RecvErr;
}.
(** The two least free numbers of 4 to 11, if there are two. *)
Definition free_fds (e : gset Z) : list Z := base.filter (λ x, x ∉ e) [4; 5; 6; 7; 8; 9; 10; 11].
#[local] Instance demo_os : scout_os demo_kernel := {
  so_sockets := demo_sockets;
  socketpair := fun e =>
    match free_fds e with
    | a :: b :: _ => Ok ((0, (a, b)), {[a; b]} ∪ e)
    | _ => Ok ((-24, (0, 0)), e)
    end;
  so_close fd := fun e => Ok (0, e ∖ {[fd]});
  so_dup2 a b := fun e => if decide (a ∈ e) then Ok (b, {[b]} ∪ e) else Ok (-9, e);
  so_fcntl _ _ _ := mret 0;
  so_mmap a _ := mret a;
  so_sigaction _ := mret 0;
  so_prctl _ _ := mret 0;
  so_seccomp _ _ _ := mret 0;
  so_perror _ := mret tt;
}.
#[local] Program Instance demo_fd_kernel : fd_kernel demo_kernel := { fds e := e }.
Next Obligation.
  intros e. cbn [socketpair demo_os]. destruct (free_fds e) as [|a [|b l]] eqn:Hf;
    [eexists _, _, _, _; split; [reflexivity|by left]..|].
  eexists _, _, _, _. split; [reflexivity|]. right.
  assert (∀ x, x ∈ [a; b] → (x ∉ e) ∧ 0 ≤ x) as Hx.
  { intros x Hx. rewrite !elem_of_cons, elem_of_nil in Hx.
    assert (x ∈ free_fds e) as Hin by (rewrite Hf, !elem_of_cons; tauto).
    unfold free_fds in Hin. apply list_elem_of_filter in Hin as [? Hin]. split; [done|].
    repeat (apply elem_of_cons in Hin as [->|Hin]; [lia|]). by apply not_elem_of_nil in Hin. }
  assert (NoDup (free_fds e)) as Hnd.
  { unfold free_fds. apply list.NoDup_filter. apply (bool_decide_unpack _). by vm_compute. }
  rewrite Hf in Hnd. apply list.NoDup_cons in Hnd as [Hab _].
  destruct (Hx a) as [Ha ?]; [by left|]. destruct (Hx b) as [Hb ?]; [by right; left|].
  split_and!; try done. intros ->. apply Hab. by left.
Qed.
Next Obligation. intros. cbn. eauto. Qed.
Next Obligation. intros. cbn. eauto. Qed.
Next Obligation. intros a b e Ha. cbn. rewrite decide_True by done. eauto. Qed.
Next Obligation. intros. cbn. eauto. Qed.
Next Obligation. intros. cbn. eauto. Qed.

Definition demo_process (sock : Z) (m : memory) : process demo_kernel :=
  Process (fun _ => 0) m sock 0 0 0 (Bridge (-1) (new_msg_receiver (-1))) {[0; 1; 2; 73]}.

(** A new scout gets descriptor 4; one that had socket 2 keeps the number. *)
Lemma establish_cc_channel_fds_witness :
  (∃ ok p', establish_cc_channel (demo_process (-1) ∅) = Ok (ok, p') ∧
     if ok then (sct_sock p' ∉ ({[0; 1; 2; 73]} : gset Z)) ∧
                kern p' = {[sct_sock p']} ∪ {[0; 1; 2; 73]}
     else sct_sock p' = -1 ∧ kern p' = {[0; 1; 2; 73]}) ∧
  (∃ ok p', establish_cc_channel (demo_process 2 ∅) = Ok (ok, p') ∧ sct_sock p' = 2).
Proof.
  split.
  - exact (establish_cc_channel_fds (demo_process (-1) ∅)).
  - destruct (establish_cc_channel_fds (demo_process 2 ∅)) as (ok & p' & H1 & H2).
    exists ok, p'. split; [exact H1|]. destruct ok; exact (proj1 H2).
Defined.

Definition demo_code : list byte := replicate 4096 (byte_of_Z 0x90).
Definition demo_page : memory :=
  list_to_map (imap (fun i b => (0x5000 + Z.of_nat i, b)) demo_code).
Lemma demo_page_code : bytes_at demo_page 0x5000 demo_code.
Proof.
  intros i b Hi. unfold demo_page. apply elem_of_list_to_map.
  - rewrite fmap_imap. apply NoDup_alt. intros j k x Hj Hk.
    rewrite list_lookup_imap in Hj, Hk. unfold compose in *.
    destruct (demo_code !! j), (demo_code !! k); try discriminate.
    injection Hj as <-. injection Hk as Hk. cbn in Hk. lia.
  - apply list_elem_of_lookup. exists i. by rewrite list_lookup_imap, Hi.
Qed.
Lemma install_syscall_trampo_page_witness :
  ∃ p', install_syscall_trampo 0x5000 0x5040 (demo_process (-1) demo_page) = Ok (true, p') ∧
        bytes_at (mem p') TRAMPOLINE_ADDR demo_code ∧
        td_vfork_trampo p' = TRAMPOLINE_ADDR + 0x40.
Proof.
  destruct (install_syscall_trampo_page (Os := demo_os) (demo_process (-1) demo_page) 0x5000 0x5040 demo_code
    (kern (demo_process (-1) demo_page)) eq_refl demo_page_code (length_replicate _ _) ltac:(left; by vm_compute)
    ltac:(by vm_compute)) as (p' & H1 & H2 & _ & _ & H3 & _).
  exists p'. split; [exact H1|split; [exact H2|exact H3]].
Defined.
