(* ===== verification/Mission.v ===== *)
(** * Missions: the Carrier starts a program (cmdcenter::start_mission, carrier.cpp, main.cpp)

    [start_mission] forks: the parent attaches to the child, takes its scout
    off and tells it, through a socket pair, to go on; the child waits for that
    and executes the program.  The two run at the same time, so each is a state
    machine (the point it has reached, the call it makes there, and where a
    result takes it), and [step] interleaves them over the kernel's state. *)

From S2P Require Import Prelude Message Bridge CmdCenter Machine Scout.

(** ** Statuses of waitpid *)
Definition WIFSTOPPED (status : Z) : bool := Z.land status 0xff =? 0x7f.
Definition WSTOPSIG (status : Z) : Z := Z.land (Z.shiftr status 8) 0xff.
Definition WIFEXITED (status : Z) : bool := Z.land status 0x7f =? 0.
Definition WEXITSTATUS (status : Z) : Z := Z.land (Z.shiftr status 8) 0xff.
Definition WTERMSIG (status : Z) : Z := Z.land status 0x7f.
(** [(signed char)((status & 0x7f) + 1) >> 1 > 0] *)
Definition WIFSIGNALED (status : Z) : bool := negb (WTERMSIG status =? 0) && negb (WTERMSIG status =? 0x7f).
Definition SIGTRAP : Z := 5.
Definition SIGCHLD : Z := 17.
Definition SIGSTOP : Z := 19.

(** ** start_mission *)
(** Where the parent is: at a call, or at the end.  The argument is [childpid]. *)
Inductive parent_pc :=
| PSocketpair | PFork | PForkClose0 | PForkClose1
| PClose1 (c : Z) | PAttach (c : Z) | PWait (c : Z) | PTakeoff (c : Z) | PDetach (c : Z)
| PWrite (c : Z) | PClose0 (c : Z) | PReturn (r : Z) | PAbort.
Inductive child_pc := CClose0 | CRead | CClose1 | CExec | CRunning | CAbort.

(** [r] is the result of the call the parent is at, [status] what [waitpid] has
    stored; a [fork] with result 0 is that of the child.  [scout_takeoff] and
    [write] return a [long], which becomes a [pid_t]; what [perror] writes is
    left out. *)
Definition parent_next (p : parent_pc) (r status : Z) : parent_pc :=
  match p with
  | PSocketpair => if r <? 0 then PReturn r else PFork
  | PFork => if r <? 0 then PForkClose0 else PClose1 r
  | PForkClose0 => PForkClose1
  | PForkClose1 => PReturn (-1)
  | PClose1 c => if r <? 0 then PReturn r else PAttach c
  | PAttach c => if r <? 0 then PReturn (-1) else PWait c
  | PWait c =>
      if r <? 0 then PAbort else
      if negb (WIFSTOPPED status) && negb (WSTOPSIG status =? SIGTRAP) then PWait c else PTakeoff c
  | PTakeoff c => if r <? 0 then PReturn (s32 r) else PDetach c
  | PDetach c => if r <? 0 then PReturn (-1) else PWrite c
  | PWrite c => if r <? 0 then PReturn (s32 r) else PClose0 c
  | PClose0 c => if r <? 0 then PReturn r else PReturn c
  | PReturn r => PReturn r
  | PAbort => PAbort
  end.
(** [execvpe] returns on failure only. *)
Definition child_next (c : child_pc) (r : Z) : child_pc :=
  match c with
  | CClose0 => if r <? 0 then CAbort else CRead
  | CRead => if r <? 0 then CAbort else CClose1
  | CClose1 => if r <? 0 then CAbort else CExec
  | CExec => if r <? 0 then CAbort else CRunning
  | CRunning => CRunning
  | CAbort => CAbort
  end.

Definition parent_calls (p : parent_pc) : bool := match p with PReturn _ | PAbort => false | _ => true end.
Definition child_calls (c : child_pc) : bool := match c with CRunning | CAbort => false | _ => true end.

(** ** The kernel *)
(** [parent0] .. [child1]: which process has which end of the pair open;
    [bytes]: how much can be read at end 1. *)
Record mission := Mission {
  parent : parent_pc;
  child : option child_pc;
  parent0 : bool; parent1 : bool; child0 : bool; child1 : bool;
  bytes : Z;
  stopped : bool;
  took_off : bool;
  alive : bool;              (** the Carrier *)
}.
Definition new_mission : mission := Mission PSocketpair None false false false false 0 false false true.

Definition at_parent p m := Mission p (child m) (parent0 m) (parent1 m) (child0 m) (child1 m) (bytes m) (stopped m) (took_off m) (alive m).
Definition at_child c m := Mission (parent m) (Some c) (parent0 m) (parent1 m) (child0 m) (child1 m) (bytes m) (stopped m) (took_off m) (alive m).
Definition parent_ends e0 e1 m := Mission (parent m) (child m) e0 e1 (child0 m) (child1 m) (bytes m) (stopped m) (took_off m) (alive m).
Definition child_ends e0 e1 m := Mission (parent m) (child m) (parent0 m) (parent1 m) e0 e1 (bytes m) (stopped m) (took_off m) (alive m).
Definition in_flight n m := Mission (parent m) (child m) (parent0 m) (parent1 m) (child0 m) (child1 m) n (stopped m) (took_off m) (alive m).
Definition set_stopped v m := Mission (parent m) (child m) (parent0 m) (parent1 m) (child0 m) (child1 m) (bytes m) v (took_off m) (alive m).
Definition set_took_off m := Mission (parent m) (child m) (parent0 m) (parent1 m) (child0 m) (child1 m) (bytes m) (stopped m) true (alive m).
(** The kernel closes the descriptors of a process that ends and detaches what
    it traces, which goes on. *)
Definition carrier_ends m := Mission (parent m) (child m) false false (child0 m) (child1 m) (bytes m) false (took_off m) false.

(** What the call at [parent m] may do: its result, the status it stores and the
    state after it.  [faults] tells whether calls may fail. *)
Inductive parent_call (faults : bool) (m : mission) : parent_pc → Z → Z → mission → Prop :=
| call_fails p r st : faults = true → parent_calls p = true → r < 0 → parent_call faults m p r st m
| call_socketpair st : parent_call faults m PSocketpair 0 st (parent_ends true true m)
| call_fork pid st : 0 < pid →
    parent_call faults m PFork pid st (child_ends (parent0 m) (parent1 m) (at_child CClose0 m))
| call_fork_close0 st : parent_call faults m PForkClose0 0 st (parent_ends false (parent1 m) m)
| call_fork_close1 st : parent_call faults m PForkClose1 0 st (parent_ends (parent0 m) false m)
| call_close1 c st : parent_call faults m (PClose1 c) 0 st (parent_ends (parent0 m) false m)
| call_attach c st : parent_call faults m (PAttach c) 0 st m
| call_wait c st : (faults = false → WIFSTOPPED st = true) →
    parent_call faults m (PWait c) c st (set_stopped (WIFSTOPPED st) m)
| call_takeoff c st r : 0 ≤ r → parent_call faults m (PTakeoff c) r st (set_took_off m)
| call_detach c st : parent_call faults m (PDetach c) 0 st (set_stopped false m)
| call_write c st : parent_call faults m (PWrite c) 1 st (in_flight (bytes m + 1) m)
| call_close0 c st : parent_call faults m (PClose0 c) 0 st (parent_ends false (parent1 m) m).

(** [read] waits for a byte, or for the last holder of the other end to close
    it: then the result is 0. *)
Inductive child_call (faults : bool) (m : mission) : child_pc → Z → mission → Prop :=
| child_fails c r : faults = true → child_calls c = true → r < 0 → child_call faults m c r m
| child_close0 : child_call faults m CClose0 0 (child_ends false (child1 m) m)
| child_read : 0 < bytes m → child_call faults m CRead 1 (in_flight (bytes m - 1) m)
| child_eof : bytes m = 0 → parent0 m = false → child0 m = false → child_call faults m CRead 0 m
| child_close1 : child_call faults m CClose1 0 (child_ends (child0 m) false m)
| child_exec : child_call faults m CExec 0 m.

(** The Carrier may end at any time if [faults] are allowed, and ends when it aborts. *)
Inductive step (faults : bool) : mission → mission → Prop :=
| step_parent m r st m' : alive m = true → parent_call faults m (parent m) r st m' →
    step faults m (at_parent (parent_next (parent m) r st) m')
| step_child m c r m' : child m = Some c → stopped m = false → child_call faults m c r m' →
    step faults m (at_child (child_next c r) m')
| step_end m : alive m = true → faults = true ∨ parent m = PAbort → step faults m (carrier_ends m).

Definition reachable (faults : bool) : mission → Prop := rtc (step faults) new_mission.

(** ** The sandbox comes first *)
Definition before_fork (p : parent_pc) : bool :=
  match p with PSocketpair | PFork | PForkClose0 | PForkClose1 => true | _ => false end.
Definition has_taken_off (p : parent_pc) : bool :=
  match p with PDetach _ | PWrite _ | PClose0 _ => true | _ => false end.
Definition may_run (c : option child_pc) : bool :=
  match c with Some (CClose1 | CExec | CRunning) => true | _ => false end.

Record mission_inv (m : mission) : Prop := {
  mi_none : before_fork (parent m) = true → child m = None;
  mi_end : alive m = true → took_off m = false → child m ≠ None ∨ parent m = PFork → parent0 m = true;
  mi_past : has_taken_off (parent m) = true → took_off m = true;
  mi_bytes : 0 ≤ bytes m ∧ (0 < bytes m → took_off m = true);
  mi_child : may_run (child m) = true → took_off m = true ∨ alive m = false;
}.

Ltac mission_cases :=
  unfold carrier_ends, at_parent, at_child, parent_ends, child_ends, in_flight, set_stopped, set_took_off in *;
  cbn [parent child parent0 parent1 child0 child1 bytes stopped took_off alive
    parent_next child_next before_fork has_taken_off may_run parent_calls child_calls] in *.

Lemma parent_keeps faults m r st m' : mission_inv m → alive m = true →
  parent_call faults m (parent m) r st m' → mission_inv (at_parent (parent_next (parent m) r st) m').
Proof.
  destruct m as [p c p0 p1 c0 c1 n s t a]. intros [I1 I2 I3 I4 I5] Ha H. mission_cases.
  destruct p; inversion H; subst; clear H; mission_cases; try done.
  all: repeat match goal with |- context [Z.ltb ?a 0] => destruct (Z.ltb_spec a 0); try lia end.
  all: repeat case_match; split; mission_cases; try done; try (by intuition congruence).
  split; [lia|]. intros _. by apply I3.
Qed.
Lemma child_keeps faults m c r m' : mission_inv m → child m = Some c → child_call faults m c r m' →
  mission_inv (at_child (child_next c r) m').
Proof.
  destruct m as [p ch p0 p1 c0 c1 n s t a]. intros [I1 I2 I3 I4 I5] Hc H. mission_cases. subst ch.
  destruct c; inversion H; subst; clear H; mission_cases; try done.
  all: repeat match goal with |- context [Z.ltb ?a 0] => destruct (Z.ltb_spec a 0); try lia end.
  all: split; mission_cases; try done; try (by intuition congruence); try (by intuition lia).
  intros _. destruct t; [by left|right]. destruct a; [|done]. enough (p0 = true) by congruence. apply I2; [done|done|by left].
Qed.
Lemma step_keeps faults m m' : mission_inv m → step faults m m' → mission_inv m'.
Proof.
  intros I H. destruct H as [m r st m' Ha Hc|m c r m' Hc Hs H|m Ha H].
  - by eapply parent_keeps.
  - by eapply child_keeps.
  - destruct m as [p c p0 p1 c0 c1 n s t a]. destruct I as [I1 I2 I3 I4 I5]. split; mission_cases; try done. by right.
Qed.
Lemma reachable_inv faults m : reachable faults m → mission_inv m.
Proof.
  revert m. apply (rtc_ind_r mission_inv).
  - split; cbn; try done. intros _ _ [|]; done.
  - intros m m' _ Hs I. by eapply step_keeps.
Qed.

(** C23: however the two processes interleave and whatever calls fail, the
    program is executed only after [scout_takeoff] has reported success for its
    process, unless the Carrier is dead by then; and while the Carrier lives
    and no scout has taken off, a forked child is kept waiting: the parent's end
    of the pair is open and empty. *)
Theorem mission_sandboxed faults m : reachable faults m →
  (child m = Some CRunning → took_off m = true ∨ alive m = false) ∧
  (child m ≠ None → took_off m = false → alive m = true → parent0 m = true ∧ bytes m = 0).
Proof.
  intros [I1 I2 I3 I4 I5]%reachable_inv. split.
  - intros H. apply I5. by rewrite H.
  - intros Hc Ht Ha. split; [apply I2; [done|done|by left]|]. destruct (Z.ltb_spec 0 (bytes m)) as [H|]; [|lia].
    destruct I4 as [_ I4]. by rewrite I4 in Ht.
Qed.

(** A child that waits while the parent attaches, and the program running at
    the end of a mission without failures. *)
Definition waiting_mission : mission := Mission (PAttach 100) (Some CRead) true false false true 0 false false true.
Definition flown_mission : mission := Mission (PReturn 100) (Some CRunning) false false false false 0 false true true.

Lemma waiting_reachable : reachable true waiting_mission.
Proof.
  unfold reachable.
  eapply rtc_l. { eapply step_parent; [done|apply (call_socketpair _ _ 0)]. }
  eapply rtc_l. { eapply step_parent; [done|apply (call_fork _ _ 100 0); lia]. }
  eapply rtc_l. { eapply step_parent; [done|apply (call_close1 _ _ 100 0)]. }
  eapply rtc_l. { eapply step_child; [done|done|apply child_close0]. }
  apply rtc_refl.
Qed.
Lemma flown_reachable : reachable true flown_mission.
Proof.
  unfold reachable. etrans; [exact waiting_reachable|].
  eapply rtc_l. { eapply step_parent; [done|apply (call_attach _ _ 100 0)]. }
  eapply rtc_l. { eapply step_parent; [done|by apply (call_wait _ _ 100 0x137f)]. }
  eapply rtc_l. { eapply step_parent; [done|by apply (call_takeoff _ _ 100 0 0)]. }
  eapply rtc_l. { eapply step_parent; [done|apply (call_detach _ _ 100 0)]. }
  eapply rtc_l. { eapply step_parent; [done|apply (call_write _ _ 100 0)]. }
  eapply rtc_l. { eapply step_child; [done|done|by apply child_read]. }
  eapply rtc_l. { eapply step_child; [done|done|apply child_close1]. }
  eapply rtc_l. { eapply step_child; [done|done|apply child_exec]. }
  eapply rtc_l. { eapply step_parent; [done|apply (call_close0 _ _ 100 0)]. }
  apply rtc_refl.
Qed.

Lemma mission_sandboxed_witness :
  (parent0 waiting_mission = true ∧ bytes waiting_mission = 0) ∧
  (child flown_mission = Some CRunning ∧ (took_off flown_mission = true ∨ alive flown_mission = false)).
Proof.
  split.
  - by apply (mission_sandboxed true waiting_mission waiting_reachable).
  - split; [done|]. by apply (mission_sandboxed true flown_mission flown_reachable).
Defined.

(** ** Without failures the mission starts *)
Definition pid_of (p : parent_pc) : option Z :=
  match p with
  | PClose1 c | PAttach c | PWait c | PTakeoff c | PDetach c | PWrite c | PClose0 c | PReturn c => Some c
  | _ => None
  end.
Definition has_written (p : parent_pc) : bool := match p with PClose0 _ | PReturn _ => true | _ => false end.
Definition waits (c : option child_pc) : bool := match c with None | Some (CClose0 | CRead) => true | _ => false end.

Record faultless_inv (m : mission) : Prop := {
  fi_alive : alive m = true;
  fi_parent : match parent m with PSocketpair | PFork => child m = None | PForkClose0 | PForkClose1 | PAbort => False | _ => child m ≠ None end;
  fi_pid c : pid_of (parent m) = Some c → 0 < c;
  fi_child : child m ≠ Some CAbort;
  fi_stopped : stopped m = true → match parent m with PTakeoff _ | PDetach _ => True | _ => False end;
  fi_bytes : bytes m = if has_written (parent m) && waits (child m) then 1 else 0;
  fi_waits : has_written (parent m) = false → waits (child m) = true;
  fi_end : child m ≠ None ∨ parent m = PFork → parent0 m = true ∨ has_written (parent m) = true;
  fi_took_off : has_taken_off (parent m) || has_written (parent m) = true → took_off m = true;
}.

Definition parent_rank (p : parent_pc) : nat :=
  match p with
  | PSocketpair => 9 | PFork => 8 | PForkClose0 => 2 | PForkClose1 => 1 | PClose1 _ => 7 | PAttach _ => 6
  | PWait _ => 5 | PTakeoff _ => 4 | PDetach _ => 3 | PWrite _ => 2 | PClose0 _ => 1 | PReturn _ | PAbort => 0
  end.
Definition child_rank (c : option child_pc) : nat :=
  match c with
  | None => 4 | Some CClose0 => 4 | Some CRead => 3 | Some CClose1 => 2 | Some CExec => 1 | Some (CRunning | CAbort) => 0
  end.
Definition rank (m : mission) : nat := parent_rank (parent m) + child_rank (child m).

Ltac faultless_cases :=
  (split; [split|unfold rank]); mission_cases; unfold parent_rank, child_rank;
  cbn [pid_of has_written waits andb orb negb] in *; try done; try (by intuition congruence); try lia.

Lemma faultless_parent m r st m' : faultless_inv m → parent_call false m (parent m) r st m' →
  faultless_inv (at_parent (parent_next (parent m) r st) m') ∧
  (rank (at_parent (parent_next (parent m) r st) m') < rank m)%nat.
Proof.
  destruct m as [p c p0 p1 c0 c1 n s t a]. intros [I1 I2 I3 I4 I5 I6 IW I7 I8] H. mission_cases.
  destruct p; inversion H; subst; clear H; mission_cases; try done.
  all: try match goal with I3 : ∀ c, pid_of ?p = Some c → _ |- _ => pose proof (I3 _ eq_refl) as Hpid end.
  all: try match goal with Hw : _ → WIFSTOPPED ?st = true |- _ => rewrite (Hw eq_refl) in * end.
  all: repeat match goal with |- context [Z.ltb ?a 0] => destruct (Z.ltb_spec a 0); try lia end.
  all: faultless_cases.
  by rewrite (IW eq_refl).
Qed.
Lemma faultless_child m c r m' : faultless_inv m → child m = Some c → child_call false m c r m' →
  faultless_inv (at_child (child_next c r) m') ∧ (rank (at_child (child_next c r) m') < rank m)%nat.
Proof.
  destruct m as [p ch p0 p1 c0 c1 n s t a]. intros [I1 I2 I3 I4 I5 I6 IW I7 I8] Hc H. mission_cases. subst ch.
  destruct c; inversion H; subst; clear H; mission_cases; try done.
  all: repeat match goal with |- context [Z.ltb ?a 0] => destruct (Z.ltb_spec a 0); try lia end.
  all: destruct p; faultless_cases.
Qed.
Lemma faultless_step m m' : faultless_inv m → step false m m' → faultless_inv m' ∧ (rank m' < rank m)%nat.
Proof.
  intros I H. destruct H as [m r st m' Ha Hc|m c r m' Hc Hs H|m Ha [H|H]].
  - by eapply faultless_parent.
  - by eapply faultless_child.
  - done.
  - pose proof (fi_parent _ I) as Hp. by rewrite H in Hp.
Qed.
Lemma faultless_reachable m : reachable false m → faultless_inv m.
Proof.
  revert m. apply (rtc_ind_r faultless_inv).
  - split; cbn; try done. by intros [|].
  - intros m m' _ Hs I. by eapply faultless_step.
Qed.

(** A process that has a call to make can make it. *)
Lemma parent_ready m : faultless_inv m → parent_calls (parent m) = true → ∃ m', step false m m'.
Proof.
  intros I Hp. pose proof (fi_alive _ I) as Ha. pose proof (fi_parent _ I) as Hc.
  destruct (parent m) eqn:E; try done.
  all: eexists; eapply (step_parent false m); [done|rewrite E].
  - apply (call_socketpair false m 0).
  - apply (call_fork false m 1 0). lia.
  - apply (call_close1 false m c 0).
  - apply (call_attach false m c 0).
  - by apply (call_wait false m c 0x137f).
  - apply (call_takeoff false m c 0 0). lia.
  - apply (call_detach false m c 0).
  - apply (call_write false m c 0).
  - apply (call_close0 false m c 0).
Qed.
Lemma child_ready m c : faultless_inv m → parent_calls (parent m) = false → child m = Some c → child_calls c = true →
  ∃ m', step false m m'.
Proof.
  intros I Hp Hc Hcalls. pose proof (fi_parent _ I) as Hpar. pose proof (fi_bytes _ I) as Hb.
  assert (stopped m = false) as Hs.
  { pose proof (fi_stopped _ I) as H. destruct (stopped m); [|done]. specialize (H eq_refl). by destruct (parent m). }
  assert (has_written (parent m) = true) as Hw by by destruct (parent m).
  destruct c; try done; eexists; (eapply (step_child false m); [done|done|]).
  - apply child_close0.
  - apply child_read. rewrite Hb, Hw, Hc. done.
  - apply child_close1.
  - apply child_exec.
Qed.

(** C25: when no call fails and the Carrier lives, a mission cannot get stuck and
    ends after at most 13 steps, in whatever order the processes take them:
    either some process can go on, or [start_mission] has returned the process
    number, the scout has taken off, and the program has been executed. *)
Theorem mission_completes m : reachable false m →
  (∀ m', step false m m' → (rank m' < rank m)%nat) ∧
  ((∃ m', step false m m') ∨
   (∃ c, 0 < c ∧ parent m = PReturn c ∧ child m = Some CRunning ∧ took_off m = true)).
Proof.
  intros I%faultless_reachable. split; [intros m' H; by eapply faultless_step|].
  destruct (parent_calls (parent m)) eqn:Hp; [left; by apply parent_ready|].
  pose proof (fi_parent _ I) as Hpar.
  destruct (child m) as [c|] eqn:Hc; [|by destruct (parent m)].
  destruct (child_calls c) eqn:Hcc; [left; by eapply child_ready|right].
  pose proof (fi_child _ I) as Hab. pose proof (fi_pid _ I) as Hpid. pose proof (fi_took_off _ I) as Ht. rewrite Hc in Hab.
  destruct (parent m) eqn:Ep; try done. exists r. split; [by apply Hpid|]. split; [done|].
  split; [by destruct c|by apply Ht].
Qed.
Lemma mission_completes_witness :
  (∀ m', step false new_mission m' → (rank m' < 13)%nat) ∧
  ((∃ m', step false new_mission m') ∨
   (∃ c, 0 < c ∧ parent new_mission = PReturn c ∧ child new_mission = Some CRunning ∧ took_off new_mission = true)).
Proof. apply (mission_completes new_mission). apply rtc_refl. Defined.

(** When [scout_takeoff] fails, [start_mission] returns with the child
    waiting and its own end of the pair open; when the Carrier then ends, the
    [read] of the child sees the end of the stream, which [_EA] takes for
    success, and the program runs without a sandbox. *)
Theorem mission_unsandboxed :
  ∃ m, reachable true m ∧ parent m = PReturn (-1) ∧ child m = Some CRunning ∧ took_off m = false.
Proof.
  exists (Mission (PReturn (-1)) (Some CRunning) false false false false 0 false false false).
  split; [|done]. unfold reachable.
  eapply rtc_l. { eapply step_parent; [done|apply (call_socketpair _ _ 0)]. }
  eapply rtc_l. { eapply step_parent; [done|apply (call_fork _ _ 100 0); lia]. }
  eapply rtc_l. { eapply step_parent; [done|apply (call_close1 _ _ 100 0)]. }
  eapply rtc_l. { eapply step_parent; [done|apply (call_attach _ _ 100 0)]. }
  eapply rtc_l. { eapply step_parent; [done|by apply (call_wait _ _ 100 0x137f)]. }
  eapply rtc_l. { eapply step_parent; [done|by apply (call_fails _ _ (PTakeoff 100) (-1) 0)]. }
  eapply rtc_l. { apply step_end; [done|by left]. }
  eapply rtc_l. { eapply step_child; [done|done|apply child_close0]. }
  eapply rtc_l. { eapply step_child; [done|done|by apply child_eof]. }
  eapply rtc_l. { eapply step_child; [done|done|apply child_close1]. }
  eapply rtc_l. { eapply step_child; [done|done|apply child_exec]. }
  apply rtc_refl.
Qed.

(** ** main.cpp *)
(** The globals of main.cpp; [stop_requests] counts the calls of
    [carrier_ptr->stop_msg_loop()]. *)
Record globals := Globals { childpid : Z; exitval : Z; ignored : bool; stop_requests : nat }.
Definition set_exitval v g := Globals (childpid g) v (ignored g) (stop_requests g).
Definition request_stop g := Globals (childpid g) (exitval g) (ignored g) (S (stop_requests g)).

(** [si_pid] and [si_status] are those of the [siginfo_t]; what is printed is
    left out. *)
Definition sigchld_handler (signum si_pid si_status : Z) : ST globals unit :=
  sassert (signum =? SIGCHLD) "signum == SIGCHLD" ;;
  child ← gets childpid;
  ignore ← gets ignored;
  if negb (si_pid =? child) || ignore then mret tt else
  if WIFSTOPPED si_status then mret tt else
  if WIFEXITED si_status || WIFSIGNALED si_status then
    if WIFSIGNALED si_status then
      if (WTERMSIG si_status =? SIGSYS) || (WTERMSIG si_status =? SIGSTOP) then mret tt
      else modify request_stop
    else
      modify (set_exitval (Z.land (WEXITSTATUS si_status) 0xff)) ;;
      modify request_stop
  else mret tt.

(** What [main] does after [sigaction] and [waitpid(childpid, &status, WNOHANG)]:
    it returns, or enters the message loop and returns [exitval] after it. *)
Definition main_returns (sigaction_r waitpid_r status : Z) : option Z :=
  if sigaction_r <? 0 then Some 255 else
  if (waitpid_r <? 0) || WIFEXITED status then Some 0 else None.

(** The branch of each exit code. *)
Definition handler_table (code : Z) : bool :=
  let deadly := (WTERMSIG code =? SIGSYS) || (WTERMSIG code =? SIGSTOP) in
  if bool_decide (code ∈ [0; 128]) then
    negb (WIFSTOPPED code) && (WIFEXITED code && (negb (WIFSIGNALED code) && (Z.land (WEXITSTATUS code) 0xff =? 0)))
  else if bool_decide (code ∈ [19; 31; 127; 147; 159; 255]) then
    WIFSTOPPED code || (negb (WIFEXITED code) && negb (WIFSIGNALED code) || WIFSIGNALED code && deadly)
  else negb (WIFSTOPPED code) && (WIFSIGNALED code && negb deadly).

(** [si_status] of a process that has exited is its exit code, not a status
    of [waitpid], so the handler misreads it: only the codes 0 and 128 count as
    an exit, both with [exitval] 0; 19, 31, 127, 147, 159 and 255 are ignored,
    so that the message loop goes on without a program; every other code stops
    the loop and leaves [exitval] at 255. *)
Theorem exit_codes_misread (pid code : Z) : 0 ≤ code < 256 →
  sigchld_handler SIGCHLD pid code (Globals pid 255 false 0) =
    Ok (tt, if bool_decide (code ∈ [0; 128]) then Globals pid 0 false 1
            else if bool_decide (code ∈ [19; 31; 127; 147; 159; 255]) then Globals pid 255 false 0
            else Globals pid 255 false 1).
Proof.
  intros Hc. unfold sigchld_handler. cbn [Z.eqb SIGCHLD Pos.eqb]. unfold sassert, gets, mbind, ST_bind. cbn.
  rewrite Z.eqb_refl. cbn [negb orb].
  pose proof (forall_below handler_table 0 256 ltac:(vm_compute; reflexivity) code ltac:(lia)) as H.
  unfold handler_table in H. cbv zeta in H. revert H.
  destruct (WIFSTOPPED code), (WIFEXITED code), (WIFSIGNALED code), ((WTERMSIG code =? SIGSYS) || (WTERMSIG code =? SIGSTOP));
    repeat case_bool_decide; try done.
  all: intros Hx%Z.eqb_eq; cbn [negb andb orb]; unfold modify; by rewrite Hx.
Qed.
Lemma exit_codes_misread_witness :
  sigchld_handler SIGCHLD 100 3 (Globals 100 255 false 0) = Ok (tt, Globals 100 255 false 1).
Proof. apply (exit_codes_misread 100 3). lia. Defined.

(** ** carrier::carrier *)
Section Carrier.
Context {E : Type} `{Os : scout_os E} `{Cc : !cc_os E}.

(** [_EA] *)
Definition ea (name : string) (m : ST E Z) : ST E unit :=
  r ← m; if r <? 0 then lift (Fault (Aborted name)) else mret tt.

Lemma ea_Ok name m e u e' : ea name m e = Ok (u, e') → ∃ r, m e = Ok (r, e') ∧ 0 ≤ r.
Proof.
  unfold ea. intros (r & e1 & Hm & H)%ST_bind_Ok. exists r. destruct (Z.ltb_spec r 0); [done|]. by injection H as _ <-.
Qed.

(** The socket for the scouts gets the number they know; the Command Center
    keeps the other end, which the programs do not inherit. *)
Definition carrier_socks : ST E Z :=
  '(r, (sock0, sock1)) ← socketpair;
  ea "socketpair" (mret r) ;;
  ea "dup2" (so_dup2 sock1 CARRIER_SOCK) ;;
  ea "close" (so_close sock1) ;;
  ea "fcntl" (so_fcntl sock0 F_SETFD FD_CLOEXEC) ;;
  mret sock0.
(** The result of [init] is not looked at. *)
Definition new_carrier : ST E cmdcenter :=
  sock0 ← carrier_socks;
  (fun e => match CmdCenter.init (new_cmdcenter sock0, e) with
            | Ok (_, (cc, e)) => Ok (cc, e)
            | Fault f => Fault f
            end) : ST E cmdcenter.

(** The Carrier has two new descriptors, one of them [CARRIER_SOCK], unless the
    kernel has picked that number for the pair: then [close] closes it again. *)
Lemma carrier_socks_fds `{!fd_kernel E} e sock0 e' : carrier_socks e = Ok (sock0, e') →
  (sock0 ∉ fds e) ∧
  (fds e' = {[sock0; CARRIER_SOCK]} ∪ fds e ∨ (CARRIER_SOCK ∉ fds e) ∧ fds e' = {[sock0]} ∪ fds e).
Proof.
  unfold carrier_socks. destruct (socketpair_law e) as (r & a & b & e1 & Hsp & Hr).
  rewrite (ST_bind_step _ _ _ _ _ Hsp). intros H.
  apply ST_bind_Ok in H as (? & ? & (r0 & [= <- <-] & Hr0)%ea_Ok & H).
  destruct Hr as [[Hr1 _]|(_ & Ha & Hb & Hab & Hae & Hbe & He1)]; [lia|].
  destruct (dup2_law b CARRIER_SOCK e1) as (e2 & Hd & He2); [rewrite He1; set_solver|].
  destruct (close_law b e2) as (r3 & e3 & Hc & He3).
  destruct (fcntl_law a F_SETFD FD_CLOEXEC e3) as (r4 & e4 & Hf & He4).
  apply ST_bind_Ok in H as (? & ? & (? & Hd' & _)%ea_Ok & H). rewrite Hd in Hd'. injection Hd' as _ <-.
  apply ST_bind_Ok in H as (? & ? & (? & Hc' & _)%ea_Ok & H). rewrite Hc in Hc'. injection Hc' as _ <-.
  apply ST_bind_Ok in H as (? & ? & (? & Hf' & _)%ea_Ok & H). rewrite Hf in Hf'. injection Hf' as _ <-.
  injection H as <- <-. split; [done|].
  rewrite He4, He3, He2, He1. destruct (decide (b = CARRIER_SOCK)) as [->|]; [right|left]; set_solver.
Qed.
End Carrier.
