(* ===== verification/Seccomp.v ===== *)
(** * The handler of SIGSYS (sandbox/seccomp.cpp and the assembly files)

    A system call that the filter traps arrives at [handle_syscall], with the
    registers of the interrupted program in [ctx].  Most calls go through the
    bridge, and the result replaces the saved [rax].  [execve] and [vfork]
    have to happen outside of the signal handler: [install_fakeframe] lays out
    a stack frame, so that the program continues in [execve_handler] or
    [vfork_handler], and from there, through [fakeframe_trampoline], where it
    made the call. *)

From stdpp Require Import functions.
From S2P Require Import Prelude TinyPack Message Bridge CmdCenter Machine Filter Scout.

Definition NR_kill : Z := 62.
Definition SIGTRAP : Z := 5.
Definition sizeof_ptr : Z := 8.
Definition altstack_size : Z := 1024.

(** The static objects and the functions whose addresses the code takes. *)
Record addresses := Addresses {
  execve_altstack : Z;     (** [altstack] of the two cases of [handle_syscall] *)
  vfork_altstack : Z;
  vfork_buf : Z;           (** [buf] of [vfork_handler], 256 bytes *)
  execve_handler_addr : Z;
  vfork_handler_addr : Z;
  fakeframe_trampoline_addr : Z;
}.

(** ** The assembly functions *)
Definition fakeframe_trampoline : list instr := [
  POP RDI; POP RSI; POP RBX; POP RCX; POP RDX; POP R8; POP R9;
  LOAD 16 RSP R10; LOAD 24 RSP R11; STORE R11 (-8) R10;
  POP R10; POP R11; POP RSP;
  SUBI 8 RSP; RETQ
].
Definition syscall_trampoline : list instr := [
  MOV RDI RAX; MOV RSI RDI; MOV RDX RSI; MOV RCX RDX; MOV R8 R10; MOV R9 R8; LOAD 8 RSP R9;
  SYSCALL_INSN; RETQ
].
Definition vfork_trampoline : list instr := [
  MOVI NR_vfork RAX; POP RDI; SYSCALL_INSN; PUSH RDI; RETQ
].

Section Handler.
Context {E : Type} `{Os : scout_os E} `{Tr : trampoline E}.
Context (malloc : Z → list byte) (ad : addresses).
Abbreviation M := (Scout.M (E:=E)).

(** *** Registers, memory, the bridge *)
Definition get_reg (r : greg) : M Z := gets (fun p => ctx p r).
Definition set_reg (r : greg) (v : Z) : M unit := modify (fun p => set_ctx (<[r := u64 v]> (ctx p)) p).
Definition load (a : Z) : M Z := in_mem (fun m => v ← load64 a m; Ok (v, m)).
Definition store (a v : Z) : M unit := in_mem (fun m => m ← store64 a v m; Ok (tt, m)).
Definition via_bridge {A} (m : ST (sandbox_bridge * E) A) : M A := fun p =>
  match m (bridge p, kern p) with
  | Ok (a, (b, e)) => Ok (a, set_kern e (set_bridge b p))
  | Fault f => Fault f
  end.
Definition via_trampo (nr : Z) (args : list Z) : M Z := sys (SYSCALL nr args).

(** What a pointer argument points to. *)
Definition string_arg (a : Z) : M cstr :=
  gets (fun p => CStr (string_from (S (base.size (mem p))) a (mem p))).
Definition buffer_arg (a n : Z) : M (list byte) :=
  gets (fun p => mapped_from (Z.to_nat (Z.min n (Z.of_nat (base.size (mem p))))) a (mem p)).
Definition write_back (a : Z) (bs : list byte) : M unit :=
  in_mem (fun m => m ← mem_write a bs m; Ok (tt, m)).

(** *** install_fakeframe *)
Definition push (rsp v : Z) : M Z :=
  let rsp := u64 (rsp - sizeof_ptr) in store rsp v ;; mret rsp.
Definition push_reg (r : greg) (rsp : Z) : M Z := v ← get_reg r; push rsp v.

Definition install_fakeframe (user_handler saved_rsp : Z) : M unit :=
  rsp ← get_reg RSP;
  rsp ← push_reg RIP rsp;
  old ← get_reg RSP;
  rsp ← push rsp (if negb (saved_rsp =? 0) then saved_rsp else old);
  rsp ← push_reg R11 rsp;
  rsp ← push_reg R10 rsp;
  rsp ← push_reg R9 rsp;
  rsp ← push_reg R8 rsp;
  rsp ← push_reg RDX rsp;
  rsp ← push_reg RCX rsp;
  rsp ← push_reg RBX rsp;
  rsp ← push_reg RSI rsp;
  rsp ← push_reg RDI rsp;
  rsp ← push rsp (fakeframe_trampoline_addr ad);
  set_reg RSP rsp ;;
  set_reg RIP user_handler.

(** *** The handlers that run outside of the signal handler *)
Definition execve_handler (path argv envp : Z) : M Z :=
  r ← via_trampo NR_execve [path; argv; envp];
  if r <? 0 then
    pid ← via_trampo NR_getpid [];
    via_trampo NR_kill [pid; SIGTRAP] ;;
    mret r
  else mret r.

Fixpoint copy_words (n : nat) (src dst : Z) : M unit :=
  match n with
  | O => mret tt
  | S n =>
      v ← load src;
      store dst v ;;
      copy_words n (src + sizeof_ptr) (dst + sizeof_ptr)
  end.
(** [for (int i = 0; i < size; i += sizeof(void* ))] *)
Definition copy_size (size : Z) : nat := Z.to_nat ((size + 7) / sizeof_ptr).

(** [VFORK()] returns in the child, and then in the parent. *)
Definition vfork_handler (VFORK : M Z) (rsp old_rsp : Z) : M Z :=
  pid ← VFORK;
  if pid =? 0 then
    establish_cc_channel ;;
    let keep_size := s32 (old_rsp - rsp) in
    sassert (keep_size <=? 256 - sizeof_ptr * 2) "keep_size <= (int)(256 - sizeof(void* ) * 2)" ;;
    store (vfork_buf ad) (u64 keep_size) ;;
    store (vfork_buf ad + sizeof_ptr) rsp ;;
    copy_words (copy_size keep_size) rsp (vfork_buf ad + 2 * sizeof_ptr) ;;
    mret pid
  else if 0 <? pid then
    restore_size ← load (vfork_buf ad);
    ptr ← load (vfork_buf ad + sizeof_ptr);
    copy_words (copy_size (s64 restore_size)) (vfork_buf ad + 2 * sizeof_ptr) ptr ;;
    mret pid
  else mret pid.

(** *** The cases of handle_syscall *)
Definition handle_open : M unit :=
  a ← get_reg RDI; path ← string_arg a;
  flags ← get_reg RSI; mode ← get_reg RDX;
  r ← via_bridge (send_open malloc path (s32 flags) (u32 mode));
  set_reg RAX r.
Definition handle_openat : M unit :=
  dirfd ← get_reg RDI; a ← get_reg RSI; path ← string_arg a;
  flags ← get_reg RDX; mode ← get_reg R10;
  r ← via_bridge (send_openat malloc (s32 dirfd) path (s32 flags) (u32 mode));
  set_reg RAX r.
Definition handle_dup : M unit :=
  fd ← get_reg RDI; r ← via_bridge (send_dup (s32 fd)); set_reg RAX r.
Definition handle_dup2 : M unit :=
  oldfd ← get_reg RDI; newfd ← get_reg RSI;
  r ← via_bridge (send_dup2 (s32 oldfd) (s32 newfd)); set_reg RAX r.
Definition handle_access : M unit :=
  a ← get_reg RDI; path ← string_arg a; mode ← get_reg RSI;
  r ← via_bridge (send_access malloc path (s32 mode));
  set_reg RAX r.

(** [r = bridge.send_*(..., statbuf); SECCOMP_RESULT(ctx) = r;] *)
Definition stat_call (send : struct_stat → ST (sandbox_bridge * E) (Z * struct_stat)) : M unit :=
  statbuf ← get_reg RSI; old ← buffer_arg statbuf 144;
  r ← via_bridge (send (Stat old));
  write_back statbuf (stat_bytes r.2) ;;
  set_reg RAX r.1.
Definition handle_fstat : M unit :=
  fd ← get_reg RDI; stat_call (send_fstat malloc (s32 fd)).
Definition handle_stat : M unit :=
  a ← get_reg RDI; path ← string_arg a; stat_call (send_stat malloc path).
Definition handle_lstat : M unit :=
  a ← get_reg RDI; path ← string_arg a; stat_call (send_lstat malloc path).

Definition handle_execve : M unit :=
  filename ← get_reg RDI; path ← string_arg filename;
  argv ← get_reg RSI; envp ← get_reg RDX;
  r ← via_bridge (send_execve malloc path);
  set_reg RAX r ;;
  if r =? 0 then
    saved_rsp ← get_reg RSP;
    set_reg RSP (execve_altstack ad + altstack_size - sizeof_ptr) ;;
    install_fakeframe (execve_handler_addr ad) saved_rsp ;;
    set_reg RDI filename ;;
    set_reg RSI argv ;;
    set_reg RDX envp
  else mret tt.
Definition handle_readlink : M unit :=
  a ← get_reg RDI; path ← string_arg a;
  buf ← get_reg RSI; bufsize ← get_reg RDX; old ← buffer_arg buf bufsize;
  r ← via_bridge (send_readlink malloc path old bufsize);
  write_back buf r.2 ;;
  set_reg RAX r.1.
Definition handle_unlink : M unit :=
  a ← get_reg RDI; path ← string_arg a;
  r ← via_bridge (send_unlink malloc path);
  set_reg RAX r.
Definition handle_vfork : M unit :=
  set_reg RAX 0 ;;
  saved_rsp ← get_reg RSP;
  set_reg RSP (vfork_altstack ad + altstack_size - sizeof_ptr) ;;
  install_fakeframe (vfork_handler_addr ad) saved_rsp ;;
  rsp ← get_reg RSP;
  set_reg RDI rsp ;;
  set_reg RSI (vfork_altstack ad + altstack_size - sizeof_ptr).
Definition handle_rt_sigaction : M unit :=
  signum ← get_reg RDI; act ← get_reg RSI; oldact ← get_reg RDX; sigsetsz ← get_reg R10;
  r ← via_bridge (send_rt_sigaction (s32 signum) act oldact sigsetsz);
  set_reg RAX r.

(** The [switch]. *)
Definition syscall_case (nr : Z) : option (M unit) :=
  if nr =? NR_open then Some handle_open else
  if nr =? NR_openat then Some handle_openat else
  if nr =? NR_dup then Some handle_dup else
  if nr =? NR_dup2 then Some handle_dup2 else
  if nr =? NR_access then Some handle_access else
  if nr =? NR_fstat then Some handle_fstat else
  if nr =? NR_stat then Some handle_stat else
  if nr =? NR_lstat then Some handle_lstat else
  if nr =? NR_execve then Some handle_execve else
  if nr =? NR_readlink then Some handle_readlink else
  if nr =? NR_unlink then Some handle_unlink else
  if nr =? NR_vfork then Some handle_vfork else
  if nr =? NR_rt_sigaction then Some handle_rt_sigaction else None.
Definition handle_syscall : M unit :=
  syscall ← get_reg RAX;
  match syscall_case (s64 syscall) with Some h => h | None => mret tt end.
Definition sigsys : M unit := handle_syscall.
End Handler.

(** ** The fake frame *)

(** The words of the frame, from the lowest address on. *)
Definition fake_frame (ad : addresses) (g : gregs) (rsp : Z) : list Z :=
  [fakeframe_trampoline_addr ad; g RDI; g RSI; g RBX; g RCX; g RDX; g R8; g R9; g R10; g R11;
   rsp; g RIP].
Definition frame_size : Z := 96.

Section Frame.
Context {E : Type} (ad : addresses).
Implicit Types (p : process E) (m : memory).

(** [ws] has been pushed below [top], and nothing else has changed. *)
Definition pushed (m0 : memory) (top : Z) (ws : list Z) (m : memory) : Prop :=
  words_at m (top - 8 * Z.of_nat (length ws)) ws ∧
  same_outside (top - 8 * Z.of_nat (length ws)) (8 * Z.of_nat (length ws)) m0 m.

Lemma pushed_nil m top : pushed m top [] m.
Proof. split; [apply words_at_nil|apply same_outside_refl]. Qed.

Lemma push_pushed m0 top ws m v p low rsp :
  pushed m0 top ws m → mapped m0 low (top - low) → 0 ≤ low → top < 2 ^ 64 →
  low + 8 * Z.of_nat (S (length ws)) ≤ top → rsp = top - 8 * Z.of_nat (length ws) →
  ∃ m', push rsp v (set_mem m p) = Ok (top - 8 * Z.of_nat (length (v :: ws)), set_mem m' p) ∧
        pushed m0 top (v :: ws) m'.
Proof.
  intros [Hw Ho] Hm Hl Ht Hroom ->. cbn [length]. set (n := length ws) in *.
  set (a := top - 8 * Z.of_nat (S n)).
  assert (u64 (top - 8 * Z.of_nat n - sizeof_ptr) = a) as Ha
    by (unfold sizeof_ptr; rewrite u64_small; lia).
  destruct (store64_word m a v) as (m' & Hs & Hv & Ho').
  { eapply mapped_same; [exact Ho|]. eapply mapped_part; [exact Hm|lia|lia]. }
  exists m'. split.
  - unfold push. rewrite Ha. unfold store, in_mem. mstep. cbn [mem set_mem]. by rewrite Hs.
  - split; cbn [length]; fold n a.
    + apply words_at_cons. split; [done|]. replace (a + 8) with (top - 8 * Z.of_nat n) by lia.
      eapply words_at_same; [exact Ho'|exact Hw|]. fold n. lia.
    + eapply same_outside_trans; (eapply same_outside_weaken; [eassumption|lia|lia]).
Qed.

Lemma install_fakeframe_spec handler saved_rsp m0 p :
  let top := ctx p RSP in
  frame_size ≤ top < 2 ^ 64 → mapped m0 (top - frame_size) frame_size →
  ∃ m', install_fakeframe ad handler saved_rsp (set_mem m0 p) =
      Ok (tt, set_ctx (<[RIP := u64 handler]> (<[RSP := top - frame_size]> (ctx p))) (set_mem m' p)) ∧
    words_at m' (top - frame_size)
      (fake_frame ad (ctx p) (if negb (saved_rsp =? 0) then saved_rsp else top)) ∧
    same_outside (top - frame_size) frame_size m0 m'.
Proof.
  intros top Htop Hm. unfold frame_size in *.
  assert (∀ ws m v, pushed m0 top ws m → (length ws < 12)%nat →
    ∃ m', push (top - 8 * Z.of_nat (length ws)) v (set_mem m p) =
            Ok (top - 8 * Z.of_nat (length (v :: ws)), set_mem m' p) ∧
          pushed m0 top (v :: ws) m') as Hpush.
  { intros ws m v Hp Hl. eapply (push_pushed _ _ _ _ _ _ (top - 96)); eauto; [|lia..].
    by replace (top - (top - 96)) with 96 by lia. }
  pose proof (pushed_nil m0 top) as H0.
  set (sv := if negb (saved_rsp =? 0) then saved_rsp else top).
  destruct (Hpush _ _ (ctx p RIP) H0 ltac:(simpl; lia)) as (m1 & E1 & H1).
  destruct (Hpush _ _ sv H1 ltac:(simpl; lia)) as (m2 & E2 & H2).
  destruct (Hpush _ _ (ctx p R11) H2 ltac:(simpl; lia)) as (m3 & E3 & H3).
  destruct (Hpush _ _ (ctx p R10) H3 ltac:(simpl; lia)) as (m4 & E4 & H4).
  destruct (Hpush _ _ (ctx p R9) H4 ltac:(simpl; lia)) as (m5 & E5 & H5).
  destruct (Hpush _ _ (ctx p R8) H5 ltac:(simpl; lia)) as (m6 & E6 & H6).
  destruct (Hpush _ _ (ctx p RDX) H6 ltac:(simpl; lia)) as (m7 & E7 & H7).
  destruct (Hpush _ _ (ctx p RCX) H7 ltac:(simpl; lia)) as (m8 & E8 & H8).
  destruct (Hpush _ _ (ctx p RBX) H8 ltac:(simpl; lia)) as (m9 & E9 & H9).
  destruct (Hpush _ _ (ctx p RSI) H9 ltac:(simpl; lia)) as (m10 & E10 & H10).
  destruct (Hpush _ _ (ctx p RDI) H10 ltac:(simpl; lia)) as (m11 & E11 & H11).
  destruct (Hpush _ _ (fakeframe_trampoline_addr ad) H11 ltac:(simpl; lia)) as (m12 & E12 & H12).
  change (top - 8 * Z.of_nat (length (A:=Z) [])) with (top - 0) in E1. rewrite Z.sub_0_r in E1.
  exists m12. split; [|exact H12].
  unfold install_fakeframe. rewrite (ST_bind_step _ _ _ top (set_mem m0 p)) by reflexivity.
  rewrite (ST_bind_step _ (push_reg RIP _) _ _ _ E1).
  rewrite (ST_bind_step _ _ _ top (set_mem m1 p)) by reflexivity. fold sv.
  rewrite (ST_bind_step _ _ _ _ _ E2), (ST_bind_step _ (push_reg R11 _) _ _ _ E3),
    (ST_bind_step _ (push_reg R10 _) _ _ _ E4), (ST_bind_step _ (push_reg R9 _) _ _ _ E5),
    (ST_bind_step _ (push_reg R8 _) _ _ _ E6), (ST_bind_step _ (push_reg RDX _) _ _ _ E7),
    (ST_bind_step _ (push_reg RCX _) _ _ _ E8), (ST_bind_step _ (push_reg RBX _) _ _ _ E9),
    (ST_bind_step _ (push_reg RSI _) _ _ _ E10), (ST_bind_step _ (push_reg RDI _) _ _ _ E11),
    (ST_bind_step _ _ _ _ _ E12).
  unfold set_reg. mstep. unfold modify. do 2 f_equal. unfold set_ctx. cbn [ctx mem set_mem].
  rewrite (u64_small (top - _)) by (cbn [length]; lia). done.
Qed.
End Frame.

(** *** Back from the handler *)
Section Resume.
Context (kernel : cpu → outcome cpu).

(** One [pop] from the words at [a], the [i]-th of which is next. *)
Lemma exec_pop prog r g m a ws i w :
  words_at m a ws → ws !! i = Some w → g RSP = a + 8 * Z.of_nat i →
  0 ≤ w < 2 ^ 64 → 0 ≤ a → a + 8 * Z.of_nat (S i) < 2 ^ 64 →
  exec kernel (POP r :: prog) (Cpu g m) =
  exec kernel prog (Cpu (<[r := w]> (<[RSP := a + 8 * Z.of_nat (S i)]> g)) m).
Proof.
  intros Hw Hi Hg Hv Ha Hl. cbn [exec exec1 regs ram]. rewrite Hg.
  rewrite (words_at_load _ _ _ _ _ Hw Hi). ostep. rewrite u64_small by done.
  rewrite u64_small by lia. do 4 f_equal. lia.
Qed.
Lemma exec_load prog off r g m a ws j i w :
  words_at m a ws → ws !! i = Some w → g RSP = a + 8 * Z.of_nat j →
  off = 8 * (Z.of_nat i - Z.of_nat j) →
  0 ≤ w < 2 ^ 64 → 0 ≤ a → a + 8 * Z.of_nat i < 2 ^ 64 →
  exec kernel (LOAD off RSP r :: prog) (Cpu g m) = exec kernel prog (Cpu (<[r := w]> g) m).
Proof.
  intros Hw Hi Hg -> Hv Ha Hl. cbn [exec exec1 regs ram]. rewrite Hg.
  replace (a + 8 * Z.of_nat j + _) with (a + 8 * Z.of_nat i) by lia.
  rewrite (u64_small (a + _)) by lia.
  rewrite (words_at_load _ _ _ _ _ Hw Hi). ostep. by rewrite u64_small.
Qed.

Lemma exec_store prog src off base g m m' a v :
  g src = v → store64 a v m = Ok m' → u64 (g base + off) = a →
  exec kernel (STORE src off base :: prog) (Cpu g m) = exec kernel prog (Cpu g m').
Proof. intros <- Hs <-. cbn [exec exec1 regs ram]. by rewrite Hs. Qed.
Lemma exec_return g m a v :
  u64 (g RSP - 8) = a → word_at m a v → 0 ≤ v < 2 ^ 64 → 0 ≤ a < 2 ^ 64 - 8 →
  exec kernel [SUBI 8 RSP; RETQ] (Cpu g m) =
  Ok (Cpu (<[RIP := v]> (<[RSP := a + 8]> (<[RSP := a]> g))) m).
Proof.
  intros <- Hw Hv Ha. cbn [exec exec1 regs ram]. ostep. cbn [regs ram].
  change (<[RSP := ?x]> g RSP) with x. rewrite (load64_word _ _ _ Hw). ostep.
  rewrite (u64_small v) by done. by rewrite (u64_small (u64 _ + 8)) by lia.
Qed.

(** The assembly code restores every register of the frame and continues at
    the frame's address, on the frame's stack; below that stack it writes the
    address, and nothing else. *)
Lemma fakeframe_trampoline_restores ad g0 rsp g m a :
  words_at m (a - 8) (fake_frame ad g0 rsp) →
  g RSP = a → 8 ≤ a → a + 96 < 2 ^ 64 → 8 ≤ rsp < 2 ^ 64 →
  (∀ r, 0 ≤ g0 r < 2 ^ 64) →
  mapped m (rsp - 8) 8 → (rsp ≤ a - 8 ∨ a + 88 ≤ rsp - 8) →
  ∃ g' m', exec kernel fakeframe_trampoline (Cpu g m) = Ok (Cpu g' m') ∧
    g' RSP = rsp ∧ g' RIP = g0 RIP ∧
    (∀ r, r ∈ [RDI; RSI; RBX; RCX; RDX; R8; R9; R10; R11] → g' r = g0 r) ∧
    (∀ r, r ∈ [RAX; RBP; R12; R13; R14; R15] → g' r = g r) ∧
    same_outside (rsp - 8) 8 m m'.
Proof.
  intros Hw Hg Ha Hl Hrsp Hg0 Hm Hd.
  remember (a - 8) as b eqn:Hb. assert (Ha' : a = b + 8) by lia. clear Hb. subst a.
  destruct (store64_word m (rsp - 8) (g0 RIP) Hm) as (m' & Hst & Hv & Ho).
  assert (words_at m' b (fake_frame ad g0 rsp)) as Hw'.
  { eapply words_at_same; [exact Ho|exact Hw|]. cbn [fake_frame length]. lia. }
  unfold fakeframe_trampoline.
  rewrite (exec_pop _ _ _ _ b _ 1 (g0 RDI) Hw eq_refl) by (apply Hg0 || lia).
  do 6 (match goal with |- context [<[RSP := b + 8 * Z.of_nat ?i]>] =>
    rewrite (exec_pop _ _ _ _ b _ i _ Hw eq_refl) by first [reflexivity | apply Hg0 | lia] end).
  rewrite (exec_load _ _ _ _ _ b _ 8 10 rsp Hw eq_refl) by first [reflexivity | exact Hrsp | lia].
  rewrite (exec_load _ _ _ _ _ b _ 8 11 (g0 RIP) Hw eq_refl) by first [reflexivity | apply Hg0 | lia].
  rewrite (exec_store _ R11 _ _ _ _ _ (rsp - 8) (g0 RIP) eq_refl Hst)
    by (change (u64 (rsp + -8) = rsp - 8); rewrite u64_small; lia).
  rewrite (exec_pop _ _ _ _ b _ 8 _ Hw' eq_refl) by first [reflexivity | apply Hg0 | lia].
  rewrite (exec_pop _ _ _ _ b _ 9 _ Hw' eq_refl) by first [reflexivity | apply Hg0 | lia].
  rewrite (exec_pop _ _ _ _ b _ 10 _ Hw' eq_refl) by first [reflexivity | exact Hrsp | lia].
  rewrite exec_return with (v := g0 RIP) (a := rsp - 8);
    [|change (u64 (rsp - 8) = rsp - 8); rewrite u64_small; lia|done|apply Hg0|lia].
  eexists _, m'. split; [reflexivity|].
  split_and!; [change (rsp - 8 + 8 = rsp); lia|reflexivity| | |done];
    intros r Hr; repeat (apply elem_of_cons in Hr as [->|Hr]; [reflexivity|]);
    by apply not_elem_of_nil in Hr.
Qed.
End Resume.

(** Steps of the handlers. *)
Section RegisterSteps.
Context {E : Type}.
Implicit Types p : process E.
Lemma get_reg_step {B} r (k : Z → Scout.M (E:=E) B) p : (get_reg r ≫= k) p = k (ctx p r) p.
Proof. done. Qed.
Lemma set_reg_step {B} r v (k : unit → Scout.M (E:=E) B) p :
  (set_reg r v ≫= k) p = k tt (set_ctx (<[r := u64 v]> (ctx p)) p).
Proof. done. Qed.
Lemma string_arg_step {B} a (k : cstr → Scout.M (E:=E) B) p :
  (string_arg a ≫= k) p = k (CStr (string_from (S (base.size (mem p))) a (mem p))) p.
Proof. done. Qed.
Lemma via_bridge_step {A B} (m : ST (sandbox_bridge * E) A) (k : A → Scout.M (E:=E) B) p a b e :
  m (bridge p, kern p) = Ok (a, (b, e)) →
  (via_bridge m ≫= k) p = k a (set_kern e (set_bridge b p)).
Proof. intros H. apply ST_bind_step. unfold via_bridge. by rewrite H. Qed.
End RegisterSteps.

(** A program with registers [g] continues where it was, with a new [rax]
    only, when the handler that was entered with [rsp = R] and the memory [m]
    has returned: the machine [c] is then in [fakeframe_trampoline], the
    handler has kept the frame and, as every function, the registers that
    belong to its caller. *)
Definition resumes (kernel : cpu → outcome cpu) (g : gregs) (R : Z) (m : memory) : Prop :=
  ∀ c,
    regs c RSP = R + 8 →
    (∀ r, r ∈ [RBP; R12; R13; R14; R15] → regs c r = g r) →
    (∀ x, R ≤ x < R + frame_size → ram c !! x = m !! x) →
    mapped (ram c) (g RSP - 8) 8 →
    ∃ c', exec kernel fakeframe_trampoline c = Ok c' ∧
      (∀ r, regs c' r = if decide (r = RAX) then regs c RAX else g r) ∧
      same_outside (g RSP - 8) 8 (ram c) (ram c').

(** Membership in a list of registers. *)
Ltac listed := apply (bool_decide_unpack _); reflexivity.

Section Entered.
Context {E : Type} `{Os : scout_os E} `{Tr : trampoline E} (malloc : Z → list byte).
Context (ad : addresses).
Implicit Types p : process E.

(** The program's registers are 64-bit values and its stack is not the
    sandbox's [altstack] at [alt], which is mapped. *)
Record frame_room (alt : Z) (p : process E) : Prop := {
  room_regs r : 0 ≤ ctx p r < 2 ^ 64;
  room_alt : 0 ≤ alt ∧ alt + altstack_size < 2 ^ 64;
  room_mapped : mapped (mem p) alt altstack_size;
  room_stack : 8 ≤ ctx p RSP;
  room_apart : ctx p RSP ≤ alt ∨ alt + altstack_size ≤ ctx p RSP - 8;
  }.
Definition frame_at (alt : Z) : Z := alt + altstack_size - sizeof_ptr - frame_size.

(** [install_fakeframe] on the [altstack], with [g] the registers as the
    signal handler has left them. *)
Lemma install_on_altstack alt handler p g :
  frame_room alt p → 0 ≤ handler < 2 ^ 64 →
  (∀ r, r ≠ RAX → r ≠ RSP → g r = ctx p r) → g RSP = alt + altstack_size - sizeof_ptr →
  ∃ m', install_fakeframe ad handler (ctx p RSP) (set_ctx g p) =
      Ok (tt, set_ctx (<[RIP := handler]> (<[RSP := frame_at alt]> g)) (set_mem m' p)) ∧
    words_at m' (frame_at alt) (fake_frame ad (ctx p) (ctx p RSP)) ∧
    same_outside (frame_at alt) frame_size (mem p) m'.
Proof.
  intros [Hr Ha Hm Hs _] Hh Hg Hsp.
  destruct (install_fakeframe_spec ad handler (ctx p RSP) (mem p) (set_ctx g p)) as (m' & H1 & H2 & H3);
    cbn [ctx set_ctx] in *.
  { rewrite Hsp. unfold frame_size, altstack_size, sizeof_ptr in *. lia. }
  { rewrite Hsp. eapply mapped_part; [exact Hm| |]; unfold frame_size, altstack_size, sizeof_ptr; lia. }
  exists m'. rewrite Hsp in *. fold (frame_at alt) in *. split_and!; [|clear H1|done].
  - rewrite (u64_small handler) in H1 by done. by destruct p.
  - destruct (Z.eqb_spec (ctx p RSP) 0); [lia|]. cbn [negb] in H2.
    unfold fake_frame in *. by rewrite !Hg in H2 by done.
Qed.

Lemma frame_resumes kernel alt p m' :
  frame_room alt p → words_at m' (frame_at alt) (fake_frame ad (ctx p) (ctx p RSP)) →
  resumes kernel (ctx p) (frame_at alt) m'.
Proof.
  intros [Hr Ha Hm Hs Hd] Hw c Hsp Hcs Hf Hst. destruct c as [g m]. cbn [regs ram] in *.
  unfold frame_at, frame_size, altstack_size, sizeof_ptr in *.
  destruct (fakeframe_trampoline_restores kernel ad (ctx p) (ctx p RSP) g m (g RSP))
    as (g2 & m2 & Hx & H1 & H2 & H3 & H4 & H5); try done; try lia.
  - rewrite Hsp. replace (_ + 8 - 8) with (alt + 1024 - 8 - 96) by lia.
    intros i w Hi j b Hb. pose proof (lookup_lt_Some _ _ _ Hi) as Hil. cbn in Hil.
    pose proof (lookup_lt_Some _ _ _ Hb) as Hjl. rewrite length_le_bytes in Hjl.
    rewrite Hf by lia. by eapply Hw.
  - pose proof (Hr RSP). lia.
  - exists (Cpu g2 m2). split; [done|]. cbn [regs ram]. split; [|done].
    intros r. case_decide as Hc; [subst; by apply H4; left|].
    destruct r; first [congruence | apply H3; listed | rewrite H4 by listed; apply Hcs; listed].
Qed.

(** The state when the program continues in a handler. *)
Definition enters (p p' : process E) (alt handler : Z) : Prop :=
  ctx p' RIP = handler ∧ ctx p' RSP = frame_at alt ∧
  (∀ kernel, resumes kernel (ctx p) (frame_at alt) (mem p')) ∧
  same_outside alt altstack_size (mem p) (mem p').

(** C14: a trapped [vfork] continues in [vfork_handler], on the sandbox's own
    stack, with the bounds of the frame as its arguments; when the handler
    returns, the program continues at its call with all of its registers, the
    handler's result in [rax].  Nothing of the program's memory is changed
    before, and then at most the 8 bytes below its stack pointer. *)
Theorem vfork_resumes p :
  let alt := vfork_altstack ad in
  frame_room alt p → 0 ≤ vfork_handler_addr ad < 2 ^ 64 →
  ∃ p', handle_vfork ad p = Ok (tt, p') ∧
    enters p p' alt (vfork_handler_addr ad) ∧
    ctx p' RDI = frame_at alt ∧ ctx p' RSI = frame_at alt + frame_size ∧
    bridge p' = bridge p ∧ kern p' = kern p.
Proof.
  intros alt Hroom Hh. pose proof (room_alt _ _ Hroom) as Ha.
  unfold altstack_size in Ha.
  set (g := <[RSP := alt + altstack_size - sizeof_ptr]> (<[RAX := 0]> (ctx p))).
  destruct (install_on_altstack alt _ p g Hroom Hh) as (m' & Hi & Hw & Ho).
  { intros r Hr1 Hr2. by destruct r. }
  { done. }
  eexists. split.
  { unfold handle_vfork. rewrite set_reg_step, get_reg_step. rewrite set_reg_step. fold alt.
    rewrite (u64_small (alt + _ - _)) by (unfold altstack_size, sizeof_ptr; lia).
    change (ctx (set_ctx _ p) RSP) with (ctx p RSP).
    change (set_ctx (<[RSP := ?x]> _) _) with (set_ctx g p).
    rewrite (ST_bind_step _ _ _ _ _ Hi). reflexivity. }
  cbn [ctx mem set_ctx set_mem bridge kern]. unfold set_reg. cbn [ctx mem set_ctx set_mem].
  assert (0 ≤ frame_at alt < 2 ^ 64 ∧ frame_at alt + frame_size = alt + altstack_size - sizeof_ptr) as [Hf He]
    by (unfold frame_at, frame_size, altstack_size, sizeof_ptr; lia).
  split_and!; try done.
  - split_and!; [done|done| |].
    + intros kernel. by apply frame_resumes.
    + eapply same_outside_weaken; [exact Ho|..]; unfold frame_at, frame_size, altstack_size, sizeof_ptr; lia.
  - change (u64 (frame_at alt) = frame_at alt). by apply u64_small.
  - change (u64 (alt + altstack_size - sizeof_ptr) = frame_at alt + frame_size).
    rewrite He. apply u64_small. unfold altstack_size, sizeof_ptr. lia.
Qed.

(** C16: a trapped [execve] is first reported to the Command Center.  When
    that fails the program gets the error; otherwise it continues in
    [execve_handler] with the arguments of the call, and, when [execve] fails
    there, at its call with all of its registers. *)
Theorem execve_resumes p r b e :
  let alt := execve_altstack ad in
  let path := CStr (string_from (S (base.size (mem p))) (ctx p RDI) (mem p)) in
  frame_room alt p → 0 ≤ execve_handler_addr ad < 2 ^ 64 →
  send_execve malloc path (bridge p, kern p) = Ok (r, (b, e)) →
  ∃ p', handle_execve malloc ad p = Ok (tt, p') ∧ bridge p' = b ∧ kern p' = e ∧
    if decide (r = 0) then
      enters p p' alt (execve_handler_addr ad) ∧
      ∀ g, g ∈ [RDI; RSI; RDX] → ctx p' g = ctx p g
    else mem p' = mem p ∧ ∀ g, ctx p' g = if decide (g = RAX) then u64 r else ctx p g.
Proof.
  intros alt path Hroom Hh Hsend. pose proof (room_alt _ _ Hroom) as Ha.
  unfold altstack_size in Ha.
  assert (∀ q : process E, handle_execve malloc ad p = Ok (tt, q) ↔
    (if r =? 0 then
      set_reg RSP (alt + altstack_size - sizeof_ptr) ;;
      install_fakeframe ad (execve_handler_addr ad) (ctx p RSP) ;;
      set_reg RDI (ctx p RDI) ;; set_reg RSI (ctx p RSI) ;; set_reg RDX (ctx p RDX)
     else mret tt) (set_ctx (<[RAX := u64 r]> (ctx p)) (set_kern e (set_bridge b p))) = Ok (tt, q)) as Hrun.
  { intros q. unfold handle_execve. rewrite get_reg_step, string_arg_step, !get_reg_step.
    rewrite (via_bridge_step _ _ _ _ _ _ Hsend), set_reg_step. destruct (r =? 0); done. }
  destruct (Z.eqb_spec r 0) as [->|Hr].
  - set (g := <[RSP := alt + altstack_size - sizeof_ptr]> (<[RAX := u64 0]> (ctx p))).
    destruct (install_on_altstack alt (execve_handler_addr ad) (set_kern e (set_bridge b p)) g) with (2 := Hh) as (m' & Hi & Hw & Ho).
    { destruct Hroom. by split. }
    { intros r Hr1 Hr2. by destruct r. }
    { done. }
    eexists. split.
    { apply Hrun. rewrite set_reg_step.
      rewrite (u64_small (alt + _ - _)) by (unfold altstack_size, sizeof_ptr; lia).
      change (set_ctx (<[RSP := ?x]> _) _) with (set_ctx g (set_kern e (set_bridge b p))).
      rewrite (ST_bind_step _ _ _ _ _ Hi). reflexivity. }
    split_and!; [done..|]. rewrite decide_True by done. split; [split_and!; [done|done| |]|].
    + intros kernel. exact (frame_resumes kernel alt p m' Hroom Hw).
    + eapply same_outside_weaken; [exact Ho|..]; unfold frame_at, frame_size, altstack_size, sizeof_ptr; lia.
    + pose proof (room_regs _ _ Hroom) as Hregs. intros r Hr.
      repeat (apply elem_of_cons in Hr as [->|Hr]; [apply u64_small, Hregs|]).
      by apply not_elem_of_nil in Hr.
  - eexists. split; [by apply Hrun|]. rewrite decide_False by done. split_and!; try done.
    intros g. destruct (decide (g = RAX)) as [->|Hg]; [done|]. by apply fn_lookup_insert_ne.
Qed.
End Entered.

(** ** vfork: one stack for two processes *)
Section Vfork.
Context {E : Type} `{Os : scout_os E} `{Tr : trampoline E}.
Context (ad : addresses).
Implicit Types p : process E.

Lemma copy_words_spec ws : ∀ src dst m p,
  words_at m src ws → Forall (λ w, 0 ≤ w < 2 ^ 64) ws →
  mapped m dst (8 * Z.of_nat (length ws)) →
  src + 8 * Z.of_nat (length ws) ≤ dst ∨ dst + 8 * Z.of_nat (length ws) ≤ src →
  ∃ m', copy_words (length ws) src dst (set_mem m p) = Ok (tt, set_mem m' p) ∧
        words_at m' dst ws ∧ same_outside dst (8 * Z.of_nat (length ws)) m m'.
Proof.
  induction ws as [|w ws IH]; intros src dst m p Hw Hr Hm Hd.
  { exists m. split_and!; [done|apply words_at_nil|apply same_outside_refl]. }
  apply list.Forall_cons in Hr as [Hv Hr]. pose proof Hw as [Hw0 Hws]%words_at_cons. cbn [length] in *.
  destruct (store64_word m dst w) as (m1 & Hst & Hdw & Ho); [eapply mapped_part; [exact Hm|lia..]|].
  destruct (IH (src + 8) (dst + 8) m1 p) as (m' & Hrun & Hdst & Ho'); try done.
  { eapply words_at_same; [exact Ho|done|]. lia. }
  { eapply mapped_same; [exact Ho|]. eapply mapped_part; [exact Hm|lia..]. }
  { lia. }
  exists m'. split_and!.
  - cbn [copy_words]. rewrite (ST_bind_step _ _ _ w (set_mem m p)).
    2:{ unfold load, in_mem. cbn [mem set_mem]. rewrite (load64_word _ _ _ Hw0). ostep.
        by rewrite u64_small. }
    rewrite (ST_bind_step _ _ _ tt (set_mem m1 p)); [exact Hrun|].
    unfold store, in_mem. cbn [mem set_mem]. by rewrite Hst.
  - apply words_at_cons. split; [|done]. eapply word_at_same; [exact Ho'|done|]. lia.
  - eapply same_outside_trans; (eapply same_outside_weaken; [eassumption|lia..]).
Qed.

(** The calls that set up the channel leave the memory alone. *)
Definition same_mem : relation (process E) := fun p q => mem q = mem p.
#[local] Instance same_mem_preorder : PreOrder same_mem.
Proof. split; [done|]. intros p q r H1 H2. unfold same_mem in *. congruence. Qed.
Lemma preserves_sys {A} (m : ST E A) : preserves same_mem (sys m).
Proof. intros p a q. unfold sys. destruct (m (kern p)) as [[? ?]|]; [|done]. by intros [= _ <-]. Qed.
#[local] Hint Resolve preserves_sys : preserve.
Lemma establish_mem p ok p' : establish_cc_channel p = Ok (ok, p') → mem p' = mem p.
Proof.
  assert (preserves same_mem (establish_cc_channel (E:=E))) as H; [|apply H].
  unfold establish_cc_channel, getp. preserve;
    first [apply (preserves_ret _) | apply (preserves_gets _) | by apply (preserves_modify _)].
Qed.

Lemma copy_size_words n : copy_size (8 * Z.of_nat n) = n.
Proof.
  unfold copy_size, sizeof_ptr. replace (8 * Z.of_nat n + 7) with (7 + Z.of_nat n * 8) by lia.
  rewrite Z.div_add by lia. change (7 / 8) with 0. lia.
Qed.

(** The frame of [n] words at [rsp], and the buffer apart from it. *)
Section Frame.
Context (ws : list Z) (rsp : Z) (n : nat).
Let buf := vfork_buf ad.
Let old_rsp := rsp + 8 * Z.of_nat n.
Hypothesis Hn : length ws = n.
Hypothesis Hmax : (n ≤ 30)%nat.
Hypothesis Hws : Forall (λ w, 0 ≤ w < 2 ^ 64) ws.
Hypothesis Hr : 0 ≤ rsp.
Hypothesis Ho : old_rsp < 2 ^ 64.
Hypothesis Hb : 0 ≤ buf.
Hypothesis Hbl : buf + 256 < 2 ^ 64.
Hypothesis Hd : old_rsp ≤ buf ∨ buf + 256 ≤ rsp.

Lemma vfork_child_saves p ok pe :
  words_at (mem p) rsp ws → mapped (mem p) buf 256 → establish_cc_channel p = Ok (ok, pe) →
  ∃ m', vfork_handler ad (mret 0) rsp old_rsp p = Ok (0, set_mem m' pe) ∧
      words_at m' buf (8 * Z.of_nat n :: rsp :: ws) ∧ same_outside buf 256 (mem p) m'.
Proof using All.
  intros Hw Hm He. pose proof (establish_mem _ _ _ He) as Hme.
  destruct (store64_word (mem p) buf (8 * Z.of_nat n)) as (m1 & S1 & W1 & O1);
    [eapply mapped_part; [exact Hm|lia..]|].
  destruct (store64_word m1 (buf + 8) rsp) as (m2 & S2 & W2 & O2);
    [eapply mapped_same; [exact O1|]; eapply mapped_part; [exact Hm|lia..]|].
  assert (same_outside buf 16 (mem p) m2) as O12.
  { eapply same_outside_trans; (eapply same_outside_weaken; [eassumption|lia..]). }
  destruct (copy_words_spec ws rsp (buf + 16) m2 pe) as (m3 & S3 & W3 & O3); try done; rewrite ?Hn.
  { eapply words_at_same; [exact O12|done|]. lia. }
  { eapply mapped_same; [exact O12|]. eapply mapped_part; [exact Hm|lia..]. }
  { lia. }
  rewrite Hn in *. exists m3. split_and!.
  - unfold vfork_handler. rewrite (ST_bind_step _ _ _ 0 p) by reflexivity. cbn [Z.eqb].
    rewrite (ST_bind_step _ _ _ _ _ He). cbv zeta. fold buf.
    replace (s32 (old_rsp - rsp)) with (8 * Z.of_nat n) by (rewrite s32_small; lia).
    rewrite (ST_bind_step _ _ _ tt pe).
    2:{ apply sassert_Ok. split; [|done]. unfold sizeof_ptr. lia. }
    rewrite (ST_bind_step _ _ _ tt (set_mem m1 pe)).
    2:{ unfold store, in_mem. rewrite Hme, (u64_small (8 * _)), S1 by lia. done. }
    rewrite (ST_bind_step _ _ _ tt (set_mem m2 pe)).
    2:{ unfold store, in_mem, sizeof_ptr. cbn [mem set_mem]. by rewrite S2. }
    rewrite copy_size_words. rewrite (ST_bind_step _ _ _ tt (set_mem m3 pe)); [done|exact S3].
  - apply words_at_cons. split.
    + eapply word_at_same; [exact O3| |lia]. eapply word_at_same; [exact O2|exact W1|lia].
    + apply words_at_cons. split; [|by replace (buf + 8 + 8) with (buf + 16) by lia].
      eapply word_at_same; [exact O3|exact W2|lia].
  - eapply same_outside_trans; (eapply same_outside_weaken; [eassumption|lia..]).
Qed.

Lemma vfork_parent_restores q child pid :
  words_at (mem child) buf (8 * Z.of_nat n :: rsp :: ws) →
  mapped (mem child) rsp (old_rsp - rsp) → 0 < pid →
  ∃ q', vfork_handler ad (λ _, Ok (pid, child)) rsp old_rsp q = Ok (pid, q') ∧
    words_at (mem q') rsp ws ∧ same_outside rsp (old_rsp - rsp) (mem child) (mem q').
Proof using All.
  intros [B0 [B1 B2]%words_at_cons]%words_at_cons Hm Hpid.
  replace (buf + 8 + 8) with (buf + 16) in B2 by lia.
  replace (old_rsp - rsp) with (8 * Z.of_nat n) in * by lia.
  destruct (copy_words_spec ws (buf + 16) rsp (mem child) child) as (m4 & S4 & W4 & O4);
    try done; rewrite ?Hn in *; [done|lia|].
  exists (set_mem m4 child). split_and!; [|done|done].
  unfold vfork_handler. rewrite (ST_bind_step _ _ _ pid child) by reflexivity.
  destruct (Z.eqb_spec pid 0); [lia|]. destruct (Z.ltb_spec 0 pid); [|lia]. fold buf.
  rewrite (ST_bind_step _ _ _ (8 * Z.of_nat n) child).
  2:{ unfold load, in_mem. rewrite (load64_word _ _ _ B0). ostep.
      rewrite u64_small by lia. by destruct child. }
  rewrite (ST_bind_step _ _ _ rsp child).
  2:{ unfold load, in_mem, sizeof_ptr. rewrite (load64_word _ _ _ B1). ostep.
      rewrite u64_small by lia. by destruct child. }
  replace (s64 (8 * Z.of_nat n)) with (8 * Z.of_nat n) by (rewrite s64_small; lia).
  rewrite copy_size_words, (ST_bind_step _ _ _ tt (set_mem m4 child)); [done|].
  destruct child. exact S4.
Qed.
End Frame.

(** C15: parent and child of [vfork] share their memory, so that the child
    runs over the frame from which the parent has to return.  The child's
    handler saves the frame in [buf]; whatever the child does afterwards,
    [buf] apart, the parent's handler puts the same frame back, at the same
    place, and changes nothing else. *)
Theorem vfork_frame_survives p q ws rsp n pid ok pe child :
  let old_rsp := rsp + 8 * Z.of_nat n in
  length ws = n → (n ≤ 30)%nat → Forall (λ w, 0 ≤ w < 2 ^ 64) ws → words_at (mem p) rsp ws →
  0 ≤ rsp → old_rsp < 2 ^ 64 →
  0 ≤ vfork_buf ad → vfork_buf ad + 256 < 2 ^ 64 → mapped (mem p) (vfork_buf ad) 256 →
  old_rsp ≤ vfork_buf ad ∨ vfork_buf ad + 256 ≤ rsp →
  establish_cc_channel p = Ok (ok, pe) →
  ∃ p', vfork_handler ad (mret 0) rsp old_rsp p = Ok (0, p') ∧
    same_outside (vfork_buf ad) 256 (mem p) (mem p') ∧
    ((∀ x, vfork_buf ad ≤ x < vfork_buf ad + 256 → mem child !! x = mem p' !! x) →
     mapped (mem child) rsp (old_rsp - rsp) → 0 < pid →
     ∃ q', vfork_handler ad (λ _, Ok (pid, child)) rsp old_rsp q = Ok (pid, q') ∧
       words_at (mem q') rsp ws ∧ same_outside rsp (old_rsp - rsp) (mem child) (mem q')).
Proof.
  intros old_rsp Hn Hmax Hws Hw Hr Ho Hb Hbl Hm Hd He.
  destruct (vfork_child_saves ws rsp n Hn Hmax Hws Hr Ho Hb Hbl Hd p ok pe Hw Hm He)
    as (m' & Hrun & Hsaved & Hs).
  exists (set_mem m' pe). split_and!; [done|done|]. intros Hchild Hcm Hpid.
  apply vfork_parent_restores; try done.
  intros i w Hi j b Hj. pose proof (lookup_lt_Some _ _ _ Hi) as Hil. cbn in Hil.
  pose proof (lookup_lt_Some _ _ _ Hj) as Hjl. rewrite length_le_bytes in Hjl.
  rewrite Hchild by lia. by eapply Hsaved.
Qed.
End Vfork.

(** ** Witnesses: a process whose stack is at 0x8000 and whose [altstack]s
    and [buf] are in the page at 0x10000. *)
Definition demo_addresses : addresses := Addresses 0x10000 0x10400 0x10800 0x40100 0x40200 0x40300.
Definition demo_memory : memory := map_zeros 4096 0x10000 ∅.
Definition demo_regs : gregs := fun r =>
  match r with RSP => 0x8000 | RIP => 0x401000 | RAX => 58 | RDI => 0x10900 | RBX => 7 | _ => 0 end.
Definition stopped_process : process demo_kernel :=
  set_ctx demo_regs (demo_process (-1) demo_memory).
Lemma demo_memory_mapped a n : 0x10000 ≤ a → a + n ≤ 0x11000 → mapped demo_memory a n.
Proof.
  intros Ha Hn x Hx. unfold demo_memory. rewrite map_zeros_lookup, decide_True by lia. eauto.
Qed.
Lemma demo_room alt : 0x10000 ≤ alt → alt + 1024 ≤ 0x11000 → frame_room alt stopped_process.
Proof.
  intros Ha Hl. split.
  - intros r. change (ctx stopped_process r) with (demo_regs r). destruct r; vm_compute; split; congruence.
  - unfold altstack_size. lia.
  - change (mem stopped_process) with demo_memory. apply demo_memory_mapped; unfold altstack_size; lia.
  - by vm_compute.
  - left. change (ctx stopped_process RSP) with 0x8000. lia.
Qed.
#[local] Existing Instance demo_os.
#[local] Instance demo_trampoline : trampoline demo_kernel := fun nr args => mret (-1).

Lemma vfork_resumes_witness :
  ∃ p', handle_vfork demo_addresses stopped_process = Ok (tt, p') ∧
    ctx p' RIP = 0x40200 ∧ ctx p' RDI = 0x10400 + 920 ∧ ctx p' RSI = 0x10400 + 1016.
Proof.
  destruct (vfork_resumes demo_addresses stopped_process
    (demo_room 0x10400 ltac:(by vm_compute) ltac:(by vm_compute)) ltac:(by vm_compute))
    as (p' & H1 & [H2 _] & H3 & H4 & _).
  exists p'. split; [exact H1|split; [exact H2|split; [exact H3|exact H4]]].
Defined.

(** [getpid] fails, and so does the request. *)
Lemma execve_resumes_witness :
  ∃ p', handle_execve (λ _, []) demo_addresses stopped_process = Ok (tt, p') ∧
    mem p' = mem stopped_process ∧ ctx p' RAX = u64 (-1).
Proof.
  destruct (execve_resumes (Os := demo_os) (λ _, []) demo_addresses stopped_process (-1)
    (bridge stopped_process) (kern stopped_process)
    (demo_room 0x10000 ltac:(by vm_compute) ltac:(by vm_compute)) ltac:(by vm_compute) eq_refl)
    as (p' & H1 & _ & _ & H2 & H3).
  exists p'. split; [exact H1|split; [exact H2|exact (H3 RAX)]].
Defined.

Lemma demo_zero_words a n :
  0x10000 ≤ a → a + 8 * Z.of_nat n ≤ 0x11000 → words_at demo_memory a (replicate n 0).
Proof.
  intros Ha Hn i w Hi. apply lookup_replicate in Hi as [-> Hi].
  intros j b Hj. change (le_bytes 8 0) with (replicate 8 NUL) in Hj.
  apply lookup_replicate in Hj as [-> Hj].
  unfold demo_memory. by rewrite map_zeros_lookup, decide_True by lia.
Qed.
(** The child's handler has returned; the child has not done anything else. *)
Definition demo_child : process demo_kernel :=
  match vfork_handler demo_addresses (mret 0) 0x10798 (0x10798 + 8 * 12) stopped_process with
  | Ok (_, q) => q | Fault _ => stopped_process end.

Lemma demo_establish : ∃ pe, establish_cc_channel stopped_process = Ok (true, pe).
Proof. eexists. reflexivity. Qed.

Lemma vfork_frame_survives_witness :
  ∃ q', vfork_handler demo_addresses (λ _, Ok (5, demo_child)) 0x10798 (0x10798 + 8 * 12)
          stopped_process = Ok (5, q') ∧
    words_at (mem q') 0x10798 (replicate 12 0).
Proof.
  destruct demo_establish as [pe He].
  assert (Forall (λ w, 0 ≤ w < 2 ^ 64) (replicate 12 0)) as Hws by (repeat constructor; by vm_compute).
  destruct (vfork_frame_survives demo_addresses stopped_process stopped_process (replicate 12 0)
    0x10798 12 5 true pe demo_child (length_replicate _ _) ltac:(lia)
    Hws
    (demo_zero_words 0x10798 12 ltac:(by vm_compute) ltac:(by vm_compute))
    ltac:(by vm_compute) ltac:(by vm_compute) ltac:(by vm_compute) ltac:(by vm_compute)
    (demo_memory_mapped 0x10800 256 ltac:(by vm_compute) ltac:(by vm_compute))
    ltac:(left; by vm_compute) He) as (p' & H1 & Hs & H2).
  assert (demo_child = p') as Hc.
  { unfold demo_child. change (8 * 12) with (8 * Z.of_nat 12). by rewrite H1. }
  destruct H2 as (q' & H3 & H4 & _); [by rewrite Hc| |done|].
  - rewrite Hc. eapply mapped_same; [exact Hs|].
    apply (demo_memory_mapped 0x10798 96); by vm_compute.
  - exists q'. split; [exact H3|exact H4].
Defined.
