(* ===== verification/Sandbox.v ===== *)
(** * The sandbox from end to end

    What a sandboxed program sees: the filter traps its system call, the
    handler of SIGSYS dispatches it, the bridge sends a request, the Command
    Center makes the call and answers, and the program continues with the
    result in [rax].  The theorems join [Filter], [Seccomp], [Bridge] and
    [CmdCenter] through the world of [Rpc]. *)

From stdpp Require Import functions.
From S2P Require Import Prelude TinyPack Message Bridge CmdCenter Rpc Machine Filter Scout Seccomp.

(** ** Trapped calls and dispatched calls *)
Section Dispatch.
Context {E : Type} `{Os : scout_os E} `{Tr : trampoline E}.
Context (malloc : Z → list byte) (ad : addresses).

Lemma syscall_case_trapped n :
  is_Some (syscall_case (E:=E) malloc ad n) ↔ n ∈ trapped.
Proof.
  split.
  - unfold syscall_case.
    repeat (case_match; [match goal with H : (n =? ?k) = true |- _ =>
      apply Z.eqb_eq in H; subst; intros _; by apply (bool_decide_unpack _) end|]).
    by intros [? [=]].
  - unfold trapped. intros H.
    repeat (apply elem_of_cons in H as [->|H]; [by eexists|]). by apply not_elem_of_nil in H.
Qed.

(** C3: the filter and the handler of SIGSYS agree: a call from outside of
    the trampoline is trapped if and only if [handle_syscall] has a case for
    it, so that no trapped call is left without an answer. *)
Theorem trapped_is_dispatched d :
  data_ok d → in_trampoline (instruction_pointer d) = false →
  verdict d = Ok SECCOMP_RET_TRAP ↔ is_Some (syscall_case (E:=E) malloc ad (nr d)).
Proof.
  intros Hd Hip. rewrite syscall_case_trapped.
  pose proof (verdict_prefix d Hd) as H. rewrite Hip in H. destruct H as (n & A & Hn & ->).
  rewrite filter_numbers by done. by case_bool_decide.
Qed.
End Dispatch.

(** ** The trampoline *)

(** [syscall_trampoline], called as a C function with a system call number
    and six arguments, makes this system call with these arguments, and
    returns to its caller with the kernel's [rax] unchanged: a negative error
    code stays one. *)
Theorem syscall_trampoline_shuffles kernel (c c' : cpu) a6 ret :
  load64 (u64 (regs c RSP + 8)) (ram c) = Ok a6 →
  (∀ g, g RAX = regs c RDI → g RDI = regs c RSI → g RSI = regs c RDX → g RDX = regs c RCX →
        g R10 = regs c R8 → g R8 = regs c R9 → g R9 = a6 →
        (∀ r, r ∉ [RAX; RDI; RSI; RDX; R10; R8; R9] → g r = regs c r) →
        kernel (Cpu g (ram c)) = Ok c') →
  load64 (regs c' RSP) (ram c') = Ok ret →
  ∃ c'', exec kernel syscall_trampoline c = Ok c'' ∧
    regs c'' RIP = ret ∧ regs c'' RSP = u64 (regs c' RSP + 8) ∧
    (∀ r, r ∉ [RIP; RSP] → regs c'' r = regs c' r) ∧ ram c'' = ram c'.
Proof.
  intros Hl Hk Hret. destruct c as [g m]. cbn [regs ram] in *.
  eexists. split.
  { unfold syscall_trampoline. cbn [exec exec1 regs ram]. ostep. cbn [exec exec1 regs ram]. ostep.
    cbn [regs ram].
    match goal with |- context [load64 ?x m] => change x with (u64 (g RSP + 8)) end.
    rewrite Hl. ostep.
    rewrite Hk; try reflexivity.
    - ostep. rewrite Hret. ostep. reflexivity.
    - intros r Hr. destruct r; try reflexivity; exfalso; apply Hr; listed. }
  cbn [regs ram]. split_and!; try reflexivity.
  intros r Hr. destruct r; try reflexivity; exfalso; apply Hr; listed.
Qed.

(** ** A trapped call and its answer *)
Section Remote.
Context {F : Type} `{Fi : files F} `{Pa : passing F} `{Tr : tracer (world F)}.
Context `{Sy : trampoline (cmdcenter * world F)}.
Context (malloc : Z → list byte) (ad : addresses).
Hypothesis malloc_length : ∀ n, 0 ≤ n → Z.of_nat (length (malloc n)) = n.
Abbreviation env := (cmdcenter * world F)%type.
Implicit Types p : process env.

(** The scout's kernel, with the socket to the Command Center. *)
Definition connected (Os : scout_os env) : scout_os env := {|
  so_sockets := remote_net malloc;
  socketpair := socketpair; so_close := so_close; so_dup2 := so_dup2; so_fcntl := so_fcntl;
  so_mmap := so_mmap; so_sigaction := so_sigaction; so_prctl := so_prctl;
  so_seccomp := so_seccomp; so_perror := so_perror;
|}.
Context (Os : scout_os env).
#[local] Hint Extern 0 (scout_os _) => exact (connected Os) : typeclass_instances.
#[local] Hint Extern 0 (sockets env) => exact (remote_net malloc) : typeclass_instances.

(** No request is under way, and the program has stopped at a call. *)
Record stopped (p : process env) (c : cmdcenter) (f : F) : Prop := {
  stopped_kern : kern p = (c, World [] [] f);
  stopped_bridge : br_ok (bridge p);
}.
(** It continues with [r] in [rax] and the memory [m]; the Command Center
    has made one call, from [f] to [f']. *)
Definition continues (p p' : process env) (c : cmdcenter) (f' : F) (r : Z) (m : memory) : Prop :=
  (∀ g, ctx p' g = if decide (g = RAX) then u64 r else ctx p g) ∧ mem p' = m ∧ stopped p' c f'.

Definition points_to_path (p : process env) (a : Z) (s : list byte) : Prop :=
  bytes_at (mem p) a (s ++ [NUL]).

Lemma bytes_at_size bs : ∀ m a, bytes_at m a bs → (length bs ≤ base.size m)%nat.
Proof.
  induction bs as [|b bs IH]; intros m a H; [simpl; lia|].
  apply bytes_at_cons in H as [Hb H].
  assert (bytes_at (delete a m) (a + 1) bs) as H'.
  { intros i x Hi. rewrite lookup_delete_ne by lia. by apply H. }
  apply IH in H'. rewrite map_size_delete, Hb in H'.
  assert (base.size m ≠ 0%nat) by (intros E%map_size_empty_inv; by rewrite E, lookup_empty in Hb).
  simpl. lia.
Qed.
Lemma path_arg_step {B} p a s (k : cstr → Scout.M (E:=env) B) :
  points_to_path p a s → path_ok s → (string_arg a ≫= k) p = k (path_of s) p.
Proof.
  intros Hp [Hs _]. rewrite string_arg_step. pose proof (bytes_at_size _ _ _ Hp) as Hl.
  rewrite length_app in Hl. simpl in Hl. by rewrite (string_from_bytes _ s) by (done || lia).
Qed.

(** A case of the [switch] that sends one request and stores its result. *)
Lemma result_step p c f f' r br' (m : ST (sandbox_bridge * env) Z) :
  stopped p c f → m (bridge p, (c, World [] [] f)) = Ok (r, (br', (c, World [] [] f'))) →
  br_ok br' →
  ∃ p', (via_bridge m ≫= λ r, set_reg RAX r) p = Ok (tt, p') ∧ continues p p' c f' r (mem p).
Proof.
  intros [Hk Hb] Hm Hb'. eexists. split.
  - rewrite (via_bridge_step _ _ _ r br' (c, World [] [] f')); [reflexivity|]. by rewrite Hk.
  - split_and!; [|done|by split]. intros g. cbn [ctx set_ctx set_kern set_bridge].
    destruct (decide (g = RAX)) as [->|]; [done|by apply fn_lookup_insert_ne].
Qed.

(** The same with a [struct stat*] in [rsi]. *)
Lemma stat_call_step p c f f' r st br' (send : struct_stat → ST (sandbox_bridge * env) (Z * struct_stat)) :
  stopped p c f →
  (∀ d, send d (bridge p, (c, World [] [] f)) = Ok ((r, st), (br', (c, World [] [] f')))) →
  br_ok br' → mapped (mem p) (ctx p RSI) (Z.of_nat (length (stat_bytes st))) →
  ∃ p' m', stat_call send p = Ok (tt, p') ∧
    bytes_at m' (ctx p RSI) (stat_bytes st) ∧
    same_outside (ctx p RSI) (Z.of_nat (length (stat_bytes st))) (mem p) m' ∧
    continues p p' c f' r m'.
Proof.
  intros [Hk Hb] Hm Hb' Hmap.
  destruct (mem_write_bytes (stat_bytes st) (mem p) (ctx p RSI) Hmap) as (m' & Hw & Hat & Ho).
  eexists _, m'. split_and!; [|done|done|].
  - unfold stat_call. rewrite get_reg_step. unfold buffer_arg. mstep.
    rewrite (via_bridge_step _ _ _ (r, st) br' (c, World [] [] f')) by (by rewrite Hk, Hm).
    rewrite (ST_bind_step _ _ _ tt (set_mem m' (set_kern (c, World [] [] f') (set_bridge br' p))));
      [reflexivity|].
    unfold write_back, in_mem. cbn [mem set_kern set_bridge snd]. by rewrite Hw.
  - split_and!; [|done|by split]. intros g. cbn [ctx set_ctx set_kern set_bridge set_mem fst].
    destruct (decide (g = RAX)) as [->|]; [done|by apply fn_lookup_insert_ne].
Qed.

Lemma handle_syscall_case p n h :
  ctx p RAX = n → 0 ≤ n < 2 ^ 63 → syscall_case malloc ad n = Some h →
  handle_syscall malloc ad p = h p.
Proof.
  intros Hn Hr Hc. unfold handle_syscall. rewrite get_reg_step, Hn, s64_small by lia. by rewrite Hc.
Qed.

(** C2: a trapped [access] or [unlink] continues after its call with the
    result of the same system call of the Command Center, or minus its
    [errno], in [rax]; no other register and no memory changes. *)
Theorem sandboxed_path_call p c f f' s r :
  stopped p c f → points_to_path p (ctx p RDI) s → path_ok s → int_ok (neg_errno r) →
  (ctx p RAX = NR_access ∧ os_access s (s32 (ctx p RSI)) f = Ok (r, f') ∨
   ctx p RAX = NR_unlink ∧ os_unlink s f = Ok (r, f')) →
  ∃ p', handle_syscall malloc ad p = Ok (tt, p') ∧ continues p p' c f' (neg_errno r) (mem p).
Proof.
  intros Hst Hp Hs Hr Hcall. pose proof (stopped_bridge _ _ _ Hst) as Hb.
  destruct Hcall as [[Hn Ho]|[Hn Ho]].
  - rewrite (handle_syscall_case p _ (handle_access malloc) Hn) by done. unfold handle_access.
    rewrite get_reg_step, (path_arg_step _ _ _ _ Hp Hs), get_reg_step.
    eapply result_step; [done|by eapply access_step, Hr; [..|apply s32_range|]|by apply after_ok].
  - rewrite (handle_syscall_case p _ (handle_unlink malloc) Hn) by done. unfold handle_unlink.
    rewrite get_reg_step, (path_arg_step _ _ _ _ Hp Hs).
    eapply result_step; [done|by eapply unlink_step|by apply after_ok].
Qed.

(** A trapped [stat] or [lstat] continues with the Command Center's
    result in [rax] and its structure in the program's buffer. *)
Theorem sandboxed_stat_call p c f f' s r st :
  stopped p c f → points_to_path p (ctx p RDI) s → path_ok s → int_ok (neg_errno r) →
  v_ok st → mapped (mem p) (ctx p RSI) 144 →
  (ctx p RAX = NR_stat ∧ os_stat s f = Ok ((r, st), f') ∨
   ctx p RAX = NR_lstat ∧ os_lstat s f = Ok ((r, st), f')) →
  ∃ p' m', handle_syscall malloc ad p = Ok (tt, p') ∧
    bytes_at m' (ctx p RSI) (stat_bytes st) ∧ same_outside (ctx p RSI) 144 (mem p) m' ∧
    continues p p' c f' (neg_errno r) m'.
Proof.
  intros Hst Hp Hs Hr Hv Hmap Hcall. pose proof (stopped_bridge _ _ _ Hst) as Hb.
  pose proof (stat_wire st Hv) as Hl. change (v_wire st) with (stat_bytes st) in Hl.
  replace 144 with (Z.of_nat (length (stat_bytes st))) in * by lia.
  destruct Hcall as [[Hn Ho]|[Hn Ho]].
  - rewrite (handle_syscall_case p _ (handle_stat malloc) Hn) by done. unfold handle_stat.
    rewrite get_reg_step, (path_arg_step _ _ _ _ Hp Hs).
    eapply stat_call_step; [done|intros d; by eapply stat_step|by apply after_ok|done].
  - rewrite (handle_syscall_case p _ (handle_lstat malloc) Hn) by done. unfold handle_lstat.
    rewrite get_reg_step, (path_arg_step _ _ _ _ Hp Hs).
    eapply stat_call_step; [done|intros d; by eapply lstat_step|by apply after_ok|done].
Qed.
End Remote.

(** ** Witnesses *)
Section Witnesses.
#[local] Existing Instances demo_files demo_passing demo_tracer.
Abbreviation demo_env := (cmdcenter * world Z)%type.
#[local] Instance demo_env_trampoline : trampoline demo_env := fun nr args => mret (-1).
#[local] Instance demo_env_sockets : sockets demo_env := remote_net demo_malloc.
#[local] Instance demo_env_os : scout_os demo_env := {|
  socketpair := mret (-1, (0, 0)); so_close _ := mret 0; so_dup2 _ _ := mret (-1);
  so_fcntl _ _ _ := mret 0; so_mmap a _ := mret a; so_sigaction _ := mret 0;
  so_prctl _ _ := mret 0; so_seccomp _ _ _ := mret 0; so_perror _ := mret tt;
|}.

Lemma trapped_is_dispatched_witness :
  verdict open_call = Ok SECCOMP_RET_TRAP ↔
  is_Some (syscall_case (E:=demo_env) demo_malloc demo_addresses NR_open).
Proof.
  exact (trapped_is_dispatched (E:=demo_env) demo_malloc demo_addresses open_call open_call_ok eq_refl).
Defined.

(** A kernel that answers every call with -38, and a caller's stack of zeros. *)
Definition demo_caller : cpu := Cpu (fun r => if decide (r = RSP) then 0x10100 else 5) demo_memory.
Definition demo_answer : cpu := Cpu (<[RAX := u64 (-38)]> (regs demo_caller)) demo_memory.
Lemma demo_zero_load a : 0x10000 ≤ a ≤ 0x10ff0 → load64 a demo_memory = Ok 0.
Proof.
  intros Ha. pose proof (demo_zero_words a 1 ltac:(lia) ltac:(lia) 0%nat 0 eq_refl) as H.
  change (8 * Z.of_nat 0) with 0 in H. rewrite Z.add_0_r in H. by rewrite (load64_word _ _ _ H).
Qed.
Lemma syscall_trampoline_shuffles_witness :
  ∃ c'', exec (λ _, Ok demo_answer) syscall_trampoline demo_caller = Ok c'' ∧
    regs c'' RIP = 0 ∧ regs c'' RSP = u64 (0x10100 + 8).
Proof.
  destruct (syscall_trampoline_shuffles (λ _, Ok demo_answer) demo_caller demo_answer 0 0
    (demo_zero_load 0x10108 ltac:(by vm_compute)) (λ _ _ _ _ _ _ _ _ _, eq_refl)
    (demo_zero_load 0x10100 ltac:(by vm_compute))) as (c'' & H1 & H2 & H3 & _).
  exists c''. split; [exact H1|split; [exact H2|exact H3]].
Defined.

(** A program that has stopped at a call about "/x", with room for the
    structure after the path. *)
Definition demo_text : memory :=
  match mem_write 0x10000 (demo_path ++ [NUL]) demo_memory with Ok m => m | Fault _ => demo_memory end.
Lemma demo_text_spec :
  bytes_at demo_text 0x10000 (demo_path ++ [NUL]) ∧ mapped demo_text 0x10100 144.
Proof.
  unfold demo_text.
  destruct (mem_write_bytes (demo_path ++ [NUL]) demo_memory 0x10000) as (m & -> & H1 & H2).
  - by apply demo_memory_mapped.
  - split; [done|]. eapply mapped_same; [exact H2|]. by apply demo_memory_mapped.
Qed.
Definition demo_stopped (n : Z) : process demo_env :=
  Process (<[RAX := n]> (<[RDI := 0x10000]> (<[RSI := 0x10100]> (λ _, 0)))) demo_text 3 0 0 0
    demo_bridge (demo_center, World [] [] 0).
Lemma demo_stopped_ok n : stopped (demo_stopped n) demo_center 0.
Proof. done. Qed.

Abbreviation demo_handle n :=
  (handle_syscall (Os := connected demo_malloc demo_env_os) demo_malloc demo_addresses (demo_stopped n)).

Lemma sandboxed_path_call_witness :
  ∃ p', demo_handle NR_unlink = Ok (tt, p') ∧ ctx p' RAX = u64 (-13) ∧ ctx p' RDI = 0x10000 ∧
        mem p' = mem (demo_stopped NR_unlink).
Proof.
  destruct (sandboxed_path_call demo_malloc demo_addresses demo_malloc_length demo_env_os
    (demo_stopped NR_unlink) demo_center 0 1 demo_path (-1, 13) (demo_stopped_ok _)
    (proj1 demo_text_spec) demo_path_ok ltac:(split; vm_compute; congruence)
    (or_intror (conj eq_refl eq_refl))) as (p' & H1 & H2 & H3 & _).
  exists p'. split; [exact H1|split; [exact (H2 RAX)|split; [exact (H2 RDI)|exact H3]]].
Defined.

Lemma sandboxed_stat_call_witness :
  ∃ p' m', demo_handle NR_lstat = Ok (tt, p') ∧ ctx p' RAX = u64 0 ∧
        bytes_at m' 0x10100 (stat_bytes demo_stat) ∧ mem p' = m'.
Proof.
  destruct (sandboxed_stat_call demo_malloc demo_addresses demo_malloc_length demo_env_os
    (demo_stopped NR_lstat) demo_center 0 1 demo_path (0, 0) demo_stat (demo_stopped_ok _)
    (proj1 demo_text_spec) demo_path_ok ltac:(split; vm_compute; congruence) eq_refl
    (proj2 demo_text_spec) (or_intror (conj eq_refl eq_refl))) as (p' & m' & H1 & H2 & _ & H3 & H4 & _).
  exists p', m'. split; [exact H1|split; [exact (H3 RAX)|split; [exact H2|exact H4]]].
Defined.
End Witnesses.
