(* ===== verification/Sha2.v ===== *)
(** * SHA-256 (3rd-parties/sha2-1.0.1/sha2.c, sha2.h)

    The digest under which [Ogl] stores the objects of a repository and by
    which it tells whether a file has changed.  The context of the C code is a
    record; its buffer is the bytes of the object, because [SHA256_Transform]
    uses it as an array of 32-bit words ([W256]) at the same time as
    [SHA256_Update] passes it as the block to be hashed.  All accesses to the
    buffer are checked.  The model is that of a little-endian machine
    (x86_64) without [SHA2_UNROLL_TRANSFORM].

    SHA-384 and SHA-512, which the same file has, are not called by the
    program. *)

From S2P Require Import Prelude.

Definition SHA256_BLOCK_LENGTH : Z := 64.
Definition SHA256_DIGEST_LENGTH : Z := 32.
Definition SHA256_SHORT_BLOCK_LENGTH : Z := SHA256_BLOCK_LENGTH - 8.
Definition SHA256_DIGEST_STRING_LENGTH : Z := SHA256_DIGEST_LENGTH * 2 + 1.

(** ** Words *)
Definition add32 (a b : Z) : Z := u32 (a + b).
Infix "+w" := add32 (at level 50, left associativity) : Z_scope.

(** [REVERSE32(w, x)] and [REVERSE64(w, x)]: what is assigned to [x]. *)
Definition REVERSE32 (w : Z) : Z :=
  let tmp := w in
  let tmp := Z.lor (Z.shiftr tmp 16) (u32 (Z.shiftl tmp 16)) in
  u32 (Z.lor (Z.shiftr (Z.land tmp 0xff00ff00) 8) (Z.shiftl (Z.land tmp 0x00ff00ff) 8)).
Definition REVERSE64 (w : Z) : Z :=
  let tmp := w in
  let tmp := Z.lor (Z.shiftr tmp 32) (u64 (Z.shiftl tmp 32)) in
  let tmp := Z.lor (Z.shiftr (Z.land tmp 0xff00ff00ff00ff00) 8)
                   (u64 (Z.shiftl (Z.land tmp 0x00ff00ff00ff00ff) 8)) in
  Z.lor (Z.shiftr (Z.land tmp 0xffff0000ffff0000) 16)
        (u64 (Z.shiftl (Z.land tmp 0x0000ffff0000ffff) 16)).

(** *** The six logical functions *)
Definition R (b x : Z) : Z := Z.shiftr x b.
Definition S32 (b x : Z) : Z := Z.lor (Z.shiftr x b) (u32 (Z.shiftl x (32 - b))).
Definition Ch (x y z : Z) : Z := Z.lxor (Z.land x y) (Z.land (u32 (Z.lnot x)) z).
Definition Maj (x y z : Z) : Z := Z.lxor (Z.lxor (Z.land x y) (Z.land x z)) (Z.land y z).
Definition Sigma0_256 (x : Z) : Z := Z.lxor (Z.lxor (S32 2 x) (S32 13 x)) (S32 22 x).
Definition Sigma1_256 (x : Z) : Z := Z.lxor (Z.lxor (S32 6 x) (S32 11 x)) (S32 25 x).
Definition sigma0_256 (x : Z) : Z := Z.lxor (Z.lxor (S32 7 x) (S32 18 x)) (R 3 x).
Definition sigma1_256 (x : Z) : Z := Z.lxor (Z.lxor (S32 17 x) (S32 19 x)) (R 10 x).

Definition K256 : list Z :=
  [ 0x428a2f98; 0x71374491; 0xb5c0fbcf; 0xe9b5dba5; 0x3956c25b; 0x59f111f1; 0x923f82a4; 0xab1c5ed5;
    0xd807aa98; 0x12835b01; 0x243185be; 0x550c7dc3; 0x72be5d74; 0x80deb1fe; 0x9bdc06a7; 0xc19bf174;
    0xe49b69c1; 0xefbe4786; 0x0fc19dc6; 0x240ca1cc; 0x2de92c6f; 0x4a7484aa; 0x5cb0a9dc; 0x76f988da;
    0x983e5152; 0xa831c66d; 0xb00327c8; 0xbf597fc7; 0xc6e00bf3; 0xd5a79147; 0x06ca6351; 0x14292967;
    0x27b70a85; 0x2e1b2138; 0x4d2c6dfc; 0x53380d13; 0x650a7354; 0x766a0abb; 0x81c2c92e; 0x92722c85;
    0xa2bfe8a1; 0xa81a664b; 0xc24b8b70; 0xc76c51a3; 0xd192e819; 0xd6990624; 0xf40e3585; 0x106aa070;
    0x19a4c116; 0x1e376c08; 0x2748774c; 0x34b0bcb5; 0x391c0cb3; 0x4ed8aa4a; 0x5b9cca4f; 0x682e6ff3;
    0x748f82ee; 0x78a5636f; 0x84c87814; 0x8cc70208; 0x90befffa; 0xa4506ceb; 0xbef9a3f7; 0xc67178f2 ].
Definition sha256_initial_hash_value : list Z :=
  [ 0x6a09e667; 0xbb67ae85; 0x3c6ef372; 0xa54ff53a; 0x510e527f; 0x9b05688c; 0x1f83d9ab; 0x5be0cd19 ].

(** ** The context *)

(** The eight words of [state], also the registers [a] to [h] of the
    compression. *)
Record words := Words { wa : Z; wb : Z; wc : Z; wd : Z; we : Z; wf : Z; wg : Z; wh : Z }.
Definition words_of_list (l : list Z) : words :=
  let w i := default 0 (l !! i) in
  Words (w 0%nat) (w 1%nat) (w 2%nat) (w 3%nat) (w 4%nat) (w 5%nat) (w 6%nat) (w 7%nat).
Definition list_of_words (s : words) : list Z := [wa s; wb s; wc s; wd s; we s; wf s; wg s; wh s].

Record SHA256_CTX := Ctx { state : words; bitcount : Z; buffer : list byte }.

(** [MEMSET_BZERO(context, sizeof(SHA256_CTX))] *)
Definition bzero_ctx : SHA256_CTX := Ctx (words_of_list []) 0 (replicate 64 NUL).

Definition SHA256_Init : SHA256_CTX :=
  Ctx (words_of_list sha256_initial_hash_value) 0 (replicate 64 NUL).

(** ** SHA256_Transform *)

(** The word at index [j] of an array of 32-bit words. *)
Definition load32 (buf : list byte) (j : Z) : outcome Z := le_Z <$> read_at buf (4 * j) 4.
Definition store32 (buf : list byte) (j w : Z) : outcome (list byte) := write_at buf (4 * j) (le_bytes 4 w).

(** [data]: the context's own buffer, or memory elsewhere. *)
Inductive data_ptr := AtBuffer | AtData (bytes : list byte).
Definition data_word (data : data_ptr) (buf : list byte) (j : Z) : outcome Z :=
  match data with AtBuffer => load32 buf j | AtData bytes => load32 bytes j end.

(** The assignments to [T1], [T2] and the registers, for [K256[j]] and the
    word of the schedule. *)
Definition round (k w : Z) (s : words) : words :=
  let T1 := wh s +w Sigma1_256 (we s) +w Ch (we s) (wf s) (wg s) +w k +w w in
  let T2 := Sigma0_256 (wa s) +w Maj (wa s) (wb s) (wc s) in
  Words (T1 +w T2) (wa s) (wb s) (wc s) (wd s +w T1) (we s) (wf s) (wg s).

Definition K256_at (j : Z) : outcome Z :=
  match K256 !! Z.to_nat j with Some k => Ok k | None => Fault (Undefined "K256 out of bounds") end.

(** One turn of the first and of the second [do] loop, on the registers and
    the buffer. *)
Definition load_round (data : data_ptr) (j : Z) (s : words) (buf : list byte) : outcome (words * list byte) :=
  w ← data_word data buf j;
  buf ← store32 buf j (REVERSE32 w);
  k ← K256_at j;
  w ← load32 buf j;
  Ok (round k w s, buf).
Definition mix_round (j : Z) (s : words) (buf : list byte) : outcome (words * list byte) :=
  s0 ← load32 buf (Z.land (j + 1) 0x0f);
  s1 ← load32 buf (Z.land (j + 14) 0x0f);
  w9 ← load32 buf (Z.land (j + 9) 0x0f);
  w ← load32 buf (Z.land j 0x0f);
  let w := w +w (sigma1_256 s1 +w w9 +w sigma0_256 s0) in
  buf ← store32 buf (Z.land j 0x0f) w;
  k ← K256_at j;
  Ok (round k w s, buf).

(** [do ... while (j < hi)] from [j]. *)
Fixpoint rounds (n : nat) (step : Z → words → list byte → outcome (words * list byte))
    (j : Z) (s : words) (buf : list byte) : outcome (words * list byte) :=
  match n with
  | O => Ok (s, buf)
  | S n => '(s, buf) ← step j s buf; rounds n step (j + 1) s buf
  end.

Definition add_words (s t : words) : words :=
  Words (wa s +w wa t) (wb s +w wb t) (wc s +w wc t) (wd s +w wd t)
        (we s +w we t) (wf s +w wf t) (wg s +w wg t) (wh s +w wh t).

Definition SHA256_Transform (context : SHA256_CTX) (data : data_ptr) : outcome SHA256_CTX :=
  '(s, buf) ← rounds 16 (load_round data) 0 (state context) (buffer context);
  '(s, buf) ← rounds 48 mix_round 16 s buf;
  Ok (Ctx (add_words (state context) s) (bitcount context) buf).

(** ** SHA256_Update *)
Definition usedspace_of (c : SHA256_CTX) : Z := Z.shiftr (bitcount c) 3 mod SHA256_BLOCK_LENGTH.
(** [context->bitcount += n << 3] *)
Definition count (n : Z) (c : SHA256_CTX) : SHA256_CTX :=
  Ctx (state c) (u64 (bitcount c + u64 (Z.shiftl n 3))) (buffer c).
(** [MEMCPY_BCOPY(&context->buffer[pos], data, _)] *)
Definition fill (pos : Z) (data : list byte) (c : SHA256_CTX) : outcome SHA256_CTX :=
  buf ← write_at (buffer c) pos data; Ok (Ctx (state c) (bitcount c) buf).

(** [while (len >= SHA256_BLOCK_LENGTH)], for [n] turns at most. *)
Fixpoint update_blocks (n : nat) (c : SHA256_CTX) (data : list byte) : outcome (SHA256_CTX * list byte) :=
  if Z.of_nat (base.length data) <? SHA256_BLOCK_LENGTH then Ok (c, data) else
  match n with
  | O => Fault (Undefined "out of fuel")
  | S n =>
      c ← SHA256_Transform c (AtData data);
      update_blocks n (count SHA256_BLOCK_LENGTH c) (drop (Z.to_nat SHA256_BLOCK_LENGTH) data)
  end.

(** The loop, and what is left is saved. *)
Definition update_rest (c : SHA256_CTX) (data : list byte) : outcome SHA256_CTX :=
  '(c, data) ← update_blocks (S (base.length data)) c data;
  let len := Z.of_nat (base.length data) in
  if 0 <? len then c ← fill 0 data c; Ok (count len c) else Ok c.

Definition SHA256_Update (c : SHA256_CTX) (data : list byte) : outcome SHA256_CTX :=
  let len := Z.of_nat (base.length data) in
  if len =? 0 then Ok c else
  let usedspace := usedspace_of c in
  let freespace := SHA256_BLOCK_LENGTH - usedspace in
  if (0 <? usedspace) && (len <? freespace) then
    c ← fill usedspace data c; Ok (count len c)
  else
    '(c, data) ←
      (if 0 <? usedspace then
         c ← fill usedspace (take (Z.to_nat freespace) data) c;
         c ← SHA256_Transform (count freespace c) AtBuffer;
         Ok (c, drop (Z.to_nat freespace) data)
       else Ok (c, data));
    update_rest c data.

(** Successive calls, as of the reading loop of [compute_hashcode]. *)
Fixpoint SHA256_Updates (c : SHA256_CTX) (chunks : list (list byte)) : outcome SHA256_CTX :=
  match chunks with
  | [] => Ok c
  | data :: chunks => c ← SHA256_Update c data; SHA256_Updates c chunks
  end.

(** ** SHA256_Final *)

(** [MEMSET_BZERO(&context->buffer[pos], n)] *)
Definition clear (pos n : Z) (c : SHA256_CTX) : outcome SHA256_CTX :=
  fill pos (replicate (Z.to_nat n) NUL) c.

(** The padding, up to the bit count; [usedspace] is that of the call. *)
Definition pad (usedspace : Z) (c : SHA256_CTX) : outcome SHA256_CTX :=
  if 0 <? usedspace then
    c ← fill usedspace [byte_of_Z 0x80] c;
    let usedspace := usedspace + 1 in
    if usedspace <=? SHA256_SHORT_BLOCK_LENGTH then
      clear usedspace (SHA256_SHORT_BLOCK_LENGTH - usedspace) c
    else
      c ← (if usedspace <? SHA256_BLOCK_LENGTH
           then clear usedspace (SHA256_BLOCK_LENGTH - usedspace) c else Ok c);
      c ← SHA256_Transform c AtBuffer;
      clear 0 SHA256_SHORT_BLOCK_LENGTH c
  else
    c ← clear 0 SHA256_SHORT_BLOCK_LENGTH c;
    fill 0 [byte_of_Z 0x80] c.

(** [*d++ = context->state[j]], each word reversed in place before. *)
Fixpoint put_digest (d : list byte) (pos : Z) (ws : list Z) : outcome (list byte) :=
  match ws with
  | [] => Ok d
  | w :: ws => d ← write_at d pos (le_bytes 4 (REVERSE32 w)); put_digest d (pos + 4) ws
  end.

(** The digest buffer, [None] for a null pointer; the result is its new
    contents and the context. *)
Definition SHA256_Final (digest : option (list byte)) (c : SHA256_CTX) :
    outcome (option (list byte) * SHA256_CTX) :=
  match digest with
  | None => Ok (None, bzero_ctx)
  | Some d =>
      let usedspace := usedspace_of c in
      let c := Ctx (state c) (REVERSE64 (bitcount c)) (buffer c) in
      c ← pad usedspace c;
      c ← fill SHA256_SHORT_BLOCK_LENGTH (le_bytes 8 (bitcount c)) c;
      c ← SHA256_Transform c AtBuffer;
      d ← put_digest d 0 (list_of_words (state c));
      Ok (Some d, bzero_ctx)
  end.

(** ** SHA256_End and SHA256_Data *)
Definition sha2_hex_digits : list byte := map byte_of_Z
  [48; 49; 50; 51; 52; 53; 54; 55; 56; 57; 97; 98; 99; 100; 101; 102].
Definition hex_at (i : Z) : outcome byte :=
  match sha2_hex_digits !! Z.to_nat i with Some b => Ok b | None => Fault (Undefined "sha2_hex_digits") end.

(** The loop over the digest: [pos] is [buffer] as an index. *)
Fixpoint hex_loop (digest : list byte) (buf : list byte) (pos : Z) : outcome (list byte * Z) :=
  match digest with
  | [] => Ok (buf, pos)
  | d :: digest =>
      hi ← hex_at (Z.shiftr (Z.land (Z_of_byte d) 0xf0) 4);
      buf ← write_at buf pos [hi];
      lo ← hex_at (Z.land (Z_of_byte d) 0x0f);
      buf ← write_at buf (pos + 1) [lo];
      hex_loop digest buf (pos + 2)
  end.

(** The new contents of [buffer], and the returned pointer as an index into it. *)
Definition SHA256_End (c : SHA256_CTX) (buf : option (list byte)) : outcome (option (list byte * Z) * SHA256_CTX) :=
  match buf with
  | None => Ok (None, bzero_ctx)
  | Some buf =>
      '(digest, c) ← SHA256_Final (Some (replicate 32 NUL)) c;
      '(buf, pos) ← hex_loop (default [] digest) buf 0;
      buf ← write_at buf pos [NUL];
      Ok (Some (buf, pos), c)
  end.

Definition SHA256_Data (data : list byte) (digest : option (list byte)) : outcome (option (list byte * Z)) :=
  c ← SHA256_Update SHA256_Init data;
  '(r, _) ← SHA256_End c digest;
  Ok r.
