(* ===== verification/Sha2Spec.v ===== *)
(** * SHA-256: the code computes the function of FIPS 180-4

    [FIPS] is the standard's function over whole messages, written with
    rotations and sums modulo 2^32 and a message schedule of 64 words.  The
    code hashes what it gets piece by piece, keeps a ring of 16 words in the
    buffer that also holds the rest of the message, and pads in place; the
    theorems say that it always computes the standard's digest of all the
    pieces together. *)

From S2P Require Import Prelude Sha2.

(** ** FIPS 180-4 *)
Module FIPS.
(** *** 3.2, 4.1.2: operations on 32-bit words *)
Definition ROTR (n x : Z) : Z := x mod 2 ^ n * 2 ^ (32 - n) + x / 2 ^ n.
Definition SHR (n x : Z) : Z := x / 2 ^ n.
Definition Choose (x y z : Z) : Z := Z.lxor (Z.land x y) (Z.ldiff z x).
Definition Sigma_0 (x : Z) : Z := Z.lxor (Z.lxor (ROTR 2 x) (ROTR 13 x)) (ROTR 22 x).
Definition Sigma_1 (x : Z) : Z := Z.lxor (Z.lxor (ROTR 6 x) (ROTR 11 x)) (ROTR 25 x).
Definition sigma_0 (x : Z) : Z := Z.lxor (Z.lxor (ROTR 7 x) (ROTR 18 x)) (SHR 3 x).
Definition sigma_1 (x : Z) : Z := Z.lxor (Z.lxor (ROTR 17 x) (ROTR 19 x)) (SHR 10 x).
Definition sum (l : list Z) : Z := foldr Z.add 0 l mod 2 ^ 32.

(** *** 5.1.1: padding; the integer [z] as [n] bytes, the most significant first *)
Definition be_bytes (n : nat) (z : Z) : list byte := rev (le_bytes n z).
Definition be_Z (l : list byte) : Z := le_Z (rev l).
(** Zero bytes, so that message, 0x80, zeros and length fill 64-byte blocks. *)
Definition zeros (len : Z) : Z := (55 - len) mod 64.
Definition padded (msg : list byte) : list byte :=
  let len := Z.of_nat (base.length msg) in
  msg ++ [byte_of_Z 0x80] ++ replicate (Z.to_nat (zeros len)) NUL ++ be_bytes 8 (8 * len).

(** *** 6.2.2: one block *)
Fixpoint words_of_block (n : nat) (l : list byte) : list Z :=
  match n with O => [] | S n => be_Z (take 4 l) :: words_of_block n (drop 4 l) end.
(** The next [n] words of the schedule. *)
Definition next_word (W : list Z) : Z :=
  let back k := default 0 (W !! (base.length W - k)%nat) in
  sum [sigma_1 (back 2%nat); back 7%nat; sigma_0 (back 15%nat); back 16%nat].
Fixpoint schedule (n : nat) (W : list Z) : list Z :=
  match n with O => W | S n => schedule n (W ++ [next_word W]) end.
Definition step (v : words) (kw : Z * Z) : words :=
  let '(Words a b c d e f g h) := v in
  let T1 := sum [h; Sigma_1 e; Choose e f g; kw.1; kw.2] in
  let T2 := sum [Sigma_0 a; Maj a b c] in
  Words (sum [T1; T2]) a b c (sum [d; T1]) e f g.
Definition block (H : words) (M : list Z) : words :=
  add_words H (foldl step H (zip K256 (schedule 48 M))).
Fixpoint blocks (n : nat) (H : words) (msg : list byte) : words :=
  match n with
  | O => H
  | S n => blocks n (block H (words_of_block 16 (take 64 msg))) (drop 64 msg)
  end.
Definition H0 : words := words_of_list sha256_initial_hash_value.
Definition hash (msg : list byte) : words := blocks (base.length msg / 64) H0 msg.
Definition SHA256 (msg : list byte) : list byte :=
  List.concat (map (be_bytes 4) (list_of_words (hash (padded msg)))).
End FIPS.

(** ** Words *)
Definition w32 (x : Z) : Prop := 0 ≤ x < 2 ^ 32.
Definition words_ok (s : words) : Prop := Forall w32 (list_of_words s).

Lemma w32_u32 x : w32 (u32 x).
Proof. apply u32_range. Qed.
#[export] Hint Resolve w32_u32 : mosingar.

Lemma u32_land x : u32 x = Z.land x (Z.ones 32).
Proof. unfold u32. by rewrite Z.land_ones. Qed.
Lemma u64_land x : u64 x = Z.land x (Z.ones 64).
Proof. unfold u64. by rewrite Z.land_ones. Qed.

(** A multiple of a power of two and what is below it. *)
Lemma lor_low a b n : 0 ≤ n → 0 ≤ b < 2 ^ n → Z.lor b (a * 2 ^ n) = b + a * 2 ^ n.
Proof.
  intros Hn Hb. symmetry. apply Z.add_nocarry_lor.
  apply Z.bits_inj'. intros i Hi. rewrite Z.land_spec, Z.bits_0.
  destruct (decide (i < n)).
  - rewrite Z.mul_pow2_bits_low by done. by rewrite andb_false_r.
  - rewrite <-(Z.mod_small b (2 ^ n)) by done. rewrite Z.mod_pow2_bits_high by lia. done.
Qed.

Lemma S32_ROTR n x : 0 < n < 32 → w32 x → S32 n x = FIPS.ROTR n x.
Proof.
  intros Hn Hx. unfold S32, FIPS.ROTR, u32.
  rewrite Z.shiftr_div_pow2, Z.shiftl_mul_pow2 by lia.
  replace (2 ^ 32) with (2 ^ n * 2 ^ (32 - n)) by (rewrite <-Z.pow_add_r by lia; f_equal; lia).
  rewrite Z.mul_mod_distr_r by (apply Z.pow_nonzero; lia).
  rewrite lor_low; [lia|lia|]. unfold w32 in Hx. split; [apply Z.div_pos; lia|].
  apply Z.div_lt_upper_bound; [lia|]. rewrite <-Z.pow_add_r by lia.
  replace (n + (32 - n)) with 32 by lia. lia.
Qed.
Lemma R_SHR n x : 0 ≤ n → R n x = FIPS.SHR n x.
Proof. intros. unfold R, FIPS.SHR. by rewrite Z.shiftr_div_pow2. Qed.
Lemma Ch_Choose x y z : w32 z → Ch x y z = FIPS.Choose x y z.
Proof.
  intros Hz. unfold Ch, FIPS.Choose. f_equal. rewrite u32_land, <-Z.land_assoc, (Z.land_comm (Z.ones 32)).
  rewrite Z.land_ones by lia. rewrite Z.mod_small by done. rewrite Z.land_comm. symmetry. apply Z.ldiff_land.
Qed.
Lemma Sigma0_spec x : w32 x → Sigma0_256 x = FIPS.Sigma_0 x.
Proof. intros. unfold Sigma0_256, FIPS.Sigma_0. by rewrite !S32_ROTR by (done || lia). Qed.
Lemma Sigma1_spec x : w32 x → Sigma1_256 x = FIPS.Sigma_1 x.
Proof. intros. unfold Sigma1_256, FIPS.Sigma_1. by rewrite !S32_ROTR by (done || lia). Qed.
Lemma sigma0_spec x : w32 x → sigma0_256 x = FIPS.sigma_0 x.
Proof. intros. unfold sigma0_256, FIPS.sigma_0. by rewrite !S32_ROTR, R_SHR by (done || lia). Qed.
Lemma sigma1_spec x : w32 x → sigma1_256 x = FIPS.sigma_1 x.
Proof. intros. unfold sigma1_256, FIPS.sigma_1. by rewrite !S32_ROTR, R_SHR by (done || lia). Qed.

Lemma add32_u32_l a b : u32 a +w b = a +w b.
Proof. unfold add32, u32. by rewrite Zplus_mod_idemp_l. Qed.
Lemma add32_u32_r a b : a +w u32 b = a +w b.
Proof. unfold add32, u32. by rewrite Zplus_mod_idemp_r. Qed.
Lemma sum_unfold a l : FIPS.sum (a :: l) = a +w FIPS.sum l.
Proof. unfold FIPS.sum. cbn [foldr]. change (?x mod 2 ^ 32) with (u32 x). by rewrite add32_u32_r. Qed.
Lemma add32_0 a b : a +w (b +w FIPS.sum []) = a +w b.
Proof. change (b +w FIPS.sum []) with (u32 (b + 0)). by rewrite Z.add_0_r, add32_u32_r. Qed.
Lemma add32_assoc a b c : a +w b +w c = a +w (b +w c).
Proof. unfold add32, u32. rewrite Zplus_mod_idemp_l, Zplus_mod_idemp_r. f_equal. lia. Qed.

Lemma round_step k w s : words_ok s → w32 w → round k w s = FIPS.step s (k, w) ∧ words_ok (round k w s).
Proof.
  destruct s as [a b c d e f g h]. intros Hs Hw. unfold words_ok, list_of_words in *.
  cbn [wa wb wc wd we wf wg wh] in Hs. repeat (apply list.Forall_cons in Hs as [? Hs]). split.
  - unfold round. cbn [wa wb wc wd we wf wg wh FIPS.step fst snd]. rewrite Sigma0_spec, Sigma1_spec, Ch_Choose by done.
    by rewrite !sum_unfold, !add32_0, !add32_assoc.
  - unfold round. repeat (apply list.Forall_cons; split); try done; apply w32_u32.
Qed.

(** ** Byte order

    The reversals distribute over [Z.lor], so it is enough to look at single
    bytes. *)
Definition additive (f : Z → Z) : Prop := ∀ a b, f (Z.lor a b) = Z.lor (f a) (f b).

Lemma additive_lor f g : additive f → additive g → additive (fun x => Z.lor (f x) (g x)).
Proof.
  intros Hf Hg a b. rewrite Hf, Hg, <-!Z.lor_assoc. f_equal. rewrite !Z.lor_assoc. f_equal. apply Z.lor_comm.
Qed.
Lemma additive_shiftr n f : additive f → additive (fun x => Z.shiftr (f x) n).
Proof. intros Hf a b. by rewrite Hf, Z.shiftr_lor. Qed.
Lemma additive_shiftl n f : additive f → additive (fun x => Z.shiftl (f x) n).
Proof. intros Hf a b. by rewrite Hf, Z.shiftl_lor. Qed.
Lemma additive_land m f : additive f → additive (fun x => Z.land (f x) m).
Proof. intros Hf a b. by rewrite Hf, Z.land_lor_distr_l. Qed.
Lemma additive_u32 f : additive f → additive (fun x => u32 (f x)).
Proof. intros Hf a b. by rewrite Hf, !u32_land, Z.land_lor_distr_l. Qed.
Lemma additive_u64 f : additive f → additive (fun x => u64 (f x)).
Proof. intros Hf a b. by rewrite Hf, !u64_land, Z.land_lor_distr_l. Qed.
Lemma additive_id : additive (fun x => x).
Proof. done. Qed.
Create HintDb additive discriminated.
#[export] Hint Resolve additive_lor additive_shiftr additive_shiftl additive_land additive_u32 additive_u64
  additive_id : additive.

Lemma REVERSE32_additive : additive REVERSE32.
Proof. unfold REVERSE32. cbv zeta. auto 10 with additive. Qed.
Lemma REVERSE64_additive : additive REVERSE64.
Proof. unfold REVERSE64. cbv zeta. auto 20 with additive. Qed.

(** Bytes as a sum of bits. *)
Lemma le_Z_lor b l : le_Z (b :: l) = Z.lor (Z_of_byte b) (Z.shiftl (le_Z l) 8).
Proof.
  rewrite Z.shiftl_mul_pow2, lor_low by (lia || apply Z_of_byte_range).
  change (le_Z (b :: l)) with (Z_of_byte b + 256 * le_Z l). lia.
Qed.
(** What [f] does to the byte at position [i] of [n]. *)
Definition moves_byte (f : Z → Z) (n i : Z) : Prop :=
  ∀ b, f (Z.shiftl (Z_of_byte b) (8 * i)) = Z.shiftl (Z_of_byte b) (8 * (n - 1 - i)).
Lemma moves_byte_check f n i :
  forallb (fun k => f (Z.shiftl (Z.of_nat k) (8 * i)) =? Z.shiftl (Z.of_nat k) (8 * (n - 1 - i))) (seq 0 256) = true →
  moves_byte f n i.
Proof.
  intros H b. apply Z.eqb_eq. pose proof (Z_of_byte_range b).
  exact (forall_below (fun k => f (Z.shiftl k (8 * i)) =? Z.shiftl k (8 * (n - 1 - i))) 0 256 H (Z_of_byte b) ltac:(lia)).
Qed.

Lemma le_Z_app l1 l2 : le_Z (l1 ++ l2) = Z.lor (le_Z l1) (Z.shiftl (le_Z l2) (8 * Z.of_nat (base.length l1))).
Proof.
  induction l1 as [|b l1 IH]; [cbn; by rewrite Z.shiftl_0_r|]. cbn [app base.length].
  rewrite !le_Z_lor, IH, Z.shiftl_lor, Z.shiftl_shiftl by lia. rewrite Z.lor_assoc. do 2 f_equal. lia.
Qed.
Lemma moves_bytes f n : additive f → f 0 = 0 → (∀ i, 0 ≤ i < n → moves_byte f n i) →
  ∀ l i, 0 ≤ i → i + Z.of_nat (base.length l) = n → f (Z.shiftl (le_Z l) (8 * i)) = le_Z (rev l).
Proof.
  intros Hf H0 Hm l. induction l as [|b l IH]; intros i Hi Hl.
  - cbn [rev]. change (le_Z []) with 0. by rewrite Z.shiftl_0_l.
  - cbn [base.length rev] in *. rewrite le_Z_lor, Z.shiftl_lor, Hf, (Hm i) by lia.
    rewrite Z.shiftl_shiftl by lia. replace (8 + 8 * i) with (8 * (i + 1)) by lia.
    rewrite IH, le_Z_app, length_rev by lia. rewrite Z.lor_comm. f_equal.
    change (le_Z [b]) with (Z_of_byte b + 256 * 0). rewrite Z.add_0_r. f_equal. lia.
Qed.
Lemma moves_all f (n : nat) :
  forallb (fun i => forallb (fun k => f (Z.shiftl (Z.of_nat k) (8 * Z.of_nat i)) =?
    Z.shiftl (Z.of_nat k) (8 * (Z.of_nat n - 1 - Z.of_nat i))) (seq 0 256)) (seq 0 n) = true →
  ∀ i, 0 ≤ i < Z.of_nat n → moves_byte f (Z.of_nat n) i.
Proof.
  intros H i Hi. apply moves_byte_check. rewrite <-(Z2Nat.id i) by lia.
  rewrite forallb_forall in H. apply H, in_seq. lia.
Qed.

Lemma REVERSE32_le_Z l : base.length l = 4%nat → REVERSE32 (le_Z l) = FIPS.be_Z l.
Proof.
  intros Hl. rewrite <-(Z.shiftl_0_r (le_Z l)).
  refine (moves_bytes REVERSE32 4 REVERSE32_additive eq_refl _ l 0 _ _); [|lia|lia].
  apply (moves_all _ 4). by vm_compute.
Qed.
Lemma REVERSE64_le_Z l : base.length l = 8%nat → REVERSE64 (le_Z l) = FIPS.be_Z l.
Proof.
  intros Hl. rewrite <-(Z.shiftl_0_r (le_Z l)).
  refine (moves_bytes REVERSE64 8 REVERSE64_additive eq_refl _ l 0 _ _); [|lia|lia].
  apply (moves_all _ 8). by vm_compute.
Qed.
Lemma le_bytes_be_Z l : le_bytes (base.length l) (FIPS.be_Z l) = rev l.
Proof. unfold FIPS.be_Z. rewrite <-(length_rev l). apply le_bytes_le_Z. Qed.
Lemma le_bytes_REVERSE32 x : w32 x → le_bytes 4 (REVERSE32 x) = FIPS.be_bytes 4 x.
Proof.
  intros Hx. assert (x = le_Z (le_bytes 4 x)) as E by (rewrite le_Z_le_bytes, Z.mod_small; done).
  rewrite E at 1. rewrite REVERSE32_le_Z by apply length_le_bytes.
  exact (le_bytes_be_Z (le_bytes 4 x)).
Qed.
Lemma le_bytes_REVERSE64 x : 0 ≤ x < 2 ^ 64 → le_bytes 8 (REVERSE64 x) = FIPS.be_bytes 8 x.
Proof.
  intros Hx. assert (x = le_Z (le_bytes 8 x)) as E by (rewrite le_Z_le_bytes, Z.mod_small; done).
  rewrite E at 1. rewrite REVERSE64_le_Z by apply length_le_bytes.
  exact (le_bytes_be_Z (le_bytes 8 x)).
Qed.

(** ** The buffer as an array of words *)
Definition bytes_of (ws : list Z) : list byte := List.concat (map (le_bytes 4) ws).

Lemma bytes_of_app ws vs : bytes_of (ws ++ vs) = bytes_of ws ++ bytes_of vs.
Proof. unfold bytes_of. by rewrite map_app, List.concat_app. Qed.
Lemma bytes_of_cons w ws : bytes_of (w :: ws) = le_bytes 4 w ++ bytes_of ws.
Proof. done. Qed.
Lemma length_bytes_of ws : base.length (bytes_of ws) = (4 * base.length ws)%nat.
Proof.
  induction ws as [|w ws IH]; [done|]. rewrite bytes_of_cons, length_app, length_le_bytes, IH.
  cbn [base.length]. lia.
Qed.
Lemma load32_bytes p w q r : w32 w → load32 (bytes_of (p ++ w :: q) ++ r) (Z.of_nat (base.length p)) = Ok w.
Proof.
  intros Hw. unfold load32. rewrite bytes_of_app, bytes_of_cons, <-!app_assoc.
  replace (4 * Z.of_nat (base.length p)) with (Z.of_nat (base.length (bytes_of p))) by (rewrite length_bytes_of; lia).
  change 4 with (Z.of_nat (base.length (le_bytes 4 w))). rewrite read_at_app. ostep.
  by rewrite le_Z_le_bytes, Z.mod_small.
Qed.
Lemma store32_bytes p w v q :
  store32 (bytes_of (p ++ w :: q)) (Z.of_nat (base.length p)) v = Ok (bytes_of (p ++ v :: q)).
Proof.
  unfold store32. rewrite !bytes_of_app, !bytes_of_cons.
  replace (4 * Z.of_nat (base.length p)) with (Z.of_nat (base.length (bytes_of p))) by (rewrite length_bytes_of; lia).
  by rewrite write_at_app by by rewrite !length_le_bytes.
Qed.
(** By index. *)
Lemma load32_at ws j w : ws !! j = Some w → w32 w → load32 (bytes_of ws) (Z.of_nat j) = Ok w.
Proof.
  intros Hj Hw. pose proof (load32_bytes (take j ws) w (drop (S j) ws) [] Hw) as H.
  rewrite app_nil_r, (take_drop_middle ws j w Hj), length_take_le in H; [done|].
  apply lookup_lt_Some in Hj. lia.
Qed.
Lemma store32_at ws j v : (j < base.length ws)%nat → store32 (bytes_of ws) (Z.of_nat j) v = Ok (bytes_of (<[j:=v]> ws)).
Proof.
  intros Hj. destruct (lookup_lt_is_Some_2 ws j Hj) as [w Hw].
  pose proof (store32_bytes (take j ws) w v (drop (S j) ws)) as H.
  rewrite (take_drop_middle ws j w Hw), length_take_le in H by lia. rewrite H.
  by rewrite insert_take_drop.
Qed.

Lemma words_of_bytes n : ∀ l, base.length l = (4 * n)%nat →
  ∃ ws, l = bytes_of ws ∧ base.length ws = n ∧ Forall w32 ws.
Proof.
  induction n as [|n IH]; intros l Hl.
  - exists []. by destruct l.
  - destruct (IH (drop 4 l)) as (ws & Hd & Hw & Hf); [rewrite length_drop; lia|].
    assert (base.length (take 4 l) = 4%nat) as H4 by (rewrite length_take; lia).
    exists (le_Z (take 4 l) :: ws). split_and!; [|cbn; lia|].
    + rewrite bytes_of_cons, <-Hd. rewrite <-H4 at 1. by rewrite le_bytes_le_Z, take_drop.
    + constructor; [|done]. pose proof (le_Z_range (take 4 l)) as Hr. rewrite H4 in Hr. exact Hr.
Qed.
Lemma words_of_block_bytes ws : Forall w32 ws →
  FIPS.words_of_block (base.length ws) (bytes_of ws) = map REVERSE32 ws.
Proof.
  induction 1 as [|w ws Hw _ IH]; [done|]. cbn [base.length map FIPS.words_of_block]. rewrite bytes_of_cons.
  rewrite take_app_length' by (by rewrite length_le_bytes). rewrite drop_app_length' by (by rewrite length_le_bytes).
  rewrite IH, <-REVERSE32_le_Z by apply length_le_bytes. by rewrite le_Z_le_bytes, Z.mod_small.
Qed.
Lemma REVERSE32_w32 w : w32 (REVERSE32 w).
Proof. apply w32_u32. Qed.

(** ** SHA256_Transform *)
Lemma K256_at_drop j : (j < 64)%nat → ∃ k, K256_at (Z.of_nat j) = Ok k ∧ drop j K256 = k :: drop (S j) K256.
Proof.
  intros Hj. destruct (lookup_lt_is_Some_2 K256 j) as [k Hk]; [done|]. exists k.
  unfold K256_at. rewrite Nat2Z.id, Hk. split; [done|]. by apply drop_S.
Qed.

(** The block's words from [j] on, where the loop reads them: in place, the
    part of the buffer that it has not yet overwritten. *)
Definition source (data : data_ptr) (j : nat) (q cur : list Z) : Prop :=
  match data with
  | AtBuffer => cur = q
  | AtData bytes => ∃ p r, bytes = bytes_of (p ++ q) ++ r ∧ base.length p = j
  end.

Lemma source_word data ms w q c cur : source data (base.length ms) (w :: q) (c :: cur) → w32 w →
  data_word data (bytes_of (ms ++ c :: cur)) (Z.of_nat (base.length ms)) = Ok w ∧
  source data (base.length (ms ++ [REVERSE32 w])) q cur.
Proof.
  intros Hs Hw. rewrite length_app. cbn [base.length]. destruct data as [|bytes]; cbn in *.
  - injection Hs as -> ->. split; [|done]. rewrite <-(app_nil_r (bytes_of _)). by apply load32_bytes.
  - destruct Hs as (p & r & -> & <-). split; [by apply load32_bytes|].
    exists (p ++ [w]), r. rewrite <-app_assoc, length_app. split; [done|]. cbn. lia.
Qed.

Lemma load_round_at data ms w c cur k s :
  data_word data (bytes_of (ms ++ c :: cur)) (Z.of_nat (base.length ms)) = Ok w →
  K256_at (Z.of_nat (base.length ms)) = Ok k →
  load_round data (Z.of_nat (base.length ms)) s (bytes_of (ms ++ c :: cur)) =
    Ok (round k (REVERSE32 w) s, bytes_of (ms ++ REVERSE32 w :: cur)).
Proof.
  intros Hw Hk. unfold load_round. rewrite Hw. ostep. rewrite store32_bytes. ostep. rewrite Hk. ostep.
  rewrite <-(app_nil_r (bytes_of (ms ++ _))), load32_bytes by apply REVERSE32_w32. ostep. by rewrite app_nil_r.
Qed.

Lemma load_rounds data q : ∀ cur ms s,
  source data (base.length ms) q cur → base.length cur = base.length q →
  (base.length ms + base.length q = 16)%nat → Forall w32 q → words_ok s →
  rounds (base.length q) (load_round data) (Z.of_nat (base.length ms)) s (bytes_of (ms ++ cur)) =
    Ok (foldl FIPS.step s (zip (drop (base.length ms) K256) (map REVERSE32 q)), bytes_of (ms ++ map REVERSE32 q)) ∧
  words_ok (foldl FIPS.step s (zip (drop (base.length ms) K256) (map REVERSE32 q))).
Proof.
  induction q as [|w q IH]; intros [|c cur] ms s Hsrc Hlen Hj Hq Hs; try discriminate.
  - cbn. rewrite !app_nil_r. by rewrite zip_with_nil_r.
  - apply list.Forall_cons in Hq as [Hw Hq]. cbn [base.length] in Hlen, Hj.
    destruct (source_word _ _ _ _ _ _ Hsrc Hw) as [Hword Hsrc'].
    destruct (K256_at_drop (base.length ms)) as (k & Hk & Hd); [lia|].
    destruct (round_step k (REVERSE32 w) s Hs (REVERSE32_w32 w)) as [Hr Hok].
    cbn [rounds base.length map]. rewrite (outcome_bind_step _ _ _ (load_round_at _ _ _ _ _ _ _ Hword Hk)).
    rewrite Hd. cbn [zip zip_with foldl]. rewrite <-Hr.
    specialize (IH cur (ms ++ [REVERSE32 w]) (round k (REVERSE32 w) s) Hsrc' ltac:(lia)). rewrite length_app in IH. cbn [base.length] in IH.
    rewrite <-!app_assoc in IH. cbn [app] in IH. rewrite Nat.add_1_r, Nat2Z.inj_succ in IH.
    unfold Z.succ in IH. apply IH; [lia|done|done].
Qed.

(** *** The message schedule: the ring holds the last 16 words *)
Definition ring_ok (W ring : list Z) : Prop :=
  base.length ring = 16%nat ∧ (16 ≤ base.length W)%nat ∧
  ∀ i, (base.length W - 16 ≤ i < base.length W)%nat → ring !! (i mod 16)%nat = W !! i.

Lemma land_15 z : Z.land z 0x0f = z mod 16.
Proof. change 0x0f with (Z.ones 4). by rewrite Z.land_ones. Qed.
Lemma ring_at W ring k : ring_ok W ring → Forall w32 W → (k < 16)%nat →
  load32 (bytes_of ring) (Z.land (Z.of_nat (base.length W) + Z.of_nat k) 0x0f) =
    Ok (default 0 (W !! (base.length W - (16 - k))%nat)) ∧
  w32 (default 0 (W !! (base.length W - (16 - k))%nat)).
Proof.
  intros (Hr & Hn & Hring) HW Hk.
  destruct (lookup_lt_is_Some_2 W (base.length W - (16 - k))) as [w Hw]; [lia|].
  assert (w32 w) as Hw32 by by eapply Forall_lookup_1 in HW.
  rewrite Hw. split; [|done]. rewrite land_15.
  replace ((Z.of_nat (base.length W) + Z.of_nat k) mod 16)
    with (Z.of_nat ((base.length W - (16 - k)) mod 16)).
  - apply load32_at; [|done]. rewrite Hring by lia. done.
  - rewrite Nat2Z.inj_mod. change (Z.of_nat 16) with 16.
    replace (Z.of_nat (base.length W) + Z.of_nat k) with (Z.of_nat (base.length W - (16 - k)) + 1 * 16) by lia.
    by rewrite Z.mod_add.
Qed.
Lemma ring_push W ring w : ring_ok W ring →
  ring_ok (W ++ [w]) (<[(base.length W mod 16)%nat := w]> ring).
Proof.
  intros (Hr & Hn & Hring). unfold ring_ok. rewrite length_insert, length_app. cbn [base.length].
  split_and!; [done|lia|]. intros i Hi. destruct (decide (i = base.length W)) as [->|Hne].
  - rewrite list_lookup_insert_eq by (rewrite Hr; apply Nat.mod_upper_bound; lia).
    by rewrite lookup_app_r, Nat.sub_diag by lia.
  - rewrite list_lookup_insert_ne.
    + rewrite lookup_app_l by lia. apply Hring. lia.
    + intros He. pose proof (Nat.div_mod_eq i 16). pose proof (Nat.div_mod_eq (base.length W) 16). lia.
Qed.

Lemma add32_comm a b : a +w b = b +w a.
Proof. unfold add32. by rewrite Z.add_comm. Qed.
Lemma mix_round_at W ring k s : ring_ok W ring → Forall w32 W → K256_at (Z.of_nat (base.length W)) = Ok k →
  mix_round (Z.of_nat (base.length W)) s (bytes_of ring) =
    Ok (round k (FIPS.next_word W) s, bytes_of (<[(base.length W mod 16)%nat := FIPS.next_word W]> ring)).
Proof.
  intros Hring HW Hk. unfold mix_round.
  destruct (ring_at W ring 1 Hring HW ltac:(lia)) as [H1 W1].
  destruct (ring_at W ring 14 Hring HW ltac:(lia)) as [H14 W14].
  destruct (ring_at W ring 9 Hring HW ltac:(lia)) as [H9 _].
  destruct (ring_at W ring 0 Hring HW ltac:(lia)) as [H0 _].
  change (Z.of_nat 1) with 1 in H1. change (Z.of_nat 14) with 14 in H14.
  change (Z.of_nat 9) with 9 in H9. change (Z.of_nat 0) with 0 in H0.
  rewrite H1. ostep. rewrite H14. ostep. rewrite H9. ostep.
  rewrite Z.add_0_r in H0. rewrite H0. ostep. cbv zeta.
  rewrite sigma0_spec, sigma1_spec by done.
  assert (Z.land (Z.of_nat (base.length W)) 15 = Z.of_nat (base.length W mod 16)) as ->
    by (rewrite land_15, Nat2Z.inj_mod; done).
  rewrite store32_at by (rewrite (proj1 Hring); apply Nat.mod_upper_bound; lia). ostep. rewrite Hk. ostep.
  do 2 f_equal. all: f_equal. all: unfold FIPS.next_word; cbv zeta; rewrite add32_comm, !sum_unfold, !add32_assoc, add32_0; done.
Qed.

Lemma length_schedule n : ∀ W, base.length (FIPS.schedule n W) = (n + base.length W)%nat.
Proof. induction n as [|n IH]; intros W; [done|]. cbn [FIPS.schedule]. rewrite IH, length_app. cbn. lia. Qed.
Lemma schedule_prefix n : ∀ W, ∃ V, FIPS.schedule n W = W ++ V.
Proof.
  induction n as [|n IH]; intros W; [exists []; by rewrite app_nil_r|]. cbn [FIPS.schedule].
  destruct (IH (W ++ [FIPS.next_word W])) as [V ->]. exists (FIPS.next_word W :: V). by rewrite <-app_assoc.
Qed.
Lemma drop_schedule n W : drop (base.length W) (FIPS.schedule (S n) W) =
  FIPS.next_word W :: drop (base.length (W ++ [FIPS.next_word W])) (FIPS.schedule n (W ++ [FIPS.next_word W])).
Proof.
  cbn [FIPS.schedule]. destruct (schedule_prefix n (W ++ [FIPS.next_word W])) as [V HV]. rewrite HV.
  by rewrite drop_app_length, <-app_assoc, drop_app_length.
Qed.
Lemma next_word_w32 W : w32 (FIPS.next_word W).
Proof. apply w32_u32. Qed.

Lemma mix_rounds n : ∀ W ring s, ring_ok W ring → Forall w32 W → (base.length W + n = 64)%nat → words_ok s →
  ∃ ring', let s' := foldl FIPS.step s (zip (drop (base.length W) K256) (drop (base.length W) (FIPS.schedule n W))) in
    rounds n mix_round (Z.of_nat (base.length W)) s (bytes_of ring) = Ok (s', bytes_of ring') ∧
    base.length ring' = 16%nat ∧ words_ok s'.
Proof.
  induction n as [|n IH]; intros W ring s Hring HW Hn Hs.
  - exists ring. cbn [FIPS.schedule]. rewrite drop_all, zip_with_nil_r. split_and!; [done|apply Hring|done].
  - destruct (K256_at_drop (base.length W)) as (k & Hk & Hd); [lia|].
    destruct (round_step k (FIPS.next_word W) s Hs (next_word_w32 W)) as [Hr Hok].
    destruct (IH (W ++ [FIPS.next_word W]) _ _ (ring_push W ring (FIPS.next_word W) Hring)
      (proj2 (Forall_app _ _ _) (conj HW (proj2 (Forall_singleton _ _) (next_word_w32 W))))
      ltac:(rewrite length_app; cbn; lia) Hok) as (ring' & Hrun & Hlen & Hok').
    exists ring'. cbv zeta in *. rewrite drop_schedule, Hd. cbn [zip zip_with foldl rounds].
    rewrite (outcome_bind_step _ _ _ (mix_round_at W ring k s Hring HW Hk)), <-Hr.
    rewrite length_app in Hrun, Hok' |- *. cbn [base.length] in *.
    rewrite Nat.add_1_r in *. rewrite Nat2Z.inj_succ in Hrun. unfold Z.succ in Hrun.
    by split_and!.
Qed.

Lemma bytes_of_inj ws : ∀ vs, Forall w32 ws → Forall w32 vs → bytes_of ws = bytes_of vs → ws = vs.
Proof.
  induction ws as [|w ws IH]; intros [|v vs] Hw Hv He; try done.
  apply list.Forall_cons in Hw as [Hw Hws]. apply list.Forall_cons in Hv as [Hv Hvs].
  rewrite !bytes_of_cons in He. apply app_inj_1 in He as [He1 He2]; [|by rewrite !length_le_bytes].
  f_equal; [|by apply IH]. apply (f_equal le_Z) in He1. by rewrite !le_Z_le_bytes, !Z.mod_small in He1.
Qed.
Lemma fold_schedule s M : base.length M = 16%nat →
  foldl FIPS.step s (zip K256 (FIPS.schedule 48 M)) =
  foldl FIPS.step (foldl FIPS.step s (zip K256 M)) (zip (drop 16 K256) (drop 16 (FIPS.schedule 48 M))).
Proof.
  intros HM. rewrite <-foldl_app. f_equal. destruct (schedule_prefix 48 M) as [V ->].
  rewrite drop_app_length' by done.
  assert (∀ U, zip K256 (M ++ U) = zip (take 16 K256) M ++ zip (drop 16 K256) U) as H.
  { intros U. rewrite <-(take_drop 16 K256) at 1. by rewrite zip_with_app by by rewrite HM. }
  pose proof (H []) as HM0. rewrite app_nil_r, zip_with_nil_r, app_nil_r in HM0. by rewrite H, HM0.
Qed.

(** The 64 bytes that [SHA256_Transform] reads. *)
Definition block_at (data : data_ptr) (buf blk : list byte) : Prop :=
  base.length blk = 64%nat ∧ match data with AtBuffer => buf = blk | AtData bytes => take 64 bytes = blk end.

Lemma transform_spec c data blk :
  words_ok (state c) → base.length (buffer c) = 64%nat → block_at data (buffer c) blk →
  ∃ buf', SHA256_Transform c data =
      Ok (Ctx (FIPS.block (state c) (FIPS.words_of_block 16 blk)) (bitcount c) buf') ∧
    base.length buf' = 64%nat ∧ words_ok (FIPS.block (state c) (FIPS.words_of_block 16 blk)).
Proof.
  intros Hs Hb [Hblk Hdata].
  destruct (words_of_bytes 16 _ Hb) as (cur & Hcur & Hlc & Hfc).
  destruct (words_of_bytes 16 _ Hblk) as (q & -> & Hlq & Hfq).
  assert (source data 0 q cur) as Hsrc.
  { destruct data as [|bytes]; cbn in *.
    - apply bytes_of_inj; [done..|]. by rewrite <-Hcur.
    - exists [], (drop 64 bytes). split; [|done]. cbn [app]. by rewrite <-Hdata, take_drop. }
  destruct (load_rounds data q cur [] (state c) Hsrc ltac:(lia) ltac:(cbn; lia) Hfq Hs) as [Hload Hok1].
  set (M := map REVERSE32 q) in *. cbn [base.length app drop] in *. rewrite Hlq in Hload.
  assert (ring_ok M M) as Hring.
  { subst M. unfold ring_ok. rewrite length_map. split_and!; [lia|lia|]. intros i Hi.
    by rewrite Nat.mod_small by lia. }
  assert (Forall w32 M) as HM by (apply Forall_fmap, Forall_true; intros; apply REVERSE32_w32).
  destruct (mix_rounds 48 M M _ Hring HM ltac:(subst M; rewrite length_map; lia) Hok1) as (ring' & Hmix & Hlr & Hok2).
  assert (base.length M = 16%nat) as HlM by by (subst M; rewrite length_map).
  rewrite HlM in Hmix, Hok2. cbv zeta in Hmix, Hok2. change (Z.of_nat 16) with 16 in Hmix.
  change (drop 0 K256) with K256 in *.
  assert (FIPS.words_of_block 16 (bytes_of q) = M) as HwM by (rewrite <-Hlq; by apply words_of_block_bytes).
  rewrite HwM.
  exists (bytes_of ring'). unfold SHA256_Transform. change 0 with (Z.of_nat 0). rewrite Hcur, Hload. ostep. rewrite Hmix. ostep.
  unfold FIPS.block. rewrite fold_schedule by done. split_and!; [done|by rewrite length_bytes_of, Hlr|].
  repeat (apply list.Forall_cons; split; [apply w32_u32|]). constructor.
Qed.

(** ** Contexts of a message

    What the context holds after the bytes [msg]: the hash of the full blocks,
    the rest at the start of the buffer, the number of bits. *)
Definition full (msg : list byte) : nat := base.length msg / 64.
Definition rest (msg : list byte) : list byte := drop (64 * full msg) msg.
Record absorbed (c : SHA256_CTX) (msg : list byte) : Prop := {
  ab_buffer : base.length (buffer c) = 64%nat;
  ab_words : words_ok (state c);
  ab_state : state c = FIPS.blocks (full msg) FIPS.H0 msg;
  ab_count : bitcount c = u64 (8 * Z.of_nat (base.length msg));
  ab_rest : ∃ tl, buffer c = rest msg ++ tl;
}.

Lemma blocks_add n m : ∀ H msg, FIPS.blocks (n + m) H msg = FIPS.blocks m (FIPS.blocks n H msg) (drop (64 * n) msg).
Proof.
  induction n as [|n IH]; intros H msg; [done|]. cbn [Nat.add FIPS.blocks]. rewrite IH, drop_drop.
  f_equal. f_equal. lia.
Qed.
Lemma blocks_prefix n : ∀ H msg more, (64 * n ≤ base.length msg)%nat →
  FIPS.blocks n H (msg ++ more) = FIPS.blocks n H msg.
Proof.
  induction n as [|n IH]; intros H msg more Hn; [done|]. cbn [FIPS.blocks].
  rewrite take_app_le, drop_app_le, IH by (rewrite ?length_drop; lia). done.
Qed.
Lemma full_spec msg : (64 * full msg ≤ base.length msg < 64 * full msg + 64)%nat.
Proof. unfold full. pose proof (Nat.div_mod_eq (base.length msg) 64). pose proof (Nat.mod_upper_bound (base.length msg) 64). lia. Qed.
Lemma full_unique msg n : (64 * n ≤ base.length msg < 64 * n + 64)%nat → full msg = n.
Proof. pose proof (full_spec msg). lia. Qed.
Lemma length_rest msg : base.length (rest msg) = (base.length msg - 64 * full msg)%nat.
Proof. unfold rest. by rewrite length_drop. Qed.

Lemma absorbed_init : absorbed SHA256_Init [].
Proof.
  split; try done; [|by exists (replicate 64 NUL)].
  unfold words_ok. apply (bool_decide_unpack _). by vm_compute.
Qed.

(** The counter. *)
Lemma count_bits n m : u64 (u64 (8 * n) + u64 (Z.shiftl m 3)) = u64 (8 * (n + m)).
Proof.
  rewrite Z.shiftl_mul_pow2 by lia. unfold u64. rewrite <-Zplus_mod. f_equal. lia.
Qed.
Lemma usedspace_absorbed c msg : absorbed c msg → usedspace_of c = Z.of_nat (base.length (rest msg)).
Proof.
  intros Hc. unfold usedspace_of, SHA256_BLOCK_LENGTH. rewrite (ab_count _ _ Hc). unfold u64.
  change (2 ^ 64) with (8 * 2 ^ 61). rewrite Z.mul_mod_distr_l, Z.shiftr_div_pow2 by lia.
  change (2 ^ 3) with 8. rewrite (Z.mul_comm 8), Z.div_mul by lia.
  change (2 ^ 61) with (64 * 2 ^ 55). rewrite Z.rem_mul_r by lia.
  rewrite (Z.mul_comm 64 (_ mod _)), Z.mod_add, Z.mod_mod, length_rest by lia.
  pose proof (full_spec msg). rewrite Nat2Z.inj_sub, Nat2Z.inj_mul by lia.
  symmetry. apply Z.mod_unique with (Z.of_nat (full msg)); lia.
Qed.

(** *** Pieces of a message *)
Lemma fill_app a b d src c : buffer c = a ++ b ++ d → base.length b = base.length src →
  fill (Z.of_nat (base.length a)) src c = Ok (Ctx (state c) (bitcount c) (a ++ src ++ d)).
Proof. intros Hb Hl. unfold fill. rewrite Hb. by rewrite write_at_app. Qed.
Lemma fill_rest c msg src : absorbed c msg → (base.length (rest msg) + base.length src ≤ 64)%nat →
  ∃ tl, fill (Z.of_nat (base.length (rest msg))) src c =
    Ok (Ctx (state c) (bitcount c) (rest msg ++ src ++ tl)) ∧
    base.length tl = (64 - base.length (rest msg) - base.length src)%nat.
Proof.
  intros Hc Hl. destruct (ab_rest _ _ Hc) as [tl Htl]. pose proof (ab_buffer _ _ Hc) as Hb.
  rewrite Htl, length_app in Hb. exists (drop (base.length src) tl). split; [|rewrite length_drop; lia].
  apply (fill_app _ (take (base.length src) tl)); [by rewrite take_drop|rewrite length_take; lia].
Qed.

(** Bytes that do not fill the buffer. *)
Lemma absorb_part c msg data : absorbed c msg → (base.length (rest msg) + base.length data < 64)%nat →
  ∃ c', fill (Z.of_nat (base.length (rest msg))) data c = Ok c' ∧
    absorbed (count (Z.of_nat (base.length data)) c') (msg ++ data).
Proof.
  intros Hc Hl. destruct (fill_rest c msg data Hc ltac:(lia)) as (tl & Hrun & Htl).
  eexists. split; [exact Hrun|]. pose proof (full_spec msg) as Hf. rewrite length_rest in Hl, Htl.
  assert (full (msg ++ data) = full msg) as Hfull by (apply full_unique; rewrite length_app; lia).
  split; unfold count; cbn [buffer state bitcount].
  - rewrite !length_app, length_rest. lia.
  - apply Hc.
  - rewrite Hfull, blocks_prefix by lia. apply Hc.
  - rewrite (ab_count _ _ Hc), count_bits, length_app. f_equal. lia.
  - exists tl. unfold rest. rewrite Hfull, drop_app_le by lia. by rewrite <-app_assoc.
Qed.

(** Bytes that fill it: after the block has been hashed nothing is left. *)
Lemma absorbed_block c msg data blk buf' :
  absorbed c msg → base.length blk = 64%nat → rest msg ++ data = blk → base.length buf' = 64%nat →
  words_ok (FIPS.block (state c) (FIPS.words_of_block 16 blk)) →
  absorbed (Ctx (FIPS.block (state c) (FIPS.words_of_block 16 blk))
    (u64 (bitcount c + u64 (Z.shiftl (Z.of_nat (base.length data)) 3))) buf') (msg ++ data).
Proof.
  intros Hc Hblk Hd Hb' Hok. pose proof (full_spec msg) as Hf.
  pose proof (f_equal base.length Hd) as Hlen. rewrite length_app, length_rest, Hblk in Hlen.
  assert (full (msg ++ data) = full msg + 1)%nat as Hfull by (apply full_unique; rewrite length_app; lia).
  split; cbn [buffer state bitcount]; try done.
  - rewrite Hfull, blocks_add, blocks_prefix, drop_app_le by lia.
    change (drop (64 * full msg) msg) with (rest msg). rewrite Hd. cbn [FIPS.blocks].
    rewrite <-(ab_state _ _ Hc), take_ge by lia. done.
  - rewrite (ab_count _ _ Hc), count_bits, length_app. f_equal. lia.
  - exists buf'. unfold rest. by rewrite Hfull, drop_ge by (rewrite length_app; lia).
Qed.
Lemma absorb_fill c msg data : absorbed c msg → (base.length (rest msg) + base.length data = 64)%nat →
  ∃ c1 c', fill (Z.of_nat (base.length (rest msg))) data c = Ok c1 ∧
    SHA256_Transform (count (Z.of_nat (base.length data)) c1) AtBuffer = Ok c' ∧ absorbed c' (msg ++ data).
Proof.
  intros Hc Hl. destruct (fill_rest c msg data Hc ltac:(lia)) as (tl & Hrun & Htl).
  eexists _. destruct (transform_spec (count (Z.of_nat (base.length data))
    (Ctx (state c) (bitcount c) (rest msg ++ data ++ tl))) AtBuffer (rest msg ++ data)) as (buf' & Ht & Hb & Hok).
  - apply Hc.
  - cbn [count buffer]. rewrite !length_app. lia.
  - split; [rewrite length_app; lia|]. cbn [count buffer]. destruct tl; [by rewrite app_nil_r|cbn [base.length] in Htl; lia].
  - eexists. split; [exact Hrun|]. split; [exact Ht|].
    cbn [count state bitcount] in *. apply absorbed_block; [done|rewrite length_app; lia|done|done|exact Hok].
Qed.
Lemma absorb_block c msg data : absorbed c msg → rest msg = [] → (64 ≤ base.length data)%nat →
  ∃ c', SHA256_Transform c (AtData data) = Ok c' ∧ absorbed (count 64 c') (msg ++ take 64 data).
Proof.
  intros Hc Hr Hl. assert (base.length (take 64 data) = 64%nat) as Hl64 by (rewrite length_take; lia).
  destruct (transform_spec c (AtData data) (take 64 data)) as (buf' & Ht & Hb & Hok).
  - apply Hc.
  - apply Hc.
  - done.
  - eexists. split; [exact Ht|]. pose proof (absorbed_block c msg (take 64 data) (take 64 data) buf' Hc Hl64) as H.
    rewrite Hl64 in H. apply H; [by rewrite Hr|done|exact Hok].
Qed.

Lemma rest_filled msg data : (base.length (rest msg) + base.length data = 64)%nat → rest (msg ++ data) = [].
Proof.
  intros Hl. pose proof (full_spec msg). rewrite length_rest in Hl. apply nil_length_inv.
  rewrite length_rest, (full_unique (msg ++ data) (full msg + 1)) by (rewrite length_app; lia).
  rewrite length_app. lia.
Qed.

Lemma update_blocks_spec n : ∀ c msg data, absorbed c msg → rest msg = [] → (base.length data < 64 * n + 64)%nat →
  ∃ c' pre tail, update_blocks n c data = Ok (c', tail) ∧ data = pre ++ tail ∧
    absorbed c' (msg ++ pre) ∧ rest (msg ++ pre) = [] ∧ (base.length tail < 64)%nat.
Proof.
  induction n as [|n IH]; intros c msg data Hc Hr Hn; cbn [update_blocks]; unfold SHA256_BLOCK_LENGTH.
  - rewrite (proj2 (Z.ltb_lt _ _)) by lia. exists c, [], data. rewrite app_nil_r. split_and!; auto with lia.
  - destruct (Z.ltb_spec (Z.of_nat (base.length data)) 64) as [Hlt|Hge].
    { exists c, [], data. rewrite app_nil_r. split_and!; auto with lia. }
    destruct (absorb_block c msg data Hc Hr ltac:(lia)) as (c1 & Ht & Hc1). rewrite Ht. ostep.
    destruct (IH (count 64 c1) (msg ++ take 64 data) (drop 64 data)) as (c' & pre & tail & H1 & H2 & H3 & H4 & H5).
    + done.
    + apply rest_filled. rewrite Hr, length_take. cbn [base.length]. lia.
    + rewrite length_drop. lia.
    + exists c', (take 64 data ++ pre), tail. rewrite <-!app_assoc in *. rewrite <-H2, take_drop. by split_and!.
Qed.

Lemma update_rest_spec c msg data : absorbed c msg → rest msg = [] →
  ∃ c', update_rest c data = Ok c' ∧ absorbed c' (msg ++ data).
Proof.
  intros Hc Hr. unfold update_rest.
  destruct (update_blocks_spec (S (base.length data)) c msg data Hc Hr ltac:(lia)) as (c1 & pre & tail & -> & Hd & Hc1 & Hr1 & Hl).
  ostep. rewrite Hd, app_assoc. destruct (Z.ltb_spec 0 (Z.of_nat (base.length tail))).
  - pose proof (absorb_part c1 (msg ++ pre) tail Hc1) as Hp. rewrite Hr1 in Hp.
    destruct (Hp Hl) as (c' & Hrun & Hc'). change (Z.of_nat (base.length [])) with 0 in Hrun. rewrite Hrun. ostep.
    by eexists.
  - destruct tail; [|cbn in *; lia]. rewrite app_nil_r. by eexists.
Qed.

Lemma update_spec c msg data : absorbed c msg →
  ∃ c', SHA256_Update c data = Ok c' ∧ absorbed c' (msg ++ data).
Proof.
  intros Hc. unfold SHA256_Update. cbv zeta. rewrite (usedspace_absorbed c msg Hc). unfold SHA256_BLOCK_LENGTH.
  pose proof (full_spec msg) as Hf. pose proof (length_rest msg) as Hlr.
  destruct (Z.eqb_spec (Z.of_nat (base.length data)) 0) as [H0|H0].
  { destruct data; [|cbn in H0; lia]. rewrite app_nil_r. by exists c. }
  destruct (Z.ltb_spec 0 (Z.of_nat (base.length (rest msg)))) as [Hr|Hr]; cbn [andb].
  2: { ostep. apply update_rest_spec; [done|]. apply nil_length_inv. lia. }
  destruct (Z.ltb_spec (Z.of_nat (base.length data)) (64 - Z.of_nat (base.length (rest msg)))).
  - destruct (absorb_part c msg data Hc ltac:(lia)) as (c' & -> & Hc'). ostep. by eexists.
  - replace (Z.to_nat (64 - Z.of_nat (base.length (rest msg)))) with (64 - base.length (rest msg))%nat by lia.
    set (d1 := take (64 - base.length (rest msg)) data).
    assert (base.length (rest msg) + base.length d1 = 64)%nat as Hl1 by (subst d1; rewrite length_take; lia).
    destruct (absorb_fill c msg d1 Hc Hl1) as (c1 & c2 & Hfill & Ht & Hc2). rewrite Hfill. ostep.
    replace (64 - Z.of_nat (base.length (rest msg))) with (Z.of_nat (base.length d1)) by lia. rewrite Ht. ostep.
    destruct (update_rest_spec c2 (msg ++ d1) (drop (64 - base.length (rest msg)) data) Hc2) as (c' & Hrun & Hc');
      [by apply rest_filled|].
    exists c'. split; [done|]. subst d1. by rewrite <-app_assoc, take_drop in Hc'.
Qed.

(** ** SHA256_Final *)
Lemma put_digest_spec ws : ∀ a b, base.length b = (4 * base.length ws)%nat → Forall w32 ws →
  put_digest (a ++ b) (Z.of_nat (base.length a)) ws = Ok (a ++ List.concat (map (FIPS.be_bytes 4) ws)).
Proof.
  induction ws as [|w ws IH]; intros a b Hb Hws.
  - destruct b; [done|cbn in Hb; lia].
  - apply list.Forall_cons in Hws as [Hw Hws]. cbn [base.length] in Hb. cbn [put_digest map List.concat].
    rewrite le_bytes_REVERSE32 by done. assert (base.length (FIPS.be_bytes 4 w) = 4%nat) as H4 by done.
    rewrite <-(take_drop 4 b), write_at_app by (rewrite H4, length_take; lia). ostep.
    specialize (IH (a ++ FIPS.be_bytes 4 w) (drop 4 b)). rewrite length_app, H4, Nat2Z.inj_add, <-!app_assoc in IH.
    apply IH; [rewrite length_drop; lia|done].
Qed.

Lemma length_be_bytes n z : base.length (FIPS.be_bytes n z) = n.
Proof. unfold FIPS.be_bytes. by rewrite length_rev, length_le_bytes. Qed.
Ltac lens := rewrite ?length_app, ?length_replicate, ?length_be_bytes; cbn [base.length]; lia.

(** The bytes behind the message. *)
Definition padding (msg : list byte) : list byte :=
  [byte_of_Z 0x80] ++ replicate (Z.to_nat (FIPS.zeros (Z.of_nat (base.length msg)))) NUL ++
  FIPS.be_bytes 8 (8 * Z.of_nat (base.length msg)).
Lemma zeros_rest msg : FIPS.zeros (Z.of_nat (base.length msg)) =
  if decide (base.length (rest msg) < 56)%nat then 55 - Z.of_nat (base.length (rest msg))
  else 119 - Z.of_nat (base.length (rest msg)).
Proof.
  pose proof (full_spec msg). rewrite length_rest. unfold FIPS.zeros. symmetry.
  case_decide; [apply Z.mod_unique with (- Z.of_nat (full msg))|apply Z.mod_unique with (- Z.of_nat (full msg) - 1)]; lia.
Qed.
Lemma hash_padded msg k : base.length (rest msg ++ padding msg) = (64 * k)%nat →
  FIPS.hash (FIPS.padded msg) = FIPS.blocks k (FIPS.blocks (full msg) FIPS.H0 msg) (rest msg ++ padding msg).
Proof.
  intros Hk. pose proof (full_spec msg). unfold FIPS.hash. change (FIPS.padded msg) with (msg ++ padding msg).
  change (base.length (msg ++ padding msg) / 64)%nat with (full (msg ++ padding msg)).
  rewrite length_app, length_rest in Hk.
  rewrite (full_unique (msg ++ padding msg) (full msg + k)) by (rewrite length_app; lia).
  rewrite blocks_add, blocks_prefix, drop_app_le by lia. done.
Qed.

Lemma clear_app a b d c : buffer c = a ++ b ++ d →
  clear (Z.of_nat (base.length a)) (Z.of_nat (base.length b)) c =
    Ok (Ctx (state c) (bitcount c) (a ++ replicate (base.length b) NUL ++ d)).
Proof. intros Hb. unfold clear. rewrite Nat2Z.id. apply (fill_app a b d); [done|by rewrite length_replicate]. Qed.

(** What [pad] leaves: 56 bytes to which only the length is missing. *)
Record pad_ok (msg : list byte) (bits : Z) (c : SHA256_CTX) : Prop := {
  pad_bits : bitcount c = bits;
  pad_words : words_ok (state c);
  pad_buffer : ∃ head tl, buffer c = head ++ tl ∧ base.length head = 56%nat ∧ base.length tl = 8%nat ∧
    FIPS.block (state c) (FIPS.words_of_block 16 (head ++ FIPS.be_bytes 8 (8 * Z.of_nat (base.length msg)))) =
    FIPS.hash (FIPS.padded msg);
}.

(** The message's rest and the padding fill one block. *)
Lemma pad_short c msg bits tl : absorbed c msg → (base.length (rest msg) < 56)%nat → base.length tl = 8%nat →
  pad_ok msg bits (Ctx (state c) bits
    (rest msg ++ [byte_of_Z 0x80] ++ replicate (55 - base.length (rest msg)) NUL ++ tl)).
Proof.
  intros Hc Hr Htl. split; cbn [bitcount state buffer]; [done|apply Hc|].
  exists (rest msg ++ [byte_of_Z 0x80] ++ replicate (55 - base.length (rest msg)) NUL), tl.
  split_and!; [by rewrite <-!app_assoc|lens|done|].
  rewrite (hash_padded msg 1); unfold padding; rewrite zeros_rest, decide_True by done;
    replace (Z.to_nat (55 - Z.of_nat (base.length (rest msg)))) with (55 - base.length (rest msg))%nat by lia.
  - cbn [FIPS.blocks]. rewrite <-!app_assoc, (ab_state _ _ Hc), take_ge; [done|]. lens.
  - lens.
Qed.
(** They fill two. *)
Lemma pad_long c msg bits tl :
  absorbed c msg → (56 ≤ base.length (rest msg))%nat → base.length tl = 8%nat →
  words_ok (FIPS.block (state c) (FIPS.words_of_block 16
    (rest msg ++ [byte_of_Z 0x80] ++ replicate (63 - base.length (rest msg)) NUL))) →
  pad_ok msg bits (Ctx (FIPS.block (state c) (FIPS.words_of_block 16
    (rest msg ++ [byte_of_Z 0x80] ++ replicate (63 - base.length (rest msg)) NUL))) bits (replicate 56 NUL ++ tl)).
Proof.
  intros Hc Hr Htl Hok. split; cbn [bitcount state buffer]; [done|done|]. exists (replicate 56 NUL), tl.
  split_and!; [done|done|done|]. pose proof (full_spec msg). pose proof (length_rest msg).
  rewrite (hash_padded msg 2); unfold padding; rewrite zeros_rest, decide_False by lia;
    replace (Z.to_nat (119 - Z.of_nat (base.length (rest msg)))) with (63 - base.length (rest msg) + 56)%nat by lia;
    rewrite replicate_add.
  - cbn [FIPS.blocks]. rewrite <-(ab_state _ _ Hc).
    set (b1 := rest msg ++ [byte_of_Z 0x80] ++ replicate (63 - base.length (rest msg)) NUL).
    replace (rest msg ++ _) with (b1 ++ replicate 56 NUL ++ FIPS.be_bytes 8 (8 * Z.of_nat (base.length msg)))
      by (subst b1; by rewrite <-!app_assoc).
    assert (base.length b1 = 64%nat) as Hb1 by (subst b1; lens).
    rewrite take_app_length', drop_app_length' by done. by rewrite take_ge by done.
  - lens.
Qed.

Lemma fill_at c pos n a b d src : buffer c = a ++ b ++ d → pos = Z.of_nat (base.length a) →
  base.length b = n → base.length src = n →
  fill pos src c = Ok (Ctx (state c) (bitcount c) (a ++ src ++ d)).
Proof. intros Hb -> <- Hs. by apply (fill_app a b d). Qed.
Lemma clear_at c pos n a b d : buffer c = a ++ b ++ d → pos = Z.of_nat (base.length a) →
  Z.of_nat (base.length b) = n →
  clear pos n c = Ok (Ctx (state c) (bitcount c) (a ++ replicate (Z.to_nat n) NUL ++ d)).
Proof. intros Hb -> <-. rewrite (clear_app a b d) by done. by rewrite Nat2Z.id. Qed.

(** A zero behind the 0x80 to the end of the block, if there is room. *)
Lemma clear_block a d st bits : (base.length a + 1 + base.length d = 64)%nat →
  (if Z.of_nat (base.length a) + 1 <? 64
   then clear (Z.of_nat (base.length a) + 1) (64 - (Z.of_nat (base.length a) + 1)) (Ctx st bits (a ++ [byte_of_Z 0x80] ++ d))
   else Ok (Ctx st bits (a ++ [byte_of_Z 0x80] ++ d))) =
  Ok (Ctx st bits (a ++ [byte_of_Z 0x80] ++ replicate (63 - base.length a) NUL)).
Proof.
  intros Hl. destruct (Z.ltb_spec (Z.of_nat (base.length a) + 1) 64).
  - rewrite (clear_at _ _ _ (a ++ [byte_of_Z 0x80]) d []) by (rewrite ?app_nil_r, <-?app_assoc; done || lens).
    rewrite app_nil_r, <-app_assoc. cbn [state bitcount]. do 5 f_equal. lia.
  - destruct d; [|cbn [base.length] in Hl; lia]. by replace (63 - base.length a)%nat with 0%nat by lia.
Qed.
Lemma pad_second c msg bits : absorbed c msg → (56 ≤ base.length (rest msg))%nat →
  ∃ c', (c ← SHA256_Transform (Ctx (state c) bits
           (rest msg ++ [byte_of_Z 0x80] ++ replicate (63 - base.length (rest msg)) NUL)) AtBuffer;
         clear 0 56 c) = Ok c' ∧ pad_ok msg bits c'.
Proof.
  intros Hc Hr. pose proof (full_spec msg). pose proof (length_rest msg).
  set (b1 := rest msg ++ [byte_of_Z 0x80] ++ replicate (63 - base.length (rest msg)) NUL).
  assert (base.length b1 = 64%nat) as Hb1 by (subst b1; lens).
  destruct (transform_spec (Ctx (state c) bits b1) AtBuffer b1) as (buf' & Ht & Hb' & Hok);
    [apply Hc|done|done|]. rewrite Ht. ostep. cbn [state bitcount] in *.
  rewrite (clear_at _ 0 56 [] (take 56 buf') (drop 56 buf')) by (cbn [buffer]; rewrite ?take_drop, ?length_take; done || lia).
  eexists. split; [reflexivity|]. apply pad_long; [done|done|rewrite length_drop; lia|exact Hok].
Qed.

Lemma pad_spec c msg bits : absorbed c msg →
  ∃ c', pad (Z.of_nat (base.length (rest msg))) (Ctx (state c) bits (buffer c)) = Ok c' ∧ pad_ok msg bits c'.
Proof.
  intros Hc. destruct (ab_rest _ _ Hc) as [tl Htl]. pose proof (ab_buffer _ _ Hc) as Hb.
  pose proof (full_spec msg) as Hf. pose proof (length_rest msg) as Hlr.
  rewrite Htl, length_app in Hb. set (r := base.length (rest msg)) in *. unfold pad, SHA256_SHORT_BLOCK_LENGTH, SHA256_BLOCK_LENGTH.
  change (64 - 8) with 56.
  assert (∀ k, (k ≤ base.length tl)%nat → tl = take k tl ++ drop k tl) as Hsplit by (intros; by rewrite take_drop).
  destruct (Z.ltb_spec 0 (Z.of_nat r)) as [Hr|Hr].
  - rewrite (fill_at _ _ 1 (rest msg) (take 1 tl) (drop 1 tl)) by (cbn [buffer]; rewrite ?take_drop, ?length_take; done || lia).
    ostep. cbn [state bitcount]. destruct (Z.leb_spec (Z.of_nat r + 1) 56) as [Hs|Hs].
    + rewrite (clear_at _ _ _ (rest msg ++ [byte_of_Z 0x80]) (take (55 - r) (drop 1 tl)) (drop (55 - r) (drop 1 tl)))
        by (cbn [buffer]; rewrite ?take_drop, <-?app_assoc; try done; rewrite ?length_take, ?length_drop; try lens; lia).
      eexists. split; [reflexivity|]. cbn [state bitcount]. rewrite <-app_assoc.
      replace (Z.to_nat (56 - (Z.of_nat r + 1))) with (55 - r)%nat by lia.
      apply pad_short; [done|lia|rewrite !length_drop; lia].
    + rewrite (clear_block (rest msg) (drop 1 tl)) by (rewrite ?length_drop; lia). ostep.
      apply (pad_second c msg bits Hc). lia.
  - assert (rest msg = []) as Hnil by (apply nil_length_inv; lia). rewrite Hnil in Htl. cbn [app] in Htl.
    rewrite (clear_at _ 0 56 [] (take 56 tl) (drop 56 tl)) by (cbn [buffer]; rewrite ?take_drop, ?length_take; done || lia).
    ostep. cbn [state bitcount app].
    rewrite (fill_at _ 0 1 [] [NUL] (replicate 55 NUL ++ drop 56 tl)) by done.
    eexists. split; [reflexivity|]. pose proof (pad_short c msg bits (drop 56 tl) Hc) as Hp. fold r in Hp.
    rewrite Hnil in Hp. replace (55 - r)%nat with 55%nat in Hp by lia. apply Hp; [lia|rewrite length_drop; lia].
Qed.

Lemma blocks_words_ok n : ∀ H msg, words_ok H → words_ok (FIPS.blocks n H msg).
Proof.
  induction n as [|n IH]; intros H msg Hok; [done|]. cbn [FIPS.blocks]. apply IH.
  unfold FIPS.block, words_ok, list_of_words. repeat (apply list.Forall_cons; split; [apply w32_u32|]). constructor.
Qed.
Lemma hash_words_ok msg : words_ok (FIPS.hash msg).
Proof. apply blocks_words_ok. unfold words_ok. apply (bool_decide_unpack _). by vm_compute. Qed.

Lemma final_spec c msg d : absorbed c msg → base.length d = 32%nat →
  SHA256_Final (Some d) c = Ok (Some (FIPS.SHA256 msg), bzero_ctx).
Proof.
  intros Hc Hd. unfold SHA256_Final. cbv zeta. rewrite (usedspace_absorbed c msg Hc).
  destruct (pad_spec c msg (REVERSE64 (bitcount c)) Hc) as (c1 & Hrun & [Hbits Hw (head & tl & Hb & Hh & Ht & Hhash)]).
  rewrite Hrun. ostep. rewrite Hbits, le_bytes_REVERSE64 by (rewrite (ab_count _ _ Hc); apply u64_range).
  assert (FIPS.be_bytes 8 (bitcount c) = FIPS.be_bytes 8 (8 * Z.of_nat (base.length msg))) as ->.
  { rewrite (ab_count _ _ Hc). unfold FIPS.be_bytes. f_equal.
    rewrite <-(le_bytes_le_Z (le_bytes 8 (8 * _))), le_Z_le_bytes, length_le_bytes. done. }
  rewrite (fill_at _ _ 8 head tl []) by (rewrite ?app_nil_r; try done; unfold SHA256_SHORT_BLOCK_LENGTH, SHA256_BLOCK_LENGTH; lia).
  ostep. rewrite app_nil_r.
  destruct (transform_spec (Ctx (state c1) (bitcount c1) (head ++ FIPS.be_bytes 8 (8 * Z.of_nat (base.length msg))))
    AtBuffer (head ++ FIPS.be_bytes 8 (8 * Z.of_nat (base.length msg)))) as (buf' & Htr & _ & _);
    [done|cbn [buffer]; lens|split; [lens|done]|].
  rewrite Htr. ostep. cbn [state] in *. rewrite Hhash.
  pose proof (put_digest_spec (list_of_words (FIPS.hash (FIPS.padded msg))) [] d ltac:(cbn; lia) (hash_words_ok _)) as Hp.
  cbn [app base.length] in Hp. change (Z.of_nat 0) with 0 in Hp. rewrite Hp. done.
Qed.

(** ** The properties *)

Lemma updates_spec chunks : ∀ c msg, absorbed c msg →
  ∃ c', SHA256_Updates c chunks = Ok c' ∧ absorbed c' (msg ++ List.concat chunks).
Proof.
  induction chunks as [|data chunks IH]; intros c msg Hc; cbn [SHA256_Updates List.concat].
  - rewrite app_nil_r. by exists c.
  - destruct (update_spec c msg data Hc) as (c1 & -> & Hc1). ostep. rewrite app_assoc. by apply IH.
Qed.

(** C13: however a message is cut into the pieces of [SHA256_Update] -- empty
    ones, ones that end inside a block, many blocks at once -- [SHA256_Final]
    writes the digest that FIPS 180-4 defines for the whole message, wipes
    the context, and no access to the buffer leaves its 64 bytes. *)
Theorem sha256_streaming chunks d : base.length d = 32%nat →
  (c ← SHA256_Updates SHA256_Init chunks; SHA256_Final (Some d) c) =
    Ok (Some (FIPS.SHA256 (List.concat chunks)), bzero_ctx).
Proof.
  intros Hd. destruct (updates_spec chunks SHA256_Init [] absorbed_init) as (c & -> & Hc). ostep.
  by apply final_spec.
Qed.
Lemma sha256_streaming_witness :
  base.length (replicate 32 NUL) = 32%nat ∧
  (c ← SHA256_Updates SHA256_Init [map byte_of_Z [97; 98]; []; map byte_of_Z [99]];
   SHA256_Final (Some (replicate 32 NUL)) c) =
  Ok (Some (map byte_of_Z
    [0xba; 0x78; 0x16; 0xbf; 0x8f; 0x01; 0xcf; 0xea; 0x41; 0x41; 0x40; 0xde; 0x5d; 0xae; 0x22; 0x23;
     0xb0; 0x03; 0x61; 0xa3; 0x96; 0x17; 0x7a; 0x9c; 0xb4; 0x10; 0xff; 0x61; 0xf2; 0x00; 0x15; 0xad]), bzero_ctx).
Proof.
  split; [reflexivity|]. rewrite sha256_streaming by reflexivity.
  vm_compute. reflexivity.
Defined.

(** *** Any context

    The operations do not depend on what the memory of a context held before
    it was initialised: on any state, counter and buffer of the right widths
    they stay inside the buffer and give a context of the same widths. *)
Record ctx_ok (c : SHA256_CTX) : Prop := {
  ok_buffer : base.length (buffer c) = 64%nat;
  ok_words : words_ok (state c);
  ok_bits : 0 ≤ bitcount c < 2 ^ 64;
}.

Lemma usedspace_range c : 0 ≤ usedspace_of c < 64.
Proof. apply Z.mod_pos_bound. done. Qed.
Lemma count_ok n c : ctx_ok c → ctx_ok (count n c).
Proof. intros Hc. split; [apply Hc|apply Hc|apply u64_range]. Qed.
Lemma fill_ok pos src c : ctx_ok c → 0 ≤ pos → pos + Z.of_nat (base.length src) ≤ 64 →
  ∃ c', fill pos src c = Ok c' ∧ ctx_ok c'.
Proof.
  intros Hc Hp Hl. pose proof (ok_buffer _ Hc) as Hb. unfold fill, write_at.
  rewrite bool_decide_true by (rewrite Hb; lia). ostep. eexists. split; [reflexivity|].
  split; [|apply Hc|apply Hc]. cbn [buffer]. rewrite !length_app, length_take, length_drop. lia.
Qed.
Lemma clear_ok pos n c : ctx_ok c → 0 ≤ pos → 0 ≤ n → pos + n ≤ 64 → ∃ c', clear pos n c = Ok c' ∧ ctx_ok c'.
Proof. intros. apply fill_ok; [done|done|]. rewrite length_replicate. lia. Qed.
Lemma transform_ok c data : ctx_ok c → (match data with AtBuffer => True | AtData l => (64 ≤ base.length l)%nat end) →
  ∃ c', SHA256_Transform c data = Ok c' ∧ ctx_ok c'.
Proof.
  intros Hc Hd. pose proof (ok_buffer _ Hc) as Hb.
  assert (∃ blk, block_at data (buffer c) blk) as [blk Hblk].
  { destruct data as [|l]; [by exists (buffer c)|]. exists (take 64 l). split; [rewrite length_take; lia|done]. }
  destruct (transform_spec c data blk (ok_words _ Hc) Hb Hblk) as (buf' & -> & Hb' & Hok).
  eexists. split; [reflexivity|]. split; [done|done|apply Hc].
Qed.

Lemma update_rest_ok c data : ctx_ok c → ∃ c', update_rest c data = Ok c' ∧ ctx_ok c'.
Proof.
  intros Hc. assert (∀ n c l, ctx_ok c → (base.length l < 64 * n + 64)%nat →
    ∃ c' tail, update_blocks n c l = Ok (c', tail) ∧ ctx_ok c' ∧ (base.length tail < 64)%nat) as Hblocks.
  { intros n. induction n as [|n IH]; intros c0 l H0 Hn; cbn [update_blocks]; unfold SHA256_BLOCK_LENGTH.
    - rewrite (proj2 (Z.ltb_lt _ _)) by lia. eauto with lia.
    - destruct (Z.ltb_spec (Z.of_nat (base.length l)) 64); [eauto with lia|].
      destruct (transform_ok c0 (AtData l) H0) as (c1 & -> & H1); [lia|]. ostep.
      apply IH; [by apply count_ok|rewrite length_drop; lia]. }
  unfold update_rest. destruct (Hblocks (S (base.length data)) c data Hc) as (c1 & tail & -> & H1 & Hl); [lia|]. ostep.
  destruct (Z.ltb_spec 0 (Z.of_nat (base.length tail))); [|by eexists].
  destruct (fill_ok 0 tail c1 H1) as (c2 & -> & H2); [lia|lia|]. ostep. eexists. split; [done|]. by apply count_ok.
Qed.
Lemma update_ok c data : ctx_ok c → ∃ c', SHA256_Update c data = Ok c' ∧ ctx_ok c'.
Proof.
  intros Hc. unfold SHA256_Update. cbv zeta. case_match; [by eexists|]. unfold SHA256_BLOCK_LENGTH.
  pose proof (usedspace_range c) as Hu.
  destruct (Z.ltb_spec 0 (usedspace_of c)); cbn [andb]; [|ostep; by apply update_rest_ok].
  destruct (Z.ltb_spec (Z.of_nat (base.length data)) (64 - usedspace_of c)).
  - destruct (fill_ok (usedspace_of c) data c Hc) as (c1 & -> & Hc1); [lia|lia|]. ostep.
    eexists. split; [done|]. by apply count_ok.
  - destruct (fill_ok (usedspace_of c) (take (Z.to_nat (64 - usedspace_of c)) data) c Hc) as (c1 & -> & Hc1);
      [lia|rewrite length_take; lia|]. ostep.
    destruct (transform_ok (count (64 - usedspace_of c) c1) AtBuffer) as (c2 & -> & Hc2); [by apply count_ok|done|]. ostep.
    by apply update_rest_ok.
Qed.
Lemma pad_any u c : ctx_ok c → 0 ≤ u < 64 → ∃ c', pad u c = Ok c' ∧ ctx_ok c'.
Proof.
  intros Hc Hu. unfold pad. change SHA256_SHORT_BLOCK_LENGTH with 56. change SHA256_BLOCK_LENGTH with 64.
  destruct (Z.ltb_spec 0 u).
  - destruct (fill_ok u [byte_of_Z 0x80] c Hc) as (c1 & -> & Hc1); [lia|cbn; lia|]. ostep.
    destruct (Z.leb_spec (u + 1) 56); [apply clear_ok; lia || done|].
    assert (∃ c2, (if u + 1 <? 64 then clear (u + 1) (64 - (u + 1)) c1 else Ok c1) = Ok c2 ∧ ctx_ok c2)
      as (c2 & -> & Hc2) by (destruct (Z.ltb_spec (u + 1) 64); [apply clear_ok; lia || done|by eexists]). ostep.
    destruct (transform_ok c2 AtBuffer Hc2 I) as (c3 & -> & Hc3). ostep. apply clear_ok; lia || done.
  - destruct (clear_ok 0 56 c Hc) as (c1 & -> & Hc1); [lia..|]. ostep. apply fill_ok; [done|lia|cbn; lia].
Qed.
Lemma REVERSE64_range x : 0 ≤ x < 2 ^ 64 → 0 ≤ REVERSE64 x < 2 ^ 64.
Proof.
  intros Hx. assert (x = le_Z (le_bytes 8 x)) as -> by (rewrite le_Z_le_bytes, Z.mod_small; done).
  rewrite REVERSE64_le_Z by apply length_le_bytes. unfold FIPS.be_Z.
  pose proof (le_Z_range (rev (le_bytes 8 x))) as H. by rewrite length_rev, length_le_bytes in H.
Qed.
Lemma put_digest_any ws : ∀ d pos, 0 ≤ pos → pos + 4 * Z.of_nat (base.length ws) ≤ Z.of_nat (base.length d) →
  ∃ d', put_digest d pos ws = Ok d' ∧ base.length d' = base.length d.
Proof.
  induction ws as [|w ws IH]; intros d pos Hp Hl; [by eexists|]. cbn [put_digest base.length] in *.
  unfold write_at. rewrite length_le_bytes, bool_decide_true by lia. ostep.
  match goal with |- context [put_digest ?l _ _] => assert (base.length l = base.length d) as Hlen
    by (rewrite !length_app, length_take, length_drop, length_le_bytes; lia) end.
  destruct (IH _ (pos + 4) ltac:(lia) ltac:(rewrite Hlen; lia)) as (d' & Hrun & Hd').
  exists d'. rewrite Hd', Hlen. split; [exact Hrun|done].
Qed.

(** C36: on any context whose fields have their widths -- eight 32-bit words,
    64 bytes, a 64-bit counter -- [SHA256_Update] terminates inside the buffer
    for any data and gives such a context again, and [SHA256_Final] fills any
    digest buffer of 32 bytes and clears the context. *)
Theorem sha256_ctx_type c : ctx_ok c →
  (∀ data, ∃ c', SHA256_Update c data = Ok c' ∧ ctx_ok c') ∧
  (∀ d, base.length d = 32%nat →
     ∃ d', SHA256_Final (Some d) c = Ok (Some d', bzero_ctx) ∧ base.length d' = 32%nat).
Proof.
  intros Hc. split; [intros data; by apply update_ok|]. intros d Hd. unfold SHA256_Final. cbv zeta.
  assert (ctx_ok (Ctx (state c) (REVERSE64 (bitcount c)) (buffer c))) as H0
    by (split; [apply Hc|apply Hc|apply REVERSE64_range, Hc]).
  destruct (pad_any (usedspace_of c) _ H0 (usedspace_range c)) as (c1 & -> & H1). ostep.
  destruct (fill_ok SHA256_SHORT_BLOCK_LENGTH (le_bytes 8 (bitcount c1)) c1 H1) as (c2 & -> & H2); [done..|]. ostep.
  destruct (transform_ok c2 AtBuffer H2 I) as (c3 & -> & _). ostep.
  destruct (put_digest_any (list_of_words (state c3)) d 0) as (d' & -> & Hd'); [lia|cbn; lia|]. ostep.
  exists d'. split; [done|lia].
Qed.
Lemma sha256_ctx_type_witness :
  ctx_ok (Ctx (words_of_list [1; 2; 3]) 0x1f8 (replicate 64 (byte_of_Z 0xa5))) ∧
  ∃ d', SHA256_Final (Some (replicate 32 NUL)) (Ctx (words_of_list [1; 2; 3]) 0x1f8 (replicate 64 (byte_of_Z 0xa5))) =
    Ok (Some d', bzero_ctx) ∧ base.length d' = 32%nat.
Proof.
  assert (ctx_ok (Ctx (words_of_list [1; 2; 3]) 0x1f8 (replicate 64 (byte_of_Z 0xa5)))) as H.
  { split; [reflexivity| |done]. unfold words_ok. apply (bool_decide_unpack _). by vm_compute. }
  split; [exact H|]. apply (sha256_ctx_type _ H). reflexivity.
Defined.

(** *** SHA256_End and SHA256_Data *)
Definition hex_char (k : Z) : byte := byte_of_Z (if k <? 10 then 48 + k else 87 + k).
Definition hex (d : byte) : list byte := [hex_char (Z_of_byte d / 16); hex_char (Z_of_byte d mod 16)].

Definition hex_at_is (i : Z) (b : byte) : bool := match hex_at i with Ok c => bool_decide (c = b) | _ => false end.
Lemma hex_at_is_true i b : hex_at_is i b = true → hex_at i = Ok b.
Proof. unfold hex_at_is. destruct (hex_at i); [|done]. by intros ->%bool_decide_eq_true. Qed.
Lemma hex_at_char d :
  hex_at (Z.shiftr (Z.land (Z_of_byte d) 0xf0) 4) = Ok (hex_char (Z_of_byte d / 16)) ∧
  hex_at (Z.land (Z_of_byte d) 0x0f) = Ok (hex_char (Z_of_byte d mod 16)).
Proof.
  pose proof (Z_of_byte_range d).
  split; apply hex_at_is_true.
  - apply (forall_below (fun k => hex_at_is (Z.shiftr (Z.land k 0xf0) 4) (hex_char (k / 16))) 0 256); [by vm_compute|lia].
  - apply (forall_below (fun k => hex_at_is (Z.land k 0x0f) (hex_char (k mod 16))) 0 256); [by vm_compute|lia].
Qed.
Lemma hex_loop_spec digest : ∀ a b, base.length b = (2 * base.length digest)%nat → ∀ c,
  hex_loop digest (a ++ b ++ c) (Z.of_nat (base.length a)) =
    Ok (a ++ List.concat (map hex digest) ++ c, Z.of_nat (base.length a) + 2 * Z.of_nat (base.length digest)).
Proof.
  induction digest as [|d digest IH]; intros a b Hb c.
  - destruct b; [|cbn [base.length] in Hb; lia]. cbn [hex_loop map List.concat app base.length].
    by rewrite Z.mul_0_r, Z.add_0_r.
  - destruct b as [|b0 [|b1 b]]; cbn [base.length] in Hb; try lia. destruct (hex_at_char d) as [Hhi Hlo].
    pose proof (write_at_app a [b0] (b1 :: b ++ c) [hex_char (Z_of_byte d / 16)] eq_refl) as Hw0.
    cbn [hex_loop app] in *. rewrite Hhi. ostep. rewrite Hw0. ostep.
    rewrite Hlo. ostep. cbn [app].
    pose proof (write_at_app (a ++ [hex_char (Z_of_byte d / 16)]) [b1] (b ++ c) [hex_char (Z_of_byte d mod 16)] eq_refl) as Hw.
    rewrite length_app, Nat2Z.inj_add, <-!app_assoc in Hw. cbn [app base.length] in Hw.
    change (Z.of_nat 1) with 1 in Hw. rewrite Hw. ostep.
    specialize (IH (a ++ hex d) b ltac:(lia) c). rewrite length_app, Nat2Z.inj_add, <-!app_assoc in IH.
    change (Z.of_nat (base.length (hex d))) with 2 in IH. cbn [app hex] in IH. rewrite IH.
    cbn [map List.concat base.length]. rewrite <-!app_assoc. do 2 f_equal. lia.
Qed.
Lemma length_SHA256 msg : base.length (FIPS.SHA256 msg) = 32%nat.
Proof.
  unfold FIPS.SHA256. generalize (FIPS.hash (FIPS.padded msg)). intros [a b c d e f g h].
  unfold list_of_words. cbn [map List.concat wa wb wc wd we wf wg wh]. by rewrite !length_app, !length_be_bytes.
Qed.

(** [SHA256_Data] writes the digest of its data as 64 hexadecimal digits with
    a terminating NUL; the pointer that it returns is that of the NUL, not of
    the string. *)
Theorem sha256_data_string data buf : base.length buf = 65%nat →
  SHA256_Data data (Some buf) = Ok (Some (List.concat (map hex (FIPS.SHA256 data)) ++ [NUL], 64)).
Proof.
  intros Hb. unfold SHA256_Data. destruct (update_spec SHA256_Init [] data absorbed_init) as (c & -> & Hc). ostep.
  unfold SHA256_End. rewrite (outcome_bind_step _ _ _ (final_spec c data (replicate 32 NUL) Hc eq_refl)).
  cbn [from_option id]. pose proof (hex_loop_spec (FIPS.SHA256 data) [] (take 64 buf)) as Hx.
  rewrite length_SHA256, length_take in Hx. specialize (Hx ltac:(lia) (drop 64 buf)).
  cbn [app base.length] in Hx. rewrite take_drop in Hx. change (Z.of_nat 0 + 2 * Z.of_nat 32) with 64 in Hx.
  change (Z.of_nat 0) with 0 in Hx. rewrite (outcome_bind_step _ _ _ Hx).
  assert (base.length (List.concat (map hex (FIPS.SHA256 data))) = 64%nat) as Hl.
  { pose proof (length_SHA256 data) as H. revert H. generalize (FIPS.SHA256 data). intros l H.
    assert (base.length (List.concat (map hex l)) = (2 * base.length l)%nat) as ->; [|lia].
    clear. induction l as [|d l IH]; [done|]. cbn [map List.concat base.length]. rewrite length_app, IH. cbn. lia. }
  pose proof (write_at_app (List.concat (map hex (FIPS.SHA256 data))) (drop 64 buf) [] [NUL]) as Hw.
  rewrite Hl, app_nil_r in Hw. cbn [app] in Hw. change (Z.of_nat 64) with 64 in Hw.
  rewrite Hw by (rewrite length_drop; cbn [base.length]; lia). ostep. by generalize (FIPS.SHA256 data).
Qed.
