(* ===== verification/Sha2Unrolled.v ===== *)
(** * SHA-256: the unrolled compression (sha2.c, SHA2_UNROLL_TRANSFORM)

    The variant of [SHA256_Transform] that the library can be compiled with:
    the rounds are macros whose arguments rotate instead of the registers.  It
    is the same function as the one in [Sha2], with the same errors. *)

From S2P Require Import Prelude Sha2.

(** A use of a macro assigns to its [d] and [h] and to the buffer. *)
Definition macro : Type :=
  Z → Z → Z → Z → Z → Z → Z → Z → Z → list byte → outcome (Z * Z * list byte).

Definition ROUND256_0_TO_15 (data : data_ptr) : macro := fun j a b c d e f g h buf =>
  w ← data_word data buf j;
  buf ← store32 buf j (REVERSE32 w);
  k ← K256_at j;
  w ← load32 buf j;
  let T1 := h +w Sigma1_256 e +w Ch e f g +w k +w w in
  Ok (d +w T1, T1 +w Sigma0_256 a +w Maj a b c, buf).
Definition ROUND256 : macro := fun j a b c d e f g h buf =>
  s0 ← load32 buf (Z.land (j + 1) 0x0f);
  s1 ← load32 buf (Z.land (j + 14) 0x0f);
  w9 ← load32 buf (Z.land (j + 9) 0x0f);
  w ← load32 buf (Z.land j 0x0f);
  let w := w +w (sigma1_256 s1 +w w9 +w sigma0_256 s0) in
  buf ← store32 buf (Z.land j 0x0f) w;
  k ← K256_at j;
  let T1 := h +w Sigma1_256 e +w Ch e f g +w k +w w in
  Ok (d +w T1, T1 +w Sigma0_256 a +w Maj a b c, buf).

(** The body of both [do] loops. *)
Definition eight (R : macro) (j : Z) (s : words) (buf : list byte) : outcome (words * list byte) :=
  let '(Words a b c d e f g h) := s in
  '(d, h, buf) ← R j a b c d e f g h buf;
  '(c, g, buf) ← R (j + 1) h a b c d e f g buf;
  '(b, f, buf) ← R (j + 2) g h a b c d e f buf;
  '(a, e, buf) ← R (j + 3) f g h a b c d e buf;
  '(h, d, buf) ← R (j + 4) e f g h a b c d buf;
  '(g, c, buf) ← R (j + 5) d e f g h a b c buf;
  '(f, b, buf) ← R (j + 6) c d e f g h a b buf;
  '(e, a, buf) ← R (j + 7) b c d e f g h a buf;
  Ok (Words a b c d e f g h, buf).
Fixpoint eights (n : nat) (R : macro) (j : Z) (s : words) (buf : list byte) : outcome (words * list byte) :=
  match n with
  | O => Ok (s, buf)
  | S n => '(s, buf) ← eight R j s buf; eights n R (j + 8) s buf
  end.

Definition SHA256_Transform_unrolled (context : SHA256_CTX) (data : data_ptr) : outcome SHA256_CTX :=
  '(s, buf) ← eights 2 (ROUND256_0_TO_15 data) 0 (state context) (buffer context);
  '(s, buf) ← eights 6 ROUND256 16 s buf;
  Ok (Ctx (add_words (state context) s) (bitcount context) buf).

(** ** Equivalence *)

(** A round of the rolled loops, by the macro that rotates nothing. *)
Definition by_macro (step : Z → words → list byte → outcome (words * list byte)) (R : macro) : Prop :=
  ∀ j a b c d e f g h buf, step j (Words a b c d e f g h) buf =
    '(d, h, buf) ← R j a b c d e f g h buf; Ok (Words h a b c d e f g, buf).
Lemma add32_assoc_word a b c : a +w b +w c = a +w (b +w c).
Proof. unfold add32, u32. rewrite Zplus_mod_idemp_l, Zplus_mod_idemp_r. f_equal. lia. Qed.
Lemma load_round_macro data : by_macro (load_round data) (ROUND256_0_TO_15 data).
Proof.
  intros j a b c d e f g h buf. unfold load_round, ROUND256_0_TO_15.
  destruct (data_word data buf j) as [w|]; [|done]. ostep. destruct (store32 buf j _) as [buf'|]; [|done]. ostep.
  destruct (K256_at j) as [k|]; [|done]. ostep. destruct (load32 buf' j) as [w'|]; [|done]. ostep.
  unfold round. cbn [wa wb wc wd we wf wg wh]. by rewrite (add32_assoc_word _ (Sigma0_256 a)).
Qed.
Lemma mix_round_macro : by_macro mix_round ROUND256.
Proof.
  intros j a b c d e f g h buf. unfold mix_round, ROUND256.
  destruct (load32 buf (Z.land (j + 1) 0x0f)) as [s0|]; [|done]. ostep.
  destruct (load32 buf (Z.land (j + 14) 0x0f)) as [s1|]; [|done]. ostep.
  destruct (load32 buf (Z.land (j + 9) 0x0f)) as [w9|]; [|done]. ostep.
  destruct (load32 buf (Z.land j 0x0f)) as [w|]; [|done]. ostep.
  destruct (store32 buf _ _) as [buf'|]; [|done]. ostep. destruct (K256_at j) as [k|]; [|done]. ostep.
  unfold round. cbn [wa wb wc wd we wf wg wh]. by rewrite (add32_assoc_word _ (Sigma0_256 a)).
Qed.

Section Unroll.
Context (step : Z → words → list byte → outcome (words * list byte)) (R : macro).
Hypothesis Hstep : by_macro step R.
Lemma eight_rounds j s buf : rounds 8 step j s buf = eight R j s buf.
Proof using Hstep.
  destruct s as [a b c d e f g h]. unfold eight. cbn [rounds].
  replace (j + 2) with (j + 1 + 1) by lia. replace (j + 3) with (j + 1 + 1 + 1) by lia.
  replace (j + 4) with (j + 1 + 1 + 1 + 1) by lia. replace (j + 5) with (j + 1 + 1 + 1 + 1 + 1) by lia.
  replace (j + 6) with (j + 1 + 1 + 1 + 1 + 1 + 1) by lia. replace (j + 7) with (j + 1 + 1 + 1 + 1 + 1 + 1 + 1) by lia.
  do 8 (rewrite Hstep; match goal with |- context [R ?i ?a ?b ?c ?d ?e ?f ?g ?h ?l] =>
    destruct (R i a b c d e f g h l) as [[[? ?] ?]|]; [|done] end; ostep).
  done.
Qed.
Lemma eights_rounds n : ∀ j s buf, rounds (8 * n) step j s buf = eights n R j s buf.
Proof using Hstep.
  induction n as [|n IH]; intros j s buf; [done|]. replace (8 * S n)%nat with (8 + 8 * n)%nat by lia.
  cbn [eights]. rewrite <-eight_rounds.
  assert (∀ m k i t l, rounds (m + k) step i t l = '(t, l) ← rounds m step i t l; rounds k step (i + Z.of_nat m) t l) as Hadd.
  { induction m as [|m IHm]; intros k i t l; cbn [rounds Nat.add].
    - ostep. f_equal. lia.
    - destruct (step i t l) as [[t' l']|]; [|done]. ostep. rewrite IHm. destruct (rounds m step (i + 1) t' l') as [[t2 l2]|]; [|done].
      ostep. f_equal. lia. }
  rewrite Hadd. destruct (rounds 8 step j s buf) as [[t l]|]; [|done]. ostep. by rewrite IH.
Qed.
End Unroll.

(** The unrolled compression is the rolled one, on every context and all data,
    errors included. *)
Theorem transform_unrolled context data : SHA256_Transform_unrolled context data = SHA256_Transform context data.
Proof.
  unfold SHA256_Transform_unrolled, SHA256_Transform.
  rewrite <-(eights_rounds _ _ (load_round_macro data)). change (8 * 2)%nat with 16%nat.
  destruct (rounds 16 (load_round data) 0 (state context) (buffer context)) as [[s buf]|]; [|done]. ostep.
  rewrite <-(eights_rounds _ _ mix_round_macro). done.
Qed.
