(* ===== verification/Otypes.v ===== *)
(** * Directory objects of oglfs (oglfs/otypes.h, ogl_dir::dump and load)

    The bytes of a [dir_object]: a header, one [dentry] per name, one hash code
    per name, and the names, each with its NUL.  [fill_dir_object] writes them
    the way [ogl_dir::dump] does, [read_dir_object] reads them the way
    [ogl_dir::load] does. *)

From S2P Require Import Prelude.
From Stdlib Require Import Strings.String.

Definition MAGIC : Z := 0x091f.
Inductive object_type := OBJ_INVALID | OBJ_DIR | OBJ_SUPER_DIR | OBJ_SYMLINK.
Definition object_type_Z (t : object_type) : Z :=
  match t with OBJ_INVALID => 0 | OBJ_DIR => 1 | OBJ_SUPER_DIR => 2 | OBJ_SYMLINK => 3 end.

Definition ENT_NONEXISTENT : Z := 0.
Definition ENT_FILE : Z := 1.
Definition ENT_DIR : Z := 2.
Definition ENT_SYMLINK : Z := 3.
Definition ENT_LOCAL : Z := 4.
Definition USER_MASK : Z := 0x200.    (** 01000 *)
Definition GROUP_MASK : Z := 0x400.   (** 02000 *)

Definition sizeof_object : Z := 6.
Definition sizeof_dir_object : Z := 12.
Definition sizeof_dentry : Z := 4.
Definition sizeof_uint64 : Z := 8.

(** A [uint16_t] field. *)
Definition le16 (z : Z) : list byte := le_bytes 2 z.

Record dir_record := DirRecord {
  rec_name : string;
  rec_mode : Z;       (** [dentry::mode]: type, owner bits and permissions *)
  rec_hash : Z;
}.

Definition name_bytes (n : string) : list byte := list_byte_of_string n ++ [NUL].

(** [str_total] *)
Definition names_size (recs : list dir_record) : Z :=
  Z.of_nat (sum_list_with (fun r => S (String.length (rec_name r))) recs).
Definition dir_hash_offset (recs : list dir_record) : Z :=
  sizeof_dir_object + sizeof_dentry * Z.of_nat (base.length recs).
Definition dir_str_offset (recs : list dir_record) : Z :=
  dir_hash_offset recs + sizeof_uint64 * Z.of_nat (base.length recs).
Definition dir_objsize (recs : list dir_record) : Z := dir_str_offset recs + names_size recs.

(** The fields of the header; all are [uint16_t]. *)
Definition dir_header (size ent_num hash_offset str_offset : Z) : list byte :=
  le16 MAGIC ++ le16 (object_type_Z OBJ_DIR) ++ le16 size ++ le16 ent_num ++
  le16 hash_offset ++ le16 str_offset.

(** The loop over [names]: [strptr] as an offset. *)
Fixpoint fill_entries (hash_offset ndx strptr : Z) (recs : list dir_record) (buf : list byte)
    : outcome (list byte) :=
  match recs with
  | [] => Ok buf
  | r :: recs =>
      let entobj := sizeof_dir_object + sizeof_dentry * ndx in
      buf ← write_at buf (entobj + 2) (le16 strptr);
      buf ← write_at buf strptr (name_bytes (rec_name r));
      buf ← write_at buf entobj (le16 (rec_mode r));
      buf ← write_at buf (hash_offset + sizeof_uint64 * ndx) (le_bytes 8 (rec_hash r));
      fill_entries hash_offset (ndx + 1)
        (strptr + Z.of_nat (String.length (rec_name r)) + 1) recs buf
  end.

(** [new char[objsize]], cleared and filled. *)
Definition fill_dir_object (recs : list dir_record) : outcome (list byte) :=
  let objsize := dir_objsize recs in
  buf ← write_at (replicate (Z.to_nat objsize) NUL) 0
    (dir_header objsize (Z.of_nat (base.length recs)) (dir_hash_offset recs) (dir_str_offset recs));
  fill_entries (dir_hash_offset recs) 0 (dir_str_offset recs) recs buf.

(** *** Reading an object *)
Definition read16 (buf : list byte) (off : Z) : outcome Z := le_Z <$> read_at buf off 2.
Definition obj_magic (buf : list byte) : outcome Z := read16 buf 0.
Definition obj_type (buf : list byte) : outcome Z := read16 buf 2.
Definition obj_size (buf : list byte) : outcome Z := read16 buf 4.
Definition ent_num (buf : list byte) : outcome Z := read16 buf 6.

(** A C string in the object. *)
Definition string_at (buf : list byte) (off : Z) : outcome string :=
  let s := drop (Z.to_nat off) buf in
  if bool_decide (NUL ∈ s) then Ok (string_of_list_byte (take (Z.to_nat (strlen s)) s))
  else Fault (Undefined "string without end").

Definition get_name (buf : list byte) (endx : Z) : outcome string :=
  n ← ent_num buf;
  cassert (endx <? n) "endx < ent_num" ;;
  off ← read16 buf (sizeof_dir_object + sizeof_dentry * endx + 2);
  string_at buf off.
Definition get_hash (buf : list byte) (endx : Z) : outcome Z :=
  n ← ent_num buf;
  cassert (endx <? n) "endx < ent_num" ;;
  off ← read16 buf 8;
  le_Z <$> read_at buf (off + sizeof_uint64 * endx) 8.

(** What the loop of [ogl_dir::load] takes from an entry: the name, the type
    (of the mode field, the upper four bits only) and the hash code. *)
Record loaded_entry := LoadedEntry { ent_name : string; ent_type : Z; ent_hash : Z }.
Definition mode_type (mode : Z) : Z := Z.land (Z.shiftr mode 12) 0xf.
(** The entries from [i] on. *)
Fixpoint read_entries (n : nat) (i : Z) (buf : list byte) : outcome (list loaded_entry) :=
  match n with
  | O => Ok []
  | S n =>
      mode ← read16 buf (sizeof_dir_object + sizeof_dentry * i);
      name ← get_name buf i;
      hash ← get_hash buf i;
      recs ← read_entries n (i + 1) buf;
      Ok (LoadedEntry name (mode_type mode) hash :: recs)
  end.
Definition read_dir_object (buf : list byte) : outcome (list loaded_entry) :=
  n ← ent_num buf; read_entries (Z.to_nat n) 0 buf.

(** ** The bytes of an object *)
Definition dentry_bytes (strptr : Z) (r : dir_record) : list byte := le16 (rec_mode r) ++ le16 strptr.
Fixpoint dentries (strptr : Z) (recs : list dir_record) : list byte :=
  match recs with
  | [] => []
  | r :: recs =>
      dentry_bytes strptr r ++ dentries (strptr + Z.of_nat (String.length (rec_name r)) + 1) recs
  end.
Definition hashes (recs : list dir_record) : list byte := List.concat (map (fun r => le_bytes 8 (rec_hash r)) recs).
Definition names (recs : list dir_record) : list byte := List.concat (map (fun r => name_bytes (rec_name r)) recs).
(** What is left of a record when it is loaded. *)
Definition loaded_of (r : dir_record) : loaded_entry := LoadedEntry (rec_name r) (mode_type (rec_mode r)) (rec_hash r).
Definition dir_object (recs : list dir_record) : list byte :=
  dir_header (dir_objsize recs) (Z.of_nat (base.length recs)) (dir_hash_offset recs)
    (dir_str_offset recs) ++
  dentries (dir_str_offset recs) recs ++ hashes recs ++ names recs.

Lemma length_list_byte_of_string s : base.length (list_byte_of_string s) = String.length s.
Proof.
  unfold list_byte_of_string. rewrite length_map. induction s as [|c s IH]; [done|].
  cbn. by rewrite IH.
Qed.
Lemma length_name_bytes n : base.length (name_bytes n) = S (String.length n).
Proof. unfold name_bytes. rewrite length_app, length_list_byte_of_string. simpl. lia. Qed.
Lemma length_dentries recs : ∀ p, base.length (dentries p recs) = (4 * base.length recs)%nat.
Proof.
  induction recs as [|r recs IH]; intros p; [done|]. cbn [dentries base.length].
  unfold dentry_bytes, le16. rewrite !length_app, !length_le_bytes, IH. lia.
Qed.
Lemma length_hashes recs : base.length (hashes recs) = (8 * base.length recs)%nat.
Proof.
  unfold hashes. induction recs as [|r recs IH]; [done|]. cbn [map List.concat base.length].
  rewrite length_app, length_le_bytes, IH. lia.
Qed.
Lemma length_names recs : Z.of_nat (base.length (names recs)) = names_size recs.
Proof.
  unfold names, names_size. f_equal. induction recs as [|r recs IH]; [done|].
  cbn [map List.concat sum_list_with]. by rewrite length_app, length_name_bytes, IH.
Qed.

(** *** The object that dump builds *)
Definition zeros (n : nat) : list byte := replicate n NUL.
Lemma length_zeros n : base.length (zeros n) = n.
Proof. apply length_replicate. Qed.
Lemma zeros_add n m : zeros (n + m) = zeros n ++ zeros m.
Proof. apply replicate_add. Qed.

(** [write_at] in the middle of a buffer, up to the way it is written. *)
Lemma write_at_mid {A} (buf a b c src : list A) p :
  buf = a ++ b ++ c → p = Z.of_nat (base.length a) → base.length b = base.length src →
  write_at buf p src = Ok (a ++ src ++ c).
Proof. intros -> -> H. by apply write_at_app. Qed.

Ltac lens := unfold dentry_bytes, le16 in *; rewrite ?length_app, ?length_le_bytes, ?length_zeros, ?length_name_bytes,
  ?length_dentries, ?length_hashes in *; unfold sizeof_dir_object, sizeof_dentry, sizeof_uint64 in *; lia.
Ltac regroup := rewrite <-?app_assoc; reflexivity.

(** [ds], [hs] and [ss] are what has been written of the three parts, before
    the entries [recs]. *)
Lemma fill_entries_spec recs : ∀ ds hs ss ho ndx strptr,
  let n := base.length recs in
  Z.of_nat (base.length ds) = sizeof_dir_object + sizeof_dentry * ndx →
  Z.of_nat (base.length hs) = sizeof_uint64 * ndx →
  ho = Z.of_nat (base.length ds + 4 * n) →
  strptr = Z.of_nat (base.length ds + 4 * n + base.length hs + 8 * n + base.length ss) →
  fill_entries ho ndx strptr recs
    (ds ++ zeros (4 * n) ++ hs ++ zeros (8 * n) ++ ss ++ zeros (base.length (names recs))) =
  Ok (ds ++ dentries strptr recs ++ hs ++ hashes recs ++ ss ++ names recs).
Proof.
  induction recs as [|r recs IH]; intros ds hs ss ho ndx strptr n Hd Hh Ho Hs; subst n.
  { done. }
  cbn [base.length] in *. set (n := base.length recs) in *.
  set (k := S (String.length (rec_name r))).
  assert (base.length (names (r :: recs)) = (k + base.length (names recs))%nat) as ->.
  { unfold names. cbn [map List.concat]. by rewrite length_app, length_name_bytes. }
  replace (4 * S n)%nat with (2 + (2 + 4 * n))%nat by lia.
  replace (8 * S n)%nat with (8 + 8 * n)%nat by lia. rewrite !zeros_add.
  set (z4 := zeros (4 * n)). set (z8 := zeros (8 * n)). set (zt := zeros (base.length (names recs))).
  cbn [fill_entries].
  rewrite (write_at_mid _ (ds ++ zeros 2) (zeros 2) (z4 ++ hs ++ (zeros 8 ++ z8) ++ ss ++ zeros k ++ zt));
    [|regroup|lens|lens]. ostep.
  rewrite (write_at_mid _ (ds ++ zeros 2 ++ le16 strptr ++ z4 ++ hs ++ (zeros 8 ++ z8) ++ ss) (zeros k) zt);
    [|regroup|subst z4 z8 k; lens|subst k; lens]. ostep.
  rewrite (write_at_mid _ ds (zeros 2)
    (le16 strptr ++ z4 ++ hs ++ (zeros 8 ++ z8) ++ ss ++ name_bytes (rec_name r) ++ zt));
    [|regroup|lens|lens]. ostep.
  rewrite (write_at_mid _ (ds ++ le16 (rec_mode r) ++ le16 strptr ++ z4 ++ hs) (zeros 8)
    (z8 ++ ss ++ name_bytes (rec_name r) ++ zt)); [|regroup|subst z4; lens|lens]. ostep.
  specialize (IH (ds ++ dentry_bytes strptr r) (hs ++ le_bytes 8 (rec_hash r))
    (ss ++ name_bytes (rec_name r)) ho (ndx + 1)
    (strptr + Z.of_nat (String.length (rec_name r)) + 1)).
  cbv zeta in IH. fold n z4 z8 zt in IH. unfold dentry_bytes in IH. rewrite <-!app_assoc in *.
  rewrite IH; [|lens..]. cbn [dentries hashes names map List.concat]. unfold dentry_bytes.
  by rewrite <-!app_assoc.
Qed.

Lemma length_dir_header a b c d : base.length (dir_header a b c d) = 12%nat.
Proof. unfold dir_header. lens. Qed.
Lemma dir_hash_offset_eq recs : dir_hash_offset recs = Z.of_nat (12 + 4 * base.length recs).
Proof. unfold dir_hash_offset, sizeof_dir_object, sizeof_dentry. lia. Qed.
Lemma dir_str_offset_eq recs : dir_str_offset recs = Z.of_nat (12 + 4 * base.length recs + 8 * base.length recs).
Proof. unfold dir_str_offset, sizeof_uint64. rewrite dir_hash_offset_eq. lia. Qed.
Lemma dir_objsize_eq recs : dir_objsize recs =
  Z.of_nat (12 + (4 * base.length recs + (8 * base.length recs + base.length (names recs)))).
Proof. unfold dir_objsize. rewrite dir_str_offset_eq, <-length_names. lia. Qed.
Lemma length_dir_object recs : Z.of_nat (base.length (dir_object recs)) = dir_objsize recs.
Proof. unfold dir_object. rewrite dir_objsize_eq, !length_app, length_dir_header. lens. Qed.

Lemma fill_dir_object_eq recs : fill_dir_object recs = Ok (dir_object recs).
Proof.
  unfold fill_dir_object, dir_object. set (h := dir_header _ _ _ _).
  assert (base.length h = 12%nat) as Hh by apply length_dir_header.
  rewrite dir_objsize_eq, Nat2Z.id, !replicate_add.
  rewrite (write_at_mid _ [] (zeros 12)
    (zeros (4 * base.length recs) ++ zeros (8 * base.length recs) ++ zeros (base.length (names recs))));
    [|done|done|by rewrite length_zeros]. ostep. cbn [app].
  apply (fill_entries_spec recs h [] []); cbn [base.length]; rewrite ?Hh; unfold sizeof_dir_object,
    sizeof_dentry, sizeof_uint64; try lia.
  - apply dir_hash_offset_eq.
  - rewrite dir_str_offset_eq. lia.
Qed.

Lemma dentries_app r1 r2 : ∀ p,
  dentries p (r1 ++ r2) = dentries p r1 ++ dentries (p + Z.of_nat (base.length (names r1))) r2.
Proof.
  induction r1 as [|r r1 IH]; intros p.
  - cbn [app dentries names map List.concat base.length]. by rewrite Z.add_0_r.
  - cbn [app dentries]. rewrite IH, <-app_assoc. do 3 f_equal.
    unfold names. cbn [map List.concat]. rewrite length_app, length_name_bytes. lia.
Qed.
Lemma hashes_app r1 r r2 : hashes (r1 ++ r :: r2) = hashes r1 ++ le_bytes 8 (rec_hash r) ++ hashes r2.
Proof. unfold hashes. by rewrite map_app, List.concat_app. Qed.
Lemma names_app r1 r r2 : names (r1 ++ r :: r2) = names r1 ++ name_bytes (rec_name r) ++ names r2.
Proof. unfold names. by rewrite map_app, List.concat_app. Qed.

(** *** What load reads back *)
Lemma read_at_mid {A} (buf a b c : list A) p n :
  buf = a ++ b ++ c → p = Z.of_nat (base.length a) → n = Z.of_nat (base.length b) →
  read_at buf p n = Ok b.
Proof. intros -> -> ->. apply read_at_app. Qed.
Lemma read16_mid buf a c p z :
  buf = a ++ le16 z ++ c → p = Z.of_nat (base.length a) → 0 ≤ z < 2 ^ 16 → read16 buf p = Ok z.
Proof.
  intros Hb Hp Hz. unfold read16. rewrite (read_at_mid _ _ _ _ _ _ Hb Hp) by (unfold le16; by rewrite length_le_bytes).
  ostep. unfold le16. rewrite le_Z_le_bytes. by rewrite Z.mod_small.
Qed.

Definition name_ok (s : string) : Prop := NUL ∉ list_byte_of_string s.
(** Records that an object can hold. *)
Record recs_ok (recs : list dir_record) : Prop := {
  recs_size : dir_objsize recs < 2 ^ 16;
  recs_names r : r ∈ recs → name_ok (rec_name r);
  recs_mode r : r ∈ recs → 0 ≤ rec_mode r < 2 ^ 16;
  recs_hash r : r ∈ recs → 0 ≤ rec_hash r < 2 ^ 64;
}.

Section Read.
Context (recs : list dir_record).
Hypothesis Hok : recs_ok recs.
Let buf := dir_object recs.
Let n := base.length recs.

Lemma header_fields :
  ent_num buf = Ok (Z.of_nat n) ∧ read16 buf 8 = Ok (dir_hash_offset recs) ∧
  obj_magic buf = Ok MAGIC ∧ obj_type buf = Ok (object_type_Z OBJ_DIR) ∧
  obj_size buf = Ok (dir_objsize recs).
Proof.
  pose proof (recs_size _ Hok) as Hs. pose proof (dir_objsize_eq recs) as He.
  pose proof (dir_hash_offset_eq recs) as Hh.
  set (rest := le16 (dir_str_offset recs) ++ dentries (dir_str_offset recs) recs ++ hashes recs ++ names recs).
  set (m := le16 MAGIC). set (t := le16 (object_type_Z OBJ_DIR)). set (s := le16 (dir_objsize recs)).
  set (e := le16 (Z.of_nat n)). set (h := le16 (dir_hash_offset recs)).
  assert (buf = m ++ t ++ s ++ e ++ h ++ rest) as Hb.
  { unfold buf, dir_object, dir_header, rest. by rewrite <-!app_assoc. }
  unfold ent_num, obj_magic, obj_type, obj_size.
  split_and!.
  - apply (read16_mid _ (m ++ t ++ s) (h ++ rest)); [by rewrite Hb, <-!app_assoc|done|lia].
  - apply (read16_mid _ (m ++ t ++ s ++ e) rest); [by rewrite Hb, <-!app_assoc|done|lia].
  - apply (read16_mid _ [] (t ++ s ++ e ++ h ++ rest)); [done|done|by vm_compute].
  - apply (read16_mid _ m (s ++ e ++ h ++ rest)); [done|done|by vm_compute].
  - apply (read16_mid _ (m ++ t) (e ++ h ++ rest)); [by rewrite Hb, <-!app_assoc|done|lia].
Qed.

Lemma string_at_mid b a s c p :
  b = a ++ name_bytes s ++ c → p = Z.of_nat (base.length a) → name_ok s → string_at b p = Ok s.
Proof using.
  clear. intros -> -> Hs. unfold string_at, name_bytes. rewrite Nat2Z.id, drop_app_length, <-app_assoc.
  cbn [app]. rewrite bool_decide_true by set_solver.
  rewrite strlen_app by done. by rewrite Nat2Z.id, take_app_length, string_of_list_byte_of_string.
Qed.

(** The [i]-th entry of the object. *)
Lemma read_entry r1 r r2 :
  recs = r1 ++ r :: r2 →
  let i := Z.of_nat (base.length r1) in
  read16 buf (sizeof_dir_object + sizeof_dentry * i) = Ok (rec_mode r) ∧
  get_name buf i = Ok (rec_name r) ∧ get_hash buf i = Ok (rec_hash r).
Proof using Hok.
  intros Hr i. assert (r ∈ recs) as Hin by (rewrite Hr; set_solver).
  destruct header_fields as (Hn & Hho & _). pose proof (recs_size _ Hok) as Hsz.
  pose proof (dir_hash_offset_eq recs) as Hh. pose proof (dir_str_offset_eq recs) as Hs.
  pose proof (dir_objsize_eq recs) as Ho.
  assert (Z.of_nat n = i + 1 + Z.of_nat (base.length r2)) as Hni.
  { unfold n, i. rewrite Hr, length_app. cbn [base.length]. lia. }
  set (h := dir_header (dir_objsize recs) (Z.of_nat n) (dir_hash_offset recs) (dir_str_offset recs)).
  assert (base.length h = 12%nat) as Hlh by apply length_dir_header.
  set (p := dir_str_offset recs) in *. set (q := p + Z.of_nat (base.length (names r1))).
  assert (names recs = names r1 ++ name_bytes (rec_name r) ++ names r2) as Hnm
    by (rewrite Hr; apply names_app).
  assert (buf = (h ++ dentries p r1) ++ le16 (rec_mode r) ++ le16 q ++
      dentries (q + Z.of_nat (String.length (rec_name r)) + 1) r2 ++
      (hashes r1 ++ le_bytes 8 (rec_hash r) ++ hashes r2) ++
      names r1 ++ name_bytes (rec_name r) ++ names r2) as Hb.
  { change buf with (h ++ dentries p recs ++ hashes recs ++ names recs). rewrite Hnm.
    assert (dentries p recs = dentries p (r1 ++ r :: r2)) as -> by by rewrite Hr.
    assert (hashes recs = hashes (r1 ++ r :: r2)) as -> by by rewrite Hr.
    rewrite dentries_app, hashes_app. cbn [dentries]. unfold dentry_bytes. by rewrite <-!app_assoc. }
  assert (base.length recs = n) as Hrn by done.
  assert (base.length (names r1) < base.length (names recs))%nat as Hlt
    by (rewrite Hnm, !length_app, length_name_bytes; lia).
  set (tl := dentries (q + Z.of_nat (String.length (rec_name r)) + 1) r2) in *.
  assert (base.length tl = (4 * base.length r2)%nat) as Htl by apply length_dentries.
  assert (base.length (dentries p r1) = (4 * base.length r1)%nat) as Hd1 by apply length_dentries.
  split_and!.
  - eapply read16_mid; [exact Hb| |by apply (recs_mode _ Hok)]. lens.
  - unfold get_name. rewrite Hn. ostep. replace (i <? Z.of_nat n) with true by lia. ostep.
    rewrite (read16_mid _ ((h ++ dentries p r1) ++ le16 (rec_mode r)) (tl ++
      (hashes r1 ++ le_bytes 8 (rec_hash r) ++ hashes r2) ++
      names r1 ++ name_bytes (rec_name r) ++ names r2) _ q); [|by rewrite Hb, <-!app_assoc|lens|lia].
    ostep. apply (string_at_mid _ (((h ++ dentries p r1) ++ le16 (rec_mode r)) ++ le16 q ++ tl ++
      (hashes r1 ++ le_bytes 8 (rec_hash r) ++ hashes r2) ++ names r1) _ (names r2));
      [by rewrite Hb, <-!app_assoc|lens|by apply (recs_names _ Hok)].
  - unfold get_hash. rewrite Hn. ostep. replace (i <? Z.of_nat n) with true by lia. ostep.
    rewrite Hho. ostep.
    rewrite (read_at_mid _ (((h ++ dentries p r1) ++ le16 (rec_mode r) ++ le16 q) ++ tl ++ hashes r1)
      (le_bytes 8 (rec_hash r)) (hashes r2 ++ names r1 ++ name_bytes (rec_name r) ++ names r2));
      [|by rewrite Hb, <-!app_assoc|lens|lens].
    ostep. rewrite le_Z_le_bytes. rewrite Z.mod_small; [done|]. by apply (recs_hash _ Hok).
Qed.

Lemma read_entries_spec r2 : ∀ r1,
  recs = r1 ++ r2 → read_entries (base.length r2) (Z.of_nat (base.length r1)) buf = Ok (map loaded_of r2).
Proof using Hok.
  induction r2 as [|r r2 IH]; intros r1 Hr; [done|].
  destruct (read_entry r1 r r2 Hr) as (H1 & H2 & H3). cbn [base.length read_entries].
  rewrite H1. ostep. rewrite H2. ostep. rewrite H3. ostep.
  specialize (IH (r1 ++ [r])). rewrite length_app, Nat2Z.inj_add in IH. cbn [base.length] in IH.
  change (Z.of_nat 1) with 1 in IH. by rewrite IH by (by rewrite <-app_assoc).
Qed.

Lemma read_dir_object_eq : read_dir_object buf = Ok (map loaded_of recs).
Proof using Hok.
  unfold read_dir_object. destruct header_fields as (Hn & _). rewrite Hn. ostep.
  rewrite Nat2Z.id. by apply (read_entries_spec recs []).
Qed.
End Read.

(** ** Properties *)

(** C21: a directory object holds what [ogl_dir::dump] has put into it.  For all
    directories whose object is smaller than 64 KiB, the header announces
    exactly the object's length, every entry's mode field is the one that was
    written (type, owner bits and permissions), and the loop of
    [ogl_dir::load] reads the same names with the same types and hash codes in
    the same order; the permission and owner bits it does not read
    ([OglStore.reload_forgets_permissions]). *)
Theorem dir_object_roundtrip recs :
  recs_ok recs →
  ∃ buf, fill_dir_object recs = Ok buf ∧
    obj_magic buf = Ok MAGIC ∧ obj_type buf = Ok (object_type_Z OBJ_DIR) ∧
    obj_size buf = Ok (Z.of_nat (base.length buf)) ∧
    (∀ i r, recs !! i = Some r →
       read16 buf (sizeof_dir_object + sizeof_dentry * Z.of_nat i) = Ok (rec_mode r)) ∧
    read_dir_object buf =
      Ok (map (fun r => LoadedEntry (rec_name r) (Z.land (Z.shiftr (rec_mode r) 12) 0xf) (rec_hash r)) recs).
Proof.
  intros Hok. exists (dir_object recs). destruct (header_fields recs Hok) as (_ & _ & H1 & H2 & H3).
  rewrite fill_dir_object_eq, length_dir_object, (read_dir_object_eq recs Hok). split_and!; try done.
  intros i r Hr. apply take_drop_middle in Hr as Hm.
  pose proof (lookup_lt_Some _ _ _ Hr) as Hlt.
  destruct (read_entry recs Hok (take i recs) r (drop (S i) recs) (eq_sym Hm)) as [H _].
  by rewrite length_take, Nat.min_l in H by lia.
Qed.

(** The size field has 16 bits, the buffer's size is an [int]: an object
    of 64 KiB or more announces fewer bytes than it has, and these are the
    bytes that [store_obj] writes. *)
Theorem dir_object_overflow recs :
  2 ^ 16 ≤ dir_objsize recs →
  ∃ buf size, fill_dir_object recs = Ok buf ∧ obj_size buf = Ok size ∧
    size = Z.of_nat (base.length buf) mod 2 ^ 16 ∧ size < Z.of_nat (base.length buf).
Proof.
  intros Hbig. exists (dir_object recs), (dir_objsize recs mod 2 ^ 16).
  rewrite fill_dir_object_eq, length_dir_object.
  pose proof (Z.mod_pos_bound (dir_objsize recs) (2 ^ 16) ltac:(lia)). split_and!; try done; [|lia].
  unfold obj_size, read16, dir_object, dir_header. rewrite <-!app_assoc.
  rewrite (read_at_mid _ (le16 MAGIC ++ le16 (object_type_Z OBJ_DIR)) (le16 (dir_objsize recs))
    (le16 (Z.of_nat (base.length recs)) ++ le16 (dir_hash_offset recs) ++
     le16 (dir_str_offset recs) ++ dentries (dir_str_offset recs) recs ++ hashes recs ++ names recs));
    [|regroup|done|done].
  ostep. unfold le16. by rewrite le_Z_le_bytes.
Qed.

(** ** Witnesses *)
Definition demo_records : list dir_record :=
  [DirRecord "bin" 0x21ed 77; DirRecord "hosts" 0x17a4 0xfedcba9876543210; DirRecord "tmp" 0x4000 0].
Lemma demo_records_ok : recs_ok demo_records.
Proof.
  split; [by vm_compute|..]; intros r Hr;
    repeat (apply elem_of_cons in Hr as [->|Hr];
      [first [split; vm_compute; congruence | apply (bool_decide_unpack _); by vm_compute]|]);
    by apply not_elem_of_nil in Hr.
Qed.
Lemma dir_object_roundtrip_witness :
  ∃ buf, fill_dir_object demo_records = Ok buf ∧ base.length buf = 62%nat ∧
         read16 buf 16 = Ok 0x17a4 ∧
         read_dir_object buf =
           Ok [LoadedEntry "bin" ENT_DIR 77; LoadedEntry "hosts" ENT_FILE 0xfedcba9876543210;
               LoadedEntry "tmp" ENT_LOCAL 0].
Proof.
  destruct (dir_object_roundtrip demo_records demo_records_ok) as (buf & H1 & _ & _ & _ & H2 & H3).
  exists buf. split; [exact H1|]. split; [|split; [exact (H2 1%nat _ eq_refl)|exact H3]].
  assert (Ok (base.length buf) = Ok 62%nat) as [=]; [|done].
  change (Ok (base.length buf)) with (base.length <$> Ok buf). rewrite <-H1. by vm_compute.
Defined.

(** Five thousand names of one byte. *)
Lemma dir_object_overflow_witness :
  ∃ buf size, fill_dir_object (replicate 5000 (DirRecord "x" 0x11a4 1)) = Ok buf ∧
    obj_size buf = Ok size ∧ size < Z.of_nat (base.length buf).
Proof.
  destruct (dir_object_overflow (replicate 5000 (DirRecord "x" 0x11a4 1)) ltac:(by vm_compute))
    as (buf & size & H1 & H2 & _ & H3).
  exists buf, size. split; [exact H1|split; [exact H2|exact H3]].
Defined.
