(* ===== verification/Ogl.v ===== *)
(** * oglfs: repositories of directory trees (oglfs/ogl.h, ogl.cpp)

    The entries of a tree are objects that point to each other: a directory to
    its entries and to its parent.  They live in a heap ([objs]), and the
    operations are steps on the heap and on the world [E], the file system
    below the tree and the object files of the repository, which are an
    interface.  An entry that is taken out of its directory stays in the
    model's heap; nothing reads it any more.

    Uninitialised hash codes are [None]; to use one is undefined behaviour. *)

From stdpp Require Import sorting.
From S2P Require Import Prelude Sha2 Otypes.
From Stdlib Require Import Strings.Ascii Strings.String.

Inductive ogl_type :=
| OGL_REMOVED | OGL_NONEXISTENT | OGL_FILE | OGL_DIR | OGL_SYMLINK | OGL_LOCAL.
#[export] Instance ogl_type_eq_dec : EqDecision ogl_type.
Proof. solve_decision. Defined.

(** Permissions and ownership, as [compute_hashcode] and [dump] collect them. *)
Record perms := Perms { mode : Z; own : bool; own_group : bool }.
Definition no_perms : perms := Perms 0 false false.

Record ogl_file := OglFile {
  f_repo : string; f_dir : Z; f_filename : string;
  f_hash : option Z; f_perms : perms; f_valid_hash : bool;
}.
Record ogl_dir := OglDir {
  d_repo : string; d_parent : option Z; d_dirname : string; d_abspath : string;
  d_hash : option Z; d_entries : gmap string Z; d_perms : perms;
  d_modified : bool; d_loaded : bool;
}.
Record ogl_symlink := OglSymlink {
  l_repo : string; l_dir : Z; l_name : string; l_target : string;
  l_hash : option Z; l_perms : perms; l_modified : bool; l_loaded : bool;
}.
(** [repo] is the path of the repository; the pointer is only used for it. *)
Inductive ogl_entry :=
| EFile (f : ogl_file)
| EDir (d : ogl_dir)
| ESymlink (l : ogl_symlink)
| ERemoved (repo : string)
| ENonexistent (repo : string)
| ELocal (repo : string).

Definition get_type (e : ogl_entry) : ogl_type :=
  match e with
  | EFile _ => OGL_FILE | EDir _ => OGL_DIR | ESymlink _ => OGL_SYMLINK
  | ERemoved _ => OGL_REMOVED | ENonexistent _ => OGL_NONEXISTENT | ELocal _ => OGL_LOCAL
  end.

(** *** Field updates *)
Definition d_set_hash v d := OglDir (d_repo d) (d_parent d) (d_dirname d) (d_abspath d) v
  (d_entries d) (d_perms d) (d_modified d) (d_loaded d).
Definition d_set_entries v d := OglDir (d_repo d) (d_parent d) (d_dirname d) (d_abspath d) (d_hash d)
  v (d_perms d) (d_modified d) (d_loaded d).
Definition d_set_perms v d := OglDir (d_repo d) (d_parent d) (d_dirname d) (d_abspath d) (d_hash d)
  (d_entries d) v (d_modified d) (d_loaded d).
Definition d_set_flags m l d := OglDir (d_repo d) (d_parent d) (d_dirname d) (d_abspath d) (d_hash d)
  (d_entries d) (d_perms d) m l.
Definition f_set_hash v b f := OglFile (f_repo f) (f_dir f) (f_filename f) v (f_perms f) b.
Definition f_set_perms v f := OglFile (f_repo f) (f_dir f) (f_filename f) (f_hash f) v (f_valid_hash f).
Definition l_set_hash v m l := OglSymlink (l_repo l) (l_dir l) (l_name l) (l_target l) v (l_perms l) m (l_loaded l).
Definition l_set_target v l := OglSymlink (l_repo l) (l_dir l) (l_name l) v (l_hash l) (l_perms l)
  (l_modified l) (l_loaded l).
Definition l_set_loaded v l := OglSymlink (l_repo l) (l_dir l) (l_name l) (l_target l) (l_hash l) (l_perms l)
  (l_modified l) v.
Definition l_set_perms v l := OglSymlink (l_repo l) (l_dir l) (l_name l) (l_target l) (l_hash l) v
  (l_modified l) (l_loaded l).

(** *** Constructors *)
Definition new_file (repo : string) (dir : Z) (fname : string) : ogl_file :=
  OglFile repo dir fname None no_perms false.
Definition new_dir (repo : string) (parent : option (Z * ogl_dir)) (dirname : string) : ogl_dir :=
  OglDir repo (fst <$> parent) dirname
    (match parent with Some (_, p) => d_abspath p ++ "/" ++ dirname | None => dirname end)%string
    None ∅ no_perms false false.
Definition new_symlink (repo : string) (dir : Z) (name : string) : ogl_symlink :=
  OglSymlink repo dir name EmptyString None no_perms true false.

(** [get_path(name)] *)
Definition get_path (d : ogl_dir) (name : string) : string :=
  if (String.length name =? 0)%nat then d_abspath d else (d_abspath d ++ "/" ++ name)%string.

(** The names of a [std::map] in its order, that of unsigned bytes. *)
Definition name_le (a b : string) : Prop := String.leb a b = true.
#[export] Instance name_le_dec : RelDecision name_le := fun a b => decide (String.leb a b = true).
Definition names_of (m : gmap string Z) : list string := merge_sort name_le (fst <$> map_to_list m).

(** ** The world *)
Record stat_t := StatT { st_mode : Z; st_uid : Z; st_gid : Z }.
Class repo_os (E : Type) := {
  getuid : Z;
  getgid : Z;
  os_lstat : string → ST E (option stat_t);
  (** [open], and the bytes that each [read] returns up to the end of the
      file; [None] when [open] or one of the [read]s fails. *)
  os_read_file : string → ST E (option (list (list byte)));
  (** [readlink] with room for 256 bytes; [None] is an error. *)
  os_readlink : string → ST E (option (list byte));
  os_mkdir : string → ST E Z;
  (** The files of objects, by their paths: [stat] succeeds; the result of
      [open] and [write]; what [open] and [read] give. *)
  obj_stat : string → ST E bool;
  obj_write : string → list byte → ST E Z;
  obj_read : string → ST E (option (list byte));
  (** What is read through a pointer to the characters of a [std::string]
      that has been destroyed: undefined in C++, some string in the memory of
      the process. *)
  stale : string → ST E string;
  (** The file [root-ref]: [open], [write] of the bytes; and its contents. *)
  ref_write : string → list byte → ST E bool;
  ref_read : string → ST E (option (list byte));
}.

Record heap := Heap { objs : gmap Z ogl_entry; brk : Z }.

Section Ogl.
Context {E : Type} `{Os : repo_os E}.
(** The two bytes of padding of a [symlink_object], which [new] does not
    initialise. *)
Context (padding : list byte).
Definition M : Type → Type := ST (heap * E).

Definition os {A} (m : ST E A) : M A := fun s =>
  match m s.2 with Ok (a, e) => Ok (a, (s.1, e)) | Fault f => Fault f end.
Definition undefined {A} (what : string) : M A := lift (Fault (Undefined what)).

(** *** Objects *)
Definition entry_at (a : Z) : M ogl_entry := fun s =>
  match objs s.1 !! a with Some e => Ok (e, s) | None => Fault (Undefined "dangling pointer") end.
Definition put_entry (a : Z) (e : ogl_entry) : M unit :=
  modify (fun s => (Heap (<[a := e]> (objs s.1)) (brk s.1), s.2)).
Definition new_entry (e : ogl_entry) : M Z := fun s =>
  Ok (brk s.1, (Heap (<[brk s.1 := e]> (objs s.1)) (brk s.1 + 1), s.2)).
Definition dir_at (a : Z) : M ogl_dir :=
  e ← entry_at a; match e with EDir d => mret d | _ => undefined "not a directory" end.
Definition upd_dir (a : Z) (f : ogl_dir → ogl_dir) : M unit := d ← dir_at a; put_entry a (EDir (f d)).
Definition hash_of (h : option Z) : M Z :=
  match h with Some h => mret h | None => undefined "uninitialised hash" end.

(** [mark_modified]: the [for] over the parents. *)
Fixpoint mark_loop (n : nat) (pd : option Z) : M unit :=
  match pd, n with
  | None, _ => mret tt
  | Some _, O => undefined "cyclic parents"
  | Some a, S n =>
      d ← dir_at a;
      put_entry a (EDir (d_set_flags true (d_loaded d) d)) ;;
      mark_loop n (d_parent d)
  end.
Definition heap_fuel (s : heap * E) : nat := S (base.size (objs s.1)).
Definition mark_modified (a : Z) : M unit := n ← gets heap_fuel; mark_loop n (Some a).

(** [ogl_file::mark_modified] and [ogl_symlink::mark_modified]. *)
Definition file_mark_modified (a : Z) (f : ogl_file) : M unit :=
  put_entry a (EFile (f_set_hash (f_hash f) false f)) ;; mark_modified (f_dir f).
Definition symlink_mark_modified (a : Z) (l : ogl_symlink) : M unit :=
  put_entry a (ESymlink (l_set_hash (l_hash l) true l)) ;; mark_modified (l_dir l).

Definition lookup_name (a : Z) (name : string) : M (option Z) :=
  d ← dir_at a; mret (d_entries d !! name).
Definition set_entry (a : Z) (name : string) (c : Z) : M unit :=
  upd_dir a (fun d => d_set_entries (<[name := c]> (d_entries d)) d).

(** *** ogl_dir: names *)
Definition add_entry (a : Z) (name : string) (c : Z) : M bool :=
  set_entry a name c ;; mark_modified a ;; mret true.
Definition add_file (a : Z) (name : string) : M bool :=
  e ← lookup_name a name;
  if e is Some _ then mret false else
  d ← dir_at a;
  c ← new_entry (EFile (new_file (d_repo d) a name));
  set_entry a name c ;; mark_modified a ;; mret true.
Definition add_dir (a : Z) (name : string) : M bool :=
  e ← lookup_name a name;
  if e is Some _ then mret false else
  d ← dir_at a;
  c ← new_entry (EDir (new_dir (d_repo d) (Some (a, d)) name));
  upd_dir c (fun d => d_set_flags (d_modified d) true d) ;;
  mark_modified c ;;
  set_entry a name c ;; mret true.
Definition add_symlink (a : Z) (name : string) : M bool :=
  e ← lookup_name a name;
  if e is Some _ then mret false else
  d ← dir_at a;
  c ← new_entry (ESymlink (new_symlink (d_repo d) a name));
  set_entry a name c ;; mark_modified a ;; mret true.
Definition remove (a : Z) (name : string) : M bool :=
  e ← lookup_name a name;
  if e is None then mret false else
  upd_dir a (fun d => d_set_entries (delete name (d_entries d)) d) ;;
  mark_modified a ;; mret true.
Definition mark_local (a : Z) (name : string) : M bool :=
  e ← lookup_name a name;
  if e is Some _ then mret false else
  d ← dir_at a;
  c ← new_entry (ELocal (d_repo d));
  set_entry a name c ;; mark_modified a ;; mret true.
Definition mark_nonexistent (a : Z) (name : string) : M bool :=
  e ← lookup_name a name;
  if e is Some _ then mret false else
  d ← dir_at a;
  c ← new_entry (ENonexistent (d_repo d));
  set_entry a name c ;; mark_modified a ;; mret true.
Definition mark_removed (a : Z) (name : string) : M bool :=
  d ← dir_at a;
  c ← new_entry (ERemoved (d_repo d));
  set_entry a name c ;; mark_modified a ;; mret true.

(** *** Hash codes and objects of a repository *)

(** The first eight bytes of the digest, the most significant first. *)
Definition digest_hash (digest : list byte) : Z :=
  foldl (fun h b => u64 (Z.lor (Z.shiftl h 8) (Z_of_byte b))) 0 (take 8 digest).
(** [SHA256_Final] into a local array. *)
Definition final_hash (ctx : SHA256_CTX) : outcome Z :=
  '(digest, _) ← SHA256_Final (Some (replicate 32 NUL)) ctx;
  Ok (digest_hash (default [] digest)).
Definition compute_hash_buf (buf : list byte) : outcome Z :=
  ctx ← SHA256_Update SHA256_Init buf; final_hash ctx.

(** ["%016lx"] *)
Definition hex_digit (d : Z) : byte := byte_of_Z (if d <? 10 then 48 + d else 87 + d).
Fixpoint hex_digits (n : nat) (h : Z) : list byte :=
  match n with O => [] | S n => hex_digits n (h / 16) ++ [hex_digit (h mod 16)] end.
Definition print_hash (h : Z) : list byte := hex_digits 16 (u64 h).

Definition get_obj_path (repo : string) (hash : Z) : string :=
  (repo ++ "/objects/" ++ string_of_list_byte (print_hash hash))%string.

(** [get_obj_path(hash).c_str()] points into a temporary that is destroyed at
    the end of the declaration of [path]. *)
Definition dangling_path (repo : string) (hash : Z) : M string := os (stale (get_obj_path repo hash)).
Definition store_obj (repo : string) (hash : Z) (obj : list byte) : M bool :=
  magic ← lift (obj_magic obj);
  sassert (magic =? MAGIC) "obj->magic == otypes::object::MAGIC" ;;
  path ← dangling_path repo hash;
  existing ← os (obj_stat path);
  if (existing : bool) then mret true else
  size ← lift (obj_size obj);
  bytes ← lift (read_at obj 0 size);
  path ← dangling_path repo hash;
  cp ← os (obj_write path bytes);
  mret (cp =? size).

(** [None] is [nullptr]. *)
Definition load_obj (repo : string) (hash : Z) : M (option (list byte)) :=
  path ← dangling_path repo hash;
  file ← os (obj_read path);
  match file with
  | None => mret None
  | Some file =>
      if Z.of_nat (base.length file) <? sizeof_object then mret None else
      magic ← lift (obj_magic file);
      sassert (magic =? MAGIC) "obj.magic == otypes::object::MAGIC" ;;
      size ← lift (obj_size file);
      sassert (sizeof_object <=? size) "obj.size >= sizeof(obj)" ;;
      sassert (size <=? Z.of_nat (base.length file)) "cp == obj.size - sizeof(obj)" ;;
      bytes ← lift (read_at file 0 size);
      mret (Some bytes)
  end.

(** [own = getuid() == st_uid; own_group = ...; mode = st_mode & 0777;] *)
Definition collect_perms (st : stat_t) : perms :=
  Perms (Z.land (st_mode st) 0x1ff) (getuid =? st_uid st) (getgid =? st_gid st).

Definition compute_hashcode (a : Z) (f : ogl_file) : M bool :=
  d ← dir_at (f_dir f);
  chunks ← os (os_read_file (get_path d (f_filename f)));
  match chunks with
  | None => mret false
  | Some chunks =>
      hash ← lift (ctx ← SHA256_Updates SHA256_Init chunks; final_hash ctx);
      let f := f_set_hash (Some hash) true f in
      put_entry a (EFile f) ;;
      st ← os (os_lstat (get_path d (f_filename f)));
      match st with
      | None => mret false
      | Some st => put_entry a (EFile (f_set_perms (collect_perms st) f)) ;; mret true
      end
  end.

(** *** ogl_dir::dump *)
Definition perm_bits (p : perms) (type : Z) : Z :=
  Z.lor (Z.lor (Z.lor (mode p) (Z.shiftl type 12)) (if own p then USER_MASK else 0))
    (if own_group p then GROUP_MASK else 0).

(** The [dentry] and the hash code of one name; [None] for the types that
    [dump] leaves out. *)
Definition dump_record (name : string) (e : ogl_entry) : M (option dir_record) :=
  match e with
  | ENonexistent _ => mret (Some (DirRecord name (Z.shiftl ENT_NONEXISTENT 12) 0))
  | EFile f =>
      h ← hash_of (f_hash f); mret (Some (DirRecord name (perm_bits (f_perms f) ENT_FILE) h))
  | EDir d =>
      h ← hash_of (d_hash d); mret (Some (DirRecord name (perm_bits (d_perms d) ENT_DIR) h))
  | ESymlink l =>
      h ← hash_of (l_hash l); mret (Some (DirRecord name (perm_bits (l_perms l) ENT_SYMLINK) h))
  | ELocal _ => mret (Some (DirRecord name (Z.shiftl ENT_LOCAL 12) 0))
  | ERemoved _ => mret None
  end.
Fixpoint dump_records (a : Z) (names : list string) : M (list dir_record) :=
  match names with
  | [] => mret []
  | name :: names =>
      c ← lookup_name a name;
      match c with
      | None => undefined "null entry"
      | Some c =>
          e ← entry_at c;
          r ← dump_record name e;
          rs ← dump_records a names;
          mret (match r with Some r => r :: rs | None => rs end)
      end
  end.

Definition dump_dir (a : Z) : M bool :=
  d ← dir_at a;
  sassert (d_loaded d) "loaded" ;;
  recs ← dump_records a (names_of (d_entries d));
  obj ← lift (fill_dir_object recs);
  hash ← lift (compute_hash_buf obj);
  store_obj (d_repo d) hash obj ;;
  upd_dir a (d_set_hash (Some hash)) ;;
  st ← os (os_lstat (get_path d EmptyString));
  match st with
  | None => mret false
  | Some st =>
      upd_dir a (d_set_perms (collect_perms st)) ;;
      upd_dir a (d_set_flags false true) ;;
      mret true
  end.

(** *** ogl_dir::load *)
Definition load_entry (a : Z) (r : loaded_entry) : M unit :=
  d ← dir_at a;
  let repo := d_repo d in
  let type := ent_type r in
  let name := ent_name r in
  let add e := c ← new_entry e; set_entry a name c in
  if type =? ENT_NONEXISTENT then add (ENonexistent repo) else
  if type =? ENT_FILE then
    add (EFile (f_set_hash (Some (ent_hash r)) true (new_file repo a name))) else
  if type =? ENT_DIR then
    add (EDir (d_set_hash (Some (ent_hash r)) (new_dir repo (Some (a, d)) name))) else
  if type =? ENT_SYMLINK then
    add (ESymlink (l_set_hash (Some (ent_hash r)) false (new_symlink repo a name))) else
  if type =? ENT_LOCAL then add (ELocal repo) else
  lift (Fault (Aborted "Unknown object type")).
Fixpoint load_entries (a : Z) (recs : list loaded_entry) : M unit :=
  match recs with
  | [] => mret tt
  | r :: recs => load_entry a r ;; load_entries a recs
  end.
Definition load_dir (a : Z) : M bool :=
  d ← dir_at a;
  h ← hash_of (d_hash d);
  obj ← load_obj (d_repo d) h;
  match obj with
  | None => undefined "null object"
  | Some obj =>
      type ← lift (obj_type obj);
      sassert (type =? object_type_Z OBJ_DIR) "obj->type == otypes::object::DIR" ;;
      recs ← lift (read_dir_object obj);
      load_entries a recs ;;
      upd_dir a (d_set_flags false true) ;;
      mret true
  end.

(** *** ogl_symlink *)
Definition MAX_TARGET_SIZE : Z := 256.
Definition sizeof_symlink_object : Z := 12.
Definition symlink_object (target : list byte) : list byte :=
  let n := Z.of_nat (base.length target) in
  le16 MAGIC ++ le16 (object_type_Z OBJ_SYMLINK) ++ le16 (sizeof_symlink_object + n + 1) ++
  padding ++ le_bytes 4 (n + 1) ++ target ++ [NUL].

Definition dump_symlink (a : Z) (l : ogl_symlink) : M bool :=
  d ← dir_at (l_dir l);
  target ← os (os_readlink (get_path d EmptyString ++ "/" ++ l_name l)%string);
  let cp := match target with Some t => Z.of_nat (base.length t) | None => -1 end in
  sassert ((0 <? cp) && (cp <? MAX_TARGET_SIZE)) "cp > 0 && cp < MAX_TARGET_SIZE" ;;
  (** [target = target_cstr]: up to the first NUL *)
  let t := from_option id [] target in
  let t := take (Z.to_nat (strlen t)) t in
  let l := l_set_target (string_of_list_byte t) l in
  let obj := symlink_object t in
  hash ← lift (compute_hash_buf obj);
  ok ← store_obj (l_repo l) hash obj;
  if negb ok then put_entry a (ESymlink l) ;; mret false else
  let l := l_set_loaded true (l_set_hash (Some hash) false l) in
  put_entry a (ESymlink l) ;;
  st ← os (os_lstat (get_path d (l_name l)));
  match st with
  | None => mret false
  | Some st => put_entry a (ESymlink (l_set_perms (collect_perms st) l)) ;; mret true
  end.

Definition load_symlink (a : Z) (l : ogl_symlink) : M bool :=
  h ← hash_of (l_hash l);
  obj ← load_obj (l_repo l) h;
  match obj with
  | None => mret false
  | Some obj =>
      type ← lift (obj_type obj);
      sassert (type =? object_type_Z OBJ_SYMLINK) "obj->type == otypes::object::SYMLINK" ;;
      n ← lift (le_Z <$> read_at obj 8 4);
      last ← lift (read_at obj (sizeof_symlink_object + s32 n - 1) 1);
      sassert (bool_decide (last = [NUL])) "slobj->linkto[slobj->linkto_size - 1] == 0" ;;
      target ← lift (string_at obj sizeof_symlink_object);
      put_entry a (ESymlink (l_set_target target l)) ;;
      mret true
  end.

(** *** ogl_repo: creation and the root reference *)
Record ogl_repo := OglRepo { root_path : string; repo_path : string; root_dir : Z }.

(** [std::stoul(buf, nullptr, 16)] for hexadecimal digits; other characters,
    of which it accepts some (spaces, a sign, [0x]), are never written. *)
Definition digit_value (b : byte) : option Z :=
  let c := Z_of_byte b in
  if (48 <=? c) && (c <=? 57) then Some (c - 48) else
  if (97 <=? c) && (c <=? 102) then Some (c - 87) else None.
Fixpoint stoul16 (acc : Z) (l : list byte) : option Z :=
  match l with
  | [] => Some acc
  | b :: l => d ← digit_value b; stoul16 (acc * 16 + d) l
  end.

Definition LF : byte := byte_of_Z 10.
Definition write_root_ref (repo : string) (hash : Z) : M bool :=
  os (ref_write repo (print_hash hash ++ [LF])).

Definition open_at (root repo : string) (root_hash : Z) : M ogl_repo :=
  a ← new_entry (EDir (d_set_hash (Some root_hash) (new_dir repo None root)));
  ok ← load_dir a;
  sassert ok "ok" ;;
  mret (OglRepo root repo a).
(** The constructor that reads [root-ref]. *)
Definition open_repo (root repo : string) : M ogl_repo :=
  file ← os (ref_read repo);
  match file with
  | None => lift (Fault (AssertFailed "fd >= 0"))
  | Some file =>
      let buf := take 17 file in
      sassert (bool_decide (base.length buf = 17%nat ∧ buf !! 16%nat = Some LF))
        "cp == 17 && buf[16] == '\n'" ;;
      match stoul16 0 (take 16 buf) with
      | None => lift (Fault (Aborted "std::invalid_argument"))
      | Some hash => open_at root repo hash
      end
  end.

Definition init (repo : string) : M bool :=
  let rootobj := dir_header sizeof_dir_object 0 sizeof_dir_object sizeof_dir_object in
  hash ← lift (compute_hash_buf rootobj);
  r ← os (os_mkdir repo);
  if r <? 0 then mret false else
  r ← os (os_mkdir (repo ++ "/tmp")%string);
  if r <? 0 then mret false else
  r ← os (os_mkdir (repo ++ "/objects")%string);
  if r <? 0 then mret false else
  cp ← os (obj_write (get_obj_path repo hash) rootobj);
  if negb (cp =? sizeof_dir_object) then mret false else
  write_root_ref repo hash.

(** *** ogl_repo::commit *)

(** The first loop: [todumps] is a stack; [dirs] has the directories found
    so far, the last one first. *)
Fixpoint collect_loop (n : nat) (todumps dirs : list Z) : M (option (list Z)) :=
  match todumps, n with
  | [], _ => mret (Some dirs)
  | _ :: _, O => undefined "out of fuel"
  | a :: todumps, S n =>
      e ← entry_at a;
      match e with
      | EFile f =>
          if f_valid_hash f then collect_loop n todumps dirs else
          ok ← compute_hashcode a f;
          if (ok : bool) then collect_loop n todumps dirs else mret None
      | EDir d =>
          if negb (d_modified d) then collect_loop n todumps dirs else
          sassert (d_loaded d) "dir->has_loaded()" ;;
          let children := omap (fun name => d_entries d !! name) (names_of (d_entries d)) in
          collect_loop n (rev children ++ todumps) (a :: dirs)
      | ESymlink l =>
          if negb (l_modified l) then collect_loop n todumps dirs else
          ok ← dump_symlink a l;
          if (ok : bool) then collect_loop n todumps dirs else mret None
      | _ => collect_loop n todumps dirs
      end
  end.
Fixpoint dump_all (dirs : list Z) : M bool :=
  match dirs with
  | [] => mret true
  | a :: dirs => ok ← dump_dir a; if (ok : bool) then dump_all dirs else mret false
  end.
Definition update_root_ref (r : ogl_repo) : M bool :=
  d ← dir_at (root_dir r); h ← hash_of (d_hash d); write_root_ref (repo_path r) h.
Definition commit (r : ogl_repo) : M bool :=
  d ← dir_at (root_dir r);
  if negb (d_modified d) then mret true else
  n ← gets heap_fuel;
  dirs ← collect_loop n [root_dir r] [];
  match dirs with
  | None => mret false
  | Some dirs =>
      ok ← dump_all dirs;
      if negb ok then mret false else
      update_root_ref r ;; mret true
  end.

(** *** Paths *)
Definition is_slash (c : ascii) : bool := bool_decide (c = "/"%char).
(** [s.find('/')] and [s.rfind('/')] *)
Fixpoint find_slash (s : string) : option nat :=
  match s with
  | EmptyString => None
  | String c s => if is_slash c then Some 0%nat else S <$> find_slash s
  end%string.
Fixpoint rfind_slash (s : string) : option nat :=
  match s with
  | EmptyString => None
  | String c s =>
      match rfind_slash s with
      | Some n => Some (S n)
      | None => if is_slash c then Some 0%nat else None
      end
  end%string.
(** [s.substr(0, n)] and [s.substr(n)], for [n <= s.size()]. *)
Fixpoint str_take (n : nat) (s : string) : string :=
  match n, s with S n, String c s => String c (str_take n s) | _, _ => EmptyString end.
Fixpoint str_drop (n : nat) (s : string) : string :=
  match n, s with O, _ => s | S n, String _ s => str_drop n s | S _, EmptyString => EmptyString end.
Definition substr_from (n : nat) (s : string) : outcome string :=
  if (n <=? String.length s)%nat then Ok (str_drop n s) else Fault (Aborted "std::out_of_range").
Definition str_at (n : nat) (s : string) : option ascii := String.get n s.

Definition ancest_of_path (ancest descent : string) : outcome bool :=
  cassert (bool_decide (str_at 0 ancest = Some "/"%char)) "ancest.front() == '/'" ;;
  cassert (bool_decide (str_at 0 descent = Some "/"%char)) "descent.front() == '/'" ;;
  if bool_decide (ancest = "/"%string) then Ok (1 <? String.length descent)%nat else
  if (String.length descent <=? String.length ancest + 1)%nat then Ok false else
  cassert (negb (bool_decide (str_at (String.length ancest - 1) ancest = Some "/"%char)))
    "ancest.back() != '/'" ;;
  Ok (String.prefix ancest descent &&
      bool_decide (str_at (String.length ancest) descent = Some "/"%char)).
Definition relative_path (ancest descent : string) : outcome string :=
  ok ← ancest_of_path ancest descent;
  cassert ok "ancest_of_path(ancest, descent)" ;;
  substr_from (String.length ancest + 1) descent.

(** *** ogl_repo::find *)

(** The loop: every round takes at least one character off [rpath]. *)
Fixpoint find_loop (n : nat) (ent : option Z) (rpath : string) : M (option Z) :=
  match ent, rpath, n with
  | None, _, _ | _, EmptyString, _ => mret ent
  | Some _, _, O => undefined "out of fuel"
  | Some a, _, S n =>
      e ← entry_at a;
      match e with
      | EDir d =>
          (if d_loaded d then mret tt else load_dir a ;; mret tt) ;;
          let pos := find_slash rpath in
          sassert (negb (bool_decide (pos = Some 0%nat))) "pos != 0" ;;
          match pos with
          | Some pos =>
              ent ← lookup_name a (str_take pos rpath); find_loop n ent (str_drop (S pos) rpath)
          | None => ent ← lookup_name a rpath; find_loop n ent EmptyString
          end
      | _ => mret None
      end
  end.
Definition find (r : ogl_repo) (path : string) : M (option Z) :=
  if bool_decide (path = root_path r) then mret (Some (root_dir r)) else
  ok ← lift (ancest_of_path (root_path r) path);
  sassert ok "ancest_of_path(root_path, path)" ;;
  rpath ← lift (relative_path (root_path r) path);
  find_loop (S (String.length rpath)) (Some (root_dir r)) rpath.
Definition find_dir (r : ogl_repo) (path : string) : M (option Z) :=
  ent ← find r path;
  match ent with
  | None => mret None
  | Some a => e ← entry_at a; mret (match e with EDir _ => Some a | _ => None end)
  end.
Definition get_parent_dir (r : ogl_repo) (path : string) : M (option (Z * string)) :=
  match rfind_slash path with
  | None => mret None
  | Some sep =>
      let dirname := if (sep =? 0)%nat then "/"%string else str_take sep path in
      let basename := str_drop (S sep) path in
      if (String.length basename =? 0)%nat then mret None else
      dir ← find_dir r dirname;
      mret (match dir with Some a => Some (a, basename) | None => None end)
  end.

(** [ogl_repo::add_file] and the six others, which differ in the operation
    on the directory. *)
Definition in_parent (op : Z → string → M bool) (r : ogl_repo) (path : string) : M bool :=
  p ← get_parent_dir r path;
  match p with None => mret false | Some (a, basename) => op a basename end.
Definition repo_add_file : ogl_repo → string → M bool := in_parent add_file.
Definition repo_add_dir : ogl_repo → string → M bool := in_parent add_dir.
Definition repo_add_symlink : ogl_repo → string → M bool := in_parent add_symlink.
Definition repo_remove : ogl_repo → string → M bool := in_parent remove.
Definition repo_mark_local : ogl_repo → string → M bool := in_parent mark_local.
Definition repo_mark_nonexistent : ogl_repo → string → M bool := in_parent mark_nonexistent.
Definition repo_mark_removed : ogl_repo → string → M bool := in_parent mark_removed.
End Ogl.
