(* ===== verification/OglMerge.v ===== *)
(** * oglfs: comparing, copying and merging trees (oglfs/ogl.cpp)

    [ogl_dir::diff], [clone] and [copy_to], and [ogl_repo::merge].  [diff]
    calls a handler; here the handler has a state [X] of its own next to the
    heap and the world: what the lambdas of [merge] capture. *)

From S2P Require Import Prelude Otypes Ogl.
From Stdlib Require Import Strings.String.

Inductive diff_op := DIFF_ADD | DIFF_RM | DIFF_MOD.
#[export] Instance diff_op_eq_dec : EqDecision diff_op.
Proof. solve_decision. Defined.

Section Merge.
Context {E : Type} `{Os : repo_os E}.

(** ** ogl_dir::diff *)
Section Diff.
Context {X : Type}.
Definition MX : Type → Type := ST (X * (heap * E)).
Definition on_heap {A} (m : ST (heap * E) A) : MX A := fun '(x, s) =>
  match m s with Ok (a, s) => Ok (a, (x, s)) | Fault f => Fault f end.

(** Operation, the two directories, the name; [false] ends the comparison. *)
Definition diff_handler : Type := diff_op → Z → Z → string → MX bool.

(** The handler for each of [names]; [false] when it has ended. *)
Fixpoint report (handler : diff_handler) (op : diff_op) (a other : Z) (names : list string) : MX bool :=
  match names with
  | [] => mret true
  | name :: names =>
      ok ← handler op a other name;
      if (ok : bool) then report handler op a other names else mret false
  end.

(** Whether a name of both directories has been modified. *)
Definition same_hash (h h' : option Z) : MX bool :=
  h ← on_heap (hash_of h); h' ← on_heap (hash_of h'); mret (h =? h').
Definition modified (a other : Z) (name : string) : MX bool :=
  c ← on_heap (lookup_name a name); o ← on_heap (lookup_name other name);
  match c, o with
  | Some c, Some o =>
      ent ← on_heap (entry_at c); oent ← on_heap (entry_at o);
      match ent, oent with
      | EFile f, EFile g => b ← same_hash (f_hash f) (f_hash g); mret (negb b)
      | EDir f, EDir g => b ← same_hash (d_hash f) (d_hash g); mret (negb b)
      | ESymlink f, ESymlink g => b ← same_hash (l_hash f) (l_hash g); mret (negb b)
      | _, _ => mret (negb (bool_decide (get_type ent = get_type oent)))
      end
  | _, _ => on_heap (undefined "null entry")
  end.
Fixpoint report_modified (handler : diff_handler) (a other : Z) (names : list string) : MX bool :=
  match names with
  | [] => mret true
  | name :: names =>
      m ← modified a other name;
      ok ← (if (m : bool) then handler DIFF_MOD a other name else mret true);
      if (ok : bool) then report_modified handler a other names else mret false
  end.

(** [diff(other, handler)]: the directories are not changed by the handler. *)
Definition diff (a other : Z) (handler : diff_handler) : MX unit :=
  d ← on_heap (dir_at a); o ← on_heap (dir_at other);
  let names := names_of (d_entries d) in
  let in_dir (d : ogl_dir) name := bool_decide (is_Some (d_entries d !! name)) in
  let common := List.filter (in_dir o) names in
  (** The [for] over [entries] also collects the common names. *)
  ok ← report handler DIFF_ADD a other (List.filter (fun name => negb (in_dir o name)) names);
  if negb ok then mret tt else
  ok ← report handler DIFF_RM a other
         (List.filter (fun name => negb (in_dir d name)) (names_of (d_entries o)));
  if negb ok then mret tt else
  report_modified handler a other common ;; mret tt.
End Diff.

(** ** clone and copy_to *)
Abbreviation M := (ST (heap * E)).

(** [ogl_dir::clone_nocopy(parent)]; the hash code is not copied. *)
Definition clone_nocopy (d : ogl_dir) (parent : Z) : M Z :=
  p ← dir_at parent;
  new_entry (EDir (d_set_flags (d_modified d) (d_loaded d) (d_set_perms (d_perms d)
    (new_dir (d_repo p) (Some (parent, p)) (d_dirname d))))).

(** [clone] of an entry that is not a directory. *)
Definition clone_leaf (e : ogl_entry) (dir : Z) : M Z :=
  p ← dir_at dir;
  match e with
  | EFile f =>
      new_entry (EFile (f_set_perms (f_perms f) (f_set_hash (f_hash f) (f_valid_hash f)
        (new_file (d_repo p) dir (f_filename f)))))
  | ESymlink l =>
      new_entry (ESymlink (l_set_perms (l_perms l) (l_set_hash (l_hash l) true
        (new_symlink (d_repo p) dir (l_name l)))))
  | ERemoved repo => new_entry (ERemoved repo)
  | ENonexistent repo => new_entry (ENonexistent repo)
  | ELocal repo => new_entry (ELocal repo)
  | EDir _ => undefined "clone_leaf of a directory"
  end.

(** The inner [for] of [copy_to]: the copies still to make, the last first. *)
Fixpoint copy_entries (src dst : Z) (names : list string) (to_copies : list (Z * Z))
    : M (list (Z * Z)) :=
  match names with
  | [] => mret to_copies
  | name :: names =>
      c ← lookup_name src name;
      match c with
      | None => undefined "null entry"
      | Some c =>
          e ← entry_at c;
          match e with
          | EDir d =>
              c' ← clone_nocopy d dst;
              set_entry dst name c' ;;
              copy_entries src dst names ((c, c') :: to_copies)
          | _ => c' ← clone_leaf e dst; set_entry dst name c' ;; copy_entries src dst names to_copies
          end
      end
  end.
Fixpoint copy_loop (n : nat) (to_copies : list (Z * Z)) : M unit :=
  match to_copies, n with
  | [], _ => mret tt
  | _ :: _, O => undefined "out of fuel"
  | (src, dst) :: to_copies, S n =>
      d ← dir_at src;
      to_copies ← copy_entries src dst (names_of (d_entries d)) to_copies;
      copy_loop n to_copies
  end.
Definition copy_to (src dst : Z) : M unit :=
  d ← dir_at dst;
  sassert (bool_decide (d_entries d = ∅)) "dst->entries.size() == 0" ;;
  n ← gets heap_fuel;
  copy_loop n [(src, dst)].
Definition clone (c dir : Z) : M Z :=
  e ← entry_at c;
  match e with
  | EDir d => c' ← clone_nocopy d dir; copy_to c c' ;; mret c'
  | _ => clone_leaf e dir
  end.

(** ** ogl_repo::merge *)

(** [conflict] and [dir_queue], whose back is the head of the list. *)
Definition merge_state : Type := bool * list string.
Abbreviation MM := (MX (X:=merge_state)).
Definition set_conflict : MM unit := modify (fun s => ((true, s.1.2), s.2)).
Definition push_dir (path : string) : MM unit := modify (fun s => ((s.1.1, path :: s.1.2), s.2)).

(** [conflict = true; return false;] *)
Definition conflicting : MM bool := set_conflict ;; mret false.
Definition some_or_undefined {A} (o : option A) : MM A :=
  match o with Some a => mret a | None => on_heap (undefined "null pointer") end.

(** The entries of a name in [dst] and [common] have the same contents. *)
Definition unchanged (ent cmm : ogl_entry) : MM bool :=
  match ent, cmm with
  | EFile f, EFile g => same_hash (f_hash f) (f_hash g)
  | EDir f, EDir g => same_hash (d_hash f) (d_hash g)
  | ESymlink f, ESymlink g => same_hash (l_hash f) (l_hash g)
  | ENonexistent _, ENonexistent _ | ELocal _, ELocal _ => mret true
  | _, _ => lift (Fault (Aborted "invalid ogl_type"))
  end.

Definition check_conflictions (dst : ogl_repo) : diff_handler (X:=merge_state) :=
  fun op srcparent cmmparent name =>
  sd ← on_heap (dir_at srcparent);
  dstparent ← on_heap (find_dir dst (get_path sd EmptyString));
  match op with
  | DIFF_ADD =>
      dp ← some_or_undefined dstparent;
      ent ← on_heap (lookup_name dp name);
      if ent is Some _ then conflicting else mret true
  | DIFF_RM | DIFF_MOD =>
      if dstparent is None then conflicting else
      dp ← some_or_undefined dstparent;
      dstent ← on_heap (lookup_name dp name);
      if dstent is None then conflicting else
      dc ← some_or_undefined dstent;
      cmment ← on_heap (lookup_name cmmparent name);
      sassert (bool_decide (is_Some cmment)) "cmment" ;;
      cc ← some_or_undefined cmment;
      de ← on_heap (entry_at dc); ce ← on_heap (entry_at cc);
      if negb (bool_decide (get_type ce = get_type de)) then conflicting else
      match op, de with
      | DIFF_MOD, EDir _ =>
          ent ← on_heap (lookup_name srcparent name);
          c ← some_or_undefined ent;
          e ← on_heap (entry_at c);
          (if bool_decide (get_type e = OGL_DIR) then push_dir (get_path sd name) else mret tt) ;;
          mret true
      | _, _ => ok ← unchanged de ce; if (ok : bool) then mret true else conflicting
      end
  end.

Definition apply_changes (dst : ogl_repo) : diff_handler (X:=merge_state) :=
  fun op srcparent cmmparent name =>
  sd ← on_heap (dir_at srcparent);
  dstparent ← on_heap (find_dir dst (get_path sd EmptyString));
  dp ← some_or_undefined dstparent;
  match op with
  | DIFF_MOD =>
      se ← on_heap (lookup_name srcparent name); sc ← some_or_undefined se;
      s ← on_heap (entry_at sc);
      both ← (if bool_decide (get_type s = OGL_DIR) then
                de ← on_heap (lookup_name dp name); dc ← some_or_undefined de;
                d ← on_heap (entry_at dc); mret (bool_decide (get_type d = OGL_DIR))
              else mret false);
      if (both : bool) then
        dd ← on_heap (dir_at dp); push_dir (get_path dd name) ;; mret true
      else
        on_heap (remove dp name) ;;
        c ← on_heap (clone sc dp);
        on_heap (add_entry dp name c) ;; mret true
  | DIFF_ADD =>
      se ← on_heap (lookup_name srcparent name);
      sassert (bool_decide (is_Some se)) "ent" ;;
      sc ← some_or_undefined se;
      c ← on_heap (clone sc dp);
      on_heap (add_entry dp name c) ;; mret true
  | DIFF_RM => on_heap (remove dp name) ;; mret true
  end.

(** The two loops over [dir_queue]; [false] on a conflict. *)
Fixpoint merge_loop (n : nat) (src common : ogl_repo) (handler : diff_handler (X:=merge_state)) : MM bool :=
  match n with
  | O => on_heap (undefined "out of fuel")
  | S n =>
      q ← gets (fun s => s.1.2);
      match q with
      | [] => mret true
      | dirname :: q =>
          modify (fun s => ((s.1.1, q), s.2)) ;;
          ent ← on_heap (find src dirname); c ← some_or_undefined ent;
          e ← on_heap (entry_at c);
          sassert (bool_decide (get_type e = OGL_DIR)) "dir" ;;
          cmment ← on_heap (find common dirname); cc ← some_or_undefined cmment;
          ce ← on_heap (entry_at cc);
          sassert (bool_decide (get_type ce = OGL_DIR)) "cmmdir" ;;
          diff c cc handler ;;
          conflict ← gets (fun s => s.1.1);
          if (conflict : bool) then mret false else merge_loop n src common handler
      end
  end.
Definition merge (n : nat) (src dst common : ogl_repo) : MM bool :=
  push_dir (root_path src) ;;
  ok ← merge_loop n src common (check_conflictions dst);
  if negb ok then mret false else
  push_dir (root_path src) ;;
  merge_loop n src common (apply_changes dst) ;;
  mret true.
End Merge.
