(* ===== verification/OglTree.v ===== *)
(** * oglfs: the tree and its marks

    The invariant of the heap of [Ogl]: parents are directories that were
    created before their children, and a directory's entries point back to it.
    A directory that is modified has modified parents only, which [commit]
    relies on when it skips what is not modified. *)

From S2P Require Import Prelude Otypes Ogl.
From Stdlib Require Import Strings.String.

(** ** The invariant *)
Definition dir_in (h : heap) (a : Z) (d : ogl_dir) : Prop := objs h !! a = Some (EDir d).

Definition child_of (a : Z) (name : string) (e : ogl_entry) : Prop :=
  match e with
  | EFile f => f_dir f = a ∧ f_filename f = name
  | EDir d => d_parent d = Some a ∧ d_dirname d = name
  | ESymlink l => l_dir l = a ∧ l_name l = name
  | _ => True
  end.

Record tree_ok (h : heap) : Prop := {
  tree_brk a e : objs h !! a = Some e → 0 ≤ a < brk h;
  tree_parent a d p : dir_in h a d → d_parent d = Some p → p < a ∧ ∃ pd, dir_in h p pd;
  tree_child a d name c : dir_in h a d → d_entries d !! name = Some c →
    ∃ e, objs h !! c = Some e ∧ child_of a name e;
  tree_marks a d p pd : dir_in h a d → d_parent d = Some p → dir_in h p pd →
    d_modified d = true → d_modified pd = true;
}.

(** A directory and its ancestors, up to the root. *)
Inductive chain (h : heap) : option Z → list Z → Prop :=
| chain_nil : chain h None []
| chain_cons a d l : dir_in h a d → chain h (d_parent d) l → chain h (Some a) (a :: l).

(** What a directory shows: the type of each name. *)
Definition type_in (h : heap) (c : Z) : option ogl_type := get_type <$> objs h !! c.
Definition listing (h : heap) (a : Z) (name : string) : option ogl_type :=
  match objs h !! a with
  | Some (EDir d) => c ← d_entries d !! name; type_in h c
  | _ => None
  end.
Definition is_modified (h : heap) (a : Z) : Prop := ∃ d, dir_in h a d ∧ d_modified d = true.

(** The same tree, but for flags: what [mark_modified] may change. *)
Definition mark (e : ogl_entry) : ogl_entry :=
  match e with EDir d => EDir (d_set_flags true (d_loaded d) d) | _ => e end.
Definition marked (h : heap) (l : list Z) (h' : heap) : Prop :=
  brk h' = brk h ∧
  ∀ x, objs h' !! x = if decide (x ∈ l) then mark <$> objs h !! x else objs h !! x.

Lemma mark_type e : get_type (mark e) = get_type e.
Proof. by destruct e. Qed.
Lemma mark_child a name e : child_of a name e → child_of a name (mark e).
Proof. by destruct e. Qed.
Lemma mark_mark e : mark (mark e) = mark e.
Proof. by destruct e as [|[]| | | |]. Qed.

Lemma marked_dir h l h' x d : marked h l h' → dir_in h x d →
  ∃ b, dir_in h' x (d_set_flags b (d_loaded d) d) ∧ (b = true ∨ b = d_modified d) ∧ (x ∈ l → b = true).
Proof.
  intros [_ H] Hd. unfold dir_in in *. rewrite H, Hd. case_decide.
  - by exists true; auto.
  - exists (d_modified d). split_and!; [by destruct d|by right|done].
Qed.
Lemma marked_dir_inv h l h' x d' : marked h l h' → dir_in h' x d' →
  ∃ d, dir_in h x d ∧ d_parent d' = d_parent d ∧ d_entries d' = d_entries d ∧
       d_dirname d' = d_dirname d ∧ d_loaded d' = d_loaded d ∧
       (if decide (x ∈ l) then d_modified d' = true else d' = d).
Proof.
  intros [_ H] Hd. unfold dir_in in *. rewrite H in Hd. case_decide.
  - destruct (objs h !! x) as [[| d | | | |]|]; try discriminate. injection Hd as <-. by exists d.
  - by exists d'.
Qed.
Lemma marked_listing h l h' : marked h l h' → ∀ x y, listing h' x y = listing h x y.
Proof.
  intros Hm x y. unfold listing.
  assert (∀ c, type_in h' c = type_in h c) as Ht.
  { intros c. unfold type_in. rewrite (proj2 Hm c). case_decide; [|done].
    destruct (objs h !! c); [cbn; by rewrite mark_type|done]. }
  rewrite (proj2 Hm x). case_decide; [|by destruct (objs h !! x) as [[]|]; cbn; rewrite ?Ht;
    try done; destruct (d_entries d !! y); cbn; rewrite ?Ht].
  destruct (objs h !! x) as [[| d | | | |]|]; try done. cbn. destruct (d_entries d !! y); cbn; by rewrite ?Ht.
Qed.

(** *** Deciding the invariant of a given heap *)
Definition placed (h : heap) (a : Z) (x : ogl_entry) : Prop :=
  0 ≤ a < brk h ∧
  match x with
  | EDir d =>
      match d_parent d with
      | Some p => p < a ∧
          match objs h !! p with Some (EDir pd) => d_modified d = true → d_modified pd = true | _ => False end
      | None => True
      end ∧
      map_Forall (fun n c => match objs h !! c with Some u => child_of a n u | None => False end) (d_entries d)
  | _ => True
  end.
#[local] Instance child_of_dec a n x : Decision (child_of a n x).
Proof. unfold child_of. destruct x; apply _. Defined.
#[local] Instance entry_placed_dec h a n c :
  Decision (match objs h !! c with Some u => child_of a n u | None => False end).
Proof. destruct (objs h !! c); apply _. Defined.
#[export] Instance placed_dec h a x : Decision (placed h a x).
Proof.
  unfold placed. destruct x as [|d| | | |]; try apply _.
  destruct (d_parent d) as [p|]; [destruct (objs h !! p) as [[]|]|]; apply _.
Defined.
Lemma placed_ok h : map_Forall (placed h) (objs h) → tree_ok h.
Proof.
  intros Hf. split.
  - intros a x Hx. apply (Hf a x Hx).
  - intros a d p Ha Hp. destruct (Hf a _ Ha) as (_ & Hq & _). rewrite Hp in Hq. destruct Hq as [Hlt Hq].
    split; [done|]. unfold dir_in. destruct (objs h !! p) as [[]|]; try done. by eexists.
  - intros a d name c Ha Hc. destruct (Hf a _ Ha) as (_ & _ & He). specialize (He name c Hc). cbn in He.
    destruct (objs h !! c) as [u|]; [by exists u|done].
  - intros a d p pd Ha Hp Hpd. destruct (Hf a _ Ha) as (_ & Hq & _). rewrite Hp in Hq.
    unfold dir_in in Hpd. rewrite Hpd in Hq. apply Hq.
Qed.

(** *** The chain of a directory *)
Section Chain.
Context (h : heap).
Hypothesis Hok : tree_ok h.

Lemma chain_exists a d : dir_in h a d → ∃ l, chain h (Some a) l.
Proof using Hok.
  remember (Z.to_nat a) as n eqn:Hn. revert a d Hn. induction (lt_wf n) as [n _ IH].
  intros a d -> Hd. destruct (d_parent d) as [p|] eqn:Hp.
  - destruct (tree_parent _ Hok _ _ _ Hd Hp) as [Hlt [pd Hpd]].
    pose proof (tree_brk _ Hok _ _ Hpd).
    destruct (IH (Z.to_nat p) ltac:(lia) p pd eq_refl Hpd) as [l Hl].
    exists (a :: l). econstructor; [done|]. by rewrite Hp.
  - exists [a]. econstructor; [done|]. rewrite Hp. constructor.
Qed.
Lemma chain_below o l : chain h o l → ∀ x, x ∈ l → x ∈ dom (objs h) ∧ ∀ a, o = Some a → x ≤ a.
Proof using Hok.
  induction 1 as [|a d l Hd Hc IH]; intros x Hx; [by apply not_elem_of_nil in Hx|].
  apply elem_of_cons in Hx as [->|Hx].
  - split; [apply elem_of_dom; by eexists|]. intros b [= ->]. lia.
  - destruct (IH x Hx) as [H1 H2]. split; [done|]. intros b [= <-].
    inversion Hc as [|p pd l' Hpd Hc' Ho Hl]; subst; [by apply not_elem_of_nil in Hx|].
    symmetry in Ho. destruct (tree_parent _ Hok _ _ _ Hd Ho). specialize (H2 p Ho). lia.
Qed.
Lemma chain_nodup o l : chain h o l → NoDup l.
Proof using Hok.
  induction 1 as [|a d l Hd Hc IH]; [apply NoDup_nil_2|]. apply NoDup_cons_2; [|done].
  intros Hin. inversion Hc as [|p pd l' Hpd Hc' Ho Hl]; subst; [by apply not_elem_of_nil in Hin|].
  symmetry in Ho. destruct (tree_parent _ Hok _ _ _ Hd Ho).
  destruct (chain_below _ _ Hc a Hin) as [_ H2]. specialize (H2 p Ho). lia.
Qed.
Lemma parents_length o l : chain h o l → (base.length l ≤ base.size (objs h))%nat.
Proof using Hok.
  intros Hc. rewrite <-size_dom, <-(size_list_to_set (C:=gset Z) l) by by eapply chain_nodup.
  apply subseteq_size. intros x Hx%elem_of_list_to_set. by eapply chain_below in Hx as [Hx _].
Qed.
End Chain.

(** ** mark_modified *)
Section Ops.
Context {E : Type} `{Os : repo_os E}.
Implicit Types (h : heap) (e : E).

Definition put (h : heap) (a : Z) (x : ogl_entry) : heap := Heap (<[a := x]> (objs h)) (brk h).

Lemma entry_at_step {B} a x h e (k : ogl_entry → ST (heap * E) B) :
  objs h !! a = Some x → (entry_at a ≫= k) (h, e) = k x (h, e).
Proof. intros H. apply ST_bind_step. unfold entry_at. cbn [fst]. by rewrite H. Qed.
Lemma dir_at_eq a d h e : dir_in h a d → dir_at a (h, e) = Ok (d, (h, e)).
Proof. intros H. unfold dir_at. by rewrite (entry_at_step _ _ _ _ _ H). Qed.
Lemma dir_at_step {B} a d h e (k : ogl_dir → M (E:=E) B) :
  dir_in h a d → (dir_at a ≫= k) (h, e) = k d (h, e).
Proof. intros H. apply ST_bind_step. by apply dir_at_eq. Qed.
Lemma put_entry_step {B} a x h e (k : unit → M (E:=E) B) :
  (put_entry a x ≫= k) (h, e) = k tt (put h a x, e).
Proof. done. Qed.
Lemma lookup_name_step {B} a d name h e (k : option Z → M (E:=E) B) :
  dir_in h a d → (lookup_name a name ≫= k) (h, e) = k (d_entries d !! name) (h, e).
Proof. intros H. apply ST_bind_step. unfold lookup_name. by rewrite (dir_at_step _ _ _ _ _ H). Qed.
Lemma upd_dir_step {B} a d f h e (k : unit → M (E:=E) B) :
  dir_in h a d → (upd_dir a f ≫= k) (h, e) = k tt (put h a (EDir (f d)), e).
Proof. intros H. apply ST_bind_step. unfold upd_dir. by rewrite (dir_at_step _ _ _ _ _ H). Qed.
Lemma new_entry_step {B} x h e (k : Z → M (E:=E) B) :
  (new_entry x ≫= k) (h, e) = k (brk h) (Heap (<[brk h := x]> (objs h)) (brk h + 1), e).
Proof. done. Qed.

Lemma chain_put_mark h a d o l :
  dir_in h a d → chain h o l → chain (put h a (mark (EDir d))) o l.
Proof.
  intros Hd. induction 1 as [|b d' l Hb _ IH]; [constructor|].
  unfold dir_in in *. destruct (decide (b = a)) as [->|Hne].
  - rewrite Hd in Hb. injection Hb as <-.
    apply (chain_cons _ a (d_set_flags true (d_loaded d) d)); [|exact IH].
    unfold dir_in, put. cbn [objs]. by rewrite lookup_insert_eq.
  - econstructor; [|exact IH]. unfold dir_in, put. cbn [objs]. by rewrite lookup_insert_ne.
Qed.

Lemma mark_loop_spec l : ∀ n o h e,
  chain h o l → (base.length l ≤ n)%nat →
  ∃ h', mark_loop n o (h, e) = Ok (tt, (h', e)) ∧ marked h l h'.
Proof.
  induction l as [|a l IH]; intros n o h e Hc Hn; inversion Hc as [|b d l' Hd Hc']; subst.
  - exists h. split; [by destruct n|]. split; [done|]. intros x.
    by rewrite decide_False by apply not_elem_of_nil.
  - destruct n as [|n]; [simpl in Hn; lia|]. cbn [mark_loop]. rewrite (dir_at_step _ _ _ _ _ Hd), put_entry_step.
    set (h1 := put h a (EDir (d_set_flags true (d_loaded d) d))).
    destruct (IH n (d_parent d) h1 e) as (h' & Hrun & Hb & Hm).
    { by apply (chain_put_mark h a d). }
    { simpl in Hn. lia. }
    exists h'. split; [done|]. split; [done|]. intros x. rewrite Hm. subst h1. cbn [put objs].
    unfold dir_in in Hd. destruct (decide (x = a)) as [->|Hne].
    + rewrite lookup_insert_eq, Hd, (decide_True (P := a ∈ a :: l)) by by left.
      cbn. by case_decide.
    + rewrite lookup_insert_ne by done. apply decide_ext. rewrite elem_of_cons. naive_solver.
Qed.

Lemma mark_modified_spec h e a d : tree_ok h → dir_in h a d →
  ∃ h' l, mark_modified a (h, e) = Ok (tt, (h', e)) ∧ chain h (Some a) l ∧ marked h l h'.
Proof.
  intros Hok Hd. destruct (chain_exists h Hok a d Hd) as [l Hl].
  destruct (mark_loop_spec l (heap_fuel (h, e)) (Some a) h e Hl) as (h' & Hrun & Hm).
  { pose proof (parents_length h Hok _ _ Hl). unfold heap_fuel. cbn [fst]. lia. }
  exists h', l. split_and!; [|done|done]. unfold mark_modified. mstep. exact Hrun.
Qed.

(** A chain of marks keeps the invariant. *)
Lemma chain_parent h o l x d p : chain h o l → x ∈ l → dir_in h x d → d_parent d = Some p → p ∈ l.
Proof.
  induction 1 as [|a d' l Hd' Hc IH]; intros Hx Hd Hp; [by apply not_elem_of_nil in Hx|].
  apply elem_of_cons in Hx as [->|Hx]; [|right; by apply IH].
  unfold dir_in in *. rewrite Hd in Hd'. injection Hd' as ->. right.
  rewrite Hp in Hc. inversion Hc. by left.
Qed.
Lemma marked_ok h o l h' : tree_ok h → chain h o l → marked h l h' → tree_ok h'.
Proof.
  intros Hok Hc Hm. pose proof Hm as [Hb Hl]. split.
  - intros a x Ha. rewrite Hb. rewrite Hl in Ha. case_decide; [|by apply (tree_brk _ Hok _ x)].
    destruct (objs h !! a) as [y|] eqn:Hy; [|done]. by apply (tree_brk _ Hok _ y).
  - intros a d p Ha Hp. destruct (marked_dir_inv _ _ _ _ _ Hm Ha) as (d0 & H0 & Hp0 & _).
    rewrite Hp0 in Hp. destruct (tree_parent _ Hok _ _ _ H0 Hp) as [Hlt [pd Hpd]].
    split; [done|]. destruct (marked_dir _ _ _ _ _ Hm Hpd) as (b & Hb' & _). by eexists.
  - intros a d name c Ha Hn. destruct (marked_dir_inv _ _ _ _ _ Hm Ha) as (d0 & H0 & _ & He & _).
    rewrite He in Hn. destruct (tree_child _ Hok _ _ _ _ H0 Hn) as (x & Hx & Hch).
    rewrite Hl, Hx. case_decide; [|by exists x].
    exists (mark x). split; [done|by apply mark_child].
  - intros a d p pd Ha Hp Hpd Hmod.
    destruct (marked_dir_inv _ _ _ _ _ Hm Ha) as (d0 & H0 & Hp0 & _ & _ & _ & Hd0).
    destruct (marked_dir_inv _ _ _ _ _ Hm Hpd) as (pd0 & Hpd0 & _ & _ & _ & _ & Hd1).
    rewrite Hp0 in Hp. destruct (decide (p ∈ l)); [done|]. subst pd0.
    case_decide as Hal; [by destruct n; eapply chain_parent|]. subst d0.
    exact (tree_marks _ Hok a d p pd H0 Hp Hpd0 Hmod).
Qed.

(** *** New entries and changed directories *)
Definition allot (h : heap) (x : ogl_entry) : heap := Heap (<[brk h := x]> (objs h)) (brk h + 1).
(** A new entry: a directory starts empty, unmodified and below an existing one. *)
Definition fresh_ok (h : heap) (x : ogl_entry) : Prop :=
  match x with
  | EDir d => d_entries d = ∅ ∧ d_modified d = false ∧
              ∀ p, d_parent d = Some p → ∃ pd, dir_in h p pd
  | _ => True
  end.
Lemma fresh_none h c : tree_ok h → brk h ≤ c → objs h !! c = None.
Proof.
  intros Hok Hc. destruct (objs h !! c) as [x|] eqn:Hx; [|done].
  pose proof (tree_brk _ Hok _ _ Hx). lia.
Qed.
Lemma allot_old h x a y0 : tree_ok h → objs h !! a = Some y0 → objs (allot h x) !! a = Some y0.
Proof. intros Hok Ha. cbn. pose proof (tree_brk _ Hok _ _ Ha). by rewrite lookup_insert_ne by lia. Qed.

Lemma allot_fresh_ok h x : tree_ok h → 0 ≤ brk h → fresh_ok h x → tree_ok (allot h x).
Proof.
  intros Hok Hb Hx.
  assert (∀ y d', dir_in (allot h x) y d' → (y = brk h ∧ x = EDir d') ∨ (y ≠ brk h ∧ dir_in h y d')) as Hcase.
  { intros y d' Hy. unfold dir_in, allot in *. cbn [objs] in Hy.
    destruct (decide (y = brk h)) as [->|Hne]; [left|right].
    - rewrite lookup_insert_eq in Hy. by injection Hy as ->.
    - by rewrite lookup_insert_ne in Hy. }
  split.
  - intros y y0 Hy. cbn in *. destruct (decide (y = brk h)) as [->|Hne]; [lia|].
    rewrite lookup_insert_ne in Hy by done. pose proof (tree_brk _ Hok _ _ Hy). lia.
  - intros y d' p Hy Hp. destruct (Hcase _ _ Hy) as [[-> ->]|[Hne Hy']].
    + destruct Hx as (_ & _ & Hx). destruct (Hx _ Hp) as [pd Hpd].
      pose proof (tree_brk _ Hok _ _ Hpd). split; [lia|]. exists pd. by apply allot_old.
    + destruct (tree_parent _ Hok _ _ _ Hy' Hp) as [Hlt [pd Hpd]].
      split; [done|]. exists pd. by apply allot_old.
  - intros y d' name c Hy Hn. destruct (Hcase _ _ Hy) as [[-> ->]|[Hne Hy']].
    + destruct Hx as (Hx & _). by rewrite Hx in Hn.
    + destruct (tree_child _ Hok _ _ _ _ Hy' Hn) as (y0 & He & Hch). exists y0.
      split; [by apply allot_old|done].
  - intros y d' p pd Hy Hp Hpd Hm. destruct (Hcase _ _ Hy) as [[-> ->]|[Hne Hy']].
    + destruct Hx as (_ & Hx & _). congruence.
    + destruct (tree_parent _ Hok _ _ _ Hy' Hp) as [Hlt [pd' Hpd']].
      pose proof (allot_old h x p _ Hok Hpd') as Heq. unfold dir_in in Hpd. rewrite Heq in Hpd.
      injection Hpd as <-. exact (tree_marks _ Hok _ _ _ _ Hy' Hp Hpd' Hm).
Qed.

Lemma allot_ok h x a d : tree_ok h → dir_in h a d → fresh_ok h x → tree_ok (allot h x).
Proof. intros Hok Ha. pose proof (tree_brk _ Hok _ _ Ha). apply allot_fresh_ok; [done|lia]. Qed.

(** A directory gets other entries or another [loaded]. *)
Lemma put_dir_ok h a d d' : tree_ok h → dir_in h a d →
  d_parent d' = d_parent d → d_dirname d' = d_dirname d → d_modified d' = d_modified d →
  (∀ name c, d_entries d' !! name = Some c → ∃ y, objs h !! c = Some y ∧ child_of a name y) →
  tree_ok (put h a (EDir d')).
Proof.
  intros Hok Ha Hp Hn Hm Hch.
  assert (∀ y d1, dir_in (put h a (EDir d')) y d1 →
    ∃ d0, dir_in h y d0 ∧ d_parent d1 = d_parent d0 ∧ d_modified d1 = d_modified d0 ∧
      (y = a ∧ d1 = d' ∨ d1 = d0)) as Hcase.
  { intros y d1 Hy. unfold dir_in, put in *. cbn [objs] in Hy. destruct (decide (y = a)) as [->|Hne].
    - rewrite lookup_insert_eq in Hy. injection Hy as <-. exists d. by auto 6.
    - rewrite lookup_insert_ne in Hy by done. exists d1. by auto 6. }
  assert (∀ y d0, dir_in h y d0 → ∃ d1, dir_in (put h a (EDir d')) y d1) as Hdirs.
  { intros y d0 Hy. unfold dir_in, put in *. cbn [objs]. destruct (decide (y = a)) as [->|Hne].
    - rewrite lookup_insert_eq. by eexists.
    - rewrite lookup_insert_ne by done. by eexists. }
  split.
  - intros y y0 Hy. cbn in *. destruct (decide (y = a)) as [->|Hne]; [exact (tree_brk _ Hok _ _ Ha)|].
    rewrite lookup_insert_ne in Hy by done. exact (tree_brk _ Hok _ _ Hy).
  - intros y d1 p Hy Hp1. destruct (Hcase _ _ Hy) as (d0 & H0 & Hpe & _). rewrite Hpe in Hp1.
    destruct (tree_parent _ Hok _ _ _ H0 Hp1) as [Hlt [pd Hpd]]. split; [done|]. by eapply Hdirs.
  - intros y d1 name c Hy Hc. destruct (Hcase _ _ Hy) as (d0 & H0 & _ & _ & Hd).
    assert (∃ z, objs h !! c = Some z ∧ child_of y name z) as (y0 & He & Hce).
    { destruct Hd as [[-> ->]| ->]; [by apply Hch|by apply (tree_child _ Hok _ d0)]. }
    cbn [put objs]. destruct (decide (c = a)) as [->|Hne].
    + rewrite lookup_insert_eq. exists (EDir d'). split; [done|].
      unfold dir_in in Ha. rewrite Ha in He. injection He as <-. cbn in *. by rewrite Hp, Hn.
    + rewrite lookup_insert_ne by done. by exists y0.
  - intros y d1 p pd Hy Hp1 Hpd Hm1. destruct (Hcase _ _ Hy) as (d0 & H0 & Hpe & Hme & _).
    destruct (Hcase _ _ Hpd) as (pd0 & Hpd0 & _ & Hmpe & _). rewrite Hpe in Hp1.
    rewrite Hme in Hm1. rewrite Hmpe. exact (tree_marks _ Hok _ _ _ _ H0 Hp1 Hpd0 Hm1).
Qed.

(** Chains only depend on the parents. *)
Lemma chain_transfer h h' o l :
  (∀ x d, dir_in h x d → ∃ d', dir_in h' x d' ∧ d_parent d' = d_parent d) →
  chain h o l → chain h' o l.
Proof.
  intros Ht. induction 1 as [|a d l Hd _ IH]; [constructor|].
  destruct (Ht _ _ Hd) as (d' & Hd' & Hp). apply (chain_cons _ a d'); [done|by rewrite Hp].
Qed.
Lemma mark_modified_chain h e o a l : tree_ok h → o = Some a → chain h o l →
  ∃ h', mark_modified a (h, e) = Ok (tt, (h', e)) ∧ marked h l h' ∧ tree_ok h'.
Proof.
  intros Hok -> Hl. destruct (mark_loop_spec l (heap_fuel (h, e)) (Some a) h e Hl) as (h' & Hrun & Hm).
  { pose proof (parents_length h Hok _ _ Hl). unfold heap_fuel. cbn [fst]. lia. }
  exists h'. split_and!; [unfold mark_modified; mstep; exact Hrun|done|by eapply marked_ok].
Qed.
Lemma marked_modified h l h' x d : marked h l h' → dir_in h x d → x ∈ l → is_modified h' x.
Proof.
  intros Hm Hd Hx. destruct (marked_dir _ _ _ _ _ Hm Hd) as (b & H1 & _ & H2).
  eexists. split; [done|]. by apply H2.
Qed.

(** *** Listings *)
Lemma listing_dir h a d name : dir_in h a d → listing h a name = (c ← d_entries d !! name; type_in h c).
Proof. intros H. unfold listing. by rewrite H. Qed.
Lemma listing_allot h x : tree_ok h → fresh_ok h x → ∀ y name, listing (allot h x) y name = listing h y name.
Proof.
  intros Hok Hx y name. unfold listing, allot. cbn [objs].
  destruct (decide (y = brk h)) as [->|Hne].
  - rewrite lookup_insert_eq, (fresh_none h (brk h) Hok) by lia. destruct x; try done.
    destruct Hx as [-> _]. done.
  - rewrite lookup_insert_ne by done. destruct (objs h !! y) as [[|d| | | |]|] eqn:Hy; try done.
    destruct (d_entries d !! name) as [c|] eqn:Hc; [|done]. cbn.
    destruct (tree_child _ Hok _ _ _ _ Hy Hc) as (y0 & He & _). unfold type_in. cbn.
    pose proof (tree_brk _ Hok _ _ He). by rewrite lookup_insert_ne by lia.
Qed.
Lemma listing_put h a d d' y name : dir_in h a d →
  listing (put h a (EDir d')) y name =
  if decide (y = a) then (c ← d_entries d' !! name; type_in h c) else listing h y name.
Proof.
  intros Ha. assert (∀ c, type_in (put h a (EDir d')) c = type_in h c) as Ht.
  { intros c. unfold type_in, put. cbn [objs]. destruct (decide (c = a)) as [->|Hne].
    - rewrite lookup_insert_eq. unfold dir_in in Ha. by rewrite Ha.
    - by rewrite lookup_insert_ne. }
  unfold listing. cbn [put objs]. case_decide as Hy; [subst y|].
  - rewrite lookup_insert_eq. destruct (d_entries d' !! name); cbn; by rewrite ?Ht.
  - rewrite lookup_insert_ne by done. destruct (objs h !! y) as [[| d0 | | | |]|]; try done.
    destruct (d_entries d0 !! name); cbn; by rewrite ?Ht.
Qed.
Lemma listing_none h a d name : tree_ok h → dir_in h a d →
  listing h a name = None ↔ d_entries d !! name = None.
Proof.
  intros Hok Ha. rewrite (listing_dir _ _ _ _ Ha). destruct (d_entries d !! name) as [c|] eqn:Hc; [|done].
  destruct (tree_child _ Hok _ _ _ _ Ha Hc) as (x & Hx & _). unfold type_in. cbn. by rewrite Hx.
Qed.

(** ** The operations on names *)

(** [h'] is [h] with the type of one name changed, and the directory and its
    ancestors marked. *)
Record name_set (h : heap) (a : Z) (name : string) (t : option ogl_type) (h' : heap) : Prop := {
  set_ok : tree_ok h';
  set_listing y n : listing h' y n = if decide (y = a ∧ n = name) then t else listing h y n;
  set_marks l x : chain h (Some a) l → x ∈ l → is_modified h' x;
}.

(** The last steps of every operation: the entries of [a] become [m], and
    its chain is marked. *)
Lemma finish_spec h e a d m name t (h0 : heap) :
  tree_ok h → dir_in h a d →
  (∀ n c, m !! n = Some c → ∃ y, objs h !! c = Some y ∧ child_of a n y) →
  (∀ x d', dir_in h0 x d' → ∃ d'', dir_in h x d'' ∧ d_parent d'' = d_parent d') →
  (∃ d', dir_in h0 a d') → tree_ok h0 →
  (∀ y n, listing h y n = listing h0 y n) →
  (∀ n, (c ← m !! n; type_in h c) = if decide (n = name) then t else listing h a n) →
  ∃ h', mark_modified a (put h a (EDir (d_set_entries m d)), e) = Ok (tt, (h', e)) ∧
        name_set h0 a name t h'.
Proof.
  intros Hok Ha Hm Hpar [da Hda] Hok0 Hl Ht.
  set (h1 := put h a (EDir (d_set_entries m d))).
  assert (tree_ok h1) as Hok1 by by eapply put_dir_ok.
  assert (∀ x d', dir_in h0 x d' → ∃ d'', dir_in h1 x d'' ∧ d_parent d'' = d_parent d') as Hpar1.
  { intros x d' Hx. destruct (Hpar _ _ Hx) as (d'' & Hx' & Hp). unfold dir_in, h1, put in *. cbn [objs].
    destruct (decide (x = a)) as [->|Hne]; [|rewrite lookup_insert_ne by done; by exists d''].
    rewrite lookup_insert_eq. eexists; split; [reflexivity|]. rewrite Ha in Hx'. by injection Hx' as <-. }
  destruct (chain_exists h0 Hok0 a da Hda) as [l Hc].
  pose proof (chain_transfer _ _ _ _ Hpar1 Hc) as Hc1.
  destruct (mark_modified_chain h1 e _ a l Hok1 eq_refl Hc1) as (h' & Hrun & Hmk & Hok').
  exists h'. split; [done|]. split; [done| |].
  - intros y n. rewrite (marked_listing _ _ _ Hmk). unfold h1. rewrite (listing_put _ _ _ _ _ _ Ha), <-Hl.
    cbn [d_entries d_set_entries]. destruct (decide (y = a)) as [->|]; [|by rewrite decide_False by naive_solver].
    rewrite Ht. apply decide_ext. naive_solver.
  - intros l' x Hc' Hx. pose proof (chain_transfer _ _ _ _ Hpar1 Hc') as Hc1'.
    destruct (mark_modified_chain h1 e _ a l' Hok1 eq_refl Hc1') as (h'' & Hrun' & Hmk' & _).
    rewrite Hrun in Hrun'. injection Hrun' as <-.
    assert (∃ dx, dir_in h1 x dx) as [dx Hdx].
    { clear -Hc1' Hx. induction Hc1'; [by apply not_elem_of_nil in Hx|].
      apply elem_of_cons in Hx as [->|]; eauto. }
    by eapply marked_modified.
Qed.

(** A new entry that is not a directory. *)
Lemma add_leaf_spec h e a d name x :
  tree_ok h → dir_in h a d → child_of a name x → get_type x ≠ OGL_DIR →
  ∃ h', (c ← new_entry x; set_entry a name c ;; mark_modified a ;; mret true) (h, e) =
          Ok (true, (h', e)) ∧ name_set h a name (Some (get_type x)) h'.
Proof.
  intros Hok Ha Hch Hx. assert (fresh_ok h x) as Hf by by destruct x.
  pose proof (allot_ok h x a d Hok Ha Hf) as Hok1.
  pose proof (allot_old h x a _ Hok Ha) as Ha1.
  destruct (finish_spec (allot h x) e a d (<[name := brk h]> (d_entries d)) name (Some (get_type x)) h)
    as (h' & Hrun & Hset); try done.
  - intros n c Hn. destruct (decide (n = name)) as [->|Hne].
    + rewrite lookup_insert_eq in Hn. injection Hn as <-. exists x. split; [|done].
      cbn. by rewrite lookup_insert_eq.
    + rewrite lookup_insert_ne in Hn by done.
      destruct (tree_child _ Hok _ _ _ _ Ha Hn) as (y & Hy & Hyc). exists y.
      split; [by apply allot_old|done].
  - intros y d' Hy. exists d'. split; [by apply allot_old|done].
  - by exists d.
  - by apply listing_allot.
  - intros n. destruct (decide (n = name)) as [->|Hne].
    + rewrite lookup_insert_eq. cbn. unfold type_in. cbn. by rewrite lookup_insert_eq.
    + rewrite lookup_insert_ne by done. by rewrite (listing_dir _ _ _ _ Ha1).
  - exists h'. split; [|done]. rewrite new_entry_step.
    rewrite (ST_bind_step _ _ _ tt (put (allot h x) a (EDir (d_set_entries (<[name := brk h]> (d_entries d)) d)), e)).
    2:{ unfold set_entry, upd_dir. by rewrite (dir_at_step _ _ _ _ _ Ha1). }
    by rewrite (ST_bind_step _ _ _ _ _ Hrun).
Qed.

(** What an operation that adds a name promises. *)
Definition adds (op : Z → string → ST (heap * E) bool) (t : ogl_type) : Prop :=
  ∀ h e a d name, tree_ok h → dir_in h a d →
    if decide (listing h a name = None)
    then ∃ h', op a name (h, e) = Ok (true, (h', e)) ∧ name_set h a name (Some t) h'
    else op a name (h, e) = Ok (false, (h, e)).

Lemma adds_leaf op t (mk : ogl_dir → Z → string → ogl_entry) :
  t ≠ OGL_DIR → (∀ d a name, get_type (mk d a name) = t ∧ child_of a name (mk d a name)) →
  (∀ a name, op a name = (e ← lookup_name a name;
     if e is Some _ then mret false else
     d ← dir_at a; c ← new_entry (mk d a name);
     set_entry a name c ;; mark_modified a ;; mret true)) →
  adds op t.
Proof.
  intros Ht Hmk Hop h e a d name Hok Ha. rewrite Hop, (lookup_name_step _ _ _ _ _ _ Ha).
  destruct (Hmk d a name) as [Hty Hch].
  case_decide as Hl; rewrite (listing_none _ _ _ _ Hok Ha) in Hl.
  - rewrite Hl, (dir_at_step _ _ _ _ _ Ha), <-Hty. apply add_leaf_spec with d; try done. by rewrite Hty.
  - by destruct (d_entries d !! name).
Qed.

(** A directory [c] that is in the heap already becomes an entry of [a]. *)
Lemma link_spec h e a d name c dc (h0 : heap) :
  tree_ok h → dir_in h a d → dir_in h c dc → d_parent dc = Some a → d_dirname dc = name →
  (∀ y n, listing h y n = listing h0 y n) →
  (∀ l x, chain h0 (Some a) l → x ∈ l → is_modified h x) →
  ∃ h', (set_entry a name c ;; mret true) (h, e) = Ok (true, (h', e)) ∧
        name_set h0 a name (Some OGL_DIR) h'.
Proof.
  intros Hok Ha Hc Hp Hn Hl Hmk.
  set (h' := put h a (EDir (d_set_entries (<[name := c]> (d_entries d)) d))).
  exists h'. split.
  { rewrite (ST_bind_step _ _ _ tt (h', e)); [done|].
    unfold set_entry, upd_dir. by rewrite (dir_at_step _ _ _ _ _ Ha). }
  split.
  - eapply put_dir_ok; [done|done|done|done|done|]. intros n x Hx. cbn in Hx.
    destruct (decide (n = name)) as [->|Hne].
    + rewrite lookup_insert_eq in Hx. injection Hx as <-. by exists (EDir dc).
    + rewrite lookup_insert_ne in Hx by done. by apply (tree_child _ Hok _ d).
  - intros y n. unfold h'. rewrite (listing_put _ _ _ _ _ _ Ha), <-Hl. cbn [d_entries d_set_entries].
    destruct (decide (y = a)) as [->|]; [|by rewrite decide_False by naive_solver].
    destruct (decide (n = name)) as [->|Hne].
    + rewrite lookup_insert_eq, decide_True by done. cbn. unfold type_in. unfold dir_in in Hc. by rewrite Hc.
    + rewrite lookup_insert_ne, decide_False by naive_solver. by rewrite (listing_dir _ _ _ _ Ha).
  - intros l x Hc' Hx. destruct (Hmk _ _ Hc' Hx) as (dx & Hdx & Hm). unfold is_modified, dir_in, h', put in *.
    cbn [objs]. destruct (decide (x = a)) as [->|Hne].
    + rewrite lookup_insert_eq. eexists; split; [reflexivity|]. rewrite Ha in Hdx. by injection Hdx as ->.
    + rewrite lookup_insert_ne by done. by exists dx.
Qed.

Lemma add_dir_adds : adds add_dir OGL_DIR.
Proof.
  intros h e a d name Hok Ha. unfold add_dir. rewrite (lookup_name_step _ _ _ _ _ _ Ha).
  case_decide as Hl; rewrite (listing_none _ _ _ _ Hok Ha) in Hl; [|by destruct (d_entries d !! name)].
  rewrite Hl, (dir_at_step _ _ _ _ _ Ha), new_entry_step.
  set (nd := new_dir (d_repo d) (Some (a, d)) name). set (c := brk h).
  assert (fresh_ok h (EDir nd)) as Hf by (split_and!; [done|done|]; intros p [= <-]; by exists d).
  pose proof (allot_ok h _ a d Hok Ha Hf) as Hok1. fold (allot h (EDir nd)).
  assert (dir_in (allot h (EDir nd)) c nd) as Hc1 by (unfold dir_in, allot; cbn; by rewrite lookup_insert_eq).
  rewrite (upd_dir_step _ _ _ _ _ _ Hc1).
  set (nd' := d_set_flags (d_modified nd) true nd). set (h2 := put (allot h (EDir nd)) c (EDir nd')).
  assert (tree_ok h2) as Hok2 by by apply (put_dir_ok _ c nd).
  assert (c ≠ a) as Hca by (pose proof (tree_brk _ Hok _ _ Ha); subst c; lia).
  assert (∀ x dx, dir_in h x dx → dir_in h2 x dx) as Hold.
  { intros x dx Hx. pose proof (tree_brk _ Hok _ _ Hx). unfold dir_in, h2, put. cbn [objs].
    rewrite lookup_insert_ne by (subst c; lia). by apply allot_old. }
  assert (dir_in h2 c nd') as Hc2 by (unfold dir_in, h2, put; cbn; by rewrite lookup_insert_eq).
  destruct (chain_exists h Hok a d Ha) as [l Hc].
  assert (chain h2 (Some c) (c :: l)) as Hch.
  { apply (chain_cons _ c nd'); [done|]. apply (chain_transfer h); [|done].
    intros x dx Hx. exists dx. by split; [apply Hold|]. }
  destruct (mark_modified_chain h2 e _ c _ Hok2 eq_refl Hch) as (h3 & Hrun & Hm & Hok3).
  rewrite (ST_bind_step _ _ _ _ _ Hrun).
  destruct (marked_dir _ _ _ _ _ Hm (Hold _ _ Ha)) as (b & Ha3 & _).
  destruct (marked_dir _ _ _ _ _ Hm Hc2) as (b' & Hc3 & _).
  eapply link_spec; [done|exact Ha3|exact Hc3|done|done| |].
  - intros y n. rewrite (marked_listing _ _ _ Hm). unfold h2. rewrite (listing_put _ _ _ _ _ _ Hc1).
    case_decide as Hy; [subst y|by apply listing_allot].
    cbn. unfold listing. by rewrite (fresh_none h c Hok) by (subst c; lia).
  - intros l' x Hc' Hx.
    assert (chain h2 (Some c) (c :: l')) as Hch'.
    { apply (chain_cons _ c nd'); [done|]. apply (chain_transfer h); [|done].
      intros z dz Hz. exists dz. by split; [apply Hold|]. }
    destruct (mark_modified_chain h2 e _ c _ Hok2 eq_refl Hch') as (h4 & Hrun' & Hm' & _).
    rewrite Hrun in Hrun'. injection Hrun' as <-.
    assert (∃ dx, dir_in h x dx) as [dx Hdx].
    { clear -Hc' Hx. induction Hc'; [by apply not_elem_of_nil in Hx|].
      apply elem_of_cons in Hx as [->|]; eauto. }
    eapply marked_modified; [done|by apply Hold|by right].
Qed.

(** C22: adding a name to a directory, in any of the five ways, refuses a name
    that is there; otherwise the directory gets exactly this name, of the
    operation's type, every other listing in the tree stays as it was, and the
    directory and all of its ancestors up to the root are marked modified.
    The tree stays well-formed, and the walk to the root terminates. *)
Theorem adding_names :
  adds add_file OGL_FILE ∧ adds add_dir OGL_DIR ∧ adds add_symlink OGL_SYMLINK ∧
  adds mark_local OGL_LOCAL ∧ adds mark_nonexistent OGL_NONEXISTENT.
Proof.
  split_and!; [|exact add_dir_adds|..].
  - by apply (adds_leaf _ _ (fun d a name => EFile (new_file (d_repo d) a name))).
  - by apply (adds_leaf _ _ (fun d a name => ESymlink (new_symlink (d_repo d) a name))).
  - by apply (adds_leaf _ _ (fun d a name => ELocal (d_repo d))).
  - by apply (adds_leaf _ _ (fun d a name => ENonexistent (d_repo d))).
Qed.

(** [remove] takes exactly one name out of a directory, and refuses one
    that is not there; [mark_removed] puts a placeholder in the place of
    whatever the name was, without looking; both mark the directory and its
    ancestors. *)
Theorem removing_names h e a d name :
  tree_ok h → dir_in h a d →
  (if decide (listing h a name = None)
   then remove a name (h, e) = Ok (false, (h, e))
   else ∃ h', remove a name (h, e) = Ok (true, (h', e)) ∧ name_set h a name None h') ∧
  (∃ h', mark_removed a name (h, e) = Ok (true, (h', e)) ∧ name_set h a name (Some OGL_REMOVED) h').
Proof.
  intros Hok Ha. split.
  - unfold remove. rewrite (lookup_name_step _ _ _ _ _ _ Ha).
    case_decide as Hl; rewrite (listing_none _ _ _ _ Hok Ha) in Hl; [by rewrite Hl|].
    destruct (d_entries d !! name) as [c|]; [|done].
    rewrite (upd_dir_step _ _ _ _ _ _ Ha).
    destruct (finish_spec h e a d (delete name (d_entries d)) name None h) as (h' & Hrun & Hset); try done.
    + intros n x Hn. apply lookup_delete_Some in Hn as [_ Hn]. by apply (tree_child _ Hok _ d).
    + intros x d' Hx. by exists d'.
    + by exists d.
    + intros n. destruct (decide (n = name)) as [->|Hne]; [by rewrite lookup_delete_eq|].
      rewrite lookup_delete_ne by done. by rewrite (listing_dir _ _ _ _ Ha).
    + exists h'. split; [|done]. by rewrite (ST_bind_step _ _ _ _ _ Hrun).
  - unfold mark_removed. rewrite (dir_at_step _ _ _ _ _ Ha).
    by apply (add_leaf_spec h e a d name (ERemoved (d_repo d))).
Qed.
End Ops.
