(* ===== verification/OglHash.v ===== *)
(** * oglfs: hash codes

    The hash code of an object or a file is the number that the first eight
    bytes of its SHA-256 digest are. *)

From S2P Require Import Prelude Sha2 Sha2Spec Otypes Ogl OglTree.
From Stdlib Require Import Strings.String.

Definition hash_code (bytes : list byte) : Z := digest_hash (FIPS.SHA256 bytes).

Lemma final_hash_absorbed c msg : absorbed c msg → final_hash c = Ok (hash_code msg).
Proof.
  intros Hc. unfold final_hash.
  rewrite (outcome_bind_step _ _ _ (final_spec c msg (replicate 32 NUL) Hc eq_refl)).
  unfold hash_code. by generalize (FIPS.SHA256 msg).
Qed.
Lemma compute_hash_buf_eq buf : compute_hash_buf buf = Ok (hash_code buf).
Proof.
  unfold compute_hash_buf. destruct (update_spec SHA256_Init [] buf absorbed_init) as (c & -> & Hc). ostep.
  by apply final_hash_absorbed.
Qed.
Lemma hash_chunks_eq chunks :
  (c ← SHA256_Updates SHA256_Init chunks; final_hash c) = Ok (hash_code (List.concat chunks)).
Proof.
  destruct (updates_spec chunks SHA256_Init [] absorbed_init) as (c & -> & Hc). ostep. by apply final_hash_absorbed.
Qed.
Lemma hash_code_range bytes : 0 ≤ hash_code bytes < 2 ^ 64.
Proof.
  unfold hash_code, digest_hash. generalize (take 8 (FIPS.SHA256 bytes)). intros l.
  assert (∀ h, 0 ≤ h < 2 ^ 64 → 0 ≤ foldl (fun h b => u64 (Z.lor (Z.shiftl h 8) (Z_of_byte b))) h l < 2 ^ 64) as H; [|by apply H].
  induction l as [|b l IH]; intros h Hh; [done|]. cbn [foldl]. apply IH, u64_range.
Qed.

(** ** Steps of the world and of pure computations *)
Section Steps.
Context {E : Type} `{Os : repo_os E}.
Lemma os_step {A B} (m : ST E A) (k : A → M (E:=E) B) h e a e' :
  m e = Ok (a, e') → (os m ≫= k) (h, e) = k a (h, e').
Proof. intros H. apply ST_bind_step. unfold os. cbn [snd fst]. by rewrite H. Qed.
Lemma lift_step {A B} (o : outcome A) (k : A → M (E:=E) B) h e a :
  o = Ok a → (lift o ≫= k) (h, e) = k a (h, e).
Proof. intros ->. done. Qed.
Lemma sassert_step {B} (b : bool) s (k : unit → M (E:=E) B) h e :
  b = true → (sassert b s ≫= k) (h, e) = k tt (h, e).
Proof. intros ->. done. Qed.

(** [compute_hashcode] gives a file the hash code that [compute_hash_buf]
    gives to its whole contents, however the reads have cut them, then
    collects the permissions; when the file cannot be read it fails and
    changes nothing, and when [lstat] fails it fails although the hash code has
    been set and is marked valid. *)
Theorem compute_hashcode_spec (h : heap) (e e1 e2 : E) a f d r st :
  dir_in h (f_dir f) d →
  os_read_file (get_path d (f_filename f)) e = Ok (r, e1) →
  os_lstat (get_path d (f_filename f)) e1 = Ok (st, e2) →
  match r with
  | None => compute_hashcode a f (h, e) = Ok (false, (h, e1))
  | Some chunks =>
      ∃ hash, compute_hash_buf (List.concat chunks) = Ok hash ∧
        let f1 := f_set_hash (Some hash) true f in
        compute_hashcode a f (h, e) =
          match st with
          | None => Ok (false, (OglTree.put h a (EFile f1), e2))
          | Some st => Ok (true, (OglTree.put h a (EFile (f_set_perms (collect_perms st) f1)), e2))
          end
  end.
Proof.
  intros Hd Hr Hst. unfold compute_hashcode. rewrite (dir_at_step _ _ _ _ _ Hd), (os_step _ _ _ _ _ _ Hr).
  destruct r as [chunks|]; [|done]. exists (hash_code (List.concat chunks)).
  split; [apply compute_hash_buf_eq|]. cbv zeta.
  rewrite (lift_step _ _ _ _ _ (hash_chunks_eq chunks)), put_entry_step, (os_step _ _ _ _ _ _ Hst).
  destruct st as [st|]; [|done]. rewrite put_entry_step. unfold OglTree.put. cbn [objs brk].
  by rewrite insert_insert_eq.
Qed.
End Steps.
