(* ===== verification/OglSpec.v ===== *)
(** * oglfs: comparing trees, paths, references and commits

    What [diff] reports, what [find] makes of a path, the root reference, and
    a modification that [commit] cannot write. *)

From stdpp Require Import sorting.
From S2P Require Import Prelude Otypes Ogl OglMerge OglTree.
From Stdlib Require Import Strings.Ascii Strings.String.

(** ** diff *)
Lemma elem_of_names_of m n : n ∈ names_of m ↔ is_Some (m !! n).
Proof.
  unfold names_of. rewrite (merge_sort_Permutation name_le). rewrite list_elem_of_fmap. split.
  - intros ([n' c] & -> & H%elem_of_map_to_list). by exists c.
  - intros [c Hc]. exists (n, c). split; [done|by apply elem_of_map_to_list].
Qed.
Lemma NoDup_names_of m : NoDup (names_of m).
Proof. unfold names_of. rewrite (merge_sort_Permutation name_le). apply NoDup_fst_map_to_list. Qed.
Lemma elem_of_bfilter {A} (f : A → bool) l x : x ∈ List.filter f l ↔ x ∈ l ∧ f x = true.
Proof. rewrite !list_elem_of_In. apply List.filter_In. Qed.
Lemma NoDup_bfilter {A} (f : A → bool) l : NoDup l → NoDup (List.filter f l).
Proof. rewrite !NoDup_ListNoDup. apply List.NoDup_filter. Qed.

(** What [diff] compares of an entry. *)
Definition content_of (e : ogl_entry) : ogl_type * option Z :=
  match e with
  | EFile f => (OGL_FILE, f_hash f)
  | EDir d => (OGL_DIR, d_hash d)
  | ESymlink l => (OGL_SYMLINK, l_hash l)
  | e => (get_type e, None)
  end.
Definition hashed (e : ogl_entry) : Prop :=
  match e with
  | EFile f => is_Some (f_hash f) | EDir d => is_Some (d_hash d) | ESymlink l => is_Some (l_hash l)
  | _ => True
  end.
Definition entry_of (h : heap) (d : ogl_dir) (n : string) : option ogl_entry :=
  c ← d_entries d !! n; objs h !! c.

Lemma same_content (t : ogl_type) (v w : Z) : bool_decide (Some (t, Some v) = Some (t, Some w)) = (v =? w).
Proof. apply eq_true_iff_eq. rewrite bool_decide_eq_true, Z.eqb_eq. naive_solver. Qed.

Section Diff.
Context {E : Type} `{Os : repo_os E}.

(** A handler that writes down what it is called for and goes on. *)
Definition recorder : diff_handler (E:=E) (X:=list (diff_op * string)) :=
  fun op _ _ name s => Ok (true, (s.1 ++ [(op, name)], s.2)).

Lemma report_recorder op a o names : ∀ log s,
  report recorder op a o names (log, s) = Ok (true, (log ++ map (pair op) names, s)).
Proof.
  induction names as [|n names IH]; intros log s; cbn [report map]; [by rewrite app_nil_r|].
  rewrite (ST_bind_step _ _ _ true (log ++ [(op, n)], s)) by done.
  rewrite IH. by rewrite <-app_assoc.
Qed.

Section Heap.
Context (h : heap) (e : E) (a o : Z) (d od : ogl_dir).
Hypothesis Ha : dir_in h a d.
Hypothesis Ho : dir_in h o od.
(** The common names have entries with hash codes. *)
Hypothesis Hcommon : ∀ n, is_Some (d_entries d !! n) → is_Some (d_entries od !! n) →
  ∃ x y, entry_of h d n = Some x ∧ entry_of h od n = Some y ∧ hashed x ∧ hashed y.

Definition changedb (n : string) : bool :=
  negb (bool_decide (content_of <$> entry_of h d n = content_of <$> entry_of h od n)).

Lemma modified_spec {X : Type} n (log : X) : is_Some (d_entries d !! n) → is_Some (d_entries od !! n) →
  modified a o n (log, (h, e)) = Ok (changedb n, (log, (h, e))).
Proof using All.
  intros Hd Hod. destruct (Hcommon n Hd Hod) as (x & y & Hx & Hy & Hhx & Hhy).
  unfold changedb. rewrite Hx, Hy. cbn [fmap option_fmap option_map].
  unfold entry_of in *. destruct (d_entries d !! n) as [c|] eqn:Ec; [|by destruct Hd].
  destruct (d_entries od !! n) as [c'|] eqn:Ec'; [|by destruct Hod]. cbn in Hx, Hy.
  unfold modified.
  rewrite (ST_bind_step _ _ _ (Some c) (log, (h, e)))
    by (unfold on_heap, lookup_name; rewrite (dir_at_step _ _ _ _ _ Ha); by rewrite Ec).
  rewrite (ST_bind_step _ _ _ (Some c') (log, (h, e)))
    by (unfold on_heap, lookup_name; rewrite (dir_at_step _ _ _ _ _ Ho); by rewrite Ec').
  rewrite (ST_bind_step _ _ _ x (log, (h, e))) by (unfold on_heap, entry_at; cbn [fst]; by rewrite Hx).
  rewrite (ST_bind_step _ _ _ y (log, (h, e))) by (unfold on_heap, entry_at; cbn [fst]; by rewrite Hy).
  destruct x, y; cbn in Hhx, Hhy; cbn [content_of get_type];
    first
    [ rewrite bool_decide_false by congruence; reflexivity
    | rewrite bool_decide_true by done; reflexivity
    | destruct Hhx as [v Hv], Hhy as [w Hw]; rewrite Hv, Hw;
      rewrite (ST_bind_step _ _ _ (v =? w) (log, (h, e))) by done;
      rewrite (same_content _ v w); reflexivity ].
Qed.

Lemma report_modified_recorder names : ∀ log,
  (∀ n, n ∈ names → is_Some (d_entries d !! n) ∧ is_Some (d_entries od !! n)) →
  report_modified recorder a o names (log, (h, e)) =
  Ok (true, (log ++ map (pair DIFF_MOD) (List.filter changedb names), (h, e))).
Proof using All.
  induction names as [|n names IH]; intros log Hn; cbn [report_modified List.filter map];
    [by rewrite app_nil_r|].
  destruct (Hn n ltac:(by left)) as [H1 H2].
  rewrite (ST_bind_step _ _ _ _ _ (modified_spec n log H1 H2)).
  destruct (changedb n).
  - rewrite (ST_bind_step _ _ _ true (log ++ [(DIFF_MOD, n)], (h, e))) by done.
    rewrite IH by (intros; apply Hn; by right). cbn [map]. by rewrite <-app_assoc.
  - rewrite (ST_bind_step _ _ _ true (log, (h, e))) by done.
    by rewrite IH by (intros; apply Hn; by right).
Qed.

(** [diff] reports every difference between two directories once: first
    the names that are new, then those that are gone, then the common names
    whose type or hash code differs.  What is not reported is the same on both
    sides, and the comparison changes nothing. *)
Theorem diff_reports :
  ∃ adds rms mods : list string,
    diff a o recorder ([], (h, e)) =
      Ok (tt, (map (pair DIFF_ADD) adds ++ map (pair DIFF_RM) rms ++ map (pair DIFF_MOD) mods, (h, e))) ∧
    NoDup adds ∧ NoDup rms ∧ NoDup mods ∧
    (∀ n, n ∈ adds ↔ is_Some (d_entries d !! n) ∧ d_entries od !! n = None) ∧
    (∀ n, n ∈ rms ↔ d_entries d !! n = None ∧ is_Some (d_entries od !! n)) ∧
    (∀ n, n ∈ mods ↔ is_Some (d_entries d !! n) ∧ is_Some (d_entries od !! n) ∧
       content_of <$> entry_of h d n ≠ content_of <$> entry_of h od n).
Proof using All.
  set (in_dir := fun (d : ogl_dir) name => bool_decide (is_Some (d_entries d !! name))).
  exists (List.filter (fun n => negb (in_dir od n)) (names_of (d_entries d))),
    (List.filter (fun n => negb (in_dir d n)) (names_of (d_entries od))),
    (List.filter changedb (List.filter (in_dir od) (names_of (d_entries d)))).
  assert (∀ x n, in_dir x n = true ↔ is_Some (d_entries x !! n)) as Hin
    by (intros; apply bool_decide_eq_true).
  assert (∀ x n, negb (in_dir x n) = true ↔ d_entries x !! n = None) as Hnin.
  { intros x n. rewrite negb_true_iff. unfold in_dir. rewrite bool_decide_eq_false.
    by rewrite eq_None_not_Some. }
  assert (∀ n, n ∈ List.filter (in_dir od) (names_of (d_entries d)) →
    is_Some (d_entries d !! n) ∧ is_Some (d_entries od !! n)) as Hc.
  { intros n Hn. apply elem_of_bfilter in Hn as [H1 H2]. split; [by apply elem_of_names_of|by apply Hin]. }
  split_and!; [|repeat apply NoDup_bfilter; apply NoDup_names_of..| | |].
  - unfold diff.
    rewrite (ST_bind_step _ _ _ d ([] : list (diff_op * string), (h, e))) by (unfold on_heap; by rewrite (dir_at_eq _ _ _ _ Ha)).
    rewrite (ST_bind_step _ _ _ od ([] : list (diff_op * string), (h, e))) by (unfold on_heap; by rewrite (dir_at_eq _ _ _ _ Ho)).
    cbv zeta. rewrite (ST_bind_step _ _ _ _ _ (report_recorder _ _ _ _ _ _)). cbn [negb].
    rewrite (ST_bind_step _ _ _ _ _ (report_recorder _ _ _ _ _ _)). cbn [negb].
    rewrite (ST_bind_step _ _ _ _ _ (report_modified_recorder _ _ Hc)).
    cbn [app]. by rewrite <-app_assoc.
  - intros n. by rewrite elem_of_bfilter, elem_of_names_of, Hnin.
  - intros n. rewrite elem_of_bfilter, elem_of_names_of, Hnin. tauto.
  - intros n. rewrite !elem_of_bfilter, elem_of_names_of, Hin. unfold changedb.
    rewrite negb_true_iff, bool_decide_eq_false. tauto.
Qed.
End Heap.
End Diff.

(** ** The root reference *)
Lemma digit_value_hex d : 0 ≤ d < 16 → digit_value (hex_digit d) = Some d.
Proof.
  intros Hd. assert (∃ n, (n < 16)%nat ∧ d = Z.of_nat n) as (n & Hn & ->) by (exists (Z.to_nat d); lia).
  do 16 (destruct n as [|n]; [by vm_compute|]). lia.
Qed.
Lemma stoul16_hex n : ∀ h acc l,
  stoul16 acc (hex_digits n h ++ l) = stoul16 (acc * 16 ^ Z.of_nat n + h mod 16 ^ Z.of_nat n) l.
Proof.
  induction n as [|n IH]; intros h acc l.
  - cbn [hex_digits app]. change (16 ^ Z.of_nat 0) with 1. rewrite Z.mod_1_r. f_equal. lia.
  - cbn [hex_digits]. rewrite <-app_assoc, IH. cbn [app stoul16].
    pose proof (Z.mod_pos_bound h 16 ltac:(lia)). rewrite digit_value_hex by done. cbn [mbind option_bind].
    f_equal. rewrite Nat2Z.inj_succ, Z.pow_succ_r by lia.
    rewrite (Z.rem_mul_r h 16) by lia. lia.
Qed.

(** The hash code that [write_root_ref] writes is the one that the
    constructor reads: sixteen hexadecimal digits and a line feed, for every
    64-bit number. *)
Theorem root_ref_roundtrip (h : Z) :
  0 ≤ h < 2 ^ 64 →
  base.length (print_hash h ++ [LF]) = 17%nat ∧ (print_hash h ++ [LF]) !! 16%nat = Some LF ∧
  stoul16 0 (take 16 (print_hash h ++ [LF])) = Some h.
Proof.
  intros Hh. unfold print_hash. rewrite u64_small by done.
  assert (base.length (hex_digits 16 h) = 16%nat) as Hl.
  { generalize h. clear. assert (∀ n h, base.length (hex_digits n h) = n) as H; [|intros; apply H].
    induction n as [|n IH]; intros h; [done|]. cbn [hex_digits]. rewrite length_app, IH. simpl. lia. }
  split_and!.
  - by rewrite length_app, Hl.
  - by rewrite lookup_app_r, Hl by lia.
  - rewrite take_app_length' by done. rewrite <-(app_nil_r (hex_digits 16 h)), stoul16_hex.
    cbn [stoul16]. rewrite Z.mod_small by done. f_equal; lia.
Qed.

(** ** Paths *)
Definition has_slash (s : string) : bool := bool_decide (is_Some (find_slash s)).
Lemma str_drop_app a b : str_drop (String.length a) (a ++ b)%string = b.
Proof. induction a as [|c a IH]; [by destruct b|done]. Qed.
Lemma get_app a b : String.get (String.length a) (a ++ b)%string = String.get 0 b.
Proof. induction a as [|c a IH]; [done|exact IH]. Qed.
Lemma length_str_app a b : String.length (a ++ b)%string = (String.length a + String.length b)%nat.
Proof. induction a as [|c a IH]; [done|exact (f_equal S IH)]. Qed.
Lemma prefix_app a b : String.prefix a (a ++ b)%string = true.
Proof.
  induction a as [|c a IH]; [by destruct b|].
  change ((if ascii_dec c c then String.prefix a (a ++ b)%string else false) = true).
  destruct (ascii_dec c c); [exact IH|congruence].
Qed.

(** A root path that is not that of the file system. *)
Record root_ok (root : string) : Prop := {
  root_absolute : str_at 0 root = Some "/"%char;
  root_longer : root ≠ "/"%string;
  root_end : str_at (String.length root - 1) root ≠ Some "/"%char;
}.
Definition below (root name : string) : string := (root ++ String "/" name)%string.

Lemma length_below root name :
  String.length (below root name) = (String.length root + 1 + String.length name)%nat.
Proof. unfold below. rewrite length_str_app. simpl. lia. Qed.

Lemma relative_path_below root name : root_ok root → name ≠ EmptyString →
  ancest_of_path root (below root name) = Ok true ∧ relative_path root (below root name) = Ok name.
Proof.
  intros [Ha Hl He] Hn. assert (ancest_of_path root (below root name) = Ok true) as H.
  { unfold ancest_of_path. rewrite (bool_decide_true (str_at 0 root = _)) by done. ostep.
    assert (str_at 0 (below root name) = Some "/"%char) as ->
      by (destruct root; [done|exact Ha]).
    rewrite (bool_decide_true (Some _ = _)) by done. cbn [cassert]. ostep.
    rewrite (bool_decide_false (root = _)) by done.
    destruct (Nat.leb_spec (String.length (below root name)) (String.length root + 1)) as [Hle|_].
    { rewrite length_below in Hle. destruct name; [done|]. simpl in Hle. lia. }
    rewrite (bool_decide_false _ He). cbn [negb cassert]. ostep. unfold below, str_at.
    rewrite prefix_app, get_app. by destruct name. }
  split; [done|]. unfold relative_path. rewrite H. ostep. cbn [cassert]. ostep. unfold substr_from.
  destruct (Nat.leb_spec (String.length root + 1) (String.length (below root name))) as [_|Hlt].
  - f_equal. unfold below. clear. induction root as [|c root IH]; [by destruct name|exact IH].
  - rewrite length_below in Hlt. lia.
Qed.

Section Find.
Context {E : Type} `{Os : repo_os E}.
Implicit Types (h : heap) (e : E).

Lemma entry_step {B} a x h e (k : ogl_entry → M (E:=E) B) :
  objs h !! a = Some x → (entry_at a ≫= k) (h, e) = k x (h, e).
Proof. apply entry_at_step. Qed.
Lemma no_slash s : has_slash s = false → find_slash s = None.
Proof. intros H%bool_decide_eq_false. by apply eq_None_not_Some. Qed.
Lemma find_loop_last n a d c name h e :
  dir_in h a d → d_loaded d = true → has_slash (String c name) = false →
  find_loop (S n) (Some a) (String c name) (h, e) = Ok (d_entries d !! String c name, (h, e)).
Proof.
  intros Hd Hl Hs. cbn [find_loop]. rewrite (entry_step _ _ _ _ _ Hd). cbv beta iota. rewrite Hl. mstep.
  rewrite (no_slash _ Hs). rewrite bool_decide_false by done. mstep. cbn [negb lift sassert cassert].
  rewrite (lookup_name_step _ _ _ _ _ _ Hd). by destruct n, (d_entries d !! String c name).
Qed.
Lemma below_ne root name : below root name ≠ root.
Proof. intros H%(f_equal String.length). rewrite length_below in H. lia. Qed.

(** [find] of a name directly below the root path is the root directory's
    entry of this name, for every root path but that of the file system.  In a
    repository whose root path is "/", one character too many is cut off: "/x"
    is found to be the root directory itself. *)
Theorem find_below_root (r : ogl_repo) h e d name c :
  dir_in h (root_dir r) d → d_loaded d = true →
  has_slash (String c name) = false →
  (root_ok (root_path r) →
     find r (below (root_path r) (String c name)) (h, e) = Ok (d_entries d !! String c name, (h, e))) ∧
  (root_path r = "/"%string →
     find r (String "/" (String c EmptyString)) (h, e) = Ok (Some (root_dir r), (h, e))).
Proof.
  intros Hd Hl Hs. split.
  - intros Hr. destruct (relative_path_below _ (String c name) Hr) as [H1 H2]; [done|].
    unfold find. rewrite bool_decide_false by apply below_ne. rewrite H1. mstep. mstep. rewrite H2. mstep.
    by apply (find_loop_last _ _ d).
  - intros Hr. unfold find. rewrite Hr. by rewrite bool_decide_false by done.
Qed.

(** *** A modification that cannot be committed *)
Lemma rfind_slash_none s : find_slash s = None → rfind_slash s = None.
Proof.
  induction s as [|c s IH]; [done|]. simpl. destruct (is_slash c); [done|].
  destruct (find_slash s); [done|]. intros _. by rewrite IH.
Qed.
Lemma rfind_slash_below root name : has_slash name = false →
  rfind_slash (below root name) = Some (String.length root).
Proof.
  intros Hs%no_slash%rfind_slash_none. unfold below. induction root as [|c root IH].
  - change (rfind_slash (String "/" name) = Some 0%nat). simpl. by rewrite Hs.
  - change (rfind_slash (String c (root ++ String "/" name)%string) = Some (S (String.length root))).
    simpl. by rewrite IH.
Qed.
Lemma str_take_app a b : str_take (String.length a) (a ++ b)%string = a.
Proof. induction a as [|c a IH]; [by destruct b|exact (f_equal (String c) IH)]. Qed.
Lemma str_drop_below root name : str_drop (S (String.length root)) (below root name) = name.
Proof. unfold below. induction root as [|c root IH]; [by destruct name|exact IH]. Qed.

(** [get_parent_dir] splits a path at its last slash. *)
Lemma get_parent_dir_below r root c name h e a :
  root ≠ EmptyString → has_slash (String c name) = false →
  find_dir r root (h, e) = Ok (Some a, (h, e)) →
  get_parent_dir r (below root (String c name)) (h, e) = Ok (Some (a, String c name), (h, e)).
Proof.
  intros Hr Hs Hf. unfold get_parent_dir. rewrite rfind_slash_below by done. cbv zeta.
  destruct (Nat.eqb_spec (String.length root) 0) as [H0|_]; [by destruct root|].
  rewrite str_drop_below. cbn [String.length Nat.eqb]. unfold below. rewrite str_take_app.
  by rewrite (ST_bind_step _ _ _ _ _ Hf).
Qed.

Section Unloaded.
Context (padding : list byte).
Context (r : ogl_repo) (h : heap) (e : E) (d sd : ogl_dir) (sub : string) (c : ascii) (s : Z).
Hypothesis Hok : tree_ok h.
Hypothesis Hd : dir_in h (root_dir r) d.
Hypothesis Hroot : d_parent d = None.
Hypothesis Hl : d_loaded d = true.
Hypothesis Hent : d_entries d = {[ String c sub := s ]}.
Hypothesis Hs : dir_in h s sd.
Hypothesis Hsl : d_loaded sd = false.
Hypothesis Hse : d_entries sd = ∅.

Lemma sub_chain : d_parent sd = Some (root_dir r) ∧ chain h (Some s) [s; root_dir r] ∧ s ≠ root_dir r.
Proof using Hok Hd Hroot Hent Hs.
  assert (d_entries d !! String c sub = Some s) as Hin by (rewrite Hent; by rewrite lookup_singleton_eq).
  destruct (tree_child _ Hok _ _ _ _ Hd Hin) as (y & Hy & Hc). rewrite Hs in Hy. injection Hy as <-.
  destruct Hc as [Hp _]. split; [done|]. split.
  - apply (chain_cons _ s sd); [done|]. rewrite Hp. apply (chain_cons _ _ d); [done|].
    rewrite Hroot. constructor.
  - destruct (tree_parent _ Hok _ _ _ Hs Hp). lia.
Qed.

(** What [add_file] makes of the heap. *)
Lemma add_file_unloaded name :
  ∃ h' d' sd', add_file s name (h, e) = Ok (true, (h', e)) ∧
    dir_in h' (root_dir r) d' ∧ d_entries d' = d_entries d ∧ d_modified d' = true ∧ d_loaded d' = true ∧
    dir_in h' s sd' ∧ d_modified sd' = true ∧ d_loaded sd' = false.
Proof using All.
  destruct sub_chain as (Hp & Hc & Hne).
  set (x := EFile (new_file (d_repo sd) s name)).
  assert (tree_ok (allot h x)) as Hok1 by by apply (allot_ok h x s sd).
  assert (∀ y d0, dir_in h y d0 → dir_in (allot h x) y d0) as Hold by (intros; by apply allot_old).
  set (sd1 := d_set_entries (<[name := brk h]> (d_entries sd)) sd).
  set (h1 := put (allot h x) s (EDir sd1)).
  assert (tree_ok h1) as Hok2.
  { apply (put_dir_ok (allot h x) s sd); [done|by apply Hold|done|done|done|].
    intros n z Hz. unfold sd1 in Hz. cbn [d_entries d_set_entries] in Hz. rewrite Hse in Hz.
    rewrite insert_empty in Hz. apply lookup_singleton_Some in Hz as [<- <-].
    exists x. split; [|done]. cbn. by rewrite lookup_insert_eq. }
  assert (dir_in h1 (root_dir r) d) as Hd1.
  { unfold dir_in, h1, put. cbn [objs]. rewrite lookup_insert_ne by done. by apply Hold. }
  assert (dir_in h1 s sd1) as Hs1 by (unfold dir_in, h1, put; cbn [objs]; by rewrite lookup_insert_eq).
  assert (chain h1 (Some s) [s; root_dir r]) as Hc1.
  { apply (chain_cons _ s sd1); [done|]. change (d_parent sd1) with (d_parent sd). rewrite Hp.
    apply (chain_cons _ _ d); [done|]. rewrite Hroot. constructor. }
  destruct (mark_modified_chain h1 e _ s _ Hok2 eq_refl Hc1) as (h' & Hrun & Hm & _).
  destruct (marked_dir _ _ _ _ _ Hm Hd1) as (b & Hd' & _ & Hb).
  destruct (marked_dir _ _ _ _ _ Hm Hs1) as (b' & Hs' & _ & Hb').
  exists h', (d_set_flags b (d_loaded d) d), (d_set_flags b' (d_loaded sd1) sd1).
  split_and!; try done; [|by apply Hb; set_solver|by apply Hb'; set_solver].
  unfold add_file. rewrite (lookup_name_step _ _ _ _ _ _ Hs). rewrite Hse, lookup_empty.
  rewrite (dir_at_step _ _ _ _ _ Hs), new_entry_step. fold x. fold (allot h x).
  rewrite (ST_bind_step _ _ _ tt (h1, e)).
  2:{ unfold set_entry, upd_dir. by rewrite (dir_at_step _ _ _ _ _ (Hold _ _ Hs)). }
  by rewrite (ST_bind_step _ _ _ _ _ Hrun).
Qed.

Lemma commit_unloaded (h' : heap) d' sd' :
  dir_in h' (root_dir r) d' → d_entries d' = {[ String c sub := s ]} → d_modified d' = true → d_loaded d' = true →
  dir_in h' s sd' → d_modified sd' = true → d_loaded sd' = false → s ≠ root_dir r →
  commit padding r (h', e) = Fault (AssertFailed "dir->has_loaded()").
Proof using.
  clear. intros Hd' He' Hdm Hdl Hs' Hsm Hsl Hne. unfold commit.
  rewrite (dir_at_step _ _ _ _ _ Hd'), Hdm. cbn [negb]. mstep.
  assert (∃ n, heap_fuel (h', e) = S (S n)) as [n ->].
  { unfold heap_fuel. cbn [fst]. destruct (base.size (objs h')) as [|n] eqn:Hz; [|by exists n].
    apply map_size_empty_inv in Hz. unfold dir_in in Hd'. by rewrite Hz in Hd'. }
  rewrite (ST_bind_fault _ _ (h', e) (AssertFailed "dir->has_loaded()")); [done|].
  cbn [collect_loop]. rewrite (entry_step _ _ _ _ _ Hd'). cbv beta iota. rewrite Hdm, Hdl. cbn [negb].
  mstep. rewrite He'. unfold names_of. rewrite map_to_list_singleton. cbn -[collect_loop].
  rewrite lookup_singleton_eq. cbn [rev app collect_loop].
  rewrite (entry_step _ _ _ _ _ Hs'). cbv beta iota. rewrite Hsm, Hsl. done.
Qed.

(** [find] loads every directory on the way, but not the last one: a file
    can be added to a directory that has not been loaded, as [load] of its
    parent leaves it.  The directory is marked modified, and the next [commit]
    ends the process: "All modified ogl_dir should be loaded". *)
Theorem unloaded_not_committed c' new :
  root_ok (root_path r) → has_slash (String c sub) = false → has_slash (String c' new) = false →
  ∃ h', repo_add_file r (below (below (root_path r) (String c sub)) (String c' new)) (h, e) = Ok (true, (h', e)) ∧
        commit padding r (h', e) = Fault (AssertFailed "dir->has_loaded()").
Proof using All.
  intros Hr Hsub Hnew. destruct (add_file_unloaded (String c' new)) as
    (h' & d' & sd' & Hadd & Hd' & He & Hm & Hl' & Hs' & Hsm & Hsl').
  exists h'. split.
  2:{ apply (commit_unloaded h' d' sd'); try done; [by rewrite He|apply sub_chain]. }
  unfold repo_add_file, in_parent.
  rewrite (ST_bind_step _ _ _ (Some (s, String c' new)) (h, e)); [done|].
  apply get_parent_dir_below; [by destruct (root_path r)|done|].
  unfold find_dir. rewrite (ST_bind_step _ _ _ (Some s) (h, e)).
  2:{ destruct (relative_path_below _ (String c sub) Hr) as [H1 H2]; [done|].
      unfold find. rewrite bool_decide_false by apply below_ne. rewrite H1. mstep. mstep. rewrite H2. mstep.
      rewrite (find_loop_last _ _ d) by done. by rewrite Hent, lookup_singleton_eq. }
  by rewrite (entry_step _ _ _ _ _ Hs).
Qed.
End Unloaded.
End Find.

(** ** merge does not look into directories that are not loaded *)
Section Nested.
Context {E : Type} `{Os : repo_os E}.
Implicit Types (h : heap) (e : E).

Lemma on_heap_step {X A B} (m : ST (heap * E) A) (k : A → MX (E:=E) (X:=X) B) (x : X) s a s' :
  m s = Ok (a, s') → (on_heap m ≫= k) (x, s) = k a (x, s').
Proof. intros H. apply ST_bind_step. unfold on_heap. by rewrite H. Qed.

(** A root directory with one entry, the directory [s], which is not loaded. *)
Record one_unloaded (h : heap) (r : ogl_repo) (name : string) (s hash : Z) (d sd : ogl_dir) : Prop := {
  one_root : dir_in h (root_dir r) d;
  one_abspath : d_abspath d = root_path r;
  one_loaded : d_loaded d = true;
  one_entries : d_entries d = {[ name := s ]};
  one_sub : dir_in h s sd;
  one_unread : d_loaded sd = false;
  one_empty : d_entries sd = ∅;
  one_hash : d_hash sd = Some hash;
}.

Lemma find_root r h e : find r (root_path r) (h, e) = Ok (Some (root_dir r), (h, e)).
Proof. unfold find. by rewrite bool_decide_true. Qed.
Lemma find_dir_root r h e d : dir_in h (root_dir r) d →
  find_dir r (root_path r) (h, e) = Ok (Some (root_dir r), (h, e)).
Proof.
  intros Hd. unfold find_dir. rewrite (ST_bind_step _ _ _ _ _ (find_root r h e)).
  by rewrite (entry_step _ _ _ _ _ Hd).
Qed.
Lemma find_one h e r c name s hash d sd :
  one_unloaded h r (String c name) s hash d sd → root_ok (root_path r) → has_slash (String c name) = false →
  find r (below (root_path r) (String c name)) (h, e) = Ok (Some s, (h, e)).
Proof.
  intros [Hd _ Hl He _ _ _ _] Hr Hs. destruct (relative_path_below _ (String c name) Hr) as [H1 H2]; [done|].
  unfold find. rewrite bool_decide_false by apply below_ne. rewrite H1. mstep. mstep. rewrite H2. mstep.
  rewrite (find_loop_last _ _ d) by done. by rewrite He, lookup_singleton_eq.
Qed.

Lemma names_of_singleton n c : names_of {[ n := c ]} = [n].
Proof. unfold names_of. by rewrite map_to_list_singleton. Qed.
Lemma diff_empty (X : Type) (handler : diff_handler (E:=E) (X:=X)) h e a o da oa (x : X) :
  dir_in h a da → dir_in h o oa → d_entries da = ∅ → d_entries oa = ∅ →
  diff a o handler (x, (h, e)) = Ok (tt, (x, (h, e))).
Proof.
  intros Ha Ho Hae Hoe. unfold diff.
  rewrite (on_heap_step _ _ _ _ _ _ (dir_at_eq _ _ h e Ha)).
  rewrite (on_heap_step _ _ _ _ _ _ (dir_at_eq _ _ h e Ho)).
  rewrite Hae, Hoe. done.
Qed.
Lemma diff_one (X : Type) (handler : diff_handler (E:=E) (X:=X)) h e r q n s u v w d sd od ud (x x' : X) :
  one_unloaded h r n s v d sd → one_unloaded h q n u w od ud → v ≠ w →
  handler DIFF_MOD (root_dir r) (root_dir q) n (x, (h, e)) = Ok (true, (x', (h, e))) →
  diff (root_dir r) (root_dir q) handler (x, (h, e)) = Ok (tt, (x', (h, e))).
Proof.
  intros [Hd _ _ He Hs _ _ Hv] [Ho _ _ Hoe Hu _ _ Hw] Hne Hh. unfold diff.
  rewrite (on_heap_step _ _ _ _ _ _ (dir_at_eq _ _ h e Hd)).
  rewrite (on_heap_step _ _ _ _ _ _ (dir_at_eq _ _ h e Ho)).
  rewrite He, Hoe, !names_of_singleton. cbn [List.filter].
  rewrite !bool_decide_true by (rewrite lookup_singleton_eq; by eexists). cbn [negb report report_modified].
  rewrite (ST_bind_step _ _ (x, (h, e)) true (x, (h, e))) by done. cbn [negb].
  rewrite (ST_bind_step _ _ (x, (h, e)) true (x, (h, e))) by done. cbn [negb].
  rewrite (ST_bind_step _ _ (x, (h, e)) true (x', (h, e))); [done|].
  rewrite (ST_bind_step _ _ (x, (h, e)) true (x, (h, e))).
  { by rewrite (ST_bind_step _ _ _ _ _ Hh). }
  unfold modified.
  rewrite (on_heap_step _ _ x (h, e) (Some s) (h, e))
    by (unfold lookup_name; rewrite (dir_at_step _ _ _ _ _ Hd); by rewrite He, lookup_singleton_eq).
  rewrite (on_heap_step _ _ x (h, e) (Some u) (h, e))
    by (unfold lookup_name; rewrite (dir_at_step _ _ _ _ _ Ho); by rewrite Hoe, lookup_singleton_eq).
  rewrite (on_heap_step _ _ x (h, e) (EDir sd) (h, e)) by (unfold entry_at; cbn [fst]; by rewrite Hs).
  rewrite (on_heap_step _ _ x (h, e) (EDir ud) (h, e)) by (unfold entry_at; cbn [fst]; by rewrite Hu).
  rewrite Hv, Hw. rewrite (ST_bind_step _ _ (x, (h, e)) (v =? w) (x, (h, e))) by done.
  by apply Z.eqb_neq in Hne as ->.
Qed.

(** One round of the loop, in which the handler leaves the heap alone. *)
Lemma merge_step handler n src common h e dirname q q' a b da db :
  find src dirname (h, e) = Ok (Some a, (h, e)) → dir_in h a da →
  find common dirname (h, e) = Ok (Some b, (h, e)) → dir_in h b db →
  diff a b handler ((false, q), (h, e)) = Ok (tt, ((false, q'), (h, e))) →
  merge_loop (S n) src common handler ((false, dirname :: q), (h, e)) =
  merge_loop n src common handler ((false, q'), (h, e)).
Proof.
  intros Hfa Ha Hfb Hb Hdiff. cbn [merge_loop]. mstep. mstep.
  rewrite (on_heap_step _ _ _ _ _ _ Hfa), (ST_bind_step _ _ ((false, q), (h, e)) a ((false, q), (h, e))) by done.
  rewrite (on_heap_step _ _ (false, q) (h, e) (EDir da) (h, e)) by (unfold entry_at; cbn [fst]; by rewrite Ha).
  rewrite (ST_bind_step _ _ ((false, q), (h, e)) tt ((false, q), (h, e))) by done.
  rewrite (on_heap_step _ _ _ _ _ _ Hfb), (ST_bind_step _ _ ((false, q), (h, e)) b ((false, q), (h, e))) by done.
  rewrite (on_heap_step _ _ (false, q) (h, e) (EDir db) (h, e)) by (unfold entry_at; cbn [fst]; by rewrite Hb).
  rewrite (ST_bind_step _ _ ((false, q), (h, e)) tt ((false, q), (h, e))) by done.
  by rewrite (ST_bind_step _ _ _ _ _ Hdiff).
Qed.

Section Merge.
Context (h : heap) (e : E) (src dst common : ogl_repo) (c : ascii) (name : string).
Context (s t u v w x : Z) (d sd dd td od ud : ogl_dir).
Hypothesis Hsrc : one_unloaded h src (String c name) s v d sd.
Hypothesis Hdst : one_unloaded h dst (String c name) t x dd td.
Hypothesis Hcommon : one_unloaded h common (String c name) u w od ud.
Hypothesis Hroot : root_ok (root_path src).
Hypothesis Hroots : root_path dst = root_path src ∧ root_path common = root_path src.
Hypothesis Hname : has_slash (String c name) = false.
Hypothesis Hchanged : v ≠ w.

Let sub := below (root_path src) (String c name).

Lemma merge_rounds handler n :
  handler DIFF_MOD (root_dir src) (root_dir common) (String c name) ((false, []), (h, e)) =
    Ok (true, ((false, [sub]), (h, e))) →
  merge_loop (S (S (S n))) src common handler ((false, [root_path src]), (h, e)) =
    Ok (true, ((false, []), (h, e))).
Proof using All.
  intros Hh. destruct Hroots as [_ Hrc].
  rewrite (merge_step handler _ _ _ _ _ _ [] [sub] (root_dir src) (root_dir common) d od).
  - rewrite (merge_step handler _ _ _ _ _ _ [] [] s u sd ud); [done|..].
    + by apply (find_one _ _ _ _ _ _ _ _ _ Hsrc).
    + apply (one_sub _ _ _ _ _ _ _ Hsrc).
    + unfold sub. rewrite <-Hrc. apply (find_one _ _ _ _ _ _ _ _ _ Hcommon); [by rewrite Hrc|done].
    + apply (one_sub _ _ _ _ _ _ _ Hcommon).
    + by apply (diff_empty _ _ _ _ _ _ sd ud); [apply Hsrc|apply Hcommon|apply Hsrc|apply Hcommon].
  - apply find_root.
  - apply (one_root _ _ _ _ _ _ _ Hsrc).
  - rewrite <-Hrc. apply find_root.
  - apply (one_root _ _ _ _ _ _ _ Hcommon).
  - by apply (diff_one _ _ _ _ _ _ _ _ _ _ _ _ _ _ _ _ _ Hsrc Hcommon).
Qed.

Lemma same_entries (r : ogl_repo) a z da ds :
  one_unloaded h r (String c name) a z da ds → d_entries da !! String c name = Some a.
Proof using. intros H. rewrite (one_entries _ _ _ _ _ _ _ H). apply lookup_singleton_eq. Qed.
Lemma lookup_one (r : ogl_repo) a z da ds :
  one_unloaded h r (String c name) a z da ds →
  lookup_name (root_dir r) (String c name) (h, e) = Ok (Some a, (h, e)).
Proof using.
  intros H. unfold lookup_name. rewrite (dir_at_step _ _ _ _ _ (one_root _ _ _ _ _ _ _ H)).
  by rewrite (same_entries _ _ _ _ _ H).
Qed.
Lemma sub_at (r : ogl_repo) a z da ds :
  one_unloaded h r (String c name) a z da ds → entry_at a (h, e) = Ok (EDir ds, (h, e)).
Proof using. intros H. unfold entry_at. cbn [fst]. by rewrite (one_sub _ _ _ _ _ _ _ H). Qed.
Lemma dst_parent : find_dir dst (get_path d EmptyString) (h, e) = Ok (Some (root_dir dst), (h, e)).
Proof using All.
  unfold get_path. cbn [String.length Nat.eqb]. rewrite (one_abspath _ _ _ _ _ _ _ Hsrc).
  rewrite <-(proj1 Hroots). apply find_dir_root with dd. apply Hdst.
Qed.

(** A step that leaves everything alone. *)
Lemma st_step {A B} (a : A) (k : A → MX (E:=E) (X:=merge_state) B) (m : MX (E:=E) (X:=merge_state) A) :
  m ((false, []), (h, e)) = Ok (a, ((false, []), (h, e))) → (m ≫= k) ((false, []), (h, e)) = k a ((false, []), (h, e)).
Proof using. apply ST_bind_step. Qed.

Lemma check_nested :
  check_conflictions dst DIFF_MOD (root_dir src) (root_dir common) (String c name) ((false, []), (h, e)) =
    Ok (true, ((false, [sub]), (h, e))).
Proof using All.
  unfold check_conflictions.
  rewrite (on_heap_step _ _ _ _ _ _ (dir_at_eq _ _ h e (one_root _ _ _ _ _ _ _ Hsrc))).
  rewrite (on_heap_step _ _ _ _ _ _ dst_parent). cbv iota.
  rewrite (st_step (root_dir dst)) by done.
  rewrite (on_heap_step _ _ _ _ _ _ (lookup_one _ _ _ _ _ Hdst)). cbv iota.
  rewrite (st_step t) by done.
  rewrite (on_heap_step _ _ _ _ _ _ (lookup_one _ _ _ _ _ Hcommon)).
  rewrite (st_step tt) by done.
  rewrite (st_step u) by done.
  rewrite (on_heap_step _ _ _ _ _ _ (sub_at _ _ _ _ _ Hdst)).
  rewrite (on_heap_step _ _ _ _ _ _ (sub_at _ _ _ _ _ Hcommon)).
  rewrite bool_decide_true by done. cbn [negb].
  rewrite (on_heap_step _ _ _ _ _ _ (lookup_one _ _ _ _ _ Hsrc)).
  rewrite (st_step s) by done.
  rewrite (on_heap_step _ _ _ _ _ _ (sub_at _ _ _ _ _ Hsrc)).
  rewrite bool_decide_true by done. unfold sub, below. rewrite <-(one_abspath _ _ _ _ _ _ _ Hsrc). done.
Qed.
Lemma apply_nested :
  apply_changes dst DIFF_MOD (root_dir src) (root_dir common) (String c name) ((false, []), (h, e)) =
    Ok (true, ((false, [sub]), (h, e))).
Proof using All.
  unfold apply_changes.
  rewrite (on_heap_step _ _ _ _ _ _ (dir_at_eq _ _ h e (one_root _ _ _ _ _ _ _ Hsrc))).
  rewrite (on_heap_step _ _ _ _ _ _ dst_parent). cbv iota.
  rewrite (st_step (root_dir dst)) by done.
  rewrite (on_heap_step _ _ _ _ _ _ (lookup_one _ _ _ _ _ Hsrc)).
  rewrite (st_step s) by done.
  rewrite (on_heap_step _ _ _ _ _ _ (sub_at _ _ _ _ _ Hsrc)).
  rewrite (st_step true).
  2:{ rewrite bool_decide_true by done.
      rewrite (on_heap_step _ _ _ _ _ _ (lookup_one _ _ _ _ _ Hdst)).
      rewrite (st_step t) by done.
      by rewrite (on_heap_step _ _ _ _ _ _ (sub_at _ _ _ _ _ Hdst)). }
  rewrite (on_heap_step _ _ _ _ _ _ (dir_at_eq _ _ h e (one_root _ _ _ _ _ _ _ Hdst))).
  unfold sub, below. rewrite <-(proj1 Hroots), <-(one_abspath _ _ _ _ _ _ _ Hdst). done.
Qed.

(** A change below the root is not merged.  [merge] looks a changed
    directory up by its path, and [find] does not load the last directory of a
    path: when it is not in memory, both sides look empty and the same.  The
    merge succeeds, reports no conflict and changes nothing, whatever the
    directory has in [dst]. *)
Theorem merge_drops_nested_changes n :
  merge (S (S (S n))) src dst common ((false, []), (h, e)) = Ok (true, ((false, []), (h, e))).
Proof using All.
  unfold merge. rewrite (ST_bind_step _ _ ((false, []), (h, e)) tt ((false, [root_path src]), (h, e))) by done.
  rewrite (ST_bind_step _ _ _ _ _ (merge_rounds _ n check_nested)). cbn [negb].
  rewrite (ST_bind_step _ _ ((false, []), (h, e)) tt ((false, [root_path src]), (h, e))) by done.
  by rewrite (ST_bind_step _ _ _ _ _ (merge_rounds _ n apply_nested)).
Qed.
End Merge.
End Nested.

(** ** Witnesses *)

(** A world in which nothing can be read, and nothing fails to be written. *)
#[local] Instance demo_os : repo_os unit := {|
  getuid := 0; getgid := 0;
  os_lstat _ := mret None; os_read_file _ := mret None; os_readlink _ := mret None;
  os_mkdir _ := mret 0; obj_stat _ := mret false; obj_write _ b := mret (Z.of_nat (base.length b));
  obj_read _ := mret None; stale s := mret s; ref_write _ _ := mret true; ref_read _ := mret None;
|}.
(** "/r" with a directory "a" that has not been loaded. *)
Definition demo_root : ogl_dir :=
  OglDir "/repo" None "/r" "/r" (Some 5) {["a"%string := 1]} no_perms false true.
Definition demo_sub : ogl_dir :=
  OglDir "/repo" (Some 0) "a" "/r/a" (Some 7) ∅ no_perms false false.
Definition demo_heap : heap := Heap (<[0 := EDir demo_root]> {[1 := EDir demo_sub]}) 2.
Definition demo_repo : ogl_repo := OglRepo "/r" "/repo" 0.

Lemma demo_heap_ok : tree_ok demo_heap.
Proof. apply placed_ok. apply (bool_decide_unpack _). by vm_compute. Qed.

Lemma removing_names_witness :
  ∃ h', remove 0 "a" (demo_heap, tt) = Ok (true, (h', tt)) ∧ name_set demo_heap 0 "a" None h'.
Proof. exact (proj1 (removing_names demo_heap tt 0 demo_root "a" demo_heap_ok eq_refl)). Defined.

Lemma adding_names_witness :
  ∃ h', add_file 0 "b" (demo_heap, tt) = Ok (true, (h', tt)) ∧
        name_set demo_heap 0 "b" (Some OGL_FILE) h'.
Proof. exact (proj1 adding_names demo_heap tt 0 demo_root "b"%string demo_heap_ok eq_refl). Defined.

Lemma root_ref_roundtrip_witness :
  stoul16 0 (take 16 (print_hash 0xfedcba9876543210 ++ [LF])) = Some 0xfedcba9876543210.
Proof.
  assert (0 ≤ 0xfedcba9876543210 < 2 ^ 64) as H by (split; by vm_compute).
  exact (proj2 (proj2 (root_ref_roundtrip 0xfedcba9876543210 H))).
Defined.

Lemma find_below_root_witness :
  find demo_repo "/r/a" (demo_heap, tt) = Ok (Some 1, (demo_heap, tt)).
Proof.
  refine (proj1 (find_below_root demo_repo demo_heap tt demo_root EmptyString "a" eq_refl eq_refl eq_refl) _).
  by split.
Defined.

Lemma unloaded_not_committed_witness :
  ∃ h', repo_add_file demo_repo "/r/a/f" (demo_heap, tt) = Ok (true, (h', tt)) ∧
        commit [] demo_repo (h', tt) = Fault (AssertFailed "dir->has_loaded()").
Proof.
  refine (unloaded_not_committed [] demo_repo demo_heap tt demo_root demo_sub EmptyString "a" 1
    demo_heap_ok eq_refl eq_refl eq_refl eq_refl eq_refl eq_refl eq_refl "f" EmptyString _ eq_refl eq_refl).
  by split.
Defined.

(** "/r" with "b" gone, "c" new and "d" changed. *)
Definition demo_file (dir : Z) (name : string) (hash : Z) : ogl_entry :=
  EFile (f_set_hash (Some hash) true (new_file "/repo" dir name)).
Definition demo_before : ogl_dir :=
  OglDir "/repo" None "/r" "/r" (Some 5) (<["b"%string := 2]> {["d"%string := 3]}) no_perms false true.
Definition demo_after : ogl_dir :=
  OglDir "/repo" None "/r" "/r" (Some 6) (<["c"%string := 4]> {["d"%string := 5]}) no_perms false true.
Definition demo_heap2 : heap := Heap (list_to_map [
  (0, EDir demo_before); (1, EDir demo_after); (2, demo_file 0 "b" 1); (3, demo_file 0 "d" 2);
  (4, demo_file 1 "c" 3); (5, demo_file 1 "d" 4)]) 6.
Lemma diff_reports_witness :
  ∃ adds rms mods : list string,
    diff 1 0 recorder ([], (demo_heap2, tt)) =
      Ok (tt, (map (pair DIFF_ADD) adds ++ map (pair DIFF_RM) rms ++ map (pair DIFF_MOD) mods, (demo_heap2, tt))) ∧
    "c"%string ∈ adds ∧ "b"%string ∈ rms ∧ "d"%string ∈ mods.
Proof.
  destruct (diff_reports demo_heap2 tt 1 0 demo_after demo_before eq_refl eq_refl) as
    (adds & rms & mods & H & _ & _ & _ & Ha & Hr & Hm).
  - intros n [x Hx] [y Hy]. unfold demo_after, demo_before in *. cbn in Hx, Hy.
    destruct (decide (n = "d"%string)) as [->|Hn].
    { exists (demo_file 1 "d" 4), (demo_file 0 "d" 2). by split_and!; [vm_compute..|eexists|eexists]. }
    apply lookup_insert_Some in Hx as [[<- _]|[_ [Hx _]%lookup_singleton_Some]]; [|congruence].
    by apply lookup_insert_Some in Hy as [[? _]|[_ [? _]%lookup_singleton_Some]].
  - exists adds, rms, mods. split; [exact H|]. rewrite Ha, Hr, Hm.
    split_and!; first [by eexists|reflexivity|by intros [=]].
Defined.

(** Three copies of "/r": in the first, a file below "a" has been changed. *)
Definition demo_side (base hash : Z) : list (Z * ogl_entry) :=
  [(base, EDir (OglDir "/repo" None "/r" "/r" (Some hash) {["a"%string := base + 1]} no_perms false true));
   (base + 1, EDir (OglDir "/repo" (Some base) "a" "/r/a" (Some (hash + 1)) ∅ no_perms false false))].
Definition demo_heap3 : heap := Heap (list_to_map (demo_side 0 10 ++ demo_side 2 20 ++ demo_side 4 20)) 6.
Lemma merge_drops_nested_changes_witness :
  merge 3 (OglRepo "/r" "/repo" 0) (OglRepo "/r" "/repo" 2) (OglRepo "/r" "/repo" 4)
    ((false, []), (demo_heap3, tt)) = Ok (true, ((false, []), (demo_heap3, tt))).
Proof.
  refine (merge_drops_nested_changes demo_heap3 tt _ _ _ "a" EmptyString 1 3 5 11 21 21 _ _ _ _ _ _
    _ _ _ _ _ eq_refl _ 0).
  - by split.
  - by split.
  - by split.
  - by split.
  - by split.
  - done.
Defined.
