(* ===== verification/OglMergeSpec.v ===== *)
(** * oglfs: three-way merge

    [ogl_repo::merge] for changes of files, links and placeholders in the root
    directory, which is always in memory: it finds every conflict before it
    changes anything, and then gives the destination exactly the changes from
    the common tree to the source. *)

From stdpp Require Import sorting.
From S2P Require Import Prelude Otypes Ogl OglMerge OglTree OglSpec.
From Stdlib Require Import Strings.String.

(** What a name of a directory stands for. *)
Abbreviation content := (option (ogl_type * option Z)).
Definition content_at (h : heap) (d : ogl_dir) (n : string) : content := content_of <$> entry_of h d n.
Definition is_dir (c : content) : Prop := fst <$> c = Some OGL_DIR.
#[export] Instance is_dir_dec c : Decision (is_dir c) := _.

Lemma is_dir_Some t : is_dir (Some t) ↔ t.1 = OGL_DIR.
Proof. unfold is_dir. cbn. split; congruence. Qed.

(** ** The specification, on contents *)

(** Which [diff_op] a name is reported with. *)
Definition reported (op : diff_op) (s c : content) : Prop :=
  match op with
  | DIFF_ADD => is_Some s ∧ c = None
  | DIFF_RM => s = None ∧ is_Some c
  | DIFF_MOD => is_Some s ∧ is_Some c ∧ s ≠ c
  end.
(** Both sides have changed the name.  A directory that the source has replaced
    by something else counts as unchanged in the destination as long as it is
    still a directory there. *)
Definition clash (s d c : content) : Prop :=
  s ≠ c ∧ d ≠ c ∧ ¬ (is_Some s ∧ is_dir d ∧ is_dir c).
#[export] Instance clash_dec s d c : Decision (clash s d c) := _.
Definition merged (s d c : content) : content := if decide (s = c) then d else s.

Lemma clash_add s d c : reported DIFF_ADD s c → clash s d c ↔ is_Some d.
Proof.
  intros [[t ->] ->]. split; [intros (_ & H & _); by apply not_eq_None_Some|].
  intros [u ->]. split_and!; [done|done|by intros (_ & _ & [=])].
Qed.
Lemma clash_rm s d c : reported DIFF_RM s c → clash s d c ↔ d ≠ c.
Proof. intros [-> [t ->]]. unfold clash. split; [tauto|]. intros H. split_and!; try done. by intros ([? ?] & _). Qed.
Lemma clash_mod s d c : reported DIFF_MOD s c → clash s d c ↔ d ≠ c ∧ ¬ (is_dir d ∧ is_dir c).
Proof. intros (Hs & Hc & Hne). unfold clash. tauto. Qed.

Lemma existsb_clash (f : string → bool) l : existsb f l = true ↔ ∃ n, n ∈ l ∧ f n = true.
Proof. rewrite existsb_exists. by setoid_rewrite list_elem_of_In. Qed.

(** *** Entries of a well-formed tree *)
Lemma entry_exists {g a d n c} (Hok : tree_ok g) (Ha : dir_in g a d) (Hc : d_entries d !! n = Some c) :
  ∃ x, objs g !! c = Some x ∧ entry_of g d n = Some x ∧ child_of a n x.
Proof.
  destruct (tree_child _ Hok _ _ _ _ Ha Hc) as (x & Hx & Hch).
  exists x. split_and!; [done| |done]. unfold entry_of. by rewrite Hc.
Qed.
Lemma content_None {g a d n} (Hok : tree_ok g) (Ha : dir_in g a d) : content_at g d n = None ↔ d_entries d !! n = None.
Proof.
  unfold content_at, entry_of. destruct (d_entries d !! n) as [c|] eqn:Hc; [|done].
  destruct (entry_exists Hok Ha Hc) as (x & Hx & _). cbn. by rewrite Hx.
Qed.
Lemma content_Some {g a d n t} (Hok : tree_ok g) (Ha : dir_in g a d) (Ht : content_at g d n = Some t) :
  ∃ c x, d_entries d !! n = Some c ∧ objs g !! c = Some x ∧ entry_of g d n = Some x ∧
         child_of a n x ∧ content_of x = t.
Proof.
  destruct (d_entries d !! n) as [c|] eqn:Hc; [|by rewrite (proj2 (content_None Hok Ha) Hc) in Ht].
  destruct (entry_exists Hok Ha Hc) as (x & Hx & He & Hch). exists c, x. split_and!; try done.
  unfold content_at in Ht. rewrite He in Ht. by injection Ht.
Qed.
(** A directory without a parent is no entry of another one. *)
Lemma not_child {g a d n c b db} (Hok : tree_ok g) (Ha : dir_in g a d) (Hc : d_entries d !! n = Some c) :
  dir_in g b db → d_parent db = None → c ≠ b.
Proof.
  intros Hb Hp ->. destruct (entry_exists Hok Ha Hc) as (x & Hx & _ & Hch).
  unfold dir_in in Hb. rewrite Hb in Hx. injection Hx as <-. destruct Hch as [H _]. congruence.
Qed.

Lemma same_hashes (t : ogl_type) (v w : Z) : bool_decide ((t, Some v) = (t, Some w)) = (v =? w).
Proof. apply eq_true_iff_eq. rewrite bool_decide_eq_true, Z.eqb_eq. naive_solver. Qed.

Section Root.
Context {E : Type} `{Os : repo_os E}.
Context (h : heap) (e : E) (src dst common : ogl_repo) (ds dd dc : ogl_dir).

(** Three roots in one heap, with the same path; what the source has changed
    are not directories. *)
Record mergeable : Prop := {
  mg_tree : tree_ok h;
  mg_src : dir_in h (root_dir src) ds;
  mg_dst : dir_in h (root_dir dst) dd;
  mg_common : dir_in h (root_dir common) dc;
  mg_apart : root_dir dst ≠ root_dir src ∧ root_dir dst ≠ root_dir common;
  mg_top : d_parent dd = None;
  mg_path : d_abspath ds = root_path src;
  mg_paths : root_path dst = root_path src ∧ root_path common = root_path src;
  mg_hashed d n x : d ∈ [ds; dd; dc] → entry_of h d n = Some x → hashed x;
  mg_removed n x : entry_of h dd n = Some x → get_type x ≠ OGL_REMOVED;
  mg_leaves n : content_at h ds n ≠ content_at h dc n → ¬ is_dir (content_at h ds n);
}.
Hypothesis Hm : mergeable.

Abbreviation src_at := (content_at h ds).
Abbreviation dst_at := (content_at h dd).
Abbreviation common_at := (content_at h dc).

Lemma type_of_content x : (content_of x).1 = get_type x.
Proof using. by destruct x. Qed.

(** *** The first pass *)
(** A step that is not on the heap and changes nothing. *)
Lemma keep_step {A B} (a : A) (k : A → MX (E:=E) (X:=merge_state) B) (m : MX (E:=E) (X:=merge_state) A) s :
  m s = Ok (a, s) → (m ≫= k) s = k a s.
Proof using. apply ST_bind_step. Qed.
Lemma lookup_eq a d n (g : heap) : dir_in g a d → lookup_name a n (g, e) = Ok (d_entries d !! n, (g, e)).
Proof using. intros Ha. unfold lookup_name. by rewrite (dir_at_step _ _ _ _ _ Ha). Qed.
Lemma entry_eq a x (g : heap) : objs g !! a = Some x → entry_at a (g, e) = Ok (x, (g, e)).
Proof using. intros Ha. unfold entry_at. cbn [fst]. by rewrite Ha. Qed.

Lemma unchanged_eq x y s : hashed x → hashed y → get_type x = get_type y → get_type x ≠ OGL_REMOVED →
  unchanged x y (s, (h, e)) = Ok (bool_decide (content_of x = content_of y), (s, (h, e))).
Proof using.
  intros Hx Hy Ht Hr. destruct x, y; try done; cbn in Hx, Hy; cbn [unchanged content_of];
    try (by rewrite bool_decide_true); try (by cbn in Hr);
    destruct Hx as [v Hv], Hy as [w Hw]; rewrite Hv, Hw; unfold same_hash;
    cbn [hash_of]; (rewrite (on_heap_step _ _ _ _ v (h, e)) by done);
    (rewrite (on_heap_step _ _ _ _ w (h, e)) by done); by rewrite same_hashes.
Qed.

Lemma dst_found (g : heap) d : dir_in g (root_dir dst) d →
  find_dir dst (get_path ds EmptyString) (g, e) = Ok (Some (root_dir dst), (g, e)).
Proof using Hm.
  intros Hd. unfold get_path. cbn [String.length Nat.eqb]. rewrite (mg_path Hm), <-(proj1 (mg_paths Hm)).
  by apply find_dir_root with d.
Qed.

Abbreviation check := (check_conflictions dst).
(** What the handler answers: go on, or a conflict. *)
Definition verdict (b : bool) (q : list string) : outcome (bool * (merge_state * (heap * E))) :=
  if b then Ok (false, ((true, q), (h, e))) else Ok (true, ((false, q), (h, e))).

Lemma compared w z q : hashed w → hashed z → get_type w = get_type z → get_type w ≠ OGL_REMOVED →
  (ok ← unchanged w z; if (ok : bool) then mret true else conflicting) ((false, q), (h, e)) =
    verdict (bool_decide (content_of w ≠ content_of z)) q.
Proof using.
  intros Hw Hz Ht Hr. rewrite keep_step with (a := bool_decide (content_of w = content_of z)) by by apply unchanged_eq.
  case_bool_decide; [by rewrite bool_decide_false by tauto|by rewrite bool_decide_true].
Qed.
(** A name that the destination and the common tree have. *)
Lemma both_there n u t : dst_at n = Some u → common_at n = Some t →
  ∃ v w y z, d_entries dd !! n = Some v ∧ objs h !! v = Some w ∧ d_entries dc !! n = Some y ∧ objs h !! y = Some z ∧
    content_of w = u ∧ content_of z = t ∧ hashed w ∧ hashed z ∧ get_type w ≠ OGL_REMOVED.
Proof using Hm.
  intros Hu Ht. destruct (content_Some (mg_tree Hm) (mg_dst Hm) Hu) as (v & w & Hv & Hw & Hew & _ & Hwu).
  destruct (content_Some (mg_tree Hm) (mg_common Hm) Ht) as (y & z & Hy & Hz & Hez & _ & Hzt).
  exists v, w, y, z. split_and!; try done.
  - apply (mg_hashed Hm dd n w); [set_solver|done].
  - apply (mg_hashed Hm dc n z); [set_solver|done].
  - by apply (mg_removed Hm n).
Qed.

(** The lookups with which the handler starts. *)
Ltac look_up Hs Hd n :=
  unfold check_conflictions; rewrite (on_heap_step _ _ _ _ _ _ (dir_at_eq _ _ h e Hs));
  rewrite (on_heap_step _ _ _ _ _ _ (dst_found _ _ Hd)); cbv iota;
  rewrite keep_step with (a := root_dir dst) by done; rewrite (on_heap_step _ _ _ _ _ _ (lookup_eq _ _ n _ Hd)).
Ltac look_up_both Hc n v Hv y Hy Hw Hz :=
  rewrite Hv; cbv iota;
  rewrite keep_step with (a := v) by done; rewrite (on_heap_step _ _ _ _ _ _ (lookup_eq _ _ n _ Hc)), Hy;
  rewrite keep_step with (a := tt) by (by rewrite bool_decide_true by by eexists);
  rewrite keep_step with (a := y) by done;
  rewrite (on_heap_step _ _ _ _ _ _ (entry_eq _ _ _ Hw)), (on_heap_step _ _ _ _ _ _ (entry_eq _ _ _ Hz)).

Lemma check_add n q : reported DIFF_ADD (src_at n) (common_at n) →
  check DIFF_ADD (root_dir src) (root_dir common) n ((false, q), (h, e)) =
    verdict (bool_decide (clash (src_at n) (dst_at n) (common_at n))) q.
Proof using Hm.
  intros Hr. pose proof (mg_src Hm) as Hs. pose proof (mg_dst Hm) as Hd. look_up Hs Hd n.
  rewrite (bool_decide_ext _ _ (clash_add _ (dst_at n) _ Hr)). destruct (dst_at n) as [t|] eqn:Ht.
  - destruct (content_Some (mg_tree Hm) Hd Ht) as (x & y & -> & _). by rewrite bool_decide_true.
  - rewrite (proj1 (content_None (mg_tree Hm) Hd) Ht). by rewrite bool_decide_false by by intros [? ?].
Qed.
Lemma check_rm n q : reported DIFF_RM (src_at n) (common_at n) →
  check DIFF_RM (root_dir src) (root_dir common) n ((false, q), (h, e)) =
    verdict (bool_decide (clash (src_at n) (dst_at n) (common_at n))) q.
Proof using Hm.
  intros Hr. pose proof (mg_src Hm) as Hs. pose proof (mg_dst Hm) as Hd. pose proof (mg_common Hm) as Hc.
  look_up Hs Hd n. rewrite (bool_decide_ext _ _ (clash_rm _ (dst_at n) _ Hr)).
  destruct (proj2 Hr) as [t Ht]. rewrite Ht. destruct (dst_at n) as [u|] eqn:Hu;
    [|rewrite (proj1 (content_None (mg_tree Hm) Hd) Hu); by rewrite bool_decide_true].
  destruct (both_there n u t Hu Ht) as (v & w & y & z & Hv & Hw & Hy & Hz & <- & <- & Hhw & Hhz & Hrw).
  look_up_both Hc n v Hv y Hy Hw Hz. case_bool_decide as Hty; cbn [negb].
  - rewrite compared by done. f_equal. apply bool_decide_ext. split; congruence.
  - rewrite bool_decide_true; [done|]. intros [= Heq]. apply Hty. by rewrite <-!type_of_content, Heq.
Qed.
Lemma check_mod n q : reported DIFF_MOD (src_at n) (common_at n) →
  check DIFF_MOD (root_dir src) (root_dir common) n ((false, q), (h, e)) =
    verdict (bool_decide (clash (src_at n) (dst_at n) (common_at n))) q.
Proof using Hm.
  intros Hr. pose proof (mg_src Hm) as Hs. pose proof (mg_dst Hm) as Hd. pose proof (mg_common Hm) as Hc.
  look_up Hs Hd n. rewrite (bool_decide_ext _ _ (clash_mod _ (dst_at n) _ Hr)).
  destruct Hr as ([r Hr] & [t Ht] & Hne). rewrite Ht. destruct (dst_at n) as [u|] eqn:Hu.
  2:{ rewrite (proj1 (content_None (mg_tree Hm) Hd) Hu). rewrite bool_decide_true; [done|]. by split; [|intros [? _]]. }
  destruct (both_there n u t Hu Ht) as (v & w & y & z & Hv & Hw & Hy & Hz & <- & <- & Hhw & Hhz & Hrw).
  look_up_both Hc n v Hv y Hy Hw Hz.
  rewrite (bool_decide_ext (Some (content_of w) ≠ Some (content_of z) ∧ _)
    (content_of w ≠ content_of z ∧ ¬ (get_type w = OGL_DIR ∧ get_type z = OGL_DIR))).
  2:{ rewrite !is_dir_Some, !type_of_content. split; intros [H1 H2]; (split; [congruence|exact H2]). }
  case_bool_decide as Hty; cbn [negb].
  2:{ rewrite bool_decide_true; [done|]. split; [|intros [H1 H2]; congruence].
      intros Heq. apply Hty. by rewrite <-!type_of_content, Heq. }
  destruct (decide (get_type w = OGL_DIR)) as [Hdir|Hdir].
  - destruct w; try done. destruct (content_Some (mg_tree Hm) Hs Hr) as (i & x & Hi & Hx & _ & _ & Hxr).
    rewrite (on_heap_step _ _ _ _ _ _ (lookup_eq _ _ n _ Hs)), Hi, keep_step with (a := i) by done.
    rewrite (on_heap_step _ _ _ _ _ _ (entry_eq _ _ _ Hx)).
    pose proof (mg_leaves Hm n Hne) as Hl. rewrite Hr, is_dir_Some, <-Hxr, type_of_content in Hl.
    rewrite bool_decide_false, keep_step with (a := tt) by done. rewrite bool_decide_false; [done|].
    intros [_ H]. by apply H.
  - assert (∀ m : MX (E:=E) (X:=merge_state) bool, match w with EDir _ => m | _ =>
      ok ← unchanged w z; if (ok : bool) then mret true else conflicting end =
      (ok ← unchanged w z; if (ok : bool) then mret true else conflicting)) as -> by by destruct w.
    rewrite compared by done. f_equal. apply bool_decide_ext. tauto.
Qed.
Lemma check_step op n q : reported op (src_at n) (common_at n) →
  check op (root_dir src) (root_dir common) n ((false, q), (h, e)) =
    verdict (bool_decide (clash (src_at n) (dst_at n) (common_at n))) q.
Proof using Hm. destruct op; [apply check_add|apply check_rm|apply check_mod]. Qed.

(** The names that [diff] goes through. *)
Definition in_entries (d : ogl_dir) (n : string) : bool := bool_decide (is_Some (d_entries d !! n)).
Definition added := List.filter (fun n => negb (in_entries dc n)) (names_of (d_entries ds)).
Definition removed := List.filter (fun n => negb (in_entries ds n)) (names_of (d_entries dc)).
Definition shared := List.filter (in_entries dc) (names_of (d_entries ds)).

Lemma in_entries_spec a d n : dir_in h a d → in_entries d n = true ↔ is_Some (content_at h d n).
Proof using Hm.
  intros Ha. unfold in_entries. rewrite bool_decide_eq_true, <-!not_eq_None_Some.
  by rewrite (content_None (n:=n) (mg_tree Hm) Ha).
Qed.
Lemma not_in_entries_spec a d n : dir_in h a d → negb (in_entries d n) = true ↔ content_at h d n = None.
Proof using Hm.
  intros Ha. rewrite negb_true_iff, <-not_true_iff_false, (in_entries_spec _ _ n Ha), <-not_eq_None_Some.
  destruct (content_at h d n); naive_solver.
Qed.
Lemma elem_of_entries a d n : dir_in h a d → n ∈ names_of (d_entries d) ↔ is_Some (content_at h d n).
Proof using Hm. intros Ha. rewrite elem_of_names_of, <-(in_entries_spec _ _ n Ha). unfold in_entries. by rewrite bool_decide_eq_true. Qed.
Lemma elem_of_added n : n ∈ added ↔ reported DIFF_ADD (src_at n) (common_at n).
Proof using Hm.
  unfold added. by rewrite elem_of_bfilter, (elem_of_entries _ _ _ (mg_src Hm)), (not_in_entries_spec _ _ _ (mg_common Hm)).
Qed.
Lemma elem_of_removed n : n ∈ removed ↔ reported DIFF_RM (src_at n) (common_at n).
Proof using Hm.
  unfold removed. rewrite elem_of_bfilter, (elem_of_entries _ _ _ (mg_common Hm)), (not_in_entries_spec _ _ _ (mg_src Hm)).
  cbn [reported]. tauto.
Qed.
Lemma elem_of_shared n : n ∈ shared ↔ is_Some (src_at n) ∧ is_Some (common_at n).
Proof using Hm.
  unfold shared. by rewrite elem_of_bfilter, (elem_of_entries _ _ _ (mg_src Hm)), (in_entries_spec _ _ _ (mg_common Hm)).
Qed.
(** Every changed name is reported. *)
Lemma changed_reported n : src_at n ≠ common_at n ↔ n ∈ added ∨ n ∈ removed ∨ (n ∈ shared ∧ src_at n ≠ common_at n).
Proof using Hm.
  rewrite elem_of_added, elem_of_removed, elem_of_shared. cbn [reported].
  destruct (src_at n) as [s|], (common_at n) as [c|]; naive_solver eauto.
Qed.

(** [diff] of the two roots in a heap in which they are what they were. *)
Lemma diff_roots (handler : diff_handler (E:=E) (X:=merge_state)) (x : merge_state) (g : heap) :
  dir_in g (root_dir src) ds → dir_in g (root_dir common) dc →
  diff (root_dir src) (root_dir common) handler (x, (g, e)) =
    (ok ← report handler DIFF_ADD (root_dir src) (root_dir common) added;
     if negb ok then mret tt else
     ok ← report handler DIFF_RM (root_dir src) (root_dir common) removed;
     if negb ok then mret tt else
     report_modified handler (root_dir src) (root_dir common) shared ;; mret tt) (x, (g, e)).
Proof using.
  intros Hs Hc. unfold diff. rewrite (on_heap_step _ _ _ _ _ _ (dir_at_eq _ _ g e Hs)).
  by rewrite (on_heap_step _ _ _ _ _ _ (dir_at_eq _ _ g e Hc)).
Qed.

(** *** Heaps that differ from [h] in the destination's root and in new objects *)
Definition kept (g : heap) : Prop :=
  brk h ≤ brk g ∧ ∀ y, y ≠ root_dir dst → y < brk h → objs g !! y = objs h !! y.
Lemma kept_refl : kept h.
Proof using. by split. Qed.
Lemma child_apart a d n c : dir_in h a d → d_entries d !! n = Some c → c ≠ root_dir dst ∧ c < brk h.
Proof using Hm.
  intros Ha Hc. destruct (entry_exists (mg_tree Hm) Ha Hc) as (x & Hx & _ & Hch).
  split; [|apply (tree_brk _ (mg_tree Hm) _ _ Hx)]. intros ->. pose proof (mg_dst Hm) as Hd.
  unfold dir_in in Hd. rewrite Hd in Hx. injection Hx as <-. destruct Hch as [Hp _]. by rewrite (mg_top Hm) in Hp.
Qed.
Lemma kept_entry g a d n : kept g → dir_in h a d → entry_of g d n = entry_of h d n.
Proof using Hm.
  intros [_ Hk] Ha. unfold entry_of. destruct (d_entries d !! n) as [c|] eqn:Hc; [|done].
  destruct (child_apart _ _ _ _ Ha Hc). cbn. by apply Hk.
Qed.
Lemma kept_dir g a d : kept g → dir_in h a d → a ≠ root_dir dst → dir_in g a d.
Proof using Hm. intros [_ Hk] Ha Hne. unfold dir_in. rewrite Hk; [done|done|]. apply (tree_brk _ (mg_tree Hm) _ _ Ha). Qed.
Lemma kept_src g : kept g → dir_in g (root_dir src) ds.
Proof using Hm. intros Hk. apply kept_dir; [done|apply Hm|]. intros H. by destruct (mg_apart Hm). Qed.
Lemma kept_common g : kept g → dir_in g (root_dir common) dc.
Proof using Hm. intros Hk. apply kept_dir; [done|apply Hm|]. intros H. by destruct (mg_apart Hm). Qed.

Lemma modified_roots g (x : merge_state) n : kept g → is_Some (src_at n) → is_Some (common_at n) →
  modified (root_dir src) (root_dir common) n (x, (g, e)) =
    Ok (negb (bool_decide (src_at n = common_at n)), (x, (g, e))).
Proof using All.
  intros Hk Hs Hc. pose proof (mg_src Hm) as Hds. pose proof (mg_common Hm) as Hdc.
  assert (∀ d n, in_entries d n = true → is_Some (d_entries d !! n)) as Hin
    by (intros d n'; apply bool_decide_eq_true).
  rewrite (modified_spec g e _ _ _ _ (kept_src g Hk) (kept_common g Hk)).
  - unfold changedb. by rewrite (kept_entry _ _ _ _ Hk Hds), (kept_entry _ _ _ _ Hk Hdc).
  - intros m [c Hmc] [c' Hmc']. destruct (entry_exists (mg_tree Hm) Hds Hmc) as (y & _ & Hy & _).
    destruct (entry_exists (mg_tree Hm) Hdc Hmc') as (z & _ & Hz & _). exists y, z.
    rewrite (kept_entry _ _ _ _ Hk Hds), (kept_entry _ _ _ _ Hk Hdc).
    split_and!; [done|done|apply (mg_hashed Hm ds m y)|apply (mg_hashed Hm dc m z)]; set_solver.
  - by apply Hin, (in_entries_spec _ _ _ Hds).
  - by apply Hin, (in_entries_spec _ _ _ Hdc).
Qed.

(** *** The first pass finds every conflict *)
Definition clashing (n : string) : bool := bool_decide (clash (src_at n) (dst_at n) (common_at n)).
Lemma report_check op names q : (∀ n, n ∈ names → reported op (src_at n) (common_at n)) →
  report check op (root_dir src) (root_dir common) names ((false, q), (h, e)) = verdict (existsb clashing names) q.
Proof using Hm.
  induction names as [|n names IH]; intros Hn; [done|]. cbn [report existsb].
  pose proof (check_step op n q (Hn n ltac:(by left))) as Hc. fold (clashing n) in Hc.
  destruct (clashing n); rewrite (ST_bind_step _ _ _ _ _ Hc); [done|]. apply IH. intros; apply Hn. by right.
Qed.
Lemma report_modified_check names q : (∀ n, n ∈ names → is_Some (src_at n) ∧ is_Some (common_at n)) →
  report_modified check (root_dir src) (root_dir common) names ((false, q), (h, e)) = verdict (existsb clashing names) q.
Proof using Hm.
  induction names as [|n names IH]; intros Hn; [done|]. cbn [report_modified existsb].
  destruct (Hn n ltac:(by left)) as [Hs Hc]. assert (∀ m, m ∈ names → is_Some (src_at m) ∧ is_Some (common_at m)) as Hn'
    by (intros; apply Hn; by right).
  rewrite (ST_bind_step _ _ _ _ _ (modified_roots h (false, q) n kept_refl Hs Hc)).
  destruct (decide (src_at n = common_at n)) as [Heq|Heq].
  - rewrite bool_decide_true by done. rewrite (ST_bind_step _ _ _ true ((false, q), (h, e))) by done.
    unfold clashing at 1. rewrite bool_decide_false by (by intros [? _]). by apply IH.
  - rewrite bool_decide_false by done. pose proof (check_step DIFF_MOD n q (conj Hs (conj Hc Heq))) as Hch.
    fold (clashing n) in Hch. destruct (clashing n); rewrite (ST_bind_step _ _ _ _ _ Hch); [done|by apply IH].
Qed.

(** One round of the loops, on the roots. *)
Lemma merge_round handler n q g : kept g →
  merge_loop (S n) src common handler ((false, root_path src :: q), (g, e)) =
    (diff (root_dir src) (root_dir common) handler ;;
     conflict ← gets (fun s => s.1.1);
     if (conflict : bool) then mret false else merge_loop n src common handler) ((false, q), (g, e)).
Proof using Hm.
  intros Hk. pose proof (kept_src g Hk) as Hs. pose proof (kept_common g Hk) as Hc.
  cbn [merge_loop]. mstep. mstep. rewrite (on_heap_step _ _ _ _ _ _ (find_root src g e)).
  rewrite keep_step with (a := root_dir src) by done.
  rewrite (on_heap_step _ _ _ _ _ _ (entry_eq _ _ _ Hs)), keep_step with (a := tt) by done.
  pose proof (find_root common g e) as Hf. rewrite (proj2 (mg_paths Hm)) in Hf.
  rewrite (on_heap_step _ _ _ _ _ _ Hf), keep_step with (a := root_dir common) by done.
  by rewrite (on_heap_step _ _ _ _ _ _ (entry_eq _ _ _ Hc)), keep_step with (a := tt) by done.
Qed.

Definition conflicts : bool := existsb clashing added || (existsb clashing removed || existsb clashing shared).
Lemma conflicts_spec : conflicts = true ↔ ∃ n, clash (src_at n) (dst_at n) (common_at n).
Proof using Hm.
  unfold conflicts. rewrite !orb_true_iff, !existsb_clash. unfold clashing. setoid_rewrite bool_decide_eq_true.
  split; [naive_solver|]. intros [n Hn].
  destruct (proj1 (changed_reported n) (proj1 Hn)) as [?|[?|[? _]]]; eauto.
Qed.
Lemma diff_check q : diff (root_dir src) (root_dir common) check ((false, q), (h, e)) = Ok (tt, ((conflicts, q), (h, e))).
Proof using Hm.
  rewrite (diff_roots _ _ _ (mg_src Hm) (mg_common Hm)).
  pose proof (report_check DIFF_ADD added q (fun n => proj1 (elem_of_added n))) as Ha.
  pose proof (report_check DIFF_RM removed q (fun n => proj1 (elem_of_removed n))) as Hr.
  pose proof (report_modified_check shared q (fun n => proj1 (elem_of_shared n))) as Hs.
  unfold conflicts. destruct (existsb clashing added); rewrite (ST_bind_step _ _ _ _ _ Ha); [done|]. cbn [negb].
  destruct (existsb clashing removed); rewrite (ST_bind_step _ _ _ _ _ Hr); [done|]. cbn [negb].
  destruct (existsb clashing shared); by rewrite (ST_bind_step _ _ _ _ _ Hs).
Qed.
Lemma first_pass n :
  merge_loop (S (S n)) src common check ((false, [root_path src]), (h, e)) = verdict conflicts [].
Proof using All.
  rewrite (merge_round check (S n) [] h kept_refl), (ST_bind_step _ _ _ _ _ (diff_check [])). mstep.
  by destruct conflicts.
Qed.

(** *** The second pass *)
Abbreviation apply := (apply_changes dst).

(** The names in [P] have been brought to the state of the source. *)
Record applied (P : gset string) (g : heap) (d : ogl_dir) : Prop := {
  ap_kept : kept g;
  ap_tree : tree_ok g;
  ap_dst : dir_in g (root_dir dst) d;
  ap_top : d_parent d = None;
  ap_content n : content_at g d n = if decide (n ∈ P) then src_at n else dst_at n;
  ap_marked : P ≠ ∅ → d_modified d = true;
}.
Lemma applied_none : applied ∅ h dd.
Proof using Hm.
  split; [apply kept_refl|apply Hm..| |done]. intros n. by rewrite decide_False by set_solver.
Qed.

(** The destination with other entries, and marked. *)
Definition touched (m : gmap string Z) (d : ogl_dir) : ogl_dir := d_set_flags true (d_loaded d) (d_set_entries m d).
Lemma mark_top g a d : dir_in g a d → d_parent d = None →
  mark_modified a (g, e) = Ok (tt, (put g a (EDir (d_set_flags true (d_loaded d) d)), e)).
Proof using.
  intros Ha Hp. unfold mark_modified. mstep. unfold heap_fuel. cbn [fst mark_loop].
  rewrite (dir_at_step _ _ _ _ _ Ha), put_entry_step, Hp. by destruct (base.size (objs g)).
Qed.
Lemma put_put g a x y : put (put g a x) a y = put g a y.
Proof using. unfold put. cbn. by rewrite insert_insert_eq. Qed.
Lemma remove_eq g a d n : dir_in g a d → d_parent d = None → is_Some (d_entries d !! n) →
  remove a n (g, e) = Ok (true, (put g a (EDir (touched (delete n (d_entries d)) d)), e)).
Proof using.
  intros Ha Hp [c Hc]. unfold remove. rewrite (lookup_name_step _ _ _ _ _ _ Ha), Hc.
  rewrite (upd_dir_step _ _ _ _ _ _ Ha). set (d1 := d_set_entries _ d).
  assert (dir_in (put g a (EDir d1)) a d1) as H1 by (unfold dir_in, put; cbn; by rewrite lookup_insert_eq).
  rewrite (ST_bind_step _ _ _ _ _ (mark_top _ _ _ H1 Hp)). by rewrite put_put.
Qed.
Lemma add_entry_eq g a d n c : dir_in g a d → d_parent d = None →
  add_entry a n c (g, e) = Ok (true, (put g a (EDir (touched (<[n := c]> (d_entries d)) d)), e)).
Proof using.
  intros Ha Hp. unfold add_entry, set_entry. rewrite (upd_dir_step _ _ _ _ _ _ Ha). set (d1 := d_set_entries _ d).
  assert (dir_in (put g a (EDir d1)) a d1) as H1 by (unfold dir_in, put; cbn; by rewrite lookup_insert_eq).
  rewrite (ST_bind_step _ _ _ _ _ (mark_top _ _ _ H1 Hp)). by rewrite put_put.
Qed.
Lemma touched_ok g a d m : tree_ok g → dir_in g a d → d_parent d = None →
  (∀ n c, m !! n = Some c → ∃ y, objs g !! c = Some y ∧ child_of a n y) →
  tree_ok (put g a (EDir (touched m d))).
Proof using All.
  intros Hok Ha Hp Hch. set (d1 := d_set_entries m d).
  assert (tree_ok (put g a (EDir d1))) as H1 by by apply (put_dir_ok g a d).
  assert (dir_in (put g a (EDir d1)) a d1) as Ha1 by (unfold dir_in, put; cbn; by rewrite lookup_insert_eq).
  destruct (mark_modified_chain _ e _ a [a] H1 eq_refl) as (g' & Hrun & _ & Hok').
  { apply (chain_cons _ a d1); [done|]. replace (d_parent d1) with (@None Z) by done. constructor. }
  rewrite (mark_top _ _ _ Ha1 Hp), put_put in Hrun. by injection Hrun as <-.
Qed.

(** The step on the destination's root: [g1] has perhaps a new object. *)
Lemma touched_applied P g d g1 m n : applied P g d → tree_ok g1 →
  brk g ≤ brk g1 → (∀ y, y < brk g → objs g1 !! y = objs g !! y) →
  (∀ n c, m !! n = Some c → ∃ y, objs g1 !! c = Some y ∧ child_of (root_dir dst) n y) →
  (∀ n', n' ≠ n → m !! n' = d_entries d !! n') →
  content_of <$> (c ← m !! n; objs g1 !! c) = src_at n →
  applied ({[n]} ∪ P) (put g1 (root_dir dst) (EDir (touched m d))) (touched m d).
Proof using All.
  intros [[Hb Hk] Hok Hd Hp Hc _] Hok1 Hb1 Hg1 Hch Hm' Hn.
  assert (dir_in g1 (root_dir dst) d) as Hd1.
  { unfold dir_in. rewrite Hg1; [done|]. apply (tree_brk _ Hok _ _ Hd). }
  split; cbn; [|by apply touched_ok|unfold dir_in, put; cbn; by rewrite lookup_insert_eq|done| |done].
  - split; cbn; [lia|]. intros y Hy Hlt. rewrite lookup_insert_ne by done. rewrite Hg1 by lia. by apply Hk.
  - intros n'.
    assert (content_at (put g1 (root_dir dst) (EDir (touched m d))) (touched m d) n' =
      content_of <$> (c ← m !! n'; objs g1 !! c)) as ->.
    { unfold content_at, entry_of. cbn. destruct (m !! n') as [c|] eqn:Hmn; [|done]. cbn.
      rewrite lookup_insert_ne; [done|]. intros <-. destruct (Hch _ _ Hmn) as (y & Hy & Hyc).
      unfold dir_in in Hd1. rewrite Hd1 in Hy. injection Hy as <-. destruct Hyc as [? _]. congruence. }
    destruct (decide (n' = n)) as [->|Hne]; [by rewrite decide_True by set_solver|].
    rewrite (decide_ext (n' ∈ {[n]} ∪ P) (n' ∈ P)) by set_solver. rewrite <-Hc. unfold content_at, entry_of.
    rewrite Hm' by done. destruct (d_entries d !! n') as [c|] eqn:Hdn; [|done]. cbn.
    destruct (entry_exists Hok Hd Hdn) as (y & Hy & _). rewrite Hg1; [done|]. apply (tree_brk _ Hok _ _ Hy).
Qed.
(** A copy of an entry that is not a directory. *)
Lemma clone_eq g c x d a n : objs g !! c = Some x → get_type x ≠ OGL_DIR → dir_in g (root_dir dst) d → child_of a n x →
  ∃ y, clone c (root_dir dst) (g, e) = Ok (brk g, (allot g y, e)) ∧ content_of y = content_of x ∧
       get_type y ≠ OGL_DIR ∧ child_of (root_dir dst) n y.
Proof using.
  intros Hx Hty Hd Hch. unfold clone. rewrite (entry_at_step _ _ _ _ _ Hx).
  destruct x; try done; unfold clone_leaf; rewrite (dir_at_step _ _ _ _ _ Hd); eexists;
    (split; [reflexivity|]); split_and!; try done; cbn in *; tauto.
Qed.

(** The new entry of a name that the source has added or changed. *)
Lemma replaced P g d n c x y : applied P g d → d_entries ds !! n = Some c → objs h !! c = Some x →
  content_of y = content_of x → get_type y ≠ OGL_DIR → child_of (root_dir dst) n y →
  let m := <[n := brk g]> (d_entries d) in
  applied ({[n]} ∪ P) (put (allot g y) (root_dir dst) (EDir (touched m d))) (touched m d).
Proof using All.
  intros Hap Hn Hx Hy Hty Hch m. pose proof Hap as [_ Hok Hd _ _ _].
  apply (touched_applied P g); [done| | | | | |].
  - apply (allot_ok g y _ _ Hok Hd). by destruct y.
  - cbn. lia.
  - intros z Hz. cbn. by rewrite lookup_insert_ne by lia.
  - intros k z Hk. unfold m in Hk. destruct (decide (k = n)) as [->|Hne].
    + rewrite lookup_insert_eq in Hk. injection Hk as <-. exists y. split; [cbn; by rewrite lookup_insert_eq|done].
    + rewrite lookup_insert_ne in Hk by done. destruct (entry_exists Hok Hd Hk) as (w & Hw & _ & Hcw).
      exists w. split; [by apply allot_old|done].
  - intros k Hk. unfold m. by rewrite lookup_insert_ne.
  - unfold m. rewrite lookup_insert_eq. cbn. rewrite lookup_insert_eq. cbn.
    unfold content_at, entry_of. rewrite Hn. cbn. rewrite Hx. cbn. by rewrite Hy.
Qed.

Lemma source_entry g n : kept g → is_Some (src_at n) → src_at n ≠ common_at n →
  ∃ c x, d_entries ds !! n = Some c ∧ objs h !! c = Some x ∧ objs g !! c = Some x ∧ c ≠ root_dir dst ∧
         get_type x ≠ OGL_DIR ∧ child_of (root_dir src) n x.
Proof using All.
  intros Hk [t Ht] Hne. destruct (content_Some (mg_tree Hm) (mg_src Hm) Ht) as (c & x & Hc & Hx & _ & Hch & Hxt).
  destruct (child_apart _ _ _ _ (mg_src Hm) Hc) as [H1 H2]. exists c, x. split_and!; try done.
  - by rewrite (proj2 Hk).
  - intros Hty. apply (mg_leaves Hm n Hne). by rewrite Ht, is_dir_Some, <-Hxt, type_of_content.
Qed.
Lemma clone_add g d c x n q : objs g !! c = Some x → get_type x ≠ OGL_DIR → child_of (root_dir src) n x →
  dir_in g (root_dir dst) d → d_parent d = None → root_dir dst < brk g →
  ∃ y, (c' ← on_heap (clone c (root_dir dst)); on_heap (add_entry (root_dir dst) n c') ;; mret true)
         ((false, q) : merge_state, (g, e)) =
       Ok (true, ((false, q), (put (allot g y) (root_dir dst) (EDir (touched (<[n := brk g]> (d_entries d)) d)), e))) ∧
       content_of y = content_of x ∧ get_type y ≠ OGL_DIR ∧ child_of (root_dir dst) n y.
Proof using All.
  intros Hx Hty Hch Hd Hp Hlt. destruct (clone_eq g c x d _ n Hx Hty Hd Hch) as (y & Hrun & Hy).
  exists y. split; [|exact Hy]. rewrite (on_heap_step _ _ _ _ _ _ Hrun).
  assert (dir_in (allot g y) (root_dir dst) d) as Hd1 by (unfold dir_in; cbn; by rewrite lookup_insert_ne by lia).
  by rewrite (on_heap_step _ _ _ _ _ _ (add_entry_eq _ _ _ n (brk g) Hd1 Hp)).
Qed.
(** Removing a name before it is replaced makes no difference. *)
Lemma replaced_after_remove g a d n y : a < brk g →
  let d1 := touched (delete n (d_entries d)) d in let g1 := put g a (EDir d1) in
  put (allot g1 y) a (EDir (touched (<[n := brk g1]> (d_entries d1)) d1)) =
  put (allot g y) a (EDir (touched (<[n := brk g]> (d_entries d)) d)).
Proof using.
  intros Ha. unfold touched, put, allot. cbn. f_equal. rewrite insert_delete_eq.
  rewrite (insert_insert_ne _ a (brk g)) by lia.
  rewrite insert_insert_eq. by rewrite (insert_insert_ne _ (brk g) a) by lia.
Qed.

(** What the source has removed or changed is there, if that is no conflict. *)
Lemma still_there op n : op ≠ DIFF_ADD → reported op (src_at n) (common_at n) →
  ¬ clash (src_at n) (dst_at n) (common_at n) → is_Some (dst_at n).
Proof using.
  intros Hop Hr Hcl. destruct (decide (dst_at n = common_at n)) as [->|Hne]; [destruct op; [done|apply Hr..]|].
  destruct op; [done| |]; [by destruct Hcl; apply (clash_rm _ _ _ Hr)|].
  destruct (decide (is_dir (dst_at n) ∧ is_dir (common_at n))) as [[H _]|H];
    [by destruct (dst_at n); [eexists|]|by destruct Hcl; apply (clash_mod _ _ _ Hr)].
Qed.
Lemma apply_step op n P g d q : reported op (src_at n) (common_at n) → ¬ clash (src_at n) (dst_at n) (common_at n) →
  n ∉ P → applied P g d →
  ∃ g' d', apply op (root_dir src) (root_dir common) n ((false, q), (g, e)) = Ok (true, ((false, q), (g', e))) ∧
           applied ({[n]} ∪ P) g' d'.
Proof using All.
  intros Hr Hcl HnP Hap. pose proof Hap as [Hk Hok Hd Hp Hcont _]. pose proof (kept_src g Hk) as Hs.
  pose proof (tree_brk _ Hok _ _ Hd) as [_ Hlt].
  specialize (Hcont n). rewrite decide_False in Hcont by done.
  unfold apply_changes. rewrite (on_heap_step _ _ _ _ _ _ (dir_at_eq _ _ g e Hs)).
  rewrite (on_heap_step _ _ _ _ _ _ (dst_found _ _ Hd)), keep_step with (a := root_dir dst) by done.
  destruct op.
  - destruct (source_entry g n Hk) as (c & x & Hc & Hx & Hgx & Hcd & Hty & Hch); [apply Hr| |].
    { destruct Hr as [[t ->] ->]. done. }
    rewrite (on_heap_step _ _ _ _ _ _ (lookup_eq _ _ n _ Hs)), Hc.
    rewrite keep_step with (a := tt) by (by rewrite bool_decide_true by by eexists).
    rewrite keep_step with (a := c) by done.
    destruct (clone_add g d c x n q Hgx Hty Hch Hd Hp Hlt) as (y & Hrun & Hy & Hyt & Hyc).
    do 2 eexists. split; [exact Hrun|]. by eapply replaced.
  - destruct (still_there DIFF_RM n ltac:(done) Hr Hcl) as [t Ht]. rewrite Ht in Hcont. destruct Hr as [Hsn _].
    destruct (content_Some Hok Hd Hcont) as (c & x & Hc & _).
    rewrite (on_heap_step _ _ _ _ _ _ (remove_eq _ _ _ n Hd Hp ltac:(by eexists))).
    do 2 eexists. split; [reflexivity|]. apply (touched_applied P g); try done.
    + intros k z Hkz. apply lookup_delete_Some in Hkz as [_ Hkz].
      destruct (entry_exists Hok Hd Hkz) as (w & Hw & _ & Hcw). by exists w.
    + intros k Hkn. by rewrite lookup_delete_ne.
    + rewrite lookup_delete_eq, Hsn. done.
  - destruct (source_entry g n Hk) as (c & x & Hc & Hx & Hgx & Hcd & Hty & Hch); [apply Hr..|].
    rewrite (on_heap_step _ _ _ _ _ _ (lookup_eq _ _ n _ Hs)), Hc, keep_step with (a := c) by done.
    rewrite (on_heap_step _ _ _ _ _ _ (entry_eq _ _ _ Hgx)), keep_step with (a := false)
      by (by rewrite bool_decide_false).
    destruct (still_there DIFF_MOD n ltac:(done) Hr Hcl) as [t Ht]. rewrite Ht in Hcont.
    assert (is_Some (d_entries d !! n)) as Hin.
    { destruct (content_Some Hok Hd Hcont) as (i & w & -> & _). by eexists. }
    rewrite (on_heap_step _ _ _ _ _ _ (remove_eq _ _ _ n Hd Hp Hin)).
    pose proof (replaced_after_remove g (root_dir dst) d n) as Hrep. cbv zeta in Hrep. revert Hrep.
    set (d1 := touched (delete n (d_entries d)) d). set (g1 := put g (root_dir dst) (EDir d1)). intros Hrep.
    destruct (clone_add g1 d1 c x n q) as (y & Hrun & Hy & Hyt & Hyc); try done.
    { cbn. by rewrite lookup_insert_ne. }
    { unfold dir_in. cbn. by rewrite lookup_insert_eq. }
    do 2 eexists. split; [exact Hrun|]. rewrite (Hrep y Hlt). by eapply replaced.
Qed.

Lemma report_apply op names : ∀ P g d q,
  (∀ n, n ∈ names → reported op (src_at n) (common_at n) ∧ ¬ clash (src_at n) (dst_at n) (common_at n)) →
  NoDup names → (∀ n, n ∈ names → n ∉ P) → applied P g d →
  ∃ g' d', report apply op (root_dir src) (root_dir common) names ((false, q), (g, e)) = Ok (true, ((false, q), (g', e))) ∧
           applied (list_to_set names ∪ P) g' d'.
Proof using All.
  induction names as [|n names IH]; intros P g d q Hn Hnd HP Hap; cbn [report list_to_set].
  { exists g, d. split; [done|]. by rewrite union_empty_l_L. }
  apply list.NoDup_cons in Hnd as [Hnn Hnd]. destruct (Hn n ltac:(by left)) as [Hr Hcl].
  destruct (apply_step op n P g d q Hr Hcl (HP n ltac:(by left)) Hap) as (g1 & d1 & Hrun & Hap1).
  rewrite (ST_bind_step _ _ _ _ _ Hrun). destruct (IH ({[n]} ∪ P) g1 d1 q) as (g2 & d2 & Hrun2 & Hap2); [|done| |exact Hap1|].
  - intros m Hmn. apply Hn. by right.
  - intros m Hmn. rewrite not_elem_of_union, not_elem_of_singleton. split; [set_solver|apply HP; by right].
  - exists g2, d2. split; [exact Hrun2|]. by replace ({[n]} ∪ list_to_set names ∪ P) with (list_to_set names ∪ ({[n]} ∪ P)) by set_solver.
Qed.
Definition changed (n : string) : bool := negb (bool_decide (src_at n = common_at n)).
Lemma changed_spec n : changed n = true ↔ src_at n ≠ common_at n.
Proof using. unfold changed. by rewrite negb_true_iff, bool_decide_eq_false. Qed.
Lemma report_modified_apply names : ∀ P g d q,
  (∀ n, n ∈ names → is_Some (src_at n) ∧ is_Some (common_at n) ∧ ¬ clash (src_at n) (dst_at n) (common_at n)) →
  NoDup names → (∀ n, n ∈ names → n ∉ P) → applied P g d →
  ∃ g' d', report_modified apply (root_dir src) (root_dir common) names ((false, q), (g, e)) = Ok (true, ((false, q), (g', e))) ∧
           applied (list_to_set (List.filter changed names) ∪ P) g' d'.
Proof using All.
  induction names as [|n names IH]; intros P g d q Hn Hnd HP Hap; cbn [report_modified List.filter].
  { exists g, d. split; [done|]. cbn [list_to_set]. by rewrite union_empty_l_L. }
  apply list.NoDup_cons in Hnd as [Hnn Hnd]. destruct (Hn n ltac:(by left)) as (Hs & Hc & Hcl).
  assert (∀ m, m ∈ names → is_Some (src_at m) ∧ is_Some (common_at m) ∧ ¬ clash (src_at m) (dst_at m) (common_at m)) as Hrest
    by (intros; apply Hn; by right).
  rewrite (ST_bind_step _ _ _ _ _ (modified_roots g (false, q) n (ap_kept _ _ _ Hap) Hs Hc)).
  fold (changed n). destruct (changed n) eqn:Hch.
  - apply changed_spec in Hch.
    destruct (apply_step DIFF_MOD n P g d q (conj Hs (conj Hc Hch)) Hcl (HP n ltac:(by left)) Hap) as (g1 & d1 & Hrun & Hap1).
    rewrite (ST_bind_step _ _ _ _ _ Hrun). destruct (IH ({[n]} ∪ P) g1 d1 q Hrest Hnd) as (g2 & d2 & Hrun2 & Hap2); [|exact Hap1|].
    + intros m Hmn. rewrite not_elem_of_union, not_elem_of_singleton. split; [set_solver|apply HP; by right].
    + exists g2, d2. split; [exact Hrun2|]. cbn [list_to_set].
      by replace ({[n]} ∪ list_to_set (List.filter changed names) ∪ P)
        with (list_to_set (List.filter changed names) ∪ ({[n]} ∪ P)) by set_solver.
  - rewrite (ST_bind_step _ _ _ true ((false, q), (g, e))) by done.
    apply (IH P g d q); [done|done| |done]. intros m Hmn. apply HP. by right.
Qed.
Lemma diff_apply : (∀ n, ¬ clash (src_at n) (dst_at n) (common_at n)) →
  ∃ P g d, diff (root_dir src) (root_dir common) apply ((false, []), (h, e)) = Ok (tt, ((false, []), (g, e))) ∧
           applied P g d ∧ ∀ n, n ∈ P ↔ src_at n ≠ common_at n.
Proof using All.
  intros Hcl. rewrite (diff_roots _ _ _ (mg_src Hm) (mg_common Hm)).
  destruct (report_apply DIFF_ADD added ∅ h dd []) as (g1 & d1 & Hr1 & H1);
    [|apply NoDup_bfilter, NoDup_names_of|set_solver|exact applied_none|].
  { intros n Hn. by apply elem_of_added in Hn. }
  rewrite (ST_bind_step _ _ _ _ _ Hr1). cbn [negb]. rewrite union_empty_r_L in H1.
  destruct (report_apply DIFF_RM removed (list_to_set added) g1 d1 []) as (g2 & d2 & Hr2 & H2);
    [|apply NoDup_bfilter, NoDup_names_of| |exact H1|].
  { intros n Hn. by apply elem_of_removed in Hn. }
  { intros n Hn. rewrite elem_of_list_to_set. apply elem_of_removed in Hn as [Hn _].
    rewrite elem_of_added. intros [[? ?] _]. congruence. }
  rewrite (ST_bind_step _ _ _ _ _ Hr2). cbn [negb].
  destruct (report_modified_apply shared (list_to_set removed ∪ list_to_set added) g2 d2 []) as (g3 & d3 & Hr3 & H3);
    [|apply NoDup_bfilter, NoDup_names_of| |exact H2|].
  { intros n Hn. by apply elem_of_shared in Hn as [? ?]. }
  { intros n [Hs Hc]%elem_of_shared. rewrite elem_of_union, !elem_of_list_to_set, elem_of_removed, elem_of_added.
    intros [[H _]|[_ H]]; [rewrite H in Hs|rewrite H in Hc]; by apply is_Some_None in Hs || apply is_Some_None in Hc. }
  rewrite (ST_bind_step _ _ _ _ _ Hr3). do 3 eexists. split_and!; [reflexivity|exact H3|].
  intros n. rewrite !elem_of_union, !elem_of_list_to_set, elem_of_bfilter, changed_spec, changed_reported. tauto.
Qed.

(** C32: three-way merge of changes to files, links and placeholders in the
    root.  When both sides have changed a name since the common tree, [merge]
    returns false and has changed nothing; otherwise it returns true, the
    destination has the source's state of every name that the source has
    changed and keeps its own of every other, it is marked for the next commit
    if there was a change, the tree is well-formed, and no other object has
    been touched.  The one change of both sides that is not seen as a conflict
    is that of a directory of the destination for which the source has
    something else. *)
Theorem merge_root_changes n :
  ((∃ k, clash (src_at k) (dst_at k) (common_at k)) ∧
   merge (S (S n)) src dst common ((false, []), (h, e)) = Ok (false, ((true, []), (h, e)))) ∨
  ((∀ k, ¬ clash (src_at k) (dst_at k) (common_at k)) ∧
   ∃ g d, merge (S (S n)) src dst common ((false, []), (h, e)) = Ok (true, ((false, []), (g, e))) ∧
     tree_ok g ∧ dir_in g (root_dir dst) d ∧
     (∀ k, content_at g d k = merged (src_at k) (dst_at k) (common_at k)) ∧
     ((∃ k, src_at k ≠ common_at k) → d_modified d = true) ∧
     (∀ y, y ≠ root_dir dst → y < brk h → objs g !! y = objs h !! y)).
Proof using All.
  unfold merge. rewrite (ST_bind_step _ _ _ tt ((false, [root_path src]), (h, e))) by done.
  pose proof (first_pass n) as Hf. destruct conflicts eqn:Hc; rewrite (ST_bind_step _ _ _ _ _ Hf); cbn [negb].
  { left. by apply conflicts_spec in Hc. }
  right. assert (∀ k, ¬ clash (src_at k) (dst_at k) (common_at k)) as Hno.
  { intros k Hk. assert (conflicts = true) by (apply conflicts_spec; by exists k). congruence. }
  split; [done|]. destruct (diff_apply Hno) as (P & g & d & Hrun & [[_ Hk] Hok Hd _ Hcont Hmark] & HP).
  exists g, d. split_and!; [|done|done| | |exact Hk].
  - rewrite (ST_bind_step _ _ _ tt ((false, [root_path src]), (h, e))) by done.
    etrans; [apply (ST_bind_step _ _ _ true ((false, []) : merge_state, (g, e)))|done].
    rewrite (merge_round apply (S n) [] h kept_refl). by rewrite (ST_bind_step _ _ _ _ _ Hrun).
  - intros k. rewrite Hcont. unfold merged. specialize (HP k). do 2 case_decide; tauto.
  - intros [k Hne]. apply Hmark. apply HP in Hne. set_solver.
Qed.
End Root.

(** ** Witness *)

(** Three copies of "/r": the source has changed "a", the destination "b". *)
Definition side_root (base : Z) : ogl_dir :=
  OglDir "/repo" None "/r" "/r" (Some base) (<["a"%string := base + 1]> {["b"%string := base + 2]}) no_perms false true.
Definition side (base a b : Z) : list (Z * ogl_entry) :=
  [(base, EDir (side_root base)); (base + 1, demo_file base "a" a); (base + 2, demo_file base "b" b)].
Definition three_heap : heap := Heap (list_to_map (side 0 11 20 ++ side 3 10 21 ++ side 6 10 20)) 9.
#[local] Instance no_os : repo_os unit := {|
  getuid := 0; getgid := 0;
  os_lstat _ := mret None; os_read_file _ := mret None; os_readlink _ := mret None;
  os_mkdir _ := mret 0; obj_stat _ := mret false; obj_write _ b := mret (Z.of_nat (base.length b));
  obj_read _ := mret None; stale s := mret s; ref_write _ _ := mret true; ref_read _ := mret None;
|}.
Lemma side_content base n : n ≠ "a"%string → n ≠ "b"%string → content_at three_heap (side_root base) n = None.
Proof.
  intros Ha Hb. unfold content_at, entry_of, side_root. cbn [d_entries].
  by rewrite lookup_insert_ne, lookup_singleton_ne by congruence.
Qed.
Lemma side_entry base n x : base ∈ [0; 3; 6] → entry_of three_heap (side_root base) n = Some x →
  get_type x = OGL_FILE ∧ hashed x.
Proof.
  intros Hbase Hx. destruct (decide (n = "a"%string)) as [->|Ha]; [|destruct (decide (n = "b"%string)) as [->|Hb]].
  3:{ pose proof (side_content base n Ha Hb) as H. unfold content_at in H. by rewrite Hx in H. }
  all: repeat (apply elem_of_cons in Hbase as [->|Hbase]); [..|by apply not_elem_of_nil in Hbase];
    vm_compute in Hx; injection Hx as <-; (split; [done|by eexists]).
Qed.
Lemma three_mergeable :
  mergeable three_heap (OglRepo "/r" "/repo" 0) (OglRepo "/r" "/repo" 3) (OglRepo "/r" "/repo" 6)
    (side_root 0) (side_root 3) (side_root 6).
Proof.
  split; try done.
  - apply placed_ok. apply (bool_decide_unpack _). vm_compute. exact I.
  - intros d n x Hd Hx. apply (side_entry (default 0 (d_hash d)) n x).
    + repeat (apply elem_of_cons in Hd as [->|Hd]); [..|by apply not_elem_of_nil in Hd]; cbn; set_solver.
    + by repeat (apply elem_of_cons in Hd as [->|Hd]); [..|by apply not_elem_of_nil in Hd].
  - intros n x Hx. destruct (side_entry 3 n x) as [-> _]; [set_solver|done|done].
  - intros n _ Hdir. unfold is_dir in Hdir. unfold content_at in Hdir.
    destruct (entry_of three_heap (side_root 0) n) as [x|] eqn:Hx; [|done].
    destruct (side_entry 0 n x) as [Ht _]; [set_solver|done|]. cbn in Hdir. rewrite type_of_content in Hdir. congruence.
Qed.
Lemma merge_root_changes_witness :
  ∃ g d, merge (E:=unit) 2 (OglRepo "/r" "/repo" 0) (OglRepo "/r" "/repo" 3) (OglRepo "/r" "/repo" 6)
      ((false, []), (three_heap, tt)) = Ok (true, ((false, []), (g, tt))) ∧
    content_at g d "a" = Some (OGL_FILE, Some 11) ∧ content_at g d "b" = Some (OGL_FILE, Some 21).
Proof.
  destruct (merge_root_changes three_heap tt _ _ _ _ _ _ three_mergeable 0) as [[[k Hk] _]|(_ & g & d & H & _ & _ & Hc & _)].
  - exfalso. destruct (decide (k = "a"%string)) as [->|Ha]; [|destruct (decide (k = "b"%string)) as [->|Hb]].
    + destruct Hk as (_ & Hk & _). apply Hk. reflexivity.
    + destruct Hk as (Hk & _). apply Hk. reflexivity.
    + destruct Hk as (Hk & _). apply Hk. by rewrite !side_content.
  - exists g, d. split; [exact H|]. rewrite !Hc. split; reflexivity.
Defined.
