(* ===== verification/OglClone.v ===== *)
(** * oglfs: copies of trees

    [ogl_dir::clone] and [copy_to]: the loop over the directories still to be
    copied comes to an end, and every path leads to the copy of what it leads
    to in the original, which is left as it was. *)

From S2P Require Import Prelude Otypes Ogl OglMerge OglTree OglSpec OglMergeSpec.
From Stdlib Require Import Strings.String.

(** ** Copies of entries *)

(** [y] is what [clone] makes of [x]: everything but the hash code of a
    directory, which is not copied, and what belongs to the place. *)
Definition twin (x y : ogl_entry) : Prop :=
  match x, y with
  | EFile f, EFile g => f_filename g = f_filename f ∧ f_hash g = f_hash f ∧
      f_valid_hash g = f_valid_hash f ∧ f_perms g = f_perms f
  | EDir d, EDir d' => d_dirname d' = d_dirname d ∧ d_modified d' = d_modified d ∧
      d_loaded d' = d_loaded d ∧ d_perms d' = d_perms d ∧ d_hash d' = None
  | ESymlink l, ESymlink l' => l_name l' = l_name l ∧ l_hash l' = l_hash l ∧ l_perms l' = l_perms l
  | ERemoved _, ERemoved _ | ENonexistent _, ENonexistent _ | ELocal _, ELocal _ => True
  | _, _ => False
  end.
Lemma twin_type x y : twin x y → get_type y = get_type x.
Proof. by destruct x, y. Qed.

Lemma dir_or_leaf u : (∃ d, u = EDir d) ∨ ∀ d, u ≠ EDir d.
Proof. destruct u; eauto; by right. Qed.

(** Where a path of names leads. *)
Fixpoint walk (h : heap) (a : Z) (path : list string) : option Z :=
  match path with
  | [] => Some a
  | n :: path =>
      match objs h !! a with
      | Some (EDir d) => c ← d_entries d !! n; walk h c path
      | _ => None
      end
  end.

Section Clone.
Context {E : Type} `{Os : repo_os E}.
Implicit Types (g : heap) (e : E).

(** One entry, whatever it is, is copied to the break. *)
Definition copy_entry (x : ogl_entry) (b : Z) : ST (heap * E) Z :=
  match x with EDir d => clone_nocopy d b | _ => clone_leaf x b end.
Lemma copy_entry_eq g e x b db : dir_in g b db →
  ∃ y, copy_entry x b (g, e) = Ok (brk g, (allot g y, e)) ∧ twin x y ∧
       match y with EDir d => d_entries d = ∅ | _ => True end.
Proof.
  intros Hb. destruct x; unfold copy_entry, clone_nocopy, clone_leaf; rewrite (dir_at_step _ _ _ _ _ Hb);
    eexists; (split; [reflexivity|]); by cbn.
Qed.
Lemma set_entry_eq g e b db n c : dir_in g b db →
  set_entry b n c (g, e) = Ok (tt, (put g b (EDir (d_set_entries (<[n := c]> (d_entries db)) db)), e)).
Proof. intros Hb. unfold set_entry, upd_dir. by rewrite (dir_at_step _ _ _ _ _ Hb). Qed.

(** ** The loop *)
Section Loop.
Context (h : heap) (root : Z).
Hypothesis Hok : tree_ok h.

(** [W] has the copy of every directory that has been met, with the names
    whose entries are still to be copied. *)
Abbreviation progress := (gmap Z (Z * list string)).

Definition copied (g : heap) (W : progress) (d d' : ogl_dir) (l : list string) (n : string) : Prop :=
  if decide (n ∈ l) then d_entries d' !! n = None else
  match d_entries d !! n, d_entries d' !! n with
  | None, None => True
  | Some y, Some y' => ∃ u u', objs h !! y = Some u ∧ objs g !! y' = Some u' ∧ twin u u' ∧ brk h ≤ y' ∧
      (get_type u = OGL_DIR → fst <$> W !! y = Some y')
  | _, _ => False
  end.
Record copying (g : heap) (W : progress) : Prop := {
  cp_brk : brk h ≤ brk g;
  cp_used y x : objs g !! y = Some x → y < brk g;
  cp_old y : y < brk h → objs g !! y = objs h !! y;
  cp_pair x x' l : W !! x = Some (x', l) → brk h ≤ x' ∧ root ≤ x ∧ NoDup l ∧
    ∃ d d', dir_in h x d ∧ dir_in g x' d' ∧ twin (EDir d) (EDir d') ∧
      (∀ n, n ∈ l → is_Some (d_entries d !! n)) ∧ ∀ n, copied g W d d' l n;
  cp_inj x y z lx ly : W !! x = Some (z, lx) → W !! y = Some (z, ly) → x = y;
  cp_from x x' l : W !! x = Some (x', l) → x = root ∨
    ∃ d p p' lp, dir_in h x d ∧ d_parent d = Some p ∧ W !! p = Some (p', lp) ∧ d_dirname d ∉ lp;
}.

(** The entry [y] of the next name is not in [W] yet. *)
Lemma next_new g W x x' n l d y dy : copying g W → W !! x = Some (x', n :: l) → dir_in h x d →
  d_entries d !! n = Some y → dir_in h y dy → W !! y = None.
Proof using Hok.
  intros Hc Hx Hd Hn Hy. destruct (tree_child _ Hok _ _ _ _ Hd Hn) as (u & Hu & Hch).
  unfold dir_in in Hy. rewrite Hy in Hu. injection Hu as <-. destruct Hch as [Hp Hname].
  destruct (W !! y) as [[y' ly]|] eqn:HW; [exfalso|done].
  destruct (tree_parent _ Hok _ _ _ Hy Hp) as [Hlt _].
  destruct (cp_pair _ _ Hc _ _ _ Hx) as (_ & Hroot & _).
  destruct (cp_from _ _ Hc _ _ _ HW) as [->|(dy' & p & p' & lp & Hdy' & Hp' & HWp & Hnot)]; [lia|].
  unfold dir_in in Hdy'. rewrite Hy in Hdy'. injection Hdy' as <-. rewrite Hp in Hp'. injection Hp' as <-.
  rewrite Hx in HWp. injection HWp as <- <-. apply Hnot. rewrite Hname. by left.
Qed.

(** What is copied stays copied while the heap and the progress grow. *)
Definition grows (g : heap) (W : progress) (g1 : heap) (W1 : progress) : Prop :=
  (∀ y v, objs g !! y = Some v → ∃ v', objs g1 !! y = Some v' ∧ ∀ u, twin u v → twin u v') ∧
  ∀ y z, fst <$> W !! y = Some z → fst <$> W1 !! y = Some z.
Lemma copied_grows g W g1 W1 d d' l n : grows g W g1 W1 → copied g W d d' l n → copied g1 W1 d d' l n.
Proof.
  intros [Hg HW]. unfold copied. case_decide; [done|].
  destruct (d_entries d !! n) as [y|], (d_entries d' !! n) as [y'|]; try done.
  intros (u & u' & Hu & Hu' & Ht & Hy' & Hdir). destruct (Hg _ _ Hu') as (v & Hv & Htv).
  exists u, v. split_and!; auto.
Qed.

(** One entry: [u'] is the copy of [u]. *)
Definition noted (u : ogl_entry) (y z : Z) (W : progress) : progress :=
  match u with EDir dy => <[y := (z, names_of (d_entries dy))]> W | _ => W end.

Lemma noted_leaf u y z W : (∀ dy, u ≠ EDir dy) → noted u y z W = W.
Proof using Type. intros H. destruct u; try done. by destruct (H d). Qed.

Section Step.
Context (g : heap) (W : progress) (x x' : Z) (n : string) (l : list string) (d d' : ogl_dir).
Context (y : Z) (u u' : ogl_entry).
Hypotheses (Hc : copying g W) (Hx : W !! x = Some (x', n :: l)) (Hd : dir_in h x d) (Hd' : dir_in g x' d').
Hypotheses (Hn : d_entries d !! n = Some y) (Hu : objs h !! y = Some u) (Ht : twin u u').
Hypothesis Hempty : match u' with EDir du => d_entries du = ∅ | _ => True end.
Let nd' : ogl_dir := d_set_entries (<[n := brk g]> (d_entries d')) d'.
Let g1 : heap := put (allot g u') x' (EDir nd').
Let W1 : progress := noted u y (brk g) (<[x := (x', l)]> W).

Lemma step_x'_lt : x' < brk g. Proof using All. by eapply cp_used. Qed.
Lemma step_at_x' : dir_in g1 x' nd'.
Proof. unfold dir_in, g1, put. cbn [objs]. by rewrite lookup_insert_eq. Qed.
Lemma step_at_brk : objs g1 !! brk g = Some u'.
Proof using All.
  pose proof step_x'_lt. unfold g1, put, allot. cbn [objs]. rewrite lookup_insert_ne by lia. by rewrite lookup_insert_eq.
Qed.
Lemma step_old z : z ≠ x' → z ≠ brk g → objs g1 !! z = objs g !! z.
Proof. intros. unfold g1, put, allot. cbn [objs]. by rewrite !lookup_insert_ne. Qed.

(** A directory that is met has not been met before. *)
Lemma step_new dy : u = EDir dy → W !! y = None ∧ y ≠ x ∧ x < y ∧ d_parent dy = Some x ∧ d_dirname dy = n.
Proof using All.
  intros ->. assert (W !! y = None) as HW by by eapply next_new.
  destruct (tree_child _ Hok _ _ _ _ Hd Hn) as (v & Hv & Hch). rewrite Hu in Hv. injection Hv as <-.
  destruct Hch as [Hp Hname]. destruct (tree_parent _ Hok _ _ _ Hu Hp) as [Hlt _]. split_and!; try done. lia.
Qed.
Lemma step_W_x : W1 !! x = Some (x', l).
Proof using All.
  unfold W1, noted. case_eq u; intros; try by rewrite lookup_insert_eq.
  destruct (step_new _ ltac:(eassumption)) as (_ & Hne & _). rewrite lookup_insert_ne by done. by rewrite lookup_insert_eq.
Qed.
Lemma step_W_old a p : a ≠ x → W !! a = Some p → W1 !! a = Some p.
Proof using All.
  intros Hax Ha. unfold W1, noted. case_eq u; intros; try by rewrite lookup_insert_ne.
  destruct (step_new _ ltac:(eassumption)) as (HW & _). assert (a ≠ y) by congruence. by rewrite !lookup_insert_ne.
Qed.
Lemma step_W_y dy : u = EDir dy → W1 !! y = Some (brk g, names_of (d_entries dy)).
Proof using All. intros Hdy. unfold W1. rewrite Hdy. cbn. by rewrite lookup_insert_eq. Qed.
Lemma step_W a z la : W1 !! a = Some (z, la) → (a = x ∧ z = x' ∧ la = l) ∨ (a ≠ x ∧ W !! a = Some (z, la)) ∨
  ∃ dy, u = EDir dy ∧ a = y ∧ z = brk g ∧ la = names_of (d_entries dy).
Proof using All.
  intros Ha. destruct (decide (a = x)) as [->|Hax]; [rewrite step_W_x in Ha; injection Ha as <- <-; by left|right].
  destruct (W !! a) as [p|] eqn:HW; [left; by rewrite (step_W_old _ _ Hax HW) in Ha|right]. revert Ha.
  unfold W1, noted. case_eq u; intros; try (rewrite lookup_insert_ne in * by done; congruence).
  destruct (decide (a = y)) as [->|]; [|rewrite !lookup_insert_ne in * by done; congruence].
  rewrite lookup_insert_eq in *. eexists. split; [done|]. by simplify_eq.
Qed.
Lemma step_grows : grows g W g1 W1.
Proof using All.
  split.
  - intros z v Hz. destruct (decide (z = x')) as [->|].
    + exists (EDir nd'). split; [apply step_at_x'|]. unfold dir_in in Hd'. rewrite Hd' in Hz. injection Hz as <-. by intros [].
    + exists v. split; [|done]. rewrite step_old; [done..|]. pose proof (cp_used _ _ Hc _ _ Hz). lia.
  - intros a z Ha. destruct (decide (a = x)) as [->|]; [rewrite step_W_x; by rewrite Hx in Ha|].
    destruct (W !! a) as [p|] eqn:HW; [|done]. by rewrite (step_W_old a p).
Qed.

(** The directory at hand: one name less to copy. *)
Lemma step_this m : copied g W d d' (n :: l) m → n ∉ l → copied g1 W1 d nd' l m.
Proof using All.
  intros Hm Hnl. destruct (decide (m = n)) as [->|Hne].
  - unfold copied. rewrite decide_False by done. rewrite Hn. cbn. rewrite lookup_insert_eq.
    exists u, u'. split_and!; [done|apply step_at_brk|done|apply (cp_brk _ _ Hc)|].
    case_eq u; try discriminate. intros dy Hdy _. by rewrite (step_W_y dy Hdy).
  - apply (copied_grows g W); [exact step_grows|]. unfold copied in *. cbn. rewrite lookup_insert_ne by done.
    destruct (decide (m ∈ l)) as [Hin|Hin].
    + by rewrite decide_True in Hm by by right.
    + rewrite decide_False in Hm by (rewrite elem_of_cons; intros [?|?]; done). done.
Qed.
(** The entry, when it is a directory: all its names are to be copied. *)
Lemma step_entry dy du : u = EDir dy → u' = EDir du →
  ∀ m, copied g1 W1 dy du (names_of (d_entries dy)) m.
Proof using All.
  intros _ Hdu m. pose proof Hempty as He. rewrite Hdu in He. unfold copied. rewrite He, lookup_empty. case_decide as Hm; [done|].
  rewrite elem_of_names_of in Hm. destruct (d_entries dy !! m) eqn:?; [|done]. by destruct Hm.
Qed.
Lemma step_pair a a' la : W1 !! a = Some (a', la) → brk h ≤ a' ∧ root ≤ a ∧ NoDup la ∧
    ∃ b b', dir_in h a b ∧ dir_in g1 a' b' ∧ twin (EDir b) (EDir b') ∧
      (∀ m, m ∈ la → is_Some (d_entries b !! m)) ∧ ∀ m, copied g1 W1 b b' la m.
Proof using All.
  destruct (cp_pair _ _ Hc _ _ _ Hx) as (Hx' & Hroot & Hnd & b & b' & Hb & Hb' & Htw & Hin & Hcp).
  unfold dir_in in Hb, Hb', Hd, Hd'. rewrite Hd in Hb. rewrite Hd' in Hb'. injection Hb as <-. injection Hb' as <-.
  apply list.NoDup_cons in Hnd as [Hnl Hnd].
  intros [(-> & -> & ->)|[[Hax HW]|(dy & Hdy & -> & -> & ->)]]%step_W.
  - split_and!; [done..|]. exists d, nd'.
    split_and!; [done|apply step_at_x'|done|intros m Hm; apply Hin; by right|]. intros m. by apply step_this.
  - destruct (cp_pair _ _ Hc _ _ _ HW) as (? & ? & ? & b & b' & Hb & Hb' & ? & ? & Hcp').
    split_and!; [done..|]. exists b, b'. split_and!; [done| |done..|].
    + unfold dir_in. rewrite step_old; [done|intros ->; apply Hax; by eapply cp_inj|].
      pose proof (cp_used _ _ Hc _ _ Hb'). lia.
    + intros m. apply (copied_grows g W); [exact step_grows|done].
  - destruct (step_new dy Hdy) as (_ & _ & Hlt & _). pose proof Ht as Ht1. rewrite Hdy in Ht1.
    case_eq u'; try (by intros; rewrite H in Ht1). intros du Hdu. rewrite Hdu in Ht1.
    split_and!; [apply (cp_brk _ _ Hc)|lia|apply NoDup_names_of|]. exists dy, du.
    split_and!; [unfold dir_in; by rewrite <-Hdy|unfold dir_in; rewrite <-Hdu; exact step_at_brk|done|intros m; by rewrite elem_of_names_of|].
    by apply step_entry.
Qed.
Lemma step_inj a b z la lb : W1 !! a = Some (z, la) → W1 !! b = Some (z, lb) → a = b.
Proof using All.
  assert (∀ a lw, W !! a = Some (z, lw) → z < brk g) as Hlt.
  { intros a0 lw HW. destruct (cp_pair _ _ Hc _ _ _ HW) as (_ & _ & _ & b0 & b' & _ & Hb' & _). by eapply cp_used. }
  assert (∀ a lw, W1 !! a = Some (z, lw) → (∃ lw', W !! a = Some (z, lw')) ∨ (a = y ∧ z = brk g)) as Hcase.
  { intros a0 lw [(-> & -> & ->)|[[_ HW]|(dy & _ & -> & -> & _)]]%step_W; eauto. }
  intros [(lw & Ha)|[-> Ha]]%Hcase [(lw' & Hb)|[-> Hb]]%Hcase; [by eapply cp_inj| | |done].
  - specialize (Hlt _ _ Ha). lia.
  - specialize (Hlt _ _ Hb). lia.
Qed.
Lemma step_from a a' la : W1 !! a = Some (a', la) → a = root ∨
  ∃ b p p' lp, dir_in h a b ∧ d_parent b = Some p ∧ W1 !! p = Some (p', lp) ∧ d_dirname b ∉ lp.
Proof using All.
  assert (∀ lw, W !! a = Some (a', lw) → a = root ∨
    ∃ b p p' lp, dir_in h a b ∧ d_parent b = Some p ∧ W1 !! p = Some (p', lp) ∧ d_dirname b ∉ lp) as Hold.
  { intros lw HW. destruct (cp_from _ _ Hc _ _ _ HW) as [->|(b & p & p' & lp & Hb & Hp & HWp & Hm)]; [by left|right].
    destruct (decide (p = x)) as [->|]; [|exists b, p, p', lp; by eauto using step_W_old].
    exists b, x, x', l. split_and!; [done..|apply step_W_x|]. rewrite Hx in HWp. injection HWp as <- <-.
    intros ?. apply Hm. by right. }
  intros [(-> & -> & ->)|[[_ HW]|(dy & Hdy & -> & -> & ->)]]%step_W; [by eapply Hold..|]. right.
  destruct (step_new dy Hdy) as (_ & _ & _ & Hp & Hname). exists dy, x, x', l.
  split_and!; [unfold dir_in; by rewrite <-Hdy|done|apply step_W_x|].
  rewrite Hname. destruct (cp_pair _ _ Hc _ _ _ Hx) as (_ & _ & Hnd & _). by apply list.NoDup_cons in Hnd as [? _].
Qed.
Lemma copied_step : copying g1 W1.
Proof using All.
  pose proof step_x'_lt as Hlt. destruct (cp_pair _ _ Hc _ _ _ Hx) as (Hx' & _). pose proof (cp_brk _ _ Hc) as Hbrk.
  split.
  - unfold g1, put, allot. cbn. lia.
  - intros z v Hz. unfold g1, put, allot in *. cbn in *.
    destruct (decide (z = x')); [lia|]. rewrite lookup_insert_ne in Hz by done.
    destruct (decide (z = brk g)); [lia|]. rewrite lookup_insert_ne in Hz by done.
    pose proof (cp_used _ _ Hc _ _ Hz). lia.
  - intros z Hz. rewrite step_old by lia. by apply (cp_old _ _ Hc).
  - exact step_pair.
  - exact step_inj.
  - exact step_from.
Qed.
End Step.

(** *** The copies still to make *)
Record pending (W : progress) (T : list (Z * Z)) : Prop := {
  pe_in x x' : (x, x') ∈ T → ∃ d, dir_in h x d ∧ W !! x = Some (x', names_of (d_entries d));
  pe_out x x' l : W !! x = Some (x', l) → l = [] ∨ (x, x') ∈ T;
  pe_nodup : NoDup T.*1;
}.
Definition kept (W W1 : progress) : Prop := ∀ y z, fst <$> W !! y = Some z → fst <$> W1 !! y = Some z.
Lemma kept_same W : kept W W.
Proof using Type. by intros ??. Qed.
Hint Resolve kept_same : core.

Lemma pending_in W T y : pending W T → y ∈ T.*1 → is_Some (W !! y).
Proof using Type.
  intros Hp ([a a'] & -> & Hin)%list_elem_of_fmap. destruct (pe_in _ _ Hp _ _ Hin) as (d & _ & HW). cbn. by eexists.
Qed.
Lemma pending_pop W x x' d T : pending W ((x, x') :: T) → dir_in h x d →
  W !! x = Some (x', names_of (d_entries d)) ∧ (x ∉ T.*1) ∧ pending (<[x := (x', [])]> W) T.
Proof using Type.
  intros [Hin Hout Hnd] Hd. apply list.NoDup_cons in Hnd as [Hx Hnd].
  destruct (Hin x x' ltac:(by left)) as (d1 & Hd1 & HW). unfold dir_in in Hd, Hd1. rewrite Hd in Hd1. injection Hd1 as <-.
  split_and!; [done..|]. split; [| |done].
  - intros a a' Ha. destruct (Hin a a' ltac:(by right)) as (d1 & Hd1 & HWa). exists d1. split; [done|].
    rewrite lookup_insert_ne; [done|]. intros <-. apply Hx, list_elem_of_fmap. by exists (x, a').
  - intros a a' l. destruct (decide (a = x)) as [->|].
    + rewrite lookup_insert_eq. intros [= <- <-]. by left.
    + rewrite lookup_insert_ne by done. intros [?|Ha]%Hout; [by left|right].
      apply elem_of_cons in Ha as [[= -> ->]|]; [done|done].
Qed.
Lemma pending_push W T y z dy : pending W T → W !! y = None → dir_in h y dy →
  pending (<[y := (z, names_of (d_entries dy))]> W) ((y, z) :: T).
Proof using Type.
  intros Hp HW Hy. split.
  - intros a a' [[= -> ->]|Ha]%elem_of_cons; [exists dy; by rewrite lookup_insert_eq|].
    destruct (pe_in _ _ Hp _ _ Ha) as (d & Hd & HWa). exists d. split; [done|]. rewrite lookup_insert_ne; [done|]. by intros <-; rewrite HW in HWa.
  - intros a a' l. destruct (decide (a = y)) as [->|].
    + rewrite lookup_insert_eq. intros [= <- <-]. right. by left.
    + rewrite lookup_insert_ne by done. intros [?|?]%(pe_out _ _ Hp); [by left|right; by right].
  - apply list.NoDup_cons. split; [|apply (pe_nodup _ _ Hp)]. intros Hin.
    destruct (pending_in W T y Hp Hin) as [p Hp']. by rewrite HW in Hp'.
Qed.

Lemma copy_entries_spec e x x' d : ∀ names g W T,
  copying g W → W !! x = Some (x', names) → dir_in h x d → pending (<[x := (x', [])]> W) T → x ∉ T.*1 →
  ∃ g1 W1 T1, copy_entries x x' names T (g, e) = Ok (T1, (g1, e)) ∧ copying g1 W1 ∧ pending W1 T1 ∧
    kept W W1 ∧ (base.length T1 + base.size W = base.length T + base.size W1)%nat.
Proof using All.
  induction names as [|n names IH]; intros g W T Hc Hx Hd Hp HxT.
  { exists g, W, T. rewrite insert_id in Hp by done. by split_and!; auto. }
  destruct (cp_pair _ _ Hc _ _ _ Hx) as (_ & _ & _ & d1 & d' & Hd1 & Hd' & _ & Hin & Hcp).
  unfold dir_in in Hd, Hd1. rewrite Hd in Hd1. injection Hd1 as <-.
  destruct (Hin n ltac:(by left)) as [y Hy]. destruct (tree_child _ Hok _ _ _ _ Hd Hy) as (u & Hu & Hch).
  assert (∀ a v, objs h !! a = Some v → objs g !! a = Some v) as Hold.
  { intros a v Ha. rewrite (cp_old _ _ Hc); [done|]. by apply (tree_brk _ Hok _ _ Ha). }
  assert (lookup_name x n (g, e) = Ok (d_entries d !! n, (g, e))) as Hname.
  { unfold lookup_name. by rewrite (dir_at_step _ _ _ _ _ (Hold _ _ Hd)). }
  cbn [copy_entries]. rewrite (ST_bind_step _ _ _ _ _ Hname), Hy, (entry_at_step _ _ _ _ _ (Hold _ _ Hu)).
  destruct (copy_entry_eq g e u x' d' Hd') as (u' & Hrun & Ht & Hempty).
  assert (set_entry x' n (brk g) (allot g u', e) =
    Ok (tt, (put (allot g u') x' (EDir (d_set_entries (<[n := brk g]> (d_entries d')) d')), e))) as Hset.
  { apply set_entry_eq. unfold dir_in, allot. cbn. rewrite lookup_insert_ne; [done|].
    pose proof (cp_used _ _ Hc _ _ Hd'). lia. }
  pose proof (copied_step g W x x' n names d d' y u u' Hc Hx Hd Hd' Hy Hu Ht Hempty) as Hc1.
  pose proof (proj2 (step_grows g W x x' n names d d' y u u' Hc Hx Hd Hd' Hy Hu Ht Hempty)) as Hk1.
  destruct (dir_or_leaf u) as [[dy ->]|Hleaf].
  - destruct (step_new g W x x' n names d d' y (EDir dy) u' Hc Hx Hd Hd' Hy Hu Ht Hempty dy eq_refl) as (HWy & Hyx & _).
    rewrite (ST_bind_step _ _ _ _ _ Hrun), (ST_bind_step _ _ _ _ _ Hset).
    destruct (IH _ _ ((y, brk g) :: T) Hc1) as (g2 & W2 & T2 & Hrun2 & Hc2 & Hp2 & Hk2 & Hlen).
    + cbn. rewrite lookup_insert_ne by done. by rewrite lookup_insert_eq.
    + done.
    + cbn. rewrite insert_insert_ne, insert_insert_eq by done. apply pending_push; [done| |done]. by rewrite lookup_insert_ne.
    + cbn. rewrite elem_of_cons. intros [?|?]; congruence.
    + exists g2, W2, T2. split_and!; [done..| |].
      * intros a z Ha. by apply Hk2, Hk1.
      * cbn in Hlen. rewrite !map_size_insert, lookup_insert_ne, HWy, Hx in Hlen by done. cbn in Hlen. lia.
  - rewrite noted_leaf in Hc1, Hk1 by done.
    destruct (IH _ _ T Hc1) as (g2 & W2 & T2 & Hrun2 & Hc2 & Hp2 & Hk2 & Hlen).
    + by rewrite lookup_insert_eq.
    + done.
    + by rewrite insert_insert_eq.
    + done.
    + exists g2, W2, T2. split_and!; [|done..| |].
      * destruct u as [|dy| | | |]; [|by destruct (Hleaf dy)|..]; unfold copy_entry in Hrun; by rewrite (ST_bind_step _ _ _ _ _ Hrun), (ST_bind_step _ _ _ _ _ Hset).
      * intros a z Ha. by apply Hk2, Hk1.
      * rewrite map_size_insert, Hx in Hlen. cbn in Hlen. lia.
Qed.

Lemma copying_size g W : copying g W → (base.size W ≤ base.size (objs h))%nat.
Proof using All.
  intros Hc. rewrite <-!size_dom. apply subseteq_size. intros x [[x' l] HW]%elem_of_dom.
  destruct (cp_pair _ _ Hc _ _ _ HW) as (_ & _ & _ & d & _ & Hd & _). apply elem_of_dom. by eexists.
Qed.
Lemma copy_loop_spec e : ∀ k g W T, copying g W → pending W T →
  (base.size (objs h) + base.length T ≤ base.size W + k)%nat →
  ∃ g1 W1, copy_loop k T (g, e) = Ok (tt, (g1, e)) ∧ copying g1 W1 ∧ pending W1 [] ∧ kept W W1.
Proof using All.
  induction k as [|k IH]; intros g W T Hc Hp Hk; pose proof (copying_size _ _ Hc) as Hsize.
  - destruct T; [|cbn in Hk; lia]. by exists g, W.
  - destruct T as [|[x x'] T]; [by exists g, W|]. cbn [copy_loop].
    destruct (pe_in _ _ Hp x x' ltac:(by left)) as (d & Hd & _).
    destruct (pending_pop _ _ _ _ _ Hp Hd) as (HW & HxT & Hp').
    assert (dir_in g x d) as Hgd.
    { unfold dir_in. rewrite (cp_old _ _ Hc); [done|]. by apply (tree_brk _ Hok _ _ Hd). }
    rewrite (ST_bind_step _ _ _ _ _ (dir_at_eq _ _ _ e Hgd)).
    destruct (copy_entries_spec e x x' d _ g W T Hc HW Hd Hp' HxT) as (g1 & W1 & T1 & Hrun & Hc1 & Hp1 & Hk1 & Hlen).
    rewrite (ST_bind_step _ _ _ _ _ Hrun).
    destruct (IH g1 W1 T1 Hc1 Hp1) as (g2 & W2 & Hrun2 & Hc2 & Hp2 & Hk2); [cbn in Hk; lia|].
    exists g2, W2. split_and!; [done..|]. intros a z Ha. by apply Hk2, Hk1.
Qed.

(** *** What the copy of the root gives *)
Lemma copying_start g c' d d' : objs h !! root = Some (EDir d) → brk h ≤ c' < brk g →
  (∀ y x, objs g !! y = Some x → y < brk g) → (∀ y, y < brk h → objs g !! y = objs h !! y) →
  objs g !! c' = Some (EDir d') → twin (EDir d) (EDir d') → d_entries d' = ∅ →
  copying g {[ root := (c', names_of (d_entries d)) ]} ∧
  pending {[ root := (c', names_of (d_entries d)) ]} [(root, c')].
Proof using All.
  intros Hr Hc' Hused Hold Hg Ht Hempty. split; split; try done; try lia.
  - intros x x' l [<- [= <- <-]]%lookup_singleton_Some. split_and!; [lia..|apply NoDup_names_of|].
    exists d, d'. split_and!; [done..|intros m; by rewrite elem_of_names_of|].
    intros m. unfold copied. rewrite Hempty, lookup_empty. case_decide as Hm; [done|].
    rewrite elem_of_names_of in Hm. destruct (d_entries d !! m) eqn:?; [|done]. by destruct Hm.
  - by intros x y z lx ly [<- _]%lookup_singleton_Some [<- _]%lookup_singleton_Some.
  - intros x x' l [<- _]%lookup_singleton_Some. by left.
  - intros x x' [[= -> ->]|[]%not_elem_of_nil]%elem_of_cons. exists d. by rewrite lookup_singleton_eq.
  - intros x x' l [<- [= <- <-]]%lookup_singleton_Some. right. by left.
  - apply NoDup_singleton.
Qed.

(** The two walks end in copies of each other, or both fail. *)
Definition same_walk (g : heap) (c c' : Z) (path : list string) : Prop :=
  match walk h c path, walk g c' path with
  | Some y, Some y' => brk h ≤ y' ∧ ∃ u u', objs h !! y = Some u ∧ objs g !! y' = Some u' ∧ twin u u'
  | None, None => True
  | _, _ => False
  end.
Lemma walk_leaf g y y' u u' path : objs h !! y = Some u → objs g !! y' = Some u' → twin u u' → brk h ≤ y' →
  get_type u ≠ OGL_DIR → same_walk g y y' path.
Proof.
  intros Hu Hu' Ht Hb Hl. unfold same_walk. destruct path; cbn; [by eauto 6|]. rewrite Hu, Hu'. by destruct u, u'.
Qed.
Lemma walk_copied g W : copying g W → pending W [] → ∀ path x x', fst <$> W !! x = Some x' → same_walk g x x' path.
Proof.
  intros Hc Hp. induction path as [|n path IH]; intros x x' Hx;
    destruct (W !! x) as [[z l]|] eqn:HW; try discriminate; injection Hx as ->;
    destruct (cp_pair _ _ Hc _ _ _ HW) as (Hb & _ & _ & d & d' & Hd & Hd' & Ht & _ & Hcp).
  - unfold same_walk. cbn. eauto 7.
  - assert (l = []) as -> by by destruct (pe_out _ _ Hp _ _ _ HW) as [|[]%not_elem_of_nil].
    specialize (Hcp n). unfold copied in Hcp. rewrite decide_False in Hcp by apply not_elem_of_nil.
    unfold same_walk. cbn. unfold dir_in in *. rewrite Hd, Hd'.
    destruct (d_entries d !! n) as [y|], (d_entries d' !! n) as [y'|]; cbn; try done.
    destruct Hcp as (u & u' & Hu & Hu' & Htu & Hy' & Hdir).
    destruct (decide (get_type u = OGL_DIR)); [by apply IH, Hdir|by eapply walk_leaf].
Qed.
End Loop.

(** ** clone *)
Lemma brk_old h : tree_ok h → ∀ y x, objs h !! y = Some x → y < brk h.
Proof. intros Hok y x Hy. by apply (tree_brk _ Hok _ _ Hy). Qed.

(** C33: [clone] of any entry into a directory of a well-formed tree returns (its loop does not run out of fuel)
    and changes nothing that was there; the copy is made of new objects only, and every path of names that
    can be walked from the original can be walked from the copy, and no other, and ends at a copy of
    what it leads to: the same kind, name, permissions and flags, and the same hash code unless it is a
    directory. *)
Theorem clone_copies (h : heap) e c dir p x : tree_ok h → dir_in h dir p → objs h !! c = Some x →
  ∃ g c', clone c dir (h, e) = Ok (c', (g, e)) ∧ (∀ a, a < brk h → objs g !! a = objs h !! a) ∧
    ∀ path, same_walk h g c c' path.
Proof.
  intros Hok Hdir Hx. unfold clone. rewrite (entry_at_step _ _ _ _ _ Hx).
  destruct (copy_entry_eq h e x dir p Hdir) as (x' & Hrun & Ht & Hempty).
  assert (∀ a, a < brk h → objs (allot h x') !! a = objs h !! a) as Hold.
  { intros a Ha. unfold allot. cbn. rewrite lookup_insert_ne; [done|lia]. }
  assert (objs (allot h x') !! brk h = Some x') as Hnew by (unfold allot; cbn; by rewrite lookup_insert_eq).
  destruct (dir_or_leaf x) as [[d ->]|Hleaf].
  - rewrite (ST_bind_step _ _ _ _ _ Hrun). destruct x' as [|d'| | | |]; try done.
    destruct (copying_start h c Hok (allot h (EDir d')) (brk h) d d') as [Hc Hp]; try done.
    { unfold allot. cbn. lia. }
    { intros y v. unfold allot. cbn. intros [[<- _]|[_ Hy%(brk_old h Hok)]]%lookup_insert_Some; lia. }
    destruct (copy_loop_spec h c Hok e (heap_fuel (allot h (EDir d'), e)) _ _ _ Hc Hp) as (g & W & Hloop & Hcg & Hpg & Hk).
    { unfold heap_fuel, allot. cbn. rewrite map_size_singleton, map_size_insert. destruct (objs h !! brk h); unfold id; cbn; lia. }
    exists g, (brk h). split_and!; [|apply (cp_old _ _ _ _ Hcg)|].
    + assert (copy_to c (brk h) (allot h (EDir d'), e) = Ok (tt, (g, e))) as Hto.
      { unfold copy_to. rewrite (ST_bind_step _ _ _ _ _ (dir_at_eq _ _ _ e Hnew)), Hempty. exact Hloop. }
      by rewrite (ST_bind_step _ _ _ _ _ Hto).
    + intros path. eapply walk_copied; [done..|]. apply Hk. by rewrite lookup_singleton_eq.
  - exists (allot h x'), (brk h). split_and!; [|done|].
    + destruct x as [|d| | | |]; [|by destruct (Hleaf d)|..]; exact Hrun.
    + intros path. eapply walk_leaf; [done..|lia|]. destruct x as [|d| | | |]; try done. by destruct (Hleaf d).
Qed.
End Clone.

(** A small tree: "/r" has the file "a" and the directory "/r/s", which has the file "b" and the empty directory "/r/s/t". *)
Definition tree_dir (parent : option Z) (path name : string) (entries : gmap string Z) : ogl_entry :=
  EDir (OglDir "/repo" parent name path None entries no_perms true true).
Definition tree_heap : heap := Heap (list_to_map [
  (0, tree_dir None "/r" "/r" (<["a"%string := 1]> {["s"%string := 2]}));
  (1, demo_file 0 "a" 11);
  (2, tree_dir (Some 0) "/r/s" "s" (<["b"%string := 3]> {["t"%string := 4]}));
  (3, demo_file 2 "b" 12);
  (4, tree_dir (Some 2) "/r/s/t" "t" ∅)]) 5.
#[local] Existing Instance no_os.

(** "/r/s" is copied into "/r": by walking, its file and its directory are found. *)
Lemma clone_copies_witness : tree_ok tree_heap ∧
  ∃ g c', clone 2 0 (tree_heap, tt) = Ok (c', (g, tt)) ∧ (∀ a, a < brk tree_heap → objs g !! a = objs tree_heap !! a) ∧
    (∃ y, walk g c' ["t"%string] = Some y ∧ brk tree_heap ≤ y) ∧ walk g c' ["a"%string] = None.
Proof.
  assert (tree_ok tree_heap) as Hok.
  { apply placed_ok. apply (bool_decide_unpack _). vm_compute. exact I. }
  split; [exact Hok|].
  destruct (clone_copies tree_heap tt 2 0 (OglDir "/repo" None "/r" "/r" None
    (<["a"%string := 1]> {["s"%string := 2]}) no_perms true true)
    (tree_dir (Some 0) "/r/s" "s" (<["b"%string := 3]> {["t"%string := 4]})) Hok eq_refl eq_refl)
    as (g & c' & Hrun & Hold & Hwalk).
  exists g, c'. split; [exact Hrun|]. split; [exact Hold|]. split.
  - specialize (Hwalk ["t"%string]). unfold same_walk in Hwalk.
    replace (walk tree_heap 2 ["t"%string]) with (Some 4) in Hwalk by reflexivity.
    destruct (walk g c' ["t"%string]) as [y|]; [|destruct Hwalk]. exists y. split; [reflexivity|apply Hwalk].
  - specialize (Hwalk ["a"%string]). unfold same_walk in Hwalk.
    replace (walk tree_heap 2 ["a"%string]) with (@None Z) in Hwalk by reflexivity.
    destruct (walk g c' ["a"%string]); [destruct Hwalk|reflexivity].
Defined.

(** *** A merged directory cannot be committed

    What [clone_nocopy] leaves out is used: "/r" of the source has the
    directory "s", committed and loaded, and the other two do not. *)
Definition one_dir_heap : heap := Heap (list_to_map [
  (0, EDir (OglDir "/repo" None "/r" "/r" (Some 5) {["s"%string := 1]} no_perms false true));
  (1, EDir (OglDir "/repo" (Some 0) "s" "/r/s" (Some 7) ∅ no_perms false true));
  (2, EDir (OglDir "/repo" None "/r" "/r" (Some 6) ∅ no_perms false true));
  (3, EDir (OglDir "/repo" None "/r" "/r" (Some 6) ∅ no_perms false true))]) 4.
(** The merge succeeds and adds "s" to the destination; the commit that
    follows reads the hash code of the copy, which nobody has set. *)
Theorem merge_then_commit_undefined : tree_ok one_dir_heap ∧
  ∃ g, merge 2 (OglRepo "/r" "/repo" 0) (OglRepo "/r" "/repo" 2) (OglRepo "/r" "/repo" 3)
         ((false, []), (one_dir_heap, tt)) = Ok (true, ((false, []), (g, tt))) ∧
       listing g 2 "s" = Some OGL_DIR ∧
       commit [] (OglRepo "/r" "/repo" 2) (g, tt) = Fault (Undefined "uninitialised hash").
Proof.
  split; [apply placed_ok; apply (bool_decide_unpack _); vm_compute; exact I|].
  eexists. split; [vm_compute; reflexivity|]. split; vm_compute; reflexivity.
Qed.
