(* ===== verification/OglStore.v ===== *)
(** * oglfs: a directory that is dumped and loaded again

    [ogl_dir::dump] writes a directory as an object, [ogl_dir::load] makes a
    directory of the object: what comes back is what has been dumped, but for
    the placeholders of removed names. *)

From S2P Require Import Prelude Otypes Ogl OglHash OglMerge OglTree OglSpec.
From Stdlib Require Import Strings.String.

(** ** The files of a repository *)

(** Object files behave as files do: what has been written is there, and is
    read back.  [store_obj] and [load_obj] name them by the characters of a
    string that has been destroyed; [freed] is what these read as, the same at
    every use, and need not be the string. *)
Class repo_files (E : Type) `{Os : repo_os E} := {
  stored : E → string → option (list byte);
  writable : string → Prop;
  freed : string → string;
  stale_freed s e : stale s e = Ok (freed s, e);
  obj_stat_stored e path :
    obj_stat path e = Ok (bool_decide (is_Some (stored e path)), e);
  obj_read_stored e path : obj_read path e = Ok (stored e path, e);
  obj_write_stored e path bytes : writable path →
    ∃ e', obj_write path bytes e = Ok (Z.of_nat (base.length bytes), e') ∧
          stored e' path = Some bytes;
}.
(** The file that is used for an object, and what it holds. *)
Definition object_file {E} `{repo_files E} (repo : string) (hash : Z) : string := freed (get_obj_path repo hash).
Definition object_at {E} `{repo_files E} (e : E) (repo : string) (hash : Z) : option (list byte) :=
  stored e (object_file repo hash).
(** The destroyed strings are intact. *)
Definition strings_intact {E} `{repo_files E} : Prop := ∀ repo hash, object_file repo hash = get_obj_path repo hash.

(** ** What a directory shows *)
Definition content : Type := ogl_type * option Z.
Definition shown (h : heap) (a : Z) (n : string) : option content :=
  match objs h !! a with
  | Some (EDir d) => content_of <$> entry_of h d n
  | _ => None
  end.
(** Placeholders are not written. *)
Definition persistent (c : content) : option content :=
  match c.1 with OGL_REMOVED => None | _ => Some c end.

(** An entry as [commit] leaves it before its directory is dumped. *)
Definition perms_ok (p : perms) : Prop := 0 ≤ mode p < 0x200.
Definition hash_ok (h : option Z) : Prop := ∃ v, h = Some v ∧ 0 ≤ v < 2 ^ 64.
Definition dumpable (e : ogl_entry) : Prop :=
  match e with
  | EFile f => hash_ok (f_hash f) ∧ perms_ok (f_perms f)
  | EDir d => hash_ok (d_hash d) ∧ perms_ok (d_perms d)
  | ESymlink l => hash_ok (l_hash l) ∧ perms_ok (l_perms l)
  | _ => True
  end.

Definition hash_value (h : option Z) : Z := from_option id 0 h.
Definition rec_of (name : string) (e : ogl_entry) : option dir_record :=
  match e with
  | EFile f => Some (DirRecord name (perm_bits (f_perms f) ENT_FILE) (hash_value (f_hash f)))
  | EDir d => Some (DirRecord name (perm_bits (d_perms d) ENT_DIR) (hash_value (d_hash d)))
  | ESymlink l => Some (DirRecord name (perm_bits (l_perms l) ENT_SYMLINK) (hash_value (l_hash l)))
  | ENonexistent _ => Some (DirRecord name (Z.shiftl ENT_NONEXISTENT 12) 0)
  | ELocal _ => Some (DirRecord name (Z.shiftl ENT_LOCAL 12) 0)
  | ERemoved _ => None
  end.
Definition records (h : heap) (d : ogl_dir) : list dir_record :=
  omap (fun n => e ← entry_of h d n; rec_of n e) (names_of (d_entries d)).

(** What a record stands for. *)
Definition rec_type (r : dir_record) : Z := mode_type (rec_mode r).
Definition rec_content (r : dir_record) : content :=
  let t := rec_type r in
  if t =? ENT_NONEXISTENT then (OGL_NONEXISTENT, None) else
  if t =? ENT_FILE then (OGL_FILE, Some (rec_hash r)) else
  if t =? ENT_DIR then (OGL_DIR, Some (rec_hash r)) else
  if t =? ENT_SYMLINK then (OGL_SYMLINK, Some (rec_hash r)) else (OGL_LOCAL, None).

(** *** The mode field: nine permission bits, two owner bits, the type *)
Lemma perm_bits_ok p t : perms_ok p → 0 ≤ t < 5 →
  Z.land (Z.shiftr (perm_bits p t) 12) 0xf = t ∧ 0 ≤ perm_bits p t < 2 ^ 16.
Proof.
  assert (∀ m t, (m < 512)%nat → (t < 5)%nat → ∀ u g,
    let z := perm_bits (Perms (Z.of_nat m) u g) (Z.of_nat t) in
    (Z.land (Z.shiftr z 12) 0xf =? Z.of_nat t) && (0 <=? z) && (z <? 2 ^ 16) = true) as Hall.
  { assert (forallb (fun m => forallb (fun t => forallb (fun u => forallb (fun g =>
      let z := perm_bits (Perms (Z.of_nat m) u g) (Z.of_nat t) in
      (Z.land (Z.shiftr z 12) 0xf =? Z.of_nat t) && (0 <=? z) && (z <? 2 ^ 16))
      [true; false]) [true; false]) (seq 0 5)) (seq 0 512) = true) as H by by vm_compute.
    rewrite forallb_forall in H. intros m k Hm Hk u g.
    specialize (H m ltac:(apply in_seq; lia)). rewrite forallb_forall in H.
    specialize (H k ltac:(apply in_seq; lia)). rewrite forallb_forall in H.
    specialize (H u ltac:(destruct u; simpl; auto)). rewrite forallb_forall in H.
    exact (H g ltac:(destruct g; simpl; auto)). }
  intros Hp Ht. destruct p as [m u g]. unfold perms_ok in Hp. cbn [mode] in Hp.
  specialize (Hall (Z.to_nat m) (Z.to_nat t) ltac:(lia) ltac:(lia) u g). cbv zeta in Hall.
  rewrite !Z2Nat.id in Hall by lia. lia.
Qed.

Lemma hashed_rec n h p t : hash_ok h → perms_ok p → 0 ≤ t < 5 →
  rec_type (DirRecord n (perm_bits p t) (hash_value h)) = t ∧
  0 ≤ perm_bits p t < 2 ^ 16 ∧ 0 ≤ hash_value h < 2 ^ 64 ∧ h = Some (hash_value h).
Proof.
  intros (v & -> & Hv) Hp Ht. destruct (perm_bits_ok p t Hp Ht) as [H1 H2].
  split_and!; [exact H1|apply H2|apply H2|apply Hv|apply Hv|done].
Qed.

(** What [ogl_dir::load] makes of a record of [ogl_dir::dump]. *)
Record rec_for (n : string) (e : ogl_entry) (r : dir_record) : Prop := {
  rf_name : rec_name r = n;
  rf_type : 0 ≤ rec_type r < 5;
  rf_content : rec_content r = content_of e;
  rf_mode : 0 ≤ rec_mode r < 2 ^ 16;
  rf_hash : 0 ≤ rec_hash r < 2 ^ 64;
}.
Lemma hashed_rec_for n e h p t (Ht : 0 ≤ t < 5) :
  hash_ok h → perms_ok p →
  (∀ r, rec_type r = t → h = Some (rec_hash r) → rec_content r = content_of e) →
  rec_for n e (DirRecord n (perm_bits p t) (hash_value h)).
Proof.
  intros Hh Hp Hc. destruct (hashed_rec n h p t Hh Hp Ht) as (H1 & H2 & H3 & H4).
  split; [done|by rewrite H1|by apply Hc|exact H2|exact H3].
Qed.
Lemma marker_rec_for n e t : t = ENT_NONEXISTENT ∧ content_of e = (OGL_NONEXISTENT, None) ∨
  t = ENT_LOCAL ∧ content_of e = (OGL_LOCAL, None) → rec_for n e (DirRecord n (Z.shiftl t 12) 0).
Proof. intros [[-> H]|[-> H]]; (split; [done|by vm_compute|by rewrite H|by vm_compute|by vm_compute]). Qed.
Lemma rec_of_spec n e r : dumpable e → rec_of n e = Some r → rec_for n e r.
Proof.
  destruct e as [f|d|l|repo|repo|repo]; cbn [rec_of dumpable]; intros Hd [= <-].
  - apply hashed_rec_for; [by vm_compute|apply Hd|apply Hd|]. intros r Ht Hh.
    unfold rec_content. rewrite Ht. cbn [content_of]. by rewrite Hh.
  - apply hashed_rec_for; [by vm_compute|apply Hd|apply Hd|]. intros r Ht Hh.
    unfold rec_content. rewrite Ht. cbn [content_of]. by rewrite Hh.
  - apply hashed_rec_for; [by vm_compute|apply Hd|apply Hd|]. intros r Ht Hh.
    unfold rec_content. rewrite Ht. cbn [content_of]. by rewrite Hh.
  - apply marker_rec_for. by left.
  - apply marker_rec_for. by right.
Qed.

(** ** dump *)
Section Dump.
Context {E : Type} `{Os : repo_os E}.
Implicit Types (h : heap) (e : E).

Lemma dump_record_spec n x h e : dumpable x →
  dump_record n x (h, e) = Ok (rec_of n x, (h, e)).
Proof.
  destruct x as [f|d|l| | |]; cbn [dumpable dump_record rec_of]; [| | |done..];
    intros [(v & Hv & _) _]; rewrite Hv; done.
Qed.

Lemma dump_records_spec h e a d : dir_in h a d →
  ∀ names,
  (∀ n, n ∈ names → ∃ x, entry_of h d n = Some x ∧ dumpable x) →
  dump_records a names (h, e) = Ok (omap (fun n => x ← entry_of h d n; rec_of n x) names, (h, e)).
Proof.
  intros Ha names. induction names as [|n names IH]; intros Hn; [done|].
  destruct (Hn n ltac:(by left)) as (x & Hx & Hd). cbn [dump_records].
  pose proof Hx as Hx0. unfold entry_of in Hx0.
  destruct (d_entries d !! n) as [c|] eqn:Hc; [|done]. cbn in Hx0.
  rewrite (lookup_name_step _ _ _ _ _ _ Ha), Hc. cbv iota. rewrite (entry_step _ _ _ _ _ Hx0).
  rewrite (ST_bind_step _ _ _ _ _ (dump_record_spec n x h e Hd)).
  rewrite (ST_bind_step _ _ _ _ _ (IH ltac:(intros; apply Hn; by right))).
  cbn [omap list_omap]. rewrite Hx. cbn [mbind option_bind]. by destruct (rec_of n x).
Qed.
End Dump.

(** ** Storing and loading an object *)
Record object_ok (obj : list byte) : Prop := {
  ob_magic : obj_magic obj = Ok MAGIC;
  ob_size : obj_size obj = Ok (Z.of_nat (base.length obj));
  ob_header : sizeof_object ≤ Z.of_nat (base.length obj);
}.
Section Objects.
Context {E : Type} `{Os : repo_os E} {Files : repo_files E}.
Implicit Types (h : heap) (e : E).

Lemma store_obj_stored h e repo hash obj :
  object_ok obj → writable (object_file repo hash) → (∀ b, object_at e repo hash = Some b → b = obj) →
  ∃ e', store_obj repo hash obj (h, e) = Ok (true, (h, e')) ∧ object_at e' repo hash = Some obj.
Proof.
  intros [Hm Hs _] Hwr Hcol. unfold store_obj, dangling_path.
  rewrite (lift_step _ _ _ _ _ Hm). rewrite sassert_step by done.
  rewrite (os_step _ _ _ _ _ _ (stale_freed _ e)), (os_step _ _ _ _ _ _ (obj_stat_stored e _)).
  change (stored e (freed (get_obj_path repo hash))) with (object_at e repo hash).
  destruct (object_at e repo hash) as [b|] eqn:Hst.
  - exists e. rewrite bool_decide_true by by eexists. split; [done|]. by rewrite Hst, (Hcol b eq_refl).
  - rewrite bool_decide_false by (by intros []). cbv iota. rewrite (lift_step _ _ _ _ _ Hs).
    rewrite (lift_step _ _ _ _ _ (read_at_all obj _ eq_refl)).
    rewrite (os_step _ _ _ _ _ _ (stale_freed _ e)).
    destruct (obj_write_stored e (object_file repo hash) obj Hwr) as (e' & Hw & Hst').
    rewrite (os_step _ _ _ _ _ _ Hw). exists e'. split; [|done]. by rewrite Z.eqb_refl.
Qed.
Lemma load_obj_stored h e repo hash obj :
  object_ok obj → object_at e repo hash = Some obj →
  load_obj repo hash (h, e) = Ok (Some obj, (h, e)).
Proof.
  intros [Hm Hs Hh] Hst. unfold load_obj, dangling_path. rewrite (os_step _ _ _ _ _ _ (stale_freed _ e)).
  pose proof (obj_read_stored e (object_file repo hash)) as Hr.
  change (stored e (object_file repo hash)) with (object_at e repo hash) in Hr. rewrite Hst in Hr.
  rewrite (os_step _ _ _ _ _ _ Hr). cbv iota. change (ST (heap * E)) with (M (E:=E)).
  destruct (Z.ltb_spec (Z.of_nat (base.length obj)) sizeof_object) as [Hlt|_]; [lia|].
  rewrite (lift_step _ _ _ _ _ Hm), sassert_step by done.
  rewrite (lift_step _ _ _ _ _ Hs), sassert_step by (unfold sizeof_object in *; lia).
  rewrite sassert_step by lia. by rewrite (lift_step _ _ _ _ _ (read_at_all obj _ eq_refl)).
Qed.
End Objects.

Lemma dir_object_ok recs : recs_ok recs → object_ok (dir_object recs).
Proof.
  intros Hok. destruct (header_fields recs Hok) as (_ & _ & H1 & _ & H3).
  split; [exact H1|by rewrite length_dir_object|]. rewrite length_dir_object, dir_objsize_eq.
  unfold sizeof_object. lia.
Qed.

(** ** load *)
Lemma shown_allot h x : tree_ok h → fresh_ok h x → ∀ y n, shown (allot h x) y n = shown h y n.
Proof.
  intros Hok Hx y n. unfold shown, allot. cbn [objs].
  destruct (decide (y = brk h)) as [->|Hne].
  - rewrite lookup_insert_eq, (fresh_none h (brk h) Hok) by lia. destruct x; try done.
    unfold entry_of. destruct Hx as [-> _]. done.
  - rewrite lookup_insert_ne by done. destruct (objs h !! y) as [[|d| | | |]|] eqn:Hy; try done.
    unfold entry_of. destruct (d_entries d !! n) as [c|] eqn:Hc; [|done]. cbn.
    destruct (tree_child _ Hok _ _ _ _ Hy Hc) as (y0 & He & _).
    pose proof (tree_brk _ Hok _ _ He). by rewrite lookup_insert_ne by lia.
Qed.
Lemma shown_put h a d d' y n : dir_in h a d → d_hash d' = d_hash d →
  shown (put h a (EDir d')) y n =
  if decide (y = a) then content_of <$> (c ← d_entries d' !! n; objs h !! c) else shown h y n.
Proof.
  intros Ha Hh.
  assert (∀ c, content_of <$> objs (put h a (EDir d')) !! c = content_of <$> objs h !! c) as Hc.
  { intros c. unfold put. cbn [objs]. destruct (decide (c = a)) as [->|Hne].
    - rewrite lookup_insert_eq, Ha. cbn. by rewrite Hh.
    - by rewrite lookup_insert_ne. }
  assert (∀ x, content_of <$> entry_of (put h a (EDir d')) x n = content_of <$> entry_of h x n) as Hx.
  { intros x. unfold entry_of. destruct (d_entries x !! n); [apply Hc|done]. }
  unfold shown. case_decide as Hy.
  - subst y. cbn [put objs]. rewrite lookup_insert_eq. apply Hx.
  - cbn [put objs]. rewrite lookup_insert_ne by done. destruct (objs h !! y) as [[| d0 | | | |]|]; done || apply Hx.
Qed.

Section Load.
Context {E : Type} `{Os : repo_os E}.
Implicit Types (h : heap) (e : E).

(** An entry as its constructor leaves it: no permission bits, no owner. *)
Definition plain (x : ogl_entry) : Prop :=
  match x with
  | EFile f => f_perms f = no_perms | EDir d => d_perms d = no_perms | ESymlink l => l_perms l = no_perms
  | _ => True
  end.
Definition entries_plain (h : heap) (a : Z) : Prop := ∀ d n x, dir_in h a d → entry_of h d n = Some x → plain x.

(** What loading entries does to the directory [a]: [f] is what it shows. *)
Record loaded (h : heap) (a : Z) (d : ogl_dir) (f : string → option content) (h' : heap) : Prop := {
  ld_ok : tree_ok h';
  ld_dir : ∃ d', dir_in h' a d' ∧ d_hash d' = d_hash d ∧ d_repo d' = d_repo d ∧
                 d_parent d' = d_parent d ∧ d_dirname d' = d_dirname d ∧ d_modified d' = d_modified d;
  ld_shown n : shown h' a n = f n;
  ld_rest y n : y ≠ a → shown h' y n = shown h y n;
  ld_plain : entries_plain h a → entries_plain h' a;
}.

Lemma add_spec h e a d name x :
  tree_ok h → dir_in h a d → child_of a name x → fresh_ok h x → plain x →
  ∃ h', (c ← new_entry x; set_entry a name c) (h, e) = Ok (tt, (h', e)) ∧
    loaded h a d (fun n => if decide (n = name) then Some (content_of x) else shown h a n) h'.
Proof.
  intros Hok Ha Hch Hf Hpl. pose proof (allot_ok h x a d Hok Ha Hf) as Hok1.
  pose proof (allot_old h x a _ Hok Ha) as Ha1.
  set (d' := d_set_entries (<[name := brk h]> (d_entries d)) d).
  set (h' := put (allot h x) a (EDir d')). exists h'. split.
  { rewrite new_entry_step. unfold set_entry, upd_dir. by rewrite (dir_at_step _ _ _ _ _ Ha1). }
  assert (tree_ok h') as Hok'.
  { apply (put_dir_ok _ a d); try done. intros n c Hn. cbn in Hn.
    apply lookup_insert_Some in Hn as [[<- <-]|[Hne Hn]].
    - exists x. split; [|done]. cbn. by rewrite lookup_insert_eq.
    - destruct (tree_child _ Hok _ _ _ _ Ha Hn) as (y & Hy & Hyc). exists y.
      split; [by apply allot_old|done]. }
  split; [done| | | |].
  - exists d'. split; [|done]. unfold dir_in, h', put. cbn [objs]. by rewrite lookup_insert_eq.
  - intros n. unfold h'. rewrite (shown_put _ _ _ _ _ _ Ha1), decide_True by done. cbn [d_entries d' d_set_entries].
    case_decide as Hn.
    + subst n. rewrite lookup_insert_eq. cbn. by rewrite lookup_insert_eq.
    + rewrite lookup_insert_ne by done. rewrite <-(shown_allot h x Hok Hf a n).
      unfold shown. by rewrite Ha1.
  - intros y n Hy. unfold h'. rewrite (shown_put _ _ _ _ _ _ Ha1), decide_False by done. by apply shown_allot.
  - intros Hp d1 n z Hd1. unfold dir_in, h', put in Hd1. cbn [objs] in Hd1. rewrite lookup_insert_eq in Hd1.
    injection Hd1 as <-. unfold entry_of, d'. cbn [d_entries d_set_entries].
    destruct (decide (n = name)) as [->|Hn].
    + rewrite lookup_insert_eq. unfold h', put, allot. cbn. pose proof (tree_brk _ Hok _ _ Ha).
      rewrite lookup_insert_ne, lookup_insert_eq by lia. by intros [= <-].
    + rewrite lookup_insert_ne by done. destruct (d_entries d !! n) as [c|] eqn:Hc; [|done].
      destruct (tree_child _ Hok _ _ _ _ Ha Hc) as (y & Hy & _).
      assert (plain y) as Hpy by (apply (Hp d n); [done|]; unfold entry_of; by rewrite Hc).
      unfold h', put. cbn [mbind option_bind objs]. destruct (decide (c = a)) as [->|Hne].
      * rewrite lookup_insert_eq. intros [= <-]. unfold dir_in in Ha. rewrite Ha in Hy. by injection Hy as <-.
      * rewrite lookup_insert_ne by done. rewrite (allot_old h x c y Hok Hy). by intros [= <-].
Qed.

Lemma load_entry_spec h e a d r :
  tree_ok h → dir_in h a d → 0 ≤ rec_type r < 5 →
  ∃ h', load_entry a (loaded_of r) (h, e) = Ok (tt, (h', e)) ∧
    loaded h a d (fun n => if decide (n = rec_name r) then Some (rec_content r) else shown h a n) h'.
Proof.
  intros Hok Ha Ht. unfold load_entry. rewrite (dir_at_step _ _ _ _ _ Ha). cbv zeta.
  cbn [ent_name ent_type ent_hash loaded_of]. unfold rec_content. change (mode_type (rec_mode r)) with (rec_type r).
  assert (rec_type r = 0 ∨ rec_type r = 1 ∨ rec_type r = 2 ∨ rec_type r = 3 ∨ rec_type r = 4) as Hc by lia.
  destruct Hc as [-> | [-> | [-> | [-> | ->]]]]; cbn [Z.eqb Pos.eqb ENT_NONEXISTENT ENT_FILE ENT_DIR ENT_SYMLINK ENT_LOCAL].
  - by apply add_spec with (x := ENonexistent (d_repo d)).
  - by apply add_spec with (x := EFile (f_set_hash (Some (rec_hash r)) true (new_file (d_repo d) a (rec_name r)))).
  - apply add_spec with (x := EDir (d_set_hash (Some (rec_hash r)) (new_dir (d_repo d) (Some (a, d)) (rec_name r))));
      [done|done|done| |done]. split_and!; [done|done|]. intros p [= <-]. by exists d.
  - by apply add_spec with (x := ESymlink (l_set_hash (Some (rec_hash r)) false (new_symlink (d_repo d) a (rec_name r)))).
  - by apply add_spec with (x := ELocal (d_repo d)).
Qed.

(** What a list of records with different names shows. *)
Definition rec_shown (recs : list dir_record) (n : string) : option content :=
  rec_content <$> List.find (fun r => bool_decide (rec_name r = n)) recs.

Lemma load_entries_spec e a recs : ∀ h d,
  tree_ok h → dir_in h a d → (∀ r, r ∈ recs → 0 ≤ rec_type r < 5) → NoDup (map rec_name recs) →
  ∃ h', load_entries a (map loaded_of recs) (h, e) = Ok (tt, (h', e)) ∧
    loaded h a d (fun n => match rec_shown recs n with Some c => Some c | None => shown h a n end) h'.
Proof.
  induction recs as [|r recs IH]; intros h d Hok Ha Ht Hnd.
  - exists h. split; [done|]. split; [done|by exists d|done|done|done].
  - cbn [map] in Hnd. apply list.NoDup_cons in Hnd as [Hr Hnd].
    destruct (load_entry_spec h e a d r Hok Ha (Ht r ltac:(by left))) as
      (h1 & Hrun1 & [Hok1 (d1 & Ha1 & He1) Hs1 Hr1 Hp1]).
    destruct (IH h1 d1 Hok1 Ha1 ltac:(intros; apply Ht; by right) Hnd) as
      (h2 & Hrun2 & [Hok2 (d2 & Ha2 & He2) Hs2 Hr2 Hp2]).
    exists h2. split; [cbn [load_entries map]; by rewrite (ST_bind_step _ _ _ _ _ Hrun1)|].
    split; [done| | | |auto].
    + exists d2. split; [done|]. destruct_and?. split_and!; congruence.
    + intros n. rewrite Hs2, Hs1. unfold rec_shown. cbn [List.find]. case_bool_decide as Hn.
      * subst n. rewrite decide_True by done.
        destruct (List.find _ recs) as [q|] eqn:Hq; [|done]. exfalso. apply Hr.
        apply List.find_some in Hq as [Hq1 Hq2%bool_decide_eq_true].
        rewrite <-Hq2. apply list_elem_of_In. by apply in_map.
      * by rewrite (decide_False (P := n = rec_name r)) by congruence.
    + intros y n Hy. by rewrite Hr2, Hr1.
Qed.
End Load.

(** ** The round trip *)
Lemma find_omap (g : string → option dir_record) n names :
  (∀ m r, g m = Some r → rec_name r = m) →
  List.find (fun r => bool_decide (rec_name r = n)) (omap g names) =
  if decide (n ∈ names) then g n else None.
Proof.
  intros Hg. induction names as [|m names IH]; [by rewrite decide_False by apply not_elem_of_nil|].
  cbn [omap list_omap]. destruct (decide (m = n)) as [->|Hne].
  - rewrite decide_True by by left. destruct (g n) as [r|] eqn:Hr.
    + cbn. by rewrite bool_decide_true by by apply Hg.
    + rewrite IH. by case_decide.
  - rewrite (decide_ext _ (n ∈ names)) by (rewrite elem_of_cons; naive_solver).
    destruct (g m) as [r|] eqn:Hr; [|done]. cbn. rewrite bool_decide_false by (by rewrite (Hg _ _ Hr)). done.
Qed.

Section Records.
Context (h : heap) (d : ogl_dir).
Hypothesis Hdump : ∀ n, is_Some (d_entries d !! n) →
  name_ok n ∧ ∃ x, entry_of h d n = Some x ∧ dumpable x.

Lemma record_for n r : (x ← entry_of h d n; rec_of n x) = Some r →
  ∃ x, entry_of h d n = Some x ∧ rec_for n x r.
Proof using Hdump.
  intros Hr. destruct (entry_of h d n) as [x|] eqn:Hx; [|done]. cbn in Hr.
  assert (is_Some (d_entries d !! n)) as Hin.
  { unfold entry_of in Hx. destruct (d_entries d !! n); [by eexists|done]. }
  destruct (Hdump n Hin) as (_ & y & Hy & Hd). assert (y = x) as -> by congruence. exists x. split; [done|].
  by apply rec_of_spec.
Qed.
Lemma elem_of_records r : r ∈ records h d → ∃ n x, n ∈ names_of (d_entries d) ∧
  entry_of h d n = Some x ∧ rec_for n x r.
Proof using Hdump.
  unfold records. rewrite list_elem_of_omap. intros (n & Hn & Hr).
  destruct (record_for n r Hr) as (x & Hx & Hf). by exists n, x.
Qed.
Lemma records_nodup : NoDup (map rec_name (records h d)).
Proof using Hdump.
  unfold records. pose proof (NoDup_names_of (d_entries d)) as Hnd.
  assert (∀ names, NoDup names →
    NoDup (map rec_name (omap (fun n => x ← entry_of h d n; rec_of n x) names)) ∧
    ∀ m, m ∈ map rec_name (omap (fun n => x ← entry_of h d n; rec_of n x) names) → m ∈ names) as H;
    [|by apply H].
  intros names. induction names as [|n names IH]; intros Hn; [split; [apply NoDup_nil_2|done]|].
  apply list.NoDup_cons in Hn as [Hni Hn]. destruct (IH Hn) as [IH1 IH2]. cbn [omap list_omap].
  destruct (x ← entry_of h d n; rec_of n x) as [r|] eqn:Hr.
  - destruct (record_for n r Hr) as (x & _ & Hf). rewrite <-(rf_name _ _ _ Hf) in *. cbn [map]. split.
    + apply NoDup_cons_2; [|done]. intros Hin. by apply Hni, IH2.
    + intros m [->|Hm]%elem_of_cons; [by left|right; by apply IH2].
  - split; [done|]. intros m Hm. right. by apply IH2.
Qed.
Lemma records_recs_ok : dir_objsize (records h d) < 2 ^ 16 → recs_ok (records h d).
Proof using Hdump.
  intros Hs. split; [done|..]; intros r (n & x & Hn & Hx & Hf)%elem_of_records.
  - rewrite (rf_name _ _ _ Hf). apply Hdump. by apply elem_of_names_of.
  - apply Hf.
  - apply Hf.
Qed.
Lemma records_shown a n : dir_in h a d → rec_shown (records h d) n = shown h a n ≫= persistent.
Proof using Hdump.
  intros Ha. unfold rec_shown, records. rewrite find_omap.
  2:{ intros m r Hr. destruct (record_for m r Hr) as (x & _ & Hf). apply Hf. }
  unfold shown. rewrite Ha. case_decide as Hn; rewrite elem_of_names_of in Hn.
  - destruct (Hdump n Hn) as (_ & x & Hx & Hd). rewrite Hx. cbn [mbind option_bind fmap option_fmap option_map].
    destruct (rec_of n x) as [r|] eqn:Hr.
    + pose proof (rec_of_spec n x r Hd Hr) as Hf. cbn. rewrite (rf_content _ _ _ Hf).
      unfold persistent. by destruct x.
    + by destruct x.
  - apply eq_None_not_Some in Hn. unfold entry_of. by rewrite Hn.
Qed.
End Records.

(** A record without permissions and owner. *)
Definition stripped (r : dir_record) : dir_record := DirRecord (rec_name r) (Z.shiftl (rec_type r) 12) (rec_hash r).
Lemma rec_of_stripped n x y r :
  content_of x = content_of y → plain x → dumpable y → rec_of n y = Some r → rec_of n x = Some (stripped r).
Proof.
  intros Hc Hp Hd. unfold stripped, rec_type, mode_type.
  destruct y as [fy|dy|ly| | |], x as [fx|dx|lx| | |]; try discriminate; cbn in *; intros [= <-];
    cbn [rec_name rec_mode rec_hash]; try done; injection Hc as Hc; rewrite Hp, Hc;
    match goal with |- context [perm_bits (_ _) ?t] =>
      rewrite (proj1 (perm_bits_ok _ t (proj2 Hd) ltac:(by vm_compute))) end; done.
Qed.

Section RoundTrip.
Context {E : Type} `{Os : repo_os E} {Files : repo_files E}.
Context (h : heap) (e : E) (a : Z) (d : ogl_dir).
Hypothesis Hok : tree_ok h.
Hypothesis Ha : dir_in h a d.
Hypothesis Hdump : ∀ n, is_Some (d_entries d !! n) →
  name_ok n ∧ ∃ x, entry_of h d n = Some x ∧ dumpable x.
Hypothesis Hsize : dir_objsize (records h d) < 2 ^ 16.
Let obj := dir_object (records h d).
Let hash := hash_code obj.
(** The directory exists, its object can be written, and no other object has
    its hash code. *)
Hypothesis Hwritable : writable (object_file (d_repo d) hash).
Hypothesis Hexists : ∀ e', ∃ st, os_lstat (get_path d EmptyString) e' = Ok (Some st, e').
Hypothesis Hcollision : ∀ b, object_at e (d_repo d) hash = Some b → b = obj.

Lemma dump_dir_spec : d_loaded d = true →
  ∃ h' e' d', dump_dir a (h, e) = Ok (true, (h', e')) ∧
    object_at e' (d_repo d) hash = Some obj ∧ dir_in h' a d' ∧
    d_hash d' = Some hash ∧ d_modified d' = false ∧ d_loaded d' = true ∧ d_entries d' = d_entries d ∧
    (∀ x, x ≠ a → objs h' !! x = objs h !! x).
Proof using All.
  intros Hl. unfold dump_dir. rewrite (dir_at_step _ _ _ _ _ Ha), sassert_step by done.
  assert (dump_records a (names_of (d_entries d)) (h, e) = Ok (records h d, (h, e))) as Hr.
  { apply dump_records_spec; [done|]. intros n Hn%elem_of_names_of. by apply Hdump. }
  rewrite (ST_bind_step _ _ _ _ _ Hr). rewrite (lift_step _ _ _ _ _ (fill_dir_object_eq _)), (lift_step _ _ _ _ _ (compute_hash_buf_eq _)).
  fold obj hash. pose proof (records_recs_ok h d Hdump Hsize) as Hrok.
  destruct (store_obj_stored h e (d_repo d) hash obj (dir_object_ok _ Hrok) Hwritable Hcollision) as (e' & Hst & Hin).
  rewrite (ST_bind_step _ _ _ _ _ Hst). rewrite (upd_dir_step _ _ _ _ _ _ Ha).
  destruct (Hexists e') as [st Hls]. rewrite (os_step _ _ _ _ _ _ Hls). cbv iota.
  assert (∀ g x y, dir_in (put g x (EDir y)) x y) as Hput
    by (intros; unfold dir_in, put; cbn [objs]; by rewrite lookup_insert_eq).
  rewrite (upd_dir_step _ _ _ _ _ _ (Hput _ _ _)), (upd_dir_step _ _ _ _ _ _ (Hput _ _ _)).
  eexists _, e', _. split; [reflexivity|]. split; [done|]. split; [apply Hput|].
  split_and!; try done. intros x Hx. unfold put. cbn [objs]. by rewrite !lookup_insert_ne by done.
Qed.

Lemma load_dir_spec (g : heap) e' b db :
  object_at e' (d_repo d) hash = Some obj →
  tree_ok g → dir_in g b db → d_entries db = ∅ → d_repo db = d_repo d → d_hash db = Some hash →
  ∃ g' db', load_dir b (g, e') = Ok (true, (g', e')) ∧ dir_in g' b db' ∧
    d_modified db' = false ∧ d_loaded db' = true ∧ entries_plain g' b ∧
    (∀ n, shown g' b n = shown h a n ≫= persistent) ∧
    (∀ y n, y ≠ b → shown g' y n = shown g y n).
Proof using Ha Hdump Hsize Files.
  intros Hst Hg Hb Hempty Hrepo Hhash. pose proof (records_recs_ok h d Hdump Hsize) as Hrok.
  unfold load_dir. rewrite (dir_at_step _ _ _ _ _ Hb), Hhash, Hrepo.
  rewrite (ST_bind_step _ _ (g, e') hash (g, e')) by done.
  rewrite (ST_bind_step _ _ _ _ _ (load_obj_stored g e' (d_repo d) hash obj (dir_object_ok _ Hrok) Hst)).
  cbv iota. destruct (header_fields _ Hrok) as (_ & _ & _ & Ht & _). fold obj in Ht.
  rewrite (lift_step _ _ _ _ _ Ht), sassert_step by done.
  pose proof (read_dir_object_eq _ Hrok) as Hrd. fold obj in Hrd. rewrite (lift_step _ _ _ _ _ Hrd).
  destruct (load_entries_spec e' b (records h d) g db Hg Hb) as (g1 & Hrun & [Hg1 (db1 & Hb1 & He1) Hs1 Hr1 Hp1]).
  { intros r (n & x & _ & _ & Hf)%(elem_of_records h d Hdump). apply Hf. }
  { by apply records_nodup. }
  rewrite (ST_bind_step _ _ _ _ _ Hrun), (upd_dir_step _ _ _ _ _ _ Hb1).
  set (db2 := d_set_flags false true db1).
  exists (put g1 b (EDir db2)), db2. split; [done|].
  assert (∀ y n, shown (put g1 b (EDir db2)) y n = shown g1 y n) as Hsame.
  { intros y n. rewrite (shown_put _ _ _ _ _ _ Hb1) by done. case_decide as Hy; [subst y|done].
    unfold shown. by rewrite Hb1. }
  split_and!; [|done|done| | |].
  - unfold dir_in, put. cbn [objs]. by rewrite lookup_insert_eq.
  - assert (entries_plain g1 b) as Hp.
    { apply Hp1. intros d1 n x Hd1. assert (d1 = db) as -> by (unfold dir_in in *; congruence).
      unfold entry_of. by rewrite Hempty, lookup_empty. }
    intros d1 n x Hd1. unfold dir_in, put in Hd1. cbn [objs] in Hd1. rewrite lookup_insert_eq in Hd1. injection Hd1 as <-.
    unfold entry_of, put. cbn [d_entries db2 d_set_flags objs]. destruct (d_entries db1 !! n) as [c|] eqn:Hc; [|done].
    cbn [mbind option_bind]. destruct (decide (c = b)) as [->|Hne].
    + rewrite lookup_insert_eq. intros [= <-]. change (plain (EDir db1)). apply (Hp db1 n); [done|]. unfold entry_of. rewrite Hc. exact Hb1.
    + rewrite lookup_insert_ne by done. intros Hx. apply (Hp db1 n); [done|]. unfold entry_of. by rewrite Hc.
  - intros n. rewrite Hsame, Hs1, (records_shown h d Hdump a n Ha).
    destruct (shown h a n ≫= persistent); [done|]. unfold shown. rewrite Hb. unfold entry_of.
    by rewrite Hempty, lookup_empty.
  - intros y n Hy. by rewrite Hsame, Hr1.
Qed.

(** What has been dumped is what is loaded.  [dump] of a loaded directory
    whose entries have their hash codes succeeds and leaves it unmodified,
    under the hash code of its contents; loading this hash code into a new,
    empty directory of any tree over the same repository shows the same names
    with the same types and hash codes, but for the placeholders of removed
    names, which are not written. *)
Theorem dump_load_roundtrip :
  d_loaded d = true →
  ∃ h' e' d', dump_dir a (h, e) = Ok (true, (h', e')) ∧
    dir_in h' a d' ∧ d_modified d' = false ∧ d_hash d' = Some hash ∧ d_entries d' = d_entries d ∧
    ∀ (g : heap) b db,
      tree_ok g → dir_in g b db → d_entries db = ∅ → d_repo db = d_repo d → d_hash db = d_hash d' →
      ∃ g', load_dir b (g, e') = Ok (true, (g', e')) ∧
        (∀ n, shown g' b n = shown h a n ≫= persistent) ∧
        (∀ y n, y ≠ b → shown g' y n = shown g y n).
Proof using All.
  intros Hl. destruct (dump_dir_spec Hl) as (h' & e' & d' & Hrun & Hst & Hd' & Hh & Hm & _ & He & _).
  exists h', e', d'. split_and!; try done. intros g b db Hg Hb Hempty Hrepo Hhash. rewrite Hh in Hhash.
  destruct (load_dir_spec g e' b db Hst Hg Hb Hempty Hrepo Hhash) as (g' & db' & H1 & _ & _ & _ & _ & H2 & H3).
  by exists g'.
Qed.
(** A repository forgets the permissions of what it does not touch.
    [load] does not read the permission and owner bits of an entry, so every
    record that has been dumped is written again without them when the
    directory is dumped after it has been loaded: with the same name, type and
    hash code, and mode 0. *)
Theorem reload_forgets_permissions (g : heap) e' b db :
  object_at e' (d_repo d) hash = Some obj →
  tree_ok g → dir_in g b db → d_entries db = ∅ → d_repo db = d_repo d → d_hash db = Some hash →
  ∃ g' db', load_dir b (g, e') = Ok (true, (g', e')) ∧ dir_in g' b db' ∧
    ∀ r, r ∈ records h d → stripped r ∈ records g' db'.
Proof using Ha Hdump Hsize Hok Files.
  intros Hst Hg Hb Hempty Hrepo Hhash.
  destruct (load_dir_spec g e' b db Hst Hg Hb Hempty Hrepo Hhash) as (g' & db' & H1 & Hb' & _ & _ & Hpl & Hsh & _).
  exists g', db'. split; [done|]. split; [done|]. intros r Hr.
  unfold records in Hr. apply list_elem_of_omap in Hr as (n & Hn & Hr).
  destruct (entry_of h d n) as [y|] eqn:Hy; [|done]. cbn in Hr.
  apply elem_of_names_of in Hn. destruct (Hdump n Hn) as (_ & y' & Hy' & Hdy). assert (y' = y) as -> by congruence.
  specialize (Hsh n). unfold shown in Hsh. rewrite Ha, Hb', Hy in Hsh. cbn in Hsh.
  assert (persistent (content_of y) = Some (content_of y)) as Hpers by by destruct y.
  rewrite Hpers in Hsh. destruct (entry_of g' db' n) as [x|] eqn:Hx; [|done]. injection Hsh as Hc.
  unfold records. apply list_elem_of_omap. exists n. split.
  - apply elem_of_names_of. unfold entry_of in Hx. destruct (d_entries db' !! n); [by eexists|done].
  - rewrite Hx. cbn. apply (rec_of_stripped n x y r Hc); [by eapply Hpl|done|done].
Qed.
End RoundTrip.

(** ** Witness: a repository whose files are a map. *)
Definition store_world : Type := gmap string (list byte).
#[local] Instance store_os : repo_os store_world := {|
  getuid := 0; getgid := 0;
  os_lstat _ := mret (Some (StatT 0x41ed 0 0)); os_read_file _ := mret None; os_readlink _ := mret None;
  os_mkdir _ := mret 0;
  obj_stat path := fun e => Ok (bool_decide (is_Some (e !! path)), e);
  obj_write path b := fun e => Ok (Z.of_nat (base.length b), <[path := b]> e);
  obj_read path := fun e => Ok (e !! path, e);
  stale path := mret path;
  ref_write _ _ := mret true; ref_read _ := mret None;
|}.
#[local] Program Instance store_files : repo_files store_world := {
  stored e path := e !! path; writable _ := True; freed s := s }.
Next Obligation. done. Qed.
Next Obligation. done. Qed.
Next Obligation. done. Qed.
Next Obligation. intros e path b _. eexists. split; [reflexivity|]. apply lookup_insert_eq. Qed.

(** "/r" with a file and the placeholder of a removed name. *)
Definition dumped_file : ogl_entry :=
  EFile (f_set_perms (Perms 0x1a4 true true) (f_set_hash (Some 5) true (new_file "/repo" 0 "f"))).
Definition dumped_dir : ogl_dir :=
  OglDir "/repo" None "/r" "/r" None (<["f"%string := 1]> {["gone"%string := 2]}) no_perms true true.
Definition dumped_heap : heap := Heap (<[0 := EDir dumped_dir]> (<[1 := dumped_file]> {[2 := ERemoved "/repo"]})) 3.
Definition dumped_hash : Z := hash_code (dir_object (records dumped_heap dumped_dir)).
Definition dumped_file_path : string := get_obj_path "/repo" dumped_hash.
Definition empty_dir : ogl_dir := OglDir "/repo" None "/r" "/r" (Some dumped_hash) ∅ no_perms false false.
Definition empty_heap : heap := Heap {[0 := EDir empty_dir]} 1.

Lemma dumped_entries n c : d_entries dumped_dir !! n = Some c → (n = "f"%string ∧ c = 1) ∨ (n = "gone"%string ∧ c = 2).
Proof.
  unfold dumped_dir. cbn [d_entries].
  intros [[<- <-]|[_ [<- <-]%lookup_singleton_Some]]%lookup_insert_Some; auto.
Qed.
Lemma dumped_heap_ok : tree_ok dumped_heap.
Proof. apply placed_ok. apply (bool_decide_unpack _). by vm_compute. Qed.
Lemma empty_heap_ok : tree_ok empty_heap.
Proof. apply placed_ok. apply (bool_decide_unpack _). by vm_compute. Qed.
Lemma store_empty repo hash b : object_at (E:=store_world) ∅ repo hash = Some b → False.
Proof.
  intros Hb. assert ((∅ : gmap string (list byte)) !! get_obj_path repo hash = Some b) as H by exact Hb.
  by rewrite lookup_empty in H.
Qed.
Lemma dump_load_roundtrip_witness :
  ∃ h' e' g', dump_dir 0 (dumped_heap, (∅ : store_world)) = Ok (true, (h', e')) ∧
    load_dir 0 (empty_heap, e') = Ok (true, (g', e')) ∧
    shown g' 0 "f" = Some (OGL_FILE, Some 5) ∧ shown g' 0 "gone" = None.
Proof.
  destruct (dump_load_roundtrip dumped_heap ∅ 0 dumped_dir dumped_heap_ok eq_refl) as
    (h' & e' & d' & H1 & _ & _ & H2 & _ & H3).
  - intros n [c [[-> ->]|[-> ->]]%dumped_entries];
      (split; [apply (bool_decide_unpack _); by vm_compute|]).
    + exists (dumped_file). split; [by vm_compute|]. split; [exists 5; split; [done|by vm_compute]|by vm_compute].
    + by exists (ERemoved "/repo").
  - by vm_compute.
  - done.
  - intros e'. by eexists.
  - intros b Hb. by apply store_empty in Hb.
  - done.
  - destruct (H3 empty_heap 0 empty_dir empty_heap_ok eq_refl eq_refl eq_refl (eq_sym H2)) as (g' & H4 & H5 & _).
    exists h', e', g'. split; [exact H1|]. split; [exact H4|].
    rewrite !H5. split; reflexivity.
Defined.

Lemma reload_forgets_permissions_witness :
  DirRecord "f" 0x17a4 5 ∈ records dumped_heap dumped_dir ∧
  ∃ g' db', load_dir 0 (empty_heap, {[dumped_file_path := dir_object (records dumped_heap dumped_dir)]} : store_world) =
      Ok (true, (g', {[dumped_file_path := dir_object (records dumped_heap dumped_dir)]})) ∧
    DirRecord "f" 0x1000 5 ∈ records g' db'.
Proof.
  assert (DirRecord "f" 0x17a4 5 ∈ records dumped_heap dumped_dir) as Hin.
  { apply list_elem_of_omap. exists "f"%string. split; [|by vm_compute]. apply elem_of_names_of. by exists 1. }
  split; [exact Hin|].
  destruct (reload_forgets_permissions dumped_heap 0 dumped_dir dumped_heap_ok eq_refl) with
    (g := empty_heap) (e' := {[dumped_file_path := dir_object (records dumped_heap dumped_dir)]} : store_world)
    (b := 0) (db := empty_dir) as (g' & db' & H1 & _ & H2).
  - intros n [c [[-> ->]|[-> ->]]%dumped_entries];
      (split; [apply (bool_decide_unpack _); by vm_compute|]).
    + exists dumped_file. split; [by vm_compute|]. split; [exists 5; split; [done|by vm_compute]|by vm_compute].
    + by exists (ERemoved "/repo").
  - by vm_compute.
  - unfold dumped_file_path, dumped_hash. generalize (hash_code (dir_object (records dumped_heap dumped_dir))).
    intros k. exact (lookup_singleton_eq (get_obj_path "/repo" k) _).
  - exact empty_heap_ok.
  - reflexivity.
  - reflexivity.
  - reflexivity.
  - reflexivity.
  - exists g', db'. split; [exact H1|]. exact (H2 _ Hin).
Defined.
