(* ===== verification/OglCollect.v ===== *)
(** * oglfs: what a commit collects

    The first loop of [ogl_repo::commit] walks from the root through the
    modified directories.  Files without a valid hash code are hashed, changed
    symbolic links are stored, and the directories come into a list in which
    every directory stands before the ones it is in. *)

From S2P Require Import Prelude Sha2Spec Otypes Ogl OglTree OglHash OglSpec OglStore.
From Stdlib Require Import Strings.String.

(** ** The world of a commit

    The working tree does not change while the commit runs, so that [lstat],
    reading a file and [readlink] are functions of the path; writing an object
    leaves the other objects as they are. *)
Class repo_world (E : Type) `{Files : repo_files E} := {
  lstat_of : string → option stat_t;
  file_of : string → option (list (list byte));
  link_of : string → option (list byte);
  os_lstat_of p e : os_lstat p e = Ok (lstat_of p, e);
  os_read_file_of p e : os_read_file p e = Ok (file_of p, e);
  os_readlink_of p e : os_readlink p e = Ok (link_of p, e);
  obj_write_other e path bytes n e' : obj_write path bytes e = Ok (n, e') →
    ∀ p, p ≠ path → stored e' p = stored e p;
  root_ref : E → string → option (list byte);
  ref_read_spec e repo : ref_read repo e = Ok (root_ref e repo, e);
  ref_write_spec e repo bytes :
    ∃ e', ref_write repo bytes e = Ok (true, e') ∧ root_ref e' repo = Some bytes ∧
          ∀ p, stored e' p = stored e p;
}.

(** Every object of the repositories lies under its hash code. *)
Definition addressed {E} `{repo_files E} (e : E) : Prop :=
  ∀ repo k b, 0 ≤ k < 2 ^ 64 → stored e (get_obj_path repo k) = Some b → hash_code b = k.

(** The paths of two hash codes are different. *)
Lemma length_append a b : String.length (a ++ b)%string = (String.length a + String.length b)%nat.
Proof. induction a as [|c a IH]; [done|]. change (S (String.length (a ++ b)) = S (String.length a + String.length b)). by rewrite IH. Qed.
Lemma append_suffix a b x y : String.length x = String.length y → (a ++ x)%string = (b ++ y)%string → x = y.
Proof.
  revert b. induction a as [|c a IH]; intros [|c' b] Hl H; [done|..].
  - apply (f_equal String.length) in H. rewrite !length_append in H. cbn [String.length] in H. lia.
  - apply (f_equal String.length) in H. rewrite !length_append in H. cbn [String.length] in H. lia.
  - apply (IH b Hl). change (String c (a ++ x) = String c' (b ++ y))%string in H. congruence.
Qed.
Lemma length_print_hash k : 0 ≤ k < 2 ^ 64 → String.length (string_of_list_byte (print_hash k)) = 16%nat.
Proof.
  intros Hk. destruct (root_ref_roundtrip k Hk) as (Hl & _). rewrite length_app in Hl. cbn [base.length] in Hl.
  rewrite <-length_list_byte_of_string, list_byte_of_string_of_list_byte. lia.
Qed.
Lemma get_obj_path_inj r k r' k' : 0 ≤ k < 2 ^ 64 → 0 ≤ k' < 2 ^ 64 →
  get_obj_path r k = get_obj_path r' k' → k = k'.
Proof.
  intros Hk Hk' H. unfold get_obj_path in H. apply append_suffix in H; [|by rewrite !length_append, !length_print_hash].
  apply append_suffix in H; [|by rewrite !length_print_hash].
  apply (f_equal list_byte_of_string) in H. rewrite !list_byte_of_string_of_list_byte in H.
  destruct (root_ref_roundtrip k Hk) as (_ & _ & Hs), (root_ref_roundtrip k' Hk') as (_ & _ & Hs'). congruence.
Qed.

Section Grows.
Context {E : Type} `{World : repo_world E}.
(** Files of objects are added and none is lost; if the destroyed strings are
    intact, each under its hash code. *)
Definition grows (e e' : E) : Prop :=
  (strings_intact → addressed e → addressed e') ∧ ∀ p, is_Some (stored e p) → is_Some (stored e' p).
#[export] Instance grows_preorder : PreOrder grows.
Proof.
  split; [by split|]. intros e1 e2 e3 [H1 H2] [H3 H4]. split; auto.
Qed.

Lemma store_obj_grows (h : heap) e repo obj : object_ok obj → writable (object_file repo (hash_code obj)) →
  ∃ e', store_obj repo (hash_code obj) obj (h, e) = Ok (true, (h, e')) ∧ grows e e' ∧
    is_Some (object_at e' repo (hash_code obj)).
Proof.
  intros [Hm Hs _] Hwr. unfold store_obj, dangling_path. rewrite (lift_step _ _ _ _ _ Hm), sassert_step by done.
  rewrite (os_step _ _ _ _ _ _ (stale_freed _ e)), (os_step _ _ _ _ _ _ (obj_stat_stored e _)).
  case_bool_decide as Hst; [by exists e|].
  rewrite (lift_step _ _ _ _ _ Hs), (lift_step _ _ _ _ _ (read_at_all obj _ eq_refl)).
  rewrite (os_step _ _ _ _ _ _ (stale_freed _ e)).
  destruct (obj_write_stored e _ obj Hwr) as (e' & Hw & Hst').
  rewrite (os_step _ _ _ _ _ _ Hw). exists e'. rewrite Z.eqb_refl. split; [done|].
  assert (∀ p, p = object_file repo (hash_code obj) ∨ stored e' p = stored e p) as Hother.
  { intros p. destruct (decide (p = object_file repo (hash_code obj))); [by left|right].
    by eapply obj_write_other. }
  split; [split|by eexists].
  - intros Hi Ha r k b Hk Hb. destruct (Hother (get_obj_path r k)) as [Heq|Heq]; [|rewrite Heq in Hb; by eapply Ha].
    rewrite Heq in Hb. rewrite (Hi repo) in Heq. pose proof (hash_code_range obj) as Hr.
    rewrite (get_obj_path_inj _ _ _ _ Hk Hr Heq) in *. congruence.
  - intros p Hp. destruct (Hother p) as [->|Heq]; [by eexists|by rewrite Heq].
Qed.
End Grows.

(** ** What the loop does to the tree *)

(** An entry before and after: directories stay, a file that has no valid
    hash code gets that of its contents, a changed link its target. *)
Definition rehashed {E} `{repo_world E} (h : heap) (x y : ogl_entry) : Prop :=
  match x, y with
  | EFile f, EFile f' =>
      f' = f ∨
      f_valid_hash f = false ∧ f_valid_hash f' = true ∧ f_dir f' = f_dir f ∧ f_filename f' = f_filename f ∧
      ∃ d chunks, dir_in h (f_dir f) d ∧ file_of (get_path d (f_filename f)) = Some chunks ∧
        f_hash f' = Some (hash_code (List.concat chunks))
  | ESymlink l, ESymlink l' =>
      l' = l ∨ l_modified l = true ∧ l_modified l' = false ∧ l_dir l' = l_dir l ∧ l_name l' = l_name l
  | _, _ => y = x
  end.
(** Nothing is left to do for an entry, but for the dumping of directories. *)
Definition settled (x : ogl_entry) : Prop :=
  match x with
  | EFile f => f_valid_hash f = true ∧ hash_ok (f_hash f) ∧ perms_ok (f_perms f)
  | EDir d => if d_modified d then True else hash_ok (d_hash d) ∧ perms_ok (d_perms d)
  | ESymlink l => l_modified l = false ∧ hash_ok (l_hash l) ∧ perms_ok (l_perms l)
  | _ => True
  end.

Section Refined.
Context {E : Type} `{World : repo_world E}.
Record refined (h h' : heap) : Prop := {
  rn_brk : brk h' = brk h;
  rn_entry x y : objs h !! x = Some y → ∃ y', objs h' !! x = Some y' ∧ rehashed h y y';
  rn_none x : objs h !! x = None → objs h' !! x = None;
}.

Lemma rehashed_refl h x : rehashed h x x.
Proof. destruct x; cbn; auto. Qed.
Lemma rehashed_dir h x d : rehashed h (EDir d) x → x = EDir d.
Proof. by destruct x. Qed.
Lemma rehashed_type h x y : rehashed h x y → get_type y = get_type x.
Proof. destruct x, y; cbn; intros Hr; try done; discriminate. Qed.
Lemma rehashed_settled h x y : settled x → rehashed h x y → y = x.
Proof. destruct x, y; cbn; intuition congruence. Qed.
Lemma refined_dir h h' x d : refined h h' → dir_in h x d ↔ dir_in h' x d.
Proof.
  intros Hr. unfold dir_in. split; intros Hd.
  - destruct (rn_entry _ _ Hr _ _ Hd) as (y & Hy & He). by apply rehashed_dir in He as ->.
  - destruct (objs h !! x) as [y|] eqn:Hx; [|by rewrite (rn_none _ _ Hr _ Hx) in Hd].
    destruct (rn_entry _ _ Hr _ _ Hx) as (y' & Hy' & He). rewrite Hd in Hy'. injection Hy' as <-.
    f_equal. by destruct y; cbn in He; try done; congruence.
Qed.
Lemma refined_refl h : refined h h.
Proof. split; [done| |done]. intros x y Hy. exists y. split; [done|apply rehashed_refl]. Qed.
Lemma refined_trans h1 h2 h3 : refined h1 h2 → refined h2 h3 → refined h1 h3.
Proof.
  intros H12 H23. split.
  - by rewrite (rn_brk _ _ H23), (rn_brk _ _ H12).
  - intros x y Hy. destruct (rn_entry _ _ H12 _ _ Hy) as (y2 & Hy2 & R12).
    destruct (rn_entry _ _ H23 _ _ Hy2) as (y3 & Hy3 & R23). exists y3. split; [done|].
    assert (∀ d z, dir_in h2 d z → dir_in h1 d z) as Hd by (intros ??; by apply refined_dir).
    destruct y as [f| | l| | |], y2 as [f2| | l2| | |]; try done; cbn [rehashed] in R12; try congruence;
      destruct y3 as [f3| | l3| | |]; try done; cbn [rehashed] in *; try congruence.
    + destruct R12 as [->|R12], R23 as [->|R23]; try tauto; [right|].
      * destruct R23 as (H1 & H2 & H3 & H4 & d & chunks & H5 & H6 & H7). split_and!; try done.
        exists d, chunks. eauto.
      * destruct R12 as (_ & Hv & _), R23 as (Hf & _). congruence.
    + destruct R12 as [->|R12], R23 as [->|R23]; try tauto. destruct R12 as (_ & Hv & _), R23 as (Hf & _). congruence.
  - intros x Hx. by apply (rn_none _ _ H23), (rn_none _ _ H12).
Qed.
Lemma refined_put h a x y : objs h !! a = Some x → rehashed h x y → refined h (put h a y).
Proof.
  intros Ha Hr. split; [done|..]; intros z; unfold put; cbn [objs].
  - intros w Hw. destruct (decide (z = a)) as [->|Hne].
    + rewrite lookup_insert_eq. exists y. split; [done|]. congruence.
    + rewrite lookup_insert_ne by done. exists w. split; [done|apply rehashed_refl].
  - intros Hz. rewrite lookup_insert_ne; [done|]. congruence.
Qed.
End Refined.

(** ** One entry *)
Lemma collect_perms_ok st {E} `{repo_os E} : perms_ok (collect_perms st).
Proof.
  unfold perms_ok, collect_perms. cbn [mode]. change 0x1ff with (Z.ones 9).
  rewrite Z.land_ones by lia. apply Z.mod_pos_bound. lia.
Qed.
Lemma hash_code_ok bytes : hash_ok (Some (hash_code bytes)).
Proof. eexists. split; [done|]. apply hash_code_range. Qed.

Lemma length_symlink_object padding t : base.length padding = 2%nat →
  base.length (symlink_object padding t) = (base.length t + 13)%nat.
Proof. intros Hp. unfold symlink_object, le16. rewrite !length_app, !length_le_bytes, Hp. cbn [base.length]. lia. Qed.
Lemma symlink_object_ok padding t : base.length padding = 2%nat → Z.of_nat (base.length t) < 256 →
  object_ok (symlink_object padding t).
Proof.
  intros Hp Ht. pose proof (length_symlink_object padding t Hp) as Hl.
  set (rest := padding ++ le_bytes 4 (Z.of_nat (base.length t) + 1) ++ t ++ [NUL]).
  set (size := sizeof_symlink_object + Z.of_nat (base.length t) + 1).
  assert (symlink_object padding t = le16 MAGIC ++ le16 (object_type_Z OBJ_SYMLINK) ++ le16 size ++ rest) as Ho by done.
  assert (size = Z.of_nat (base.length t) + 13) as Hs by (subst size; unfold sizeof_symlink_object; lia).
  split.
  - apply (read16_mid _ [] (le16 (object_type_Z OBJ_SYMLINK) ++ le16 size ++ rest)); [done|done|by vm_compute].
  - rewrite Hl, Nat2Z.inj_add. change (Z.of_nat 13) with 13. rewrite <-Hs.
    apply (read16_mid _ (le16 MAGIC ++ le16 (object_type_Z OBJ_SYMLINK)) rest); [by rewrite Ho, <-app_assoc|done|lia].
  - rewrite Hl. unfold sizeof_object. lia.
Qed.

Section Visit.
Context {E : Type} `{World : repo_world E}.
Context (padding : list byte).
Hypothesis Hpadding : base.length padding = 2%nat.
Implicit Types (h : heap) (e : E).

(** What the commit needs of an entry: the modified directories are in
    memory and can be dumped, the files and links that have changed are there,
    the files that the freed characters of their objects' paths name can be
    written, and what has not changed has its hash code. *)
Definition ready (h : heap) (x : ogl_entry) : Prop :=
  match x with
  | EFile f =>
      if f_valid_hash f then settled x else
      ∃ d, dir_in h (f_dir f) d ∧ is_Some (file_of (get_path d (f_filename f))) ∧
           is_Some (lstat_of (get_path d (f_filename f)))
  | EDir d =>
      if d_modified d
      then (∀ hash, writable (object_file (d_repo d) hash)) ∧
           d_loaded d = true ∧ is_Some (lstat_of (get_path d EmptyString)) ∧
           (∀ n, is_Some (d_entries d !! n) → name_ok n) ∧ dir_objsize (records h d) < 2 ^ 16
      else settled x
  | ESymlink l =>
      if l_modified l then
        (∀ hash, writable (object_file (l_repo l) hash)) ∧
        ∃ d t, dir_in h (l_dir l) d ∧ link_of (get_path d EmptyString ++ "/" ++ l_name l)%string = Some t ∧
          0 < Z.of_nat (base.length t) < 256 ∧ is_Some (lstat_of (get_path d (l_name l)))
      else settled x
  | _ => True
  end.

Lemma visit_file h e a f : objs h !! a = Some (EFile f) → f_valid_hash f = false → ready h (EFile f) →
  ∃ h', compute_hashcode a f (h, e) = Ok (true, (h', e)) ∧ refined h h' ∧
    (∀ x, x ≠ a → objs h' !! x = objs h !! x) ∧ ∃ y, objs h' !! a = Some y ∧ settled y.
Proof.
  intros Ha Hv Hr. cbn [ready] in Hr. rewrite Hv in Hr. destruct Hr as (d & Hd & [chunks Hc] & [st Hst]).
  unfold compute_hashcode. rewrite (dir_at_step _ _ _ _ _ Hd), (os_step _ _ _ _ _ _ (os_read_file_of _ e)), Hc.
  rewrite (lift_step _ _ _ _ _ (hash_chunks_eq chunks)), put_entry_step, (os_step _ _ _ _ _ _ (os_lstat_of _ e)).
  cbn [f_filename f_set_hash]. rewrite Hst, put_entry_step. eexists. split; [reflexivity|].
  set (f' := f_set_perms (collect_perms st) (f_set_hash (Some (hash_code (List.concat chunks))) true f)).
  assert (∀ g y, put (put g a y) a (EFile f') = put g a (EFile f')) as Hpp
    by (intros; unfold put; cbn [objs brk]; by rewrite insert_insert_eq).
  rewrite Hpp. split_and!.
  - apply (refined_put h a (EFile f)); [done|]. cbn [rehashed]. right. split_and!; try done. by exists d, chunks.
  - intros x Hx. unfold put. cbn [objs]. by rewrite lookup_insert_ne.
  - exists (EFile f'). unfold put. cbn [objs]. split; [apply lookup_insert_eq|].
    split; [done|]. split; [apply hash_code_ok|apply collect_perms_ok].
Qed.

Lemma visit_link h e a l : objs h !! a = Some (ESymlink l) → l_modified l = true → ready h (ESymlink l) →
  ∃ h' e', dump_symlink padding a l (h, e) = Ok (true, (h', e')) ∧ refined h h' ∧ grows e e' ∧
    (∀ x, x ≠ a → objs h' !! x = objs h !! x) ∧ ∃ y, objs h' !! a = Some y ∧ settled y.
Proof using Hpadding.
  intros Ha Hm Hr. cbn [ready] in Hr. rewrite Hm in Hr. destruct Hr as (Hwr & d & t & Hd & Ht & Hlen & [st Hst]).
  unfold dump_symlink. rewrite (dir_at_step _ _ _ _ _ Hd), (os_step _ _ _ _ _ _ (os_readlink_of _ e)), Ht.
  cbv zeta. rewrite sassert_step by (unfold MAX_TARGET_SIZE; lia).
  cbn [from_option id]. set (t' := take (Z.to_nat (strlen t)) t).
  assert (Z.of_nat (base.length t') < 256) as Hlt by (subst t'; rewrite length_take; lia).
  rewrite (lift_step _ _ _ _ _ (compute_hash_buf_eq _)).
  destruct (store_obj_grows h e (l_repo l) _ (symlink_object_ok padding t' Hpadding Hlt) (Hwr _)) as (e' & Hs & Hg & _).
  cbn [l_repo l_set_target]. rewrite (ST_bind_step _ _ _ _ _ Hs). cbn [negb]. rewrite put_entry_step.
  rewrite (os_step _ _ _ _ _ _ (os_lstat_of _ e')). cbn [l_name l_set_loaded l_set_hash l_set_target]. rewrite Hst, put_entry_step.
  eexists _, e'. split; [reflexivity|].
  set (l' := l_set_perms _ _). assert (∀ g y, put (put g a y) a (ESymlink l') = put g a (ESymlink l')) as Hpp
    by (intros; unfold put; cbn [objs brk]; by rewrite insert_insert_eq).
  rewrite Hpp. split_and!; [|done|..].
  - apply (refined_put h a (ESymlink l)); [done|]. cbn [rehashed]. right. by split_and!.
  - intros x Hx. unfold put. cbn [objs]. by rewrite lookup_insert_ne.
  - exists (ESymlink l'). unfold put. cbn [objs]. split; [apply lookup_insert_eq|].
    split; [done|]. split; [apply hash_code_ok|apply collect_perms_ok].
Qed.
End Visit.

(** ** The walk *)

(** An entry of a modified directory. *)
Definition sub (h : heap) (a c : Z) : Prop :=
  ∃ d n, dir_in h a d ∧ d_modified d = true ∧ d_entries d !! n = Some c.
(** No object is in two places. *)
Definition unshared (h : heap) : Prop := ∀ a d n a' d' n' c,
  dir_in h a d → d_entries d !! n = Some c → dir_in h a' d' → d_entries d' !! n' = Some c → a = a' ∧ n = n'.
Definition changed_dir (h : heap) (a : Z) : Prop := ∃ d, dir_in h a d ∧ d_modified d = true.

(** The loop's state: [V] has been taken from the stack [T], the modified
    directories of [V] are in [dirs]. *)
Record collecting {E} `{repo_world E} (h0 h : heap) (root : Z) (V T dirs : list Z) : Prop := {
  co_refined : refined h0 h;
  co_nodup : NoDup (V ++ T);
  co_root : root ∈ V ++ T;
  co_reach x : x ∈ V ++ T → rtc (sub h0) root x;
  co_from x : x ∈ V ++ T → x = root ∨ ∃ p, p ∈ dirs ∧ sub h0 p x;
  co_dirs p : p ∈ dirs ↔ p ∈ V ∧ changed_dir h0 p;
  co_children p c : p ∈ dirs → sub h0 p c → c ∈ V ++ T;
  co_fresh x : x ∉ V → objs h !! x = objs h0 !! x;
  co_settled x : x ∈ V → ∃ y, objs h !! x = Some y ∧ settled y;
  co_order l1 p l2 : dirs = l1 ++ p :: l2 → ∀ c, c ∈ l2 → ¬ sub h0 p c;
  co_nodup_dirs : NoDup dirs;
}.

Section Collect.
Context {E : Type} `{World : repo_world E}.
Context (h0 : heap) (root : Z) (rootd : ogl_dir).
Hypothesis Hok : tree_ok h0.
Hypothesis Hun : unshared h0.
Hypothesis Hroot : dir_in h0 root rootd.
Hypothesis Hparent : d_parent rootd = None.
Hypothesis Hready : ∀ x y, rtc (sub h0) root x → objs h0 !! x = Some y → ready h0 y.

Lemma sub_entry p c : sub h0 p c → ∃ y, objs h0 !! c = Some y.
Proof using Hok. intros (d & n & Hd & _ & Hn). destruct (tree_child _ Hok _ _ _ _ Hd Hn) as (y & Hy & _). by exists y. Qed.
Lemma sub_unique p p' c : sub h0 p c → sub h0 p' c → p = p'.
Proof using Hun. intros (d & n & Hd & _ & Hn) (d' & n' & Hd' & _ & Hn'). by destruct (Hun _ _ _ _ _ _ _ Hd Hn Hd' Hn'). Qed.
Lemma sub_not_root p : ¬ sub h0 p root.
Proof using Hok Hroot Hparent.
  intros (d & n & Hd & _ & Hn). destruct (tree_child _ Hok _ _ _ _ Hd Hn) as (y & Hy & Hc).
  rewrite Hroot in Hy. injection Hy as <-. destruct Hc as [Hc _]. congruence.
Qed.
Lemma sub_changed p c : sub h0 p c → changed_dir h0 p.
Proof. intros (d & n & Hd & Hm & _). by exists d. Qed.
Lemma sub_not_self p : ¬ sub h0 p p.
Proof using Hok.
  intros (d & n & Hd & _ & Hn). destruct (tree_child _ Hok _ _ _ _ Hd Hn) as (y & Hy & Hc).
  rewrite Hd in Hy. injection Hy as <-. destruct Hc as [Hc _].
  destruct (tree_parent _ Hok _ _ _ Hd Hc). lia.
Qed.
Lemma reach_entry x : rtc (sub h0) root x → ∃ y, objs h0 !! x = Some y.
Proof using Hok Hroot.
  intros Hr. apply rtc_inv_r in Hr as [<-|(p & _ & Hp)]; [by eexists|]. by eapply sub_entry.
Qed.

(** What is on the lists is in the tree, so that the fuel suffices. *)
Lemma collecting_size h V T dirs : collecting h0 h root V T dirs →
  (base.length V + base.length T ≤ base.size (objs h0))%nat.
Proof using Hok Hroot.
  intros Hc. rewrite <-length_app, <-size_dom, <-(size_list_to_set (C:=gset Z) (V ++ T)) by apply (co_nodup _ _ _ _ _ _ Hc).
  apply subseteq_size. intros x Hx%elem_of_list_to_set. apply elem_of_dom.
  destruct (reach_entry x) as [y Hy]; [by eapply co_reach|by exists y].
Qed.

(** An entry that is not a modified directory is done. *)
Lemma collecting_leaf h h' V a T dirs y : collecting h0 h root V (a :: T) dirs →
  refined h h' → (∀ x, x ≠ a → objs h' !! x = objs h !! x) → ¬ changed_dir h0 a → objs h' !! a = Some y → settled y →
  collecting h0 h' root (a :: V) T dirs.
Proof using.
  intros [H1 H2 HR H3 H4 H5 H6 H0 H7 H8 H9] Hr Hother Hn Ha Hs.
  assert (∀ x, x ∈ (a :: V) ++ T ↔ x ∈ V ++ a :: T) as Hmem
    by (intros x; cbn; rewrite !elem_of_cons, !elem_of_app, elem_of_cons; tauto).
  split; [by eapply refined_trans| |..]; try done.
  - by rewrite <-Permutation_middle in H2.
  - by apply Hmem.
  - intros x Hx%Hmem. by apply H3.
  - intros x Hx%Hmem. by apply H4.
  - intros p. rewrite H5, elem_of_cons. split; [tauto|]. intros [[->|Hp] Hc]; done.
  - intros p c Hp Hc. apply Hmem. by eapply H6.
  - intros x [Hx1 Hx2]%not_elem_of_cons. rewrite Hother by done. by apply H0.
  - intros x [->|Hx]%elem_of_cons; [by exists y|]. destruct (H7 x Hx) as (z & Hz & Hsz).
    destruct (rn_entry _ _ Hr _ _ Hz) as (z' & Hz' & Hre). exists z'. split; [done|].
    by rewrite (rehashed_settled _ _ _ Hsz Hre).
Qed.
Definition children (d : ogl_dir) : list Z := omap (fun name => d_entries d !! name) (names_of (d_entries d)).
Lemma elem_of_children d c : c ∈ children d ↔ ∃ n, d_entries d !! n = Some c.
Proof.
  unfold children. rewrite list_elem_of_omap. split; [intros (n & _ & Hn); by exists n|].
  intros [n Hn]. exists n. split; [|done]. apply elem_of_names_of. by exists c.
Qed.
Lemma children_nodup a d : dir_in h0 a d → NoDup (children d).
Proof using Hun.
  intros Hd. unfold children. pose proof (NoDup_names_of (d_entries d)) as Hnd.
  induction (names_of (d_entries d)) as [|n l IH]; [apply NoDup_nil_2|].
  apply list.NoDup_cons in Hnd as [Hn Hnd]. cbn [omap list_omap].
  destruct (d_entries d !! n) as [c|] eqn:Hc; [|by apply IH]. apply NoDup_cons_2; [|by apply IH].
  rewrite list_elem_of_omap. intros (n' & Hn' & Hc'). destruct (Hun _ _ _ _ _ _ _ Hd Hc Hd Hc') as [_ <-]. done.
Qed.

Lemma elem_of_rev {A} (l : list A) x : x ∈ rev l ↔ x ∈ l.
Proof. by rewrite !list_elem_of_In, <-in_rev. Qed.

(** A modified directory: its entries come onto the stack, none of which has
    been there before. *)
Lemma new_child h V a T dirs c : collecting h0 h root V (a :: T) dirs → sub h0 a c → c ∉ V ++ a :: T.
Proof using Hok Hun Hroot Hparent.
  intros Hc Hs Hin. destruct (co_from _ _ _ _ _ _ Hc _ Hin) as [->|(p & Hp & Hsp)]; [by eapply sub_not_root|].
  rewrite (sub_unique _ _ _ Hsp Hs) in Hp. apply (co_dirs _ _ _ _ _ _ Hc) in Hp as [Hp _].
  pose proof (co_nodup _ _ _ _ _ _ Hc) as Hnd. apply list.NoDup_app in Hnd as (_ & Hnd & _). by apply (Hnd a Hp); left.
Qed.
Lemma collecting_dir h V a T dirs d : collecting h0 h root V (a :: T) dirs →
  dir_in h0 a d → d_modified d = true →
  collecting h0 h root (a :: V) (rev (children d) ++ T) (a :: dirs).
Proof using Hok Hun Hroot Hparent.
  clear Hready. intros Hc Hd Hm. pose proof (fun c => new_child h V a T dirs c) as Hnew.
  assert (∀ c, c ∈ children d ↔ sub h0 a c) as Hch.
  { intros c. rewrite elem_of_children. split; [intros [n Hn]; by exists d, n|].
    intros (d' & n & Hd' & _ & Hn). unfold dir_in in *. exists n. congruence. }
  pose proof Hc as [H1 H2 HR H3 H4 H5 H6 H0 H7 H8 H9].
  assert (∀ x, x ∈ (a :: V) ++ rev (children d) ++ T ↔ x ∈ V ++ a :: T ∨ sub h0 a x) as Hmem.
  { intros x. cbn. rewrite elem_of_cons, !elem_of_app, elem_of_cons, <-Hch.
    rewrite elem_of_rev. tauto. }
  assert (a ∉ V) as HaV.
  { intros Ha. apply list.NoDup_app in H2 as (_ & H2 & _). by apply (H2 a Ha); left. }
  split; try done.
  - rewrite <-Permutation_middle in H2. rewrite (app_assoc _ _ T), (Permutation_app_comm (a :: V)), <-app_assoc.
    apply list.NoDup_app. split_and!; [apply NoDup_ListNoDup, NoDup_rev, NoDup_ListNoDup; by eapply children_nodup| |done].
    intros c Hcc Hin. rewrite elem_of_rev, Hch in Hcc.
    apply (Hnew c Hc Hcc). revert Hin. cbn. rewrite elem_of_cons, !elem_of_app, elem_of_cons. tauto.
  - apply Hmem. by left.
  - intros x [Hx|Hx]%Hmem; [by apply H3|]. eapply rtc_r; [|exact Hx]. apply H3. set_solver.
  - intros x [Hx|Hx]%Hmem; [|right; exists a; split; [by left|done]].
    destruct (H4 x Hx) as [->|(p & Hp & Hs)]; [by left|right; exists p; split; [by right|done]].
  - intros p. rewrite elem_of_cons, elem_of_cons, H5. split; [|tauto].
    intros [->|Hp]; [split; [by left|by exists d]|tauto].
  - intros p c [->|Hp]%elem_of_cons Hs; apply Hmem; [by right|left; by eapply H6].
  - intros x [_ Hx]%not_elem_of_cons. by apply H0.
  - intros x [->|Hx]%elem_of_cons; [|by apply H7]. exists (EDir d).
    split; [by apply (refined_dir _ _ _ _ H1)|]. cbn. by rewrite Hm.
  - intros l1 p l2 Heq c Hcl. destruct l1 as [|q l1]; injection Heq as <- ->; [|by eapply H8].
    intros Hs. apply H5 in Hcl as [Hcl _]. apply (Hnew c Hc Hs). apply elem_of_app. by left.
  - apply NoDup_cons_2; [|done]. intros Ha%H5. tauto.
Qed.

Lemma collecting_start : collecting h0 h0 root [] [root] [].
Proof using.
  split; try (by intros ? ?%not_elem_of_nil); cbn [app].
  - apply refined_refl.
  - apply NoDup_singleton.
  - by left.
  - intros x ->%list_elem_of_singleton. done.
  - intros x ->%list_elem_of_singleton. by left.
  - intros p. rewrite !elem_of_nil. tauto.
  - intros p c Hp. by apply not_elem_of_nil in Hp.
  - done.
  - intros l1 p l2 Heq. by destruct l1.
  - apply NoDup_nil_2.
Qed.

Context (padding : list byte).
Hypothesis Hpadding : base.length padding = 2%nat.

(** [ready] is about the directories, which do not change. *)
Lemma ready_refined h x : refined h0 h → get_type x ≠ OGL_DIR → ready h0 x → ready h x.
Proof using.
  intros Hr Hx. destruct x as [f| |l| | |]; cbn [ready get_type] in *; try done.
  - destruct (f_valid_hash f); [done|]. intros (d & Hd & H). exists d. split; [by apply (refined_dir h0 h)|done].
  - destruct (l_modified l); [|done]. intros (Hwr & d & t & Hd & H). split; [done|]. exists d, t. split; [by apply (refined_dir h0 h)|done].
Qed.

Lemma collect_spec n : ∀ h e V T dirs,
  collecting h0 h root V T dirs → (base.size (objs h0) < n + base.length V)%nat →
  ∃ h' e' V' dirs', collect_loop padding n T dirs (h, e) = Ok (Some dirs', (h', e')) ∧
    collecting h0 h' root V' [] dirs' ∧ grows e e'.
Proof using All.
  induction n as [|n IH]; intros h e V T dirs Hc Hn.
  { pose proof (collecting_size _ _ _ _ Hc). destruct T; [|cbn [base.length] in *; lia].
    by exists h, e, V, dirs. }
  destruct T as [|a T]; [by exists h, e, V, dirs|]. cbn [collect_loop].
  pose proof (co_refined _ _ _ _ _ _ Hc) as Href.
  assert (rtc (sub h0) root a) as Hreach by (eapply co_reach; [done|]; apply elem_of_app; right; left).
  destruct (reach_entry a Hreach) as [y Hy0]. pose proof (Hready a y Hreach Hy0) as Hrd.
  assert (a ∉ V) as HaV.
  { pose proof (co_nodup _ _ _ _ _ _ Hc) as Hnd. intros Ha. apply list.NoDup_app in Hnd as (_ & Hnd & _).
    by apply (Hnd a Ha); left. }
  assert (objs h !! a = Some y) as Hy by by rewrite (co_fresh _ _ _ _ _ _ Hc a HaV).
  rewrite (entry_step _ _ _ _ _ Hy).
  assert (∀ h1 e1 y1, refined h h1 → grows e e1 → (∀ x, x ≠ a → objs h1 !! x = objs h !! x) →
    ¬ changed_dir h0 a → objs h1 !! a = Some y1 → settled y1 →
    ∃ h' e' V' dirs', collect_loop padding n T dirs (h1, e1) = Ok (Some dirs', (h', e')) ∧
      collecting h0 h' root V' [] dirs' ∧ grows e e') as Hleaf.
  { intros h1 e1 y1 Hr1 Hg Ho Hnd Hy1 Hs1.
    destruct (IH h1 e1 (a :: V) T dirs) as (h' & e' & V' & dirs' & H1 & H2 & H3).
    - by eapply collecting_leaf.
    - cbn [base.length]. lia.
    - exists h', e', V', dirs'. split_and!; [done|done|by etrans]. }
  assert ((∀ d, y = EDir d → d_modified d = false) → ¬ changed_dir h0 a) as Hnd.
  { intros Hd (d & Hda & Hm). unfold dir_in in Hda. rewrite Hy0 in Hda. injection Hda as ->.
    by rewrite (Hd d eq_refl) in Hm. }
  pose proof (fun H => Hleaf h e y (refined_refl h) (reflexivity e) (fun _ _ => eq_refl) H Hy) as Hsame.
  destruct y as [f|d|l| | |]; try (by apply Hsame; [apply Hnd|]).
  - destruct (f_valid_hash f) eqn:Hv.
    { apply Hsame; [by apply Hnd|]. cbn [ready] in Hrd. by rewrite Hv in Hrd. }
    destruct (visit_file h e a f Hy Hv (ready_refined h (EFile f) Href ltac:(done) Hrd)) as (h1 & Hrun & Hr1 & Ho & y1 & Hy1 & Hs1).
    rewrite (ST_bind_step _ _ _ _ _ Hrun). apply (Hleaf h1 e y1); try done. by apply Hnd.
  - destruct (d_modified d) eqn:Hm; cbn [negb].
    2:{ apply Hsame; [apply Hnd; congruence|]. cbn [ready] in Hrd. by rewrite Hm in Hrd. }
    cbn [ready] in Hrd. rewrite Hm in Hrd. destruct Hrd as (_ & Hld & _). rewrite sassert_step by done. cbv zeta.
    destruct (IH h e (a :: V) (rev (children d) ++ T) (a :: dirs)) as (h' & e' & V' & dirs' & H1 & H2 & H3).
    + by apply collecting_dir.
    + cbn [base.length]. lia.
    + by exists h', e', V', dirs'.
  - destruct (l_modified l) eqn:Hm; cbn [negb].
    2:{ apply Hsame; [by apply Hnd|]. cbn [ready] in Hrd. by rewrite Hm in Hrd. }
    destruct (visit_link padding Hpadding h e a l Hy Hm (ready_refined h (ESymlink l) Href ltac:(done) Hrd))
      as (h1 & e1 & Hrun & Hr1 & Hg & Ho & y1 & Hy1 & Hs1).
    rewrite (ST_bind_step _ _ _ _ _ Hrun). apply (Hleaf h1 e1 y1); try done. by apply Hnd.
Qed.
End Collect.
