(* ===== verification/OglCommit.v ===== *)
(** * oglfs: commit

    The second loop of [ogl_repo::commit] dumps the collected directories, each
    before the one it is in, so that a directory's object has the final hash
    codes of its sub-directories.  The theorem puts both loops together: after
    a commit the hash code of the root determines the whole tree, and it is
    what [root-ref] says. *)

From S2P Require Import Prelude Sha2Spec Otypes Ogl OglTree OglHash OglSpec OglStore OglCollect.
From Stdlib Require Import Strings.String.

(** ** Records depend on the entries only *)
Lemma omap_ext_in {A B} (f g : A → option B) (l : list A) : (∀ x, x ∈ l → f x = g x) → omap f l = omap (M:=list) g l.
Proof.
  induction l as [|x l IH]; intros H; [done|]. cbn [omap list_omap]. rewrite (H x) by by left.
  rewrite IH by (intros; apply H; by right). done.
Qed.
Lemma records_ext h h' d d' : d_entries d' = d_entries d →
  (∀ n c, d_entries d !! n = Some c → objs h' !! c = objs h !! c) → records h' d' = records h d.
Proof.
  intros He Ho. unfold records. rewrite He. apply omap_ext_in. intros n _. unfold entry_of. rewrite He.
  destruct (d_entries d !! n) as [c|] eqn:Hc; [|done]. cbn. by rewrite (Ho n c Hc).
Qed.

(** The size of an object depends on the names and types only. *)
Definition same_types (h h' : heap) : Prop := ∀ x, get_type <$> objs h' !! x = get_type <$> objs h !! x.
Lemma rec_of_name n x y : get_type x = get_type y → rec_name <$> rec_of n x = rec_name <$> rec_of n y.
Proof. by destruct x, y. Qed.
Lemma names_of_records h d : map rec_name (records h d) =
  omap (fun n => x ← entry_of h d n; rec_name <$> rec_of n x) (names_of (d_entries d)).
Proof.
  unfold records. induction (names_of (d_entries d)) as [|n l IH]; [done|]. cbn [omap list_omap].
  destruct (entry_of h d n) as [x|]; [|exact IH]. cbn. destruct (rec_of n x); cbn; by rewrite IH.
Qed.
Lemma dir_objsize_names r1 r2 : map rec_name r1 = map rec_name r2 → dir_objsize r1 = dir_objsize r2.
Proof.
  intros H. unfold dir_objsize, dir_str_offset, dir_hash_offset, names_size.
  assert (base.length r1 = base.length r2) as -> by (apply (f_equal base.length) in H; by rewrite !length_map in H).
  assert (∀ r, sum_list_with (fun x => S (String.length (rec_name x))) r =
    sum_list_with (fun n => S (String.length n)) (map rec_name r)) as Hs
    by (intros r; induction r as [|x r IH]; [done|]; cbn; by rewrite IH).
  by rewrite !Hs, H.
Qed.
Lemma objsize_types h h' d : same_types h h' → dir_objsize (records h' d) = dir_objsize (records h d).
Proof.
  intros Ht. apply dir_objsize_names. rewrite !names_of_records. apply omap_ext_in. intros n _.
  unfold entry_of. destruct (d_entries d !! n) as [c|]; [|done]. cbn. specialize (Ht c).
  destruct (objs h' !! c), (objs h !! c); try done. injection Ht as Ht. cbn. by apply rec_of_name.
Qed.

(** ** Dumping one directory *)
Definition cleaned (d d' : ogl_dir) : Prop :=
  d_repo d' = d_repo d ∧ d_parent d' = d_parent d ∧ d_dirname d' = d_dirname d ∧ d_abspath d' = d_abspath d ∧
  d_entries d' = d_entries d ∧ d_modified d' = false ∧ d_loaded d' = true ∧ perms_ok (d_perms d').

Section DumpDir.
Context {E : Type} `{World : repo_world E}.
Lemma dump_dir_clean (h : heap) (e : E) a d :
  dir_in h a d → d_loaded d = true →
  (∀ n, is_Some (d_entries d !! n) → name_ok n ∧ ∃ x, entry_of h d n = Some x ∧ dumpable x) →
  dir_objsize (records h d) < 2 ^ 16 → is_Some (lstat_of (get_path d EmptyString)) →
  (∀ hash, writable (object_file (d_repo d) hash)) →
  ∃ e' d', dump_dir a (h, e) = Ok (true, (put h a (EDir d'), e')) ∧ cleaned d d' ∧
    d_hash d' = Some (hash_code (dir_object (records h d))) ∧ grows e e' ∧
    is_Some (object_at e' (d_repo d) (hash_code (dir_object (records h d)))).
Proof.
  intros Ha Hl Hd Hs [st Hst] Hwr. unfold dump_dir. rewrite (dir_at_step _ _ _ _ _ Ha), sassert_step by done.
  assert (dump_records a (names_of (d_entries d)) (h, e) = Ok (records h d, (h, e))) as Hr.
  { apply dump_records_spec; [done|]. intros n Hn%elem_of_names_of. by apply Hd. }
  rewrite (ST_bind_step _ _ _ _ _ Hr), (lift_step _ _ _ _ _ (fill_dir_object_eq _)).
  rewrite (lift_step _ _ _ _ _ (compute_hash_buf_eq _)).
  pose proof (dir_object_ok _ (records_recs_ok h d Hd Hs)) as Hobj.
  destruct (store_obj_grows h e (d_repo d) _ Hobj (Hwr _)) as (e' & Hrun & Hg & Hin).
  rewrite (ST_bind_step _ _ _ _ _ Hrun), (upd_dir_step _ _ _ _ _ _ Ha), (os_step _ _ _ _ _ _ (os_lstat_of _ e')), Hst.
  assert (∀ g x y, dir_in (put g x (EDir y)) x y) as Hput
    by (intros; unfold dir_in, put; cbn [objs]; by rewrite lookup_insert_eq).
  rewrite (upd_dir_step _ _ _ _ _ _ (Hput _ _ _)), (upd_dir_step _ _ _ _ _ _ (Hput _ _ _)).
  eexists e', _. split.
  - unfold put. cbn [objs brk]. rewrite !insert_insert_eq. reflexivity.
  - split_and!; try done. unfold cleaned. split_and!; try done. apply collect_perms_ok.
Qed.
End DumpDir.

(** ** Dumping the list *)

(** [p], a directory [d] of the tree before, has been dumped. *)
Definition dumped {E} `{repo_world E} (h : heap) (e : E) (p : Z) (d : ogl_dir) : Prop :=
  ∃ d', dir_in h p d' ∧ cleaned d d' ∧ d_hash d' = Some (hash_code (dir_object (records h d'))) ∧
    is_Some (object_at e (d_repo d') (hash_code (dir_object (records h d')))).

Section DumpAll.
Context {E : Type} `{World : repo_world E}.
Context (h0 h1 : heap) (root : Z) (rootd : ogl_dir) (V dirs : list Z).
Hypothesis Hok : tree_ok h0.
Hypothesis Hc : collecting h0 h1 root V [] dirs.
Hypothesis Hready : ∀ x y, rtc (sub h0) root x → objs h0 !! x = Some y → ready h0 y.

Record dumping (h : heap) (e : E) (done : list Z) : Prop := {
  dp_brk : brk h = brk h1;
  dp_rest x : x ∉ done → objs h !! x = objs h1 !! x;
  dp_done p : p ∈ done → ∃ d, dir_in h0 p d ∧ dumped h e p d;
}.

Lemma dirs_changed p : p ∈ dirs → p ∈ V ∧ ∃ d, dir_in h0 p d ∧ d_modified d = true.
Proof using Hc. clear Hready. apply (co_dirs _ _ _ _ _ _ Hc). Qed.

Lemma refined_types h h' : refined h h' → same_types h h'.
Proof using.
  intros Hr x. destruct (objs h !! x) as [y|] eqn:Hx.
  - destruct (rn_entry _ _ Hr _ _ Hx) as (y' & -> & Hre). cbn. by rewrite (rehashed_type _ _ _ Hre).
  - by rewrite (rn_none _ _ Hr _ Hx).
Qed.
Lemma dumping_types h e done : dumping h e done → same_types h0 h.
Proof using Hc.
  clear Hready. intros Hd x. pose proof (refined_types _ _ (co_refined _ _ _ _ _ _ Hc) x) as Ht.
  destruct (decide (x ∈ done)) as [Hx|Hx]; [|by rewrite (dp_rest _ _ _ Hd x Hx)].
  destruct (dp_done _ _ _ Hd x Hx) as (d & H0 & d' & H' & _). unfold dir_in in *. by rewrite H0, H'.
Qed.

(** An entry of a collected directory has its hash code once it has been
    dumped, if it is a collected directory itself. *)
Lemma entry_written h e done q d n c : q ∈ dirs → dumping h e done → dir_in h0 q d → d_modified d = true →
  d_entries d !! n = Some c → (c ∈ dirs → c ∈ done) → ∃ x, objs h !! c = Some x ∧ dumpable x.
Proof using Hok Hc.
  clear Hready. intros Hqd Hd Hq Hm Hn Hcd. assert (sub h0 q c) as Hs by by exists d, n.
  pose proof (co_children _ _ _ _ _ _ Hc _ _ Hqd Hs) as HcV. rewrite app_nil_r in HcV.
  destruct (decide (c ∈ done)) as [Hin|Hin].
  - destruct (dp_done _ _ _ Hd c Hin) as (dc & _ & d' & Hd' & Hcl & Hh & _). exists (EDir d'). split; [done|].
    split; [rewrite Hh; apply hash_code_ok|apply Hcl].
  - rewrite (dp_rest _ _ _ Hd c Hin). destruct (co_settled _ _ _ _ _ _ Hc c HcV) as (y & Hy & Hsy).
    exists y. split; [done|]. destruct y as [f|dc|l| | |]; cbn in *; try tauto.
    destruct (d_modified dc) eqn:Hmc; [exfalso|done]. apply Hin, Hcd, (co_dirs _ _ _ _ _ _ Hc).
    split; [done|]. exists dc. split; [|done]. by apply (refined_dir h0 h1); [apply (co_refined _ _ _ _ _ _ Hc)|].
Qed.
Lemma entry_dumpable h e done q todo d n c : dirs = done ++ q :: todo → dumping h e done →
  dir_in h0 q d → d_modified d = true → d_entries d !! n = Some c →
  ∃ x, objs h !! c = Some x ∧ dumpable x.
Proof using Hok Hc.
  clear Hready. intros Heq Hd Hq Hm Hn. assert (sub h0 q c) as Hs by by exists d, n.
  apply (entry_written h e done q d n); try done; [rewrite Heq; apply elem_of_app; right; left|].
  intros Hin. rewrite Heq in Hin. apply elem_of_app in Hin as [Hin|Hin]; [done|].
  apply elem_of_cons in Hin as [->|Hin]; [exfalso; by eapply sub_not_self|].
  destruct (co_order _ _ _ _ _ _ Hc _ _ _ Heq c Hin Hs).
Qed.

(** One more directory. *)
Lemma dumping_step h e done q todo : dirs = done ++ q :: todo → dumping h e done →
  ∃ h' e', dump_dir q (h, e) = Ok (true, (h', e')) ∧ dumping h' e' (done ++ [q]) ∧ grows e e'.
Proof using Hok Hc Hready.
  intros Heq Hd. assert (q ∈ dirs) as Hqd by (rewrite Heq; apply elem_of_app; right; left).
  destruct (dirs_changed q Hqd) as (HqV & d & Hq & Hm).
  pose proof (co_nodup_dirs _ _ _ _ _ _ Hc) as Hnd. rewrite Heq in Hnd.
  apply list.NoDup_app in Hnd as (_ & Hdisj & Hnd). apply list.NoDup_cons in Hnd as [Hqt _].
  assert (q ∉ done) as Hqdone by (intros Hin; by apply (Hdisj q Hin); left).
  assert (dir_in h q d) as Hqh.
  { unfold dir_in. rewrite (dp_rest _ _ _ Hd q Hqdone). by apply (refined_dir h0 h1); [apply (co_refined _ _ _ _ _ _ Hc)|]. }
  assert (ready h0 (EDir d)) as Hr.
  { apply (Hready q); [|done]. eapply co_reach; [done|]. rewrite app_nil_r. done. }
  cbn [ready] in Hr. rewrite Hm in Hr. destruct Hr as (Hwr & Hl & Hst & Hnames & Hsize).
  destruct (dump_dir_clean h e q d Hqh Hl) as (e' & d' & Hrun & Hcl & Hh & Hg & Hin).
  - intros n Hn. split; [by apply Hnames|]. destruct Hn as [c Hn].
    destruct (entry_dumpable h e done q todo d n c Heq Hd Hq Hm Hn) as (x & Hx & Hdx).
    exists x. unfold entry_of. rewrite Hn. by split.
  - rewrite (objsize_types h0 h d); [done|by eapply dumping_types].
  - done.
  - done.
  - set (h' := put h q (EDir d')) in *.
    assert (∀ p dp dp', dir_in h0 p dp → d_modified dp = true → d_entries dp' = d_entries dp → ¬ sub h0 p q →
      records h' dp' = records h dp') as Hrec.
    { intros p dp dp' Hp Hmp He Hns. apply records_ext; [done|]. intros n c Hn. unfold h', put. cbn [objs].
      apply lookup_insert_ne. intros <-. apply Hns. exists dp, n. by rewrite <-He. }
    assert (d_entries d' = d_entries d ∧ d_repo d' = d_repo d) as [He Hrepo] by (unfold cleaned in Hcl; tauto).
    exists h', e'. split; [done|]. split; [|done]. split.
    + apply Hd.
    + intros x [Hx1 Hx2]%not_elem_of_app. rewrite list_elem_of_singleton in Hx2. unfold h', put. cbn [objs].
      rewrite lookup_insert_ne by done. by apply (dp_rest _ _ _ Hd).
    + intros p [Hp| ->%list_elem_of_singleton]%elem_of_app.
      * destruct (dp_done _ _ _ Hd p Hp) as (dp & Hp0 & dp' & Hp' & Hclp & Hhp & Hsp).
        exists dp. split; [done|]. exists dp'. assert (p ≠ q) as Hpq by congruence.
        assert (p ∈ dirs) as Hpd by (rewrite Heq; apply elem_of_app; by left).
        destruct (dirs_changed p Hpd) as (_ & dp0 & Hp00 & Hmp).
        assert (dp0 = dp) as -> by (unfold dir_in in *; congruence).
        rewrite (Hrec p dp dp' Hp0 Hmp); [|unfold cleaned in Hclp; tauto|].
        -- split_and!; [|done|done|by apply Hg]. unfold dir_in, h', put. cbn [objs]. by rewrite lookup_insert_ne.
        -- apply list_elem_of_split in Hp as (l1 & l2 & ->). rewrite <-app_assoc in Heq.
           apply (co_order _ _ _ _ _ _ Hc _ _ _ Heq). apply elem_of_app. right. left.
      * exists d. split; [done|]. exists d'. rewrite (Hrec q d d' Hq Hm He) by by eapply sub_not_self.
        assert (records h d' = records h d) as -> by by apply records_ext.
        split_and!; [|done|done|by rewrite Hrepo]. unfold dir_in, h', put. cbn [objs]. by rewrite lookup_insert_eq.
Qed.

Lemma dump_all_spec todo : ∀ h e done, dirs = done ++ todo → dumping h e done →
  ∃ h' e', dump_all todo (h, e) = Ok (true, (h', e')) ∧ dumping h' e' dirs ∧ grows e e'.
Proof using Hok Hc Hready.
  induction todo as [|q todo IH]; intros h e done Heq Hd.
  - rewrite app_nil_r in Heq. subst done. by exists h, e.
  - destruct (dumping_step h e done q todo Heq Hd) as (h' & e' & Hrun & Hd' & Hg).
    destruct (IH h' e' (done ++ [q])) as (h'' & e'' & Hrun' & Hd'' & Hg'); [by rewrite <-app_assoc|done|].
    exists h'', e''. cbn [dump_all]. rewrite (ST_bind_step _ _ _ _ _ Hrun). split_and!; [done|done|by etrans].
Qed.
Lemma dumping_start e : dumping h1 e [].
Proof using. split; [done|done|]. by intros p ?%not_elem_of_nil. Qed.
End DumpAll.

(** ** The commit *)
Definition entry_in (h : heap) (a c : Z) : Prop := ∃ d n, dir_in h a d ∧ d_entries d !! n = Some c.

(** The tree [h0] has been committed: [h] is the tree and [e] the repository
    afterwards. *)
Record committed {E} `{repo_world E} (r : ogl_repo) (h0 h : heap) (e : E) : Prop := {
  (** The names and types are what they were, *)
  cm_listing a n : listing h a n = listing h0 a n;
  (** nothing below the root is modified any more, *)
  cm_clean a d : rtc (entry_in h) (root_dir r) a → dir_in h a d → d_modified d = false;
  (** every directory that was has the hash code of its final contents, and
      there is a file where the freed path of its object points, *)
  cm_hashed a d : rtc (sub h0) (root_dir r) a → changed_dir h0 a → dir_in h a d →
    d_hash d = Some (hash_code (dir_object (records h d))) ∧
    is_Some (object_at e (d_repo d) (hash_code (dir_object (records h d))));
  (** every file without a valid hash code has that of its contents, *)
  cm_files a f : rtc (sub h0) (root_dir r) a → objs h0 !! a = Some (EFile f) → f_valid_hash f = false →
    ∃ f' d chunks, objs h !! a = Some (EFile f') ∧ dir_in h0 (f_dir f) d ∧
      file_of (get_path d (f_filename f)) = Some chunks ∧ f_valid_hash f' = true ∧
      f_hash f' = Some (hash_code (List.concat chunks));
  (** and [root-ref] has the hash code of the root. *)
  cm_root : ∃ d v, dir_in h (root_dir r) d ∧ d_hash d = Some v ∧
    root_ref e (repo_path r) = Some (print_hash v ++ [LF]);
}.

Section Commit.
Context {E : Type} `{World : repo_world E}.
Context (padding : list byte).
Hypothesis Hpadding : base.length padding = 2%nat.
Context (r : ogl_repo) (h0 : heap) (rootd : ogl_dir).
Hypothesis Hok : tree_ok h0.
Hypothesis Hun : unshared h0.
Hypothesis Hroot : dir_in h0 (root_dir r) rootd.
Hypothesis Hparent : d_parent rootd = None.
Hypothesis Hready : ∀ x y, rtc (sub h0) (root_dir r) x → objs h0 !! x = Some y → ready h0 y.

Lemma same_types_listing h h' : same_types h h' →
  (∀ x d, dir_in h x d → ∃ d', dir_in h' x d' ∧ d_entries d' = d_entries d) → ∀ a n, listing h' a n = listing h a n.
Proof using.
  intros Ht Hd a n. unfold listing.
  destruct (objs h !! a) as [y|] eqn:Ha.
  - pose proof (Ht a) as Hta. rewrite Ha in Hta. destruct y as [f|d|l| | |];
      try (destruct (objs h' !! a) as [[]|]; done).
    destruct (Hd a d Ha) as (d' & Hd' & He). unfold dir_in in Hd'. rewrite Hd', He.
    destruct (d_entries d !! n) as [c|]; [|done]. apply Ht.
  - pose proof (Ht a) as Hta. rewrite Ha in Hta. by destruct (objs h' !! a).
Qed.

Section After.
Context (h1 h : heap) (e : E) (V dirs : list Z).
Hypothesis Hc : collecting h0 h1 (root_dir r) V [] dirs.
Hypothesis Hd : dumping h0 h1 h e dirs.

(** What became of a directory. *)
Lemma dir_after x d : dir_in h0 x d →
  (x ∈ dirs ∧ dumped h e x d) ∨ (¬ x ∈ dirs) ∧ dir_in h x d.
Proof using Hc Hd.
  clear Hready. intros Hx. destruct (decide (x ∈ dirs)) as [Hin|Hin].
  - left. split; [done|]. destruct (dp_done _ _ _ _ _ Hd x Hin) as (d' & Hx' & Hdu).
    assert (d' = d) as -> by (unfold dir_in in *; congruence). done.
  - right. split; [done|]. unfold dir_in. rewrite (dp_rest _ _ _ _ _ Hd x Hin).
    by apply (refined_dir h0 h1); [apply (co_refined _ _ _ _ _ _ Hc)|].
Qed.
Lemma dir_before x d : dir_in h x d → ∃ d0, dir_in h0 x d0 ∧ d_entries d = d_entries d0 ∧
  (x ∈ dirs ∧ dumped h e x d0 ∧ cleaned d0 d ∨ (¬ x ∈ dirs) ∧ d = d0).
Proof using Hc Hd.
  clear Hready. intros Hx. assert (∃ d0, dir_in h0 x d0) as [d0 H0].
  { pose proof (dumping_types h0 h1 (root_dir r) V dirs Hc h e dirs Hd x) as Ht. unfold dir_in in *. rewrite Hx in Ht.
    destruct (objs h0 !! x) as [[| d0 | | | |]|]; try discriminate. by exists d0. }
  exists d0. split; [done|]. destruct (dir_after x d0 H0) as [[Hin Hdu]|[Hin Hx']].
  - pose proof Hdu as (d' & Hx' & Hcl & _). assert (d' = d) as -> by (unfold dir_in in *; congruence).
    split; [|by left]. unfold cleaned in Hcl. tauto.
  - assert (d0 = d) as -> by (unfold dir_in in *; congruence). split; [done|by right].
Qed.
Lemma reached_visited x : rtc (sub h0) (root_dir r) x → x ∈ V.
Proof using Hc.
  clear Hready. pose proof (co_root _ _ _ _ _ _ Hc) as Hr. rewrite app_nil_r in Hr.
  revert x. apply (rtc_ind_r (fun x => x ∈ V)); [done|]. intros x y _ Hs Hx.
  pose proof (co_children _ _ _ _ _ _ Hc x y) as Hch. rewrite app_nil_r in Hch. apply Hch; [|done].
  apply (co_dirs _ _ _ _ _ _ Hc). split; [done|]. destruct Hs as (d & n & Hdx & Hm & _). by exists d.
Qed.
Lemma root_dumped : d_modified rootd = true → root_dir r ∈ dirs.
Proof using Hc Hroot.
  clear Hready. intros Hm. apply (co_dirs _ _ _ _ _ _ Hc). split; [by apply reached_visited|by exists rootd].
Qed.

(** Below an unmodified directory nothing is modified. *)
Lemma reached_clean x : rtc (entry_in h) (root_dir r) x → x ∈ V ∨ ¬ changed_dir h0 x.
Proof using Hc Hd Hok.
  clear Hready. revert x. apply (rtc_ind_r (fun x => x ∈ V ∨ ¬ changed_dir h0 x)).
  - left. by apply reached_visited.
  - intros x y _ (d & n & Hx & Hn) IH. destruct (dir_before x d Hx) as (d0 & H0 & He & _). rewrite He in Hn.
    destruct (d_modified d0) eqn:Hm0.
    + left. assert (x ∈ V) as HxV by (destruct IH as [IH|IH]; [done|]; exfalso; apply IH; by exists d0).
      pose proof (co_children _ _ _ _ _ _ Hc x y) as Hch. rewrite app_nil_r in Hch. apply Hch; [|by exists d0, n].
      apply (co_dirs _ _ _ _ _ _ Hc). split; [done|by exists d0].
    + right. intros (dy & Hy & Hmy). destruct (tree_child _ Hok _ _ _ _ H0 Hn) as (z & Hz & Hch).
      unfold dir_in in Hy. rewrite Hz in Hy. injection Hy as ->. destruct Hch as [Hp _].
      pose proof (tree_marks _ Hok y dy x d0 Hz Hp H0 Hmy). congruence.
Qed.

Lemma after_commit e' v d : (∀ p, stored e' p = stored e p) →
  dir_in h (root_dir r) d → d_hash d = Some v → root_ref e' (repo_path r) = Some (print_hash v ++ [LF]) →
  committed r h0 h e'.
Proof using Hc Hd Hok.
  clear Hready. intros Hst Hrd Hv Href. split.
  - apply same_types_listing; [by eapply dumping_types|]. intros x d0 H0.
    destruct (dir_after x d0 H0) as [[_ (d' & Hd' & Hcl & _)]|[_ Hx]]; [|by exists d0].
    exists d'. split; [done|]. unfold cleaned in Hcl. tauto.
  - intros x dx Hx Hdx. destruct (dir_before x dx Hdx) as (d0 & H0 & _ & [(_ & _ & Hcl)|[Hin ->]]).
    + unfold cleaned in Hcl. tauto.
    + destruct (d_modified d0) eqn:Hm; [|done]. exfalso. apply Hin. apply (co_dirs _ _ _ _ _ _ Hc).
      split; [|by exists d0]. destruct (reached_clean x Hx) as [HV|Hn]; [done|]. exfalso. apply Hn. by exists d0.
  - intros x dx Hx Hm Hdx. assert (x ∈ dirs) as Hin
      by (apply (co_dirs _ _ _ _ _ _ Hc); split; [by apply reached_visited|done]).
    destruct (dp_done _ _ _ _ _ Hd x Hin) as (d0 & _ & d' & Hd' & _ & Hh & Hs).
    assert (d' = dx) as -> by (unfold dir_in in *; congruence). unfold object_at. by rewrite Hst.
  - intros x f Hx Hf Hvf. destruct (rn_entry _ _ (co_refined _ _ _ _ _ _ Hc) _ _ Hf) as (y & Hy & Hre).
    assert (x ∉ dirs) as Hin.
    { intros Hin. apply (co_dirs _ _ _ _ _ _ Hc) in Hin as (_ & dx & Hdx & _). unfold dir_in in Hdx. congruence. }
    destruct (co_settled _ _ _ _ _ _ Hc x (reached_visited x Hx)) as (y' & Hy' & Hs).
    assert (y' = y) as -> by congruence. destruct y as [f'| | | | |]; try (by cbn in Hre).
    cbn [settled] in Hs. cbn [rehashed] in Hre.
    destruct Hre as [->|(_ & _ & _ & _ & dx & chunks & Hdx & Hfile & Hh)]; [destruct Hs; congruence|].
    exists f', dx, chunks. rewrite (dp_rest _ _ _ _ _ Hd x Hin). destruct Hs as (Hv' & _). by split_and!.
  - by exists d, v.
Qed.
End After.

(** What [commit] does: both loops, and the root reference. *)
Lemma commit_run (e : E) : d_modified rootd = true →
  ∃ h1 V dirs h e2 e' d, commit padding r (h0, e) = Ok (true, (h, e')) ∧
    collecting h0 h1 (root_dir r) V [] dirs ∧ dumping h0 h1 h e2 dirs ∧
    dir_in h (root_dir r) d ∧ cleaned rootd d ∧ d_hash d = Some (hash_code (dir_object (records h d))) ∧
    root_ref e' (repo_path r) = Some (print_hash (hash_code (dir_object (records h d))) ++ [LF]) ∧
    (∀ p, stored e' p = stored e2 p) ∧ (strings_intact → addressed e → addressed e2).
Proof using All.
  intros Hm. unfold commit. rewrite (dir_at_step _ _ _ _ _ Hroot), Hm. cbn [negb]. mstep.
  destruct (collect_spec h0 (root_dir r) rootd Hok Hun Hroot Hparent Hready padding Hpadding (heap_fuel (h0, e))
    h0 e [] [root_dir r] [] (collecting_start h0 (root_dir r))) as (h1 & e1 & V & dirs & Hrun & Hc & Hg1).
  { unfold heap_fuel. cbn [fst base.length]. lia. }
  rewrite (ST_bind_step _ _ _ _ _ Hrun).
  destruct (dump_all_spec h0 h1 (root_dir r) V dirs Hok Hc Hready dirs h1 e1 [] eq_refl (dumping_start h0 h1 e1))
    as (h & e2 & Hrun2 & Hd & Hg2).
  rewrite (ST_bind_step _ _ _ _ _ Hrun2). cbn [negb].
  destruct (dp_done _ _ _ _ _ Hd _ (root_dumped h1 V dirs Hc Hm)) as (d0 & Hd0 & d & Hdr & Hcl & Hh & _).
  assert (d0 = rootd) as -> by (unfold dir_in in *; congruence).
  destruct (ref_write_spec e2 (repo_path r) (print_hash (hash_code (dir_object (records h d))) ++ [LF]))
    as (e3 & Hw & Href & Hst).
  exists h1, V, dirs, h, e2, e3, d. split_and!; try done; [|intros Hi Ha; by apply Hg2, Hg1].
  rewrite (ST_bind_step _ _ _ true (h, e3)); [done|]. unfold update_root_ref.
  rewrite (dir_at_step _ _ _ _ _ Hdr), Hh. rewrite (ST_bind_step _ _ (h, e2) _ (h, e2)) by done.
  unfold write_root_ref, os. cbn [snd fst]. by rewrite Hw.
Qed.

End Commit.

(** ** Witness: a disk of two maps, and "/r/d/f" with a file that has not been
    hashed yet. *)
Record disk := Disk { objects : gmap string (list byte); refs : gmap string (list byte) }.
Definition file_bytes : list (list byte) := [[byte_of_Z 104]; [byte_of_Z 105]].
#[local] Instance disk_os : repo_os disk := {|
  getuid := 0; getgid := 0;
  os_lstat _ := mret (Some (StatT 0x81a4 0 0)); os_read_file _ := mret (Some file_bytes); os_readlink _ := mret None;
  os_mkdir _ := mret 0;
  obj_stat path := fun e => Ok (bool_decide (is_Some (objects e !! path)), e);
  obj_write path b := fun e => Ok (Z.of_nat (base.length b), Disk (<[path := b]> (objects e)) (refs e));
  obj_read path := fun e => Ok (objects e !! path, e);
  stale path := mret path;
  ref_write repo b := fun e => Ok (true, Disk (objects e) (<[repo := b]> (refs e)));
  ref_read repo := fun e => Ok (refs e !! repo, e);
|}.
#[local] Program Instance disk_files : repo_files disk := {
  stored e path := objects e !! path; writable _ := True; freed s := s }.
Next Obligation. done. Qed.
Next Obligation. done. Qed.
Next Obligation. done. Qed.
Next Obligation. intros e path b _. eexists. split; [reflexivity|]. apply lookup_insert_eq. Qed.
#[local] Program Instance disk_world : repo_world disk := {
  lstat_of _ := Some (StatT 0x81a4 0 0); file_of _ := Some file_bytes; link_of _ := None;
  root_ref e repo := refs e !! repo }.
Next Obligation. done. Qed.
Next Obligation. done. Qed.
Next Obligation. done. Qed.
Next Obligation. intros e path b n e' [= _ <-] p Hne. by apply lookup_insert_ne. Qed.
Next Obligation. done. Qed.
Next Obligation. intros e repo b. eexists. split; [reflexivity|]. split; [apply lookup_insert_eq|done]. Qed.

Definition tree_root : ogl_dir := OglDir "/repo" None "/r" "/r" None {["d"%string := 1]} no_perms true true.
Definition tree_sub : ogl_dir := OglDir "/repo" (Some 0) "d" "/r/d" None {["f"%string := 2]} no_perms true true.
Definition tree_file : ogl_file := new_file "/repo" 1 "f".
Definition tree : heap := Heap (<[0 := EDir tree_root]> (<[1 := EDir tree_sub]> {[2 := EFile tree_file]})) 3.
Definition tree_repo : ogl_repo := OglRepo "/r" "/repo" 0.

Lemma tree_lookup a x : objs tree !! a = Some x →
  (a = 0 ∧ x = EDir tree_root) ∨ (a = 1 ∧ x = EDir tree_sub) ∨ (a = 2 ∧ x = EFile tree_file).
Proof.
  cbn. intros [[<- <-]|[_ [[<- <-]|[_ [<- <-]%lookup_singleton_Some]]%lookup_insert_Some]]%lookup_insert_Some; auto.
Qed.
Lemma tree_dir a d : dir_in tree a d → (a = 0 ∧ d = tree_root) ∨ (a = 1 ∧ d = tree_sub).
Proof. intros [[-> [= ->]]|[[-> [= ->]]|[-> [=]]]]%tree_lookup; auto. Qed.
Lemma tree_entry a d n c : dir_in tree a d → d_entries d !! n = Some c →
  (a = 0 ∧ n = "d"%string ∧ c = 1) ∨ (a = 1 ∧ n = "f"%string ∧ c = 2).
Proof.
  intros [[-> ->]|[-> ->]]%tree_dir Hn; cbn in Hn; apply lookup_singleton_Some in Hn as [<- <-]; auto.
Qed.
Lemma tree_is_ok : tree_ok tree.
Proof.
  split.
  - intros a x [[-> ->]|[[-> ->]|[-> ->]]]%tree_lookup; done.
  - intros a d p [[-> ->]|[-> ->]]%tree_dir; [done|]. intros [= <-]. split; [done|]. by exists tree_root.
  - intros a d name c Hd Hn. destruct (tree_entry _ _ _ _ Hd Hn) as [(-> & -> & ->)|(-> & -> & ->)].
    + by exists (EDir tree_sub).
    + by exists (EFile tree_file).
  - intros a d p pd [[-> ->]|[-> ->]]%tree_dir; [done|]. intros [= <-] [[_ ->]|[[=] _]]%tree_dir _. done.
Qed.
Lemma tree_unshared : unshared tree.
Proof.
  intros a d n a' d' n' c H1 H2 H3 H4.
  destruct (tree_entry _ _ _ _ H1 H2) as [(-> & -> & ->)|(-> & -> & ->)],
    (tree_entry _ _ _ _ H3 H4) as [(-> & -> & ?)|(-> & -> & ?)]; done.
Qed.
Lemma tree_ready x y : objs tree !! x = Some y → ready tree y.
Proof.
  intros [[-> ->]|[[-> ->]|[-> ->]]]%tree_lookup; cbn [ready d_modified tree_root tree_sub f_valid_hash tree_file new_file].
  - split_and!; [done|done|by eexists| |by vm_compute].
    intros n [c Hn]. destruct (tree_entry 0 tree_root n c eq_refl Hn) as [(_ & -> & _)|([=] & _)].
    apply (bool_decide_unpack _). by vm_compute.
  - split_and!; [done|done|by eexists| |by vm_compute].
    intros n [c Hn]. destruct (tree_entry 1 tree_sub n c eq_refl Hn) as [([=] & _)|(_ & -> & _)].
    apply (bool_decide_unpack _). by vm_compute.
  - exists tree_sub. split_and!; [done|by eexists|by eexists].
Qed.
