(* ===== verification/OglReopen.v ===== *)
(** * oglfs: a committed tree can be read again

    [commit] followed by the constructor of [ogl_repo] that reads [root-ref]:
    if the files that [store_obj] and [load_obj] reach hold the objects, the new
    repository shows the tree that was committed, and so does every directory
    below it when it is loaded by its hash code. *)

From S2P Require Import Prelude Sha2Spec Otypes Ogl OglTree OglHash OglSpec OglStore OglCollect OglCommit.
From Stdlib Require Import Strings.String.

(** ** Opening a repository *)
Section Open.
Context {E : Type} `{World : repo_world E}.

Lemma open_repo_eq root repo (g : heap) (e : E) v :
  0 ≤ v < 2 ^ 64 → root_ref e repo = Some (print_hash v ++ [LF]) →
  open_repo root repo (g, e) = open_at root repo v (g, e).
Proof.
  intros Hv Href. unfold open_repo. rewrite (os_step _ _ _ _ _ _ (ref_read_spec e repo)), Href.
  destruct (root_ref_roundtrip v Hv) as (Hl & Hlf & Hst).
  assert (take 17 (print_hash v ++ [LF]) = print_hash v ++ [LF]) as -> by (apply take_ge; by rewrite Hl).
  cbv zeta. rewrite sassert_step by (by rewrite bool_decide_true).
  by rewrite Hst.
Qed.

(** A directory whose object is in the repository is shown by the root of a
    repository that is opened with its hash code. *)
Lemma open_at_shows h a d root (g : heap) (e : E) :
  dir_in h a d →
  (∀ n, is_Some (d_entries d !! n) → name_ok n ∧ ∃ x, entry_of h d n = Some x ∧ dumpable x) →
  dir_objsize (records h d) < 2 ^ 16 →
  object_at e (d_repo d) (hash_code (dir_object (records h d))) = Some (dir_object (records h d)) →
  tree_ok g → 0 ≤ brk g →
  ∃ r g', open_at root (d_repo d) (hash_code (dir_object (records h d))) (g, e) = Ok (r, (g', e)) ∧
    root_path r = root ∧ repo_path r = d_repo d ∧
    ∀ n, shown g' (root_dir r) n = shown h a n ≫= persistent.
Proof.
  intros Ha Hd Hs Hst Hg Hb. unfold open_at.
  set (nd := d_set_hash (Some (hash_code (dir_object (records h d)))) (new_dir (d_repo d) None root)).
  rewrite (ST_bind_step _ _ (g, e) (brk g) (allot g (EDir nd), e)) by done. assert (tree_ok (allot g (EDir nd))) as Hok1 by (by apply allot_fresh_ok).
  assert (dir_in (allot g (EDir nd)) (brk g) nd) as Hnd by (unfold dir_in, allot; cbn; by rewrite lookup_insert_eq).
  destruct (load_dir_spec h a d Ha Hd Hs (allot g (EDir nd)) e (brk g) nd Hst Hok1 Hnd eq_refl eq_refl eq_refl)
    as (g' & db & Hrun & _ & _ & _ & _ & Hsh & _).
  do 2 eexists. split; [rewrite (ST_bind_step _ _ _ _ _ Hrun); reflexivity|]. done.
Qed.
End Open.

(** ** After a commit *)
Section Reopen.
Context {E : Type} `{World : repo_world E}.
Context (padding : list byte).
Hypothesis Hpadding : base.length padding = 2%nat.
Context (r : ogl_repo) (h0 : heap) (rootd : ogl_dir).
Hypothesis Hok : tree_ok h0.
Hypothesis Hun : unshared h0.
Hypothesis Hroot : dir_in h0 (root_dir r) rootd.
Hypothesis Hparent : d_parent rootd = None.
Hypothesis Hready : ∀ x y, rtc (sub h0) (root_dir r) x → objs h0 !! x = Some y → ready h0 y.

(** The files that were used for the objects of the modified directories hold
    them; a file that was there before would have been kept instead. *)
Definition objects_intact (h : heap) (e : E) : Prop := ∀ a d b,
  rtc (sub h0) (root_dir r) a → changed_dir h0 a → dir_in h a d →
  object_at e (d_repo d) (hash_code (dir_object (records h d))) = Some b → b = dir_object (records h d).

Section After.
Context (h1 h : heap) (e : E) (V dirs : list Z).
Hypothesis Hc : collecting h0 h1 (root_dir r) V [] dirs.
Hypothesis Hd : dumping h0 h1 h e dirs.

(** What loading the object of a dumped directory relies on. *)
Lemma written a d : a ∈ dirs → dir_in h a d →
  d_hash d = Some (hash_code (dir_object (records h d))) ∧
  (∀ n, is_Some (d_entries d !! n) → name_ok n ∧ ∃ x, entry_of h d n = Some x ∧ dumpable x) ∧
  dir_objsize (records h d) < 2 ^ 16 ∧ is_Some (object_at e (d_repo d) (hash_code (dir_object (records h d)))).
Proof using All.
  intros Hin Ha. destruct (dp_done _ _ _ _ _ Hd a Hin) as (d0 & H0 & d' & Ha' & Hcl & Hh & Hst).
  assert (d' = d) as -> by (unfold dir_in in *; congruence).
  destruct (dirs_changed h0 h1 (root_dir r) V dirs Hc a Hin) as (HaV & d1 & H1 & Hm).
  assert (d1 = d0) as -> by (unfold dir_in in *; congruence).
  assert (d_entries d = d_entries d0) as He by (unfold cleaned in Hcl; tauto).
  assert (ready h0 (EDir d0)) as Hr.
  { apply (Hready a); [|done]. eapply co_reach; [done|]. by rewrite app_nil_r. }
  cbn [ready] in Hr. rewrite Hm in Hr. destruct Hr as (_ & _ & _ & Hnames & Hsize).
  split; [done|]. split_and!; [| |done].
  - intros n [c Hn]. rewrite He in Hn. split; [by apply Hnames; eexists|]. unfold entry_of. rewrite He, Hn. cbn.
    by apply (entry_written h0 h1 (root_dir r) V dirs Hok Hc h e dirs a d0 n).
  - assert (records h d = records h d0) as -> by by apply records_ext.
    rewrite (objsize_types h0 h d0); [done|]. by eapply dumping_types.
Qed.
End After.

(** C12: what has been committed can be read, if it has been kept.
    [store_obj] and [load_obj] take the path of an object from a string that
    has been destroyed; [object_at] is what the file holds whose name the freed
    characters then read as.  A commit of a modified tree succeeds, and if these
    files hold the objects of the modified directories afterwards
    ([objects_intact]: no two objects have met in one file, as they do in
    [commit_mixes_objects]), a repository that is opened over the same files
    shows the committed root: the names, types and hash codes that the tree has
    after the commit, but for the placeholders of removed names; and a new
    directory that is loaded with the hash code of any directory that was
    modified shows that directory.  So the tree comes back level by level. *)
Theorem commit_reopens (e : E) : d_modified rootd = true → d_repo rootd = repo_path r →
  ∃ h e', commit padding r (h0, e) = Ok (true, (h, e')) ∧
    (objects_intact h e' → ∀ g, tree_ok g → 0 ≤ brk g →
      (∃ r' g', open_repo (root_path r) (repo_path r) (g, e') = Ok (r', (g', e')) ∧
         root_path r' = root_path r ∧ repo_path r' = repo_path r ∧
         ∀ n, shown g' (root_dir r') n = shown h (root_dir r) n ≫= persistent) ∧
      (∀ a d b db, rtc (sub h0) (root_dir r) a → changed_dir h0 a → dir_in h a d →
         dir_in g b db → d_entries db = ∅ → d_repo db = d_repo d → d_hash db = d_hash d →
         ∃ g', load_dir b (g, e') = Ok (true, (g', e')) ∧ ∀ n, shown g' b n = shown h a n ≫= persistent)).
Proof using All.
  intros Hm Hrepo.
  destruct (commit_run padding Hpadding r h0 rootd Hok Hun Hroot Hparent Hready e Hm)
    as (h1 & V & dirs & h & e2 & e' & d & Hrun & Hc & Hd & Hdr & Hcl & Hh & Href & Hst & _).
  exists h, e'. split; [done|]. intros Hint g Hg Hb.
  assert (∀ a da, rtc (sub h0) (root_dir r) a → changed_dir h0 a → dir_in h a da → a ∈ dirs ∧
    object_at e' (d_repo da) (hash_code (dir_object (records h da))) = Some (dir_object (records h da))) as Hall.
  { intros a da Hra Hch Ha. assert (a ∈ dirs) as Hin.
    { apply (co_dirs _ _ _ _ _ _ Hc). split; [by eapply reached_visited|done]. }
    split; [done|]. destruct (written h1 h e2 V dirs Hc Hd a da Hin Ha) as (_ & _ & _ & b & Hbs).
    unfold object_at in *. rewrite Hst, Hbs. f_equal. eapply Hint; [done|done|done|]. unfold object_at. by rewrite Hst. }
  split.
  - destruct (Hall (root_dir r) d) as [Hin Hstd]; [done|by exists rootd|done|].
    destruct (written h1 h e2 V dirs Hc Hd _ d Hin Hdr) as (_ & Hent & Hsize & _).
    assert (d_repo d = repo_path r) as Hrd by (unfold cleaned in Hcl; destruct Hcl; congruence).
    rewrite (open_repo_eq _ _ _ _ _ (hash_code_range _) Href), <-Hrd. by eapply open_at_shows.
  - intros a da b db Hra Hch Ha Hdb Hempty Hrp Hhash. destruct (Hall a da Hra Hch Ha) as [Hin Hsta].
    destruct (written h1 h e2 V dirs Hc Hd a da Hin Ha) as (Hha & Hent & Hsize & _). rewrite Hha in Hhash.
    destruct (load_dir_spec h a da Ha Hent Hsize g e' b db Hsta Hg Hdb Hempty Hrp Hhash)
      as (g' & db' & Hl & _ & _ & _ & _ & Hsh & _). by exists g'.
Qed.
End Reopen.

(** ** Witness: the tree and the disk of [OglCommit] *)
#[local] Existing Instances disk_os disk_files disk_world.
Definition intact_check (h : heap) (e : disk) (a : Z) : bool :=
  match objs h !! a with
  | Some (EDir d) =>
      let obj := dir_object (records h d) in
      bool_decide (objects e !! get_obj_path (d_repo d) (hash_code obj) = Some obj)
  | _ => true
  end.
Lemma intact_checked h e : intact_check h e 0 && intact_check h e 1 = true → objects_intact tree_repo tree h e.
Proof.
  intros [H0 H1]%andb_true_iff a d b _ (da & Hda & _) Ha Hb. apply tree_dir in Hda.
  assert (intact_check h e a = true) as Hc by by destruct Hda as [[-> _]|[-> _]]. unfold intact_check in Hc.
  unfold dir_in in Ha. rewrite Ha in Hc. apply bool_decide_eq_true in Hc. 
  change (objects e !! get_obj_path (d_repo d) (hash_code (dir_object (records h d))) = Some b) in Hb. congruence.
Qed.
Lemma commit_reopens_witness :
  ∃ h e' r' g', commit [NUL; NUL] tree_repo (tree, Disk ∅ ∅) = Ok (true, (h, e')) ∧
    open_repo "/r" "/repo" (Heap ∅ 0, e') = Ok (r', (g', e')) ∧
    shown g' (root_dir r') "d" = shown h 0 "d" ≫= persistent ∧ is_Some (shown g' (root_dir r') "d").
Proof.
  destruct (commit_reopens [NUL; NUL] eq_refl tree_repo tree tree_root tree_is_ok tree_unshared eq_refl eq_refl
    (fun x y _ => tree_ready x y) (Disk ∅ ∅) eq_refl eq_refl) as (h & e' & Hrun & H).
  assert (match commit [NUL; NUL] tree_repo (tree, Disk ∅ ∅) with
          | Ok (_, (h, e')) => intact_check h e' 0 && intact_check h e' 1 &&
              bool_decide (is_Some (shown h 0 "d" ≫= persistent))
          | Fault _ => false end = true) as Hc by (vm_compute; reflexivity).
  rewrite Hrun in Hc. apply andb_true_iff in Hc as [Hc Hd%bool_decide_eq_true].
  destruct (H (intact_checked h e' Hc) (Heap ∅ 0)) as [(r' & g' & Ho & _ & _ & Hs) _].
  - by split.
  - done.
  - exists h, e', r', g'. rewrite <-Hs in Hd. by split_and!.
Defined.

(** ** When the destroyed strings are not intact

    A disk for a process in which the freed characters of every path have been
    overwritten with the same ones. *)
Definition overwritten_os : repo_os disk := {|
  getuid := 0; getgid := 0; os_lstat := os_lstat; os_read_file := os_read_file; os_readlink := os_readlink;
  os_mkdir := os_mkdir; obj_stat := obj_stat; obj_write := obj_write; obj_read := obj_read;
  stale _ := mret "x"%string; ref_write := ref_write; ref_read := ref_read |}.
Definition overwritten_run : outcome (bool * bool * bool) :=
  '(ok, (h, e)) ← commit (Os:=overwritten_os) [NUL; NUL] tree_repo (tree, Disk ∅ ∅);
  '(r, (g, _)) ← open_repo (Os:=overwritten_os) "/r" "/repo" (Heap ∅ 0, e);
  Ok (ok, bool_decide (is_Some (shown g (root_dir r) "d")), bool_decide (is_Some (shown g (root_dir r) "f"))).

(** Then the first object that is stored stands for all of them: the commit of
    "/r/d/f" reports success, and the root of the repository that is opened
    shows "f", the contents of "/r/d", instead of "d". *)
Theorem commit_mixes_objects : overwritten_run = Ok (true, false, true).
Proof. vm_compute. reflexivity. Qed.
