(* ===== verification/OglTest.v ===== *)
(** * oglfs: the integration test

    tests/basic_objects.cpp on the model, over a file system of finite maps: a
    repository is made, committed, opened again four times, changed in all the
    ways that its interface has, and a directory is cloned.  [printf] is left
    out, and of the failing [init] only that the test does not go on. *)

From S2P Require Import Prelude Otypes Ogl OglMerge.

(** ** A file system *)
Inductive node := NFile (chunks : list (list byte)) | NLink (target : list byte) | NDir.
Record files := Files { nodes : gmap string node; objects : gmap string (list byte); refs : gmap string (list byte) }.
Definition mode_of (n : node) : Z :=
  match n with NFile _ => 0x81a4 | NLink _ => 0xa1ff | NDir => 0x41ed end.
(** The test is started by user and group 0; a new directory must not exist. *)
#[export] Instance files_os : repo_os files := {|
  getuid := 0; getgid := 0;
  os_lstat p := gets (fun e => n ← nodes e !! p; Some (StatT (mode_of n) 0 0));
  os_read_file p := gets (fun e => match nodes e !! p with Some (NFile c) => Some c | _ => None end);
  os_readlink p := gets (fun e => match nodes e !! p with Some (NLink t) => Some t | _ => None end);
  os_mkdir p := fun e =>
    match nodes e !! p with
    | Some _ => Ok (-1, e)
    | None => Ok (0, Files (<[p := NDir]> (nodes e)) (objects e) (refs e))
    end;
  obj_stat path := gets (fun e => bool_decide (is_Some (objects e !! path)));
  obj_write path b := fun e =>
    Ok (Z.of_nat (length b), Files (nodes e) (<[path := b]> (objects e)) (refs e));
  obj_read path := gets (fun e => objects e !! path);
  (** What the destroyed strings hold is still intact. *)
  stale path := mret path;
  ref_write repo b := fun e => Ok (true, Files (nodes e) (objects e) (<[repo := b]> (refs e)));
  ref_read repo := gets (fun e => refs e !! repo);
|}.
(** [symlink(target, path)], relative to the directory of the tests. *)
Definition symlink (target : list byte) (path : string) : ST files Z := fun e =>
  match nodes e !! path with
  | Some _ => Ok (-1, e)
  | None => Ok (0, Files (<[path := NLink target]> (nodes e)) (objects e) (refs e))
  end.

(** ** The test *)
Definition T : Type → Type := ST (heap * files).
Definition check (b : bool) : T unit := sassert b "assert of the test".
(** [assert(p)], for a pointer. *)
Definition deref {A} (p : option A) : T A :=
  match p with Some a => mret a | None => lift (Fault (AssertFailed "assert of the test")) end.
Definition is_type (a : Z) (t : ogl_type) : T unit := e ← entry_at a; check (bool_decide (get_type e = t)).
(** [to_file()], [to_symlink()] and their asserts; [hashcode()]. *)
Definition to_file (a : Z) : T ogl_file := e ← entry_at a; deref (match e with EFile f => Some f | _ => None end).
Definition to_symlink (a : Z) : T ogl_symlink := e ← entry_at a; deref (match e with ESymlink l => Some l | _ => None end).
Definition dir_hashcode (a : Z) : T Z := d ← dir_at a; hash_of (d_hash d).
Definition parent_is (a p : Z) : T unit := d ← dir_at a; check (bool_decide (d_parent d = Some p)).
Definition found (r : ogl_repo) (path : string) : T Z := e ← find r path; deref e.
Definition absent (r : ogl_repo) (path : string) : T unit := e ← find r path; check (bool_decide (e = None)).
Definition found_dir (r : ogl_repo) (path : string) : T Z := e ← found r path; is_type e OGL_DIR ;; mret e.

Definition basic_objects_name : list byte := byte_of_Z <$> [98; 97; 115; 105; 99; 95; 111; 98; 106; 101; 99; 116; 115].
(** [realpath("..")], [realpath("../tests")] and what is in it. *)
Definition root : string := "/ogl".
Definition tests : string := "/ogl/tests".
Definition bo_path : string := "/ogl/tests/basic_objects".
Definition sl_path : string := "/ogl/tests/symlink-test".
Definition repo_name : string := "test_repo".

Section Test.
Context (padding : list byte).

Definition first_commit : T unit :=
  ok ← init repo_name; check ok ;;
  repo ← open_repo root repo_name;
  add_dir (root_dir repo) "tests" ;;
  tests_dir ← found_dir repo tests;
  add_file tests_dir "basic_objects" ;;
  r ← os (symlink basic_objects_name sl_path); check (r =? 0) ;;
  add_symlink tests_dir "symlink-test" ;;
  ok ← mark_local (root_dir repo) "at_local"; check ok ;;
  commit padding repo ;; mret tt.
Definition load_again : T ogl_repo :=
  repo1 ← open_repo root repo_name;
  bo ← found repo1 bo_path;
  f ← to_file bo; hash ← hash_of (f_hash f);
  ok ← compute_hashcode bo f; check ok ;;
  f ← to_file bo; hash' ← hash_of (f_hash f); check (hash =? hash') ;;
  sl ← found repo1 sl_path;
  l ← to_symlink sl; ok ← load_symlink sl l; check ok ;;
  l ← to_symlink sl; hash ← hash_of (l_hash l); check (negb (hash =? 0)) ;;
  check (bool_decide (l_target l = "basic_objects"%string)) ;;
  add_dir (root_dir repo1) "tests" ;;
  lo ← lookup_name (root_dir repo1) "at_local"; lo ← deref lo; is_type lo OGL_LOCAL ;;
  mret repo1.
Definition add_and_remove (repo1 : ogl_repo) : T unit :=
  tests_dir ← found_dir repo1 tests;
  ok ← add_file tests_dir "basic_objects"; check (negb ok) ;;
  ok ← remove tests_dir "basic_objects"; check ok ;;
  absent repo1 bo_path ;;
  commit padding repo1 ;;
  absent repo1 bo_path.
Definition nonexistent : T ogl_repo :=
  repo2 ← open_repo root repo_name;
  absent repo2 bo_path ;;
  tests_dir ← found_dir repo2 tests;
  ok ← mark_nonexistent tests_dir "basic_objects"; check ok ;;
  commit padding repo2 ;;
  repo3 ← open_repo root repo_name;
  bo ← found repo3 bo_path; is_type bo OGL_NONEXISTENT ;;
  mret repo3.
Definition repo_operators (repo3 : ogl_repo) : T unit :=
  ok ← repo_remove repo3 bo_path; check ok ;;
  ok ← repo_add_file repo3 bo_path; check ok ;;
  bo ← found repo3 bo_path; to_file bo ;;
  tests_dir ← found_dir repo3 tests;
  old_hash ← dir_hashcode tests_dir;
  ok ← repo_mark_removed repo3 "/ogl/tests/file_removed"; check ok ;;
  commit padding repo3 ;;
  new_hash ← dir_hashcode tests_dir; check (negb (old_hash =? new_hash)).
Definition clone_test : T unit :=
  repo4 ← open_repo "/tests" repo_name;
  repo_add_dir repo4 "/tests/dir1" ;;
  repo_add_dir repo4 "/tests/dir1/dir1-1" ;;
  repo_add_dir repo4 "/tests/dir1/dir1-2" ;;
  repo_add_dir repo4 "/tests/dir1/dir1-2/dir1-2-1" ;;
  repo_add_dir repo4 "/tests/dir2" ;;
  dir1 ← found_dir repo4 "/tests/dir1";
  dir2 ← found_dir repo4 "/tests/dir2";
  copy_to dir1 dir2 ;;
  dir1_1 ← found_dir repo4 "/tests/dir1/dir1-1";
  dir1_2 ← found_dir repo4 "/tests/dir1/dir1-2";
  dir1_2_1 ← found_dir repo4 "/tests/dir1/dir1-2/dir1-2-1";
  parent_is dir1_1 dir1 ;; parent_is dir1_2 dir1 ;; parent_is dir1_2_1 dir1_2 ;;
  dir2_1 ← found_dir repo4 "/tests/dir2/dir1-1";
  dir2_2 ← found_dir repo4 "/tests/dir2/dir1-2";
  dir2_2_1 ← found_dir repo4 "/tests/dir2/dir1-2/dir1-2-1";
  parent_is dir2_1 dir2 ;; parent_is dir2_2 dir2 ;; parent_is dir2_2_1 dir2_2.
Definition basic_objects : T unit :=
  first_commit ;;
  repo1 ← load_again;
  add_and_remove repo1 ;;
  repo3 ← nonexistent;
  repo_operators repo3 ;;
  clone_test.
End Test.

(** The program itself is the file that is added. *)
Definition test_files (program : list (list byte)) : heap * files :=
  (Heap ∅ 1, Files {[root := NDir; tests := NDir; bo_path := NFile program]} ∅ ∅).
Definition result_of (program : list (list byte)) (padding : list byte) : outcome unit :=
  match basic_objects padding (test_files program) with Ok (u, _) => Ok u | Fault f => Fault f end.

(** The test passes on the model, for a small program. *)
Theorem basic_objects_passes : result_of [byte_of_Z <$> [35; 33; 47]; [byte_of_Z 10]] [NUL; NUL] = Ok tt.
Proof. vm_compute. reflexivity. Qed.
(** Run once more in the same directory it fails: [init] does not find
    the name of the repository free. *)
Theorem basic_objects_once :
  match basic_objects [NUL; NUL] (test_files [[byte_of_Z 10]]) with
  | Ok (_, s) => match basic_objects [NUL; NUL] s with Ok _ => false | Fault _ => true end
  | Fault _ => false
  end = true.
Proof. vm_compute. reflexivity. Qed.
