(* ===== verification/Ptrace.v ===== *)
(** * Tracing tools (loader/ptracetools.cpp, shellcode.S)

    Reading and writing the memory and the registers of a stopped process, and
    running a system call or a function in it.  [ptrace] and [waitpid] are an
    interface; [tracee] says what they do to a process that is stopped. *)

From stdpp Require Import functions.
From S2P Require Import Prelude Machine.

(** [user_regs_struct]: the registers the code sets, and the other ones
    (flags, segments, [orig_rax]), which it copies. *)
Record user_regs := URegs { gp : gregs; others : list Z }.
Definition set_gp (r : greg) (v : Z) (u : user_regs) : user_regs :=
  URegs (<[r := u64 v]> (gp u)) (others u).

(** ** ptrace and waitpid; a negative result is an error. *)
Class ptrace_os (E : Type) := {
  pt_poke : Z → Z → Z → ST E Z;             (** pid, address, word *)
  pt_peek : Z → Z → ST E (Z * Z);           (** the word and [errno] *)
  pt_attach : Z → ST E Z;
  pt_interrupt : Z → ST E Z;
  pt_cont : Z → ST E Z;
  pt_singlestep : Z → ST E Z;
  pt_getregs : Z → ST E (Z * user_regs);
  pt_setregs : Z → user_regs → ST E Z;
  pt_waitpid : Z → ST E (Z * Z);            (** the result and the status *)
}.

(** *** The status of waitpid *)
Definition SIGTRAP : Z := 5.
Definition SIGSTOP : Z := 19.
Definition WTERMSIG (status : Z) : Z := Z.land status 0x7f.
Definition WEXITSTATUS (status : Z) : Z := Z.shiftr (Z.land status 0xff00) 8.
Definition WIFEXITED (status : Z) : bool := WTERMSIG status =? 0.
(** [((signed char)((status & 0x7f) + 1) >> 1) > 0] *)
Definition WIFSIGNALED (status : Z) : bool :=
  (0 <? WTERMSIG status) && (WTERMSIG status <? 0x7f).
Definition WIFSTOPPED (status : Z) : bool := Z.land status 0xff =? 0x7f.
Definition WSTOPSIG : Z → Z := WEXITSTATUS.

(** [shellcode_syscall]: [syscall; int3]. *)
Definition shellcode_syscall : list byte := [byte_of_Z 0x0f; byte_of_Z 0x05; byte_of_Z 0xcc].

Section Tools.
Context {E : Type} `{Os : ptrace_os E}.
(** Rounds of a waiting loop, and what [new char[n]] holds. *)
Context (rounds : nat) (uninit : nat → list byte).
Definition M : Type → Type := ST E.

(** *** Memory *)

(** The loops of [inject_text] and [read_text]: [v] are the local bytes. *)
Fixpoint poke_loop (cnt : nat) (pid vaddr : Z) (v : list byte) : M Z :=
  match cnt with
  | O => mret 0
  | S cnt =>
      w ← lift (read_at v 0 8);
      r ← pt_poke pid vaddr (le_Z w);
      if r <? 0 then mret r else poke_loop cnt pid (vaddr + 8) (drop 8 v)
  end.
Definition inject_text (pid addr : Z) (ptr : list byte) (length : Z) : M Z :=
  sassert (Z.land length 7 =? 0) "(length & 0x7) == 0" ;;
  poke_loop (Z.to_nat (length / 8)) pid addr ptr.
(** [inject_data] differs in the request and prints what it writes. *)
Definition inject_data : Z → Z → list byte → Z → M Z := inject_text.

Fixpoint peek_loop (cnt : nat) (pid vaddr : Z) : M (Z * list byte) :=
  match cnt with
  | O => mret (0, [])
  | S cnt =>
      '(r, errno) ← pt_peek pid vaddr;
      if negb (errno =? 0) then mret (-1, []) else
      '(res, bytes) ← peek_loop cnt pid (vaddr + 8);
      mret (res, le_bytes 8 r ++ bytes)
  end.
(** The result, and the bytes that have been stored to the local buffer. *)
Definition read_text (pid addr length : Z) : M (Z * list byte) :=
  sassert (Z.land length 7 =? 0) "(length & 0x7) == 0" ;;
  peek_loop (Z.to_nat (length / 8)) pid addr.

(** *** Waiting *)
Definition stopped_by (sig status : Z) : bool := WIFSTOPPED status && (WSTOPSIG status =? sig).
(** The loop of [ptrace_waitstop] and [ptrace_waittrap]: the status. *)
Fixpoint wait_loop (n : nat) (sig pid : Z) : M (Z * Z) :=
  match n with
  | O => lift (Fault (Blocked "waitpid"))
  | S n =>
      '(r, status) ← pt_waitpid pid;
      if r <? 0 then mret (r, status) else
      if WIFEXITED status then mret (-1, status) else
      if WIFSIGNALED status then mret (-1, status) else
      if WIFSTOPPED status && negb (WSTOPSIG status =? sig) then mret (-1, status) else
      if negb (stopped_by sig status) then wait_loop n sig pid else mret (0, status)
  end.
Definition ptrace_waitstop (pid : Z) : M Z :=
  r ← wait_loop rounds SIGSTOP pid; mret r.1.
Definition ptrace_waittrap (pid : Z) : M Z :=
  '(r, status) ← wait_loop rounds SIGTRAP pid;
  if r <? 0 then mret r else mret (Z.land (Z.shiftr status 16) 0xff).
(** The loops of [ptrace_stop] and [inject_run_funcall]. *)
Fixpoint wait_trap_only (n : nat) (pid : Z) : M Z :=
  match n with
  | O => lift (Fault (Blocked "waitpid"))
  | S n =>
      '(r, status) ← pt_waitpid pid;
      if r <? 0 then mret r else
      if negb (stopped_by SIGTRAP status) then wait_trap_only n pid else mret 0
  end.

Definition ptrace_attach (pid : Z) : M Z :=
  r ← pt_attach pid; if r <? 0 then mret r else ptrace_waitstop pid.
Definition ptrace_stop (pid : Z) : M Z :=
  r ← pt_interrupt pid; if r <? 0 then mret r else wait_trap_only rounds pid.
Definition ptrace_cont (pid : Z) : M Z := r ← pt_cont pid; if r <? 0 then mret r else mret 0.
Definition ptrace_stepi (pid : Z) : M Z :=
  r ← pt_singlestep pid; if r <? 0 then mret r else ptrace_waittrap pid.
Definition ptrace_getregs (pid : Z) : M (Z * user_regs) := pt_getregs pid.
Definition ptrace_setregs (pid : Z) (regs : user_regs) : M Z := pt_setregs pid regs.

(** *** Arguments *)
Definition mk_syscall_args (regs : user_regs) (nr a1 a2 a3 a4 a5 a6 : Z) : user_regs :=
  set_gp R9 a6 (set_gp R8 a5 (set_gp R10 a4 (set_gp RDX a3 (set_gp RSI a2 (set_gp RDI a1
    (set_gp RAX nr regs)))))).
Definition mk_funcall_args (regs : user_regs) (a1 a2 a3 a4 a5 a6 : Z) : user_regs :=
  set_gp R9 a6 (set_gp R8 a5 (set_gp RCX a4 (set_gp RDX a3 (set_gp RSI a2 (set_gp RDI a1 regs))))).

(** [new char[codelen]] with the code copied to its start. *)
Definition code_buffer (codesrc : list byte) (codelen : Z) : outcome (list byte) :=
  write_at (uninit (Z.to_nat codelen)) 0 codesrc.
Definition len (l : list byte) : Z := Z.of_nat (length l).

(** Go on with a non-negative result; return a negative one. *)
Definition checked (m : M Z) (k : M Z) : M Z := r ← m; if r <? 0 then mret r else k.

(** *** inject_run_syscall *)
Section Syscall.
Context (pid nr : Z) (a1 a2 a3 a4 a5 a6 : Z) (_saved_regs : option user_regs).
(** From "Run the shell code" on. *)
Definition finish_syscall (saved_regs : user_regs) (saved_code : list byte) (codelen : Z) : M Z :=
  checked (ptrace_cont pid) (
  checked (ptrace_waittrap pid) (
  '(r, call_regs) ← ptrace_getregs pid;
  if r <? 0 then mret r else
  checked (inject_text pid (gp saved_regs RIP) saved_code codelen) (
  let ret := mret (s64 (gp call_regs RAX)) in
  match _saved_regs with
  | None => checked (ptrace_setregs pid saved_regs) ret
  | Some _ => ret
  end))).
(** From [call_regs = *saved_regs] on. *)
Definition run_syscall_with (saved_regs : user_regs) : M Z :=
  let rip := gp saved_regs RIP in
  let codelen := round8 (len shellcode_syscall) in
  '(r, saved_code) ← read_text pid rip codelen;
  if r <? 0 then mret r else
  let call_regs := mk_syscall_args saved_regs nr a1 a2 a3 a4 a5 a6 in
  let call_regs := set_gp RSP (gp call_regs RSP - 512) call_regs in
  checked (ptrace_setregs pid call_regs) (
  code ← lift (code_buffer shellcode_syscall codelen);
  checked (inject_text pid rip code codelen) (
  finish_syscall saved_regs saved_code codelen)).
Definition inject_run_syscall : M Z :=
  match _saved_regs with
  | Some regs => run_syscall_with regs
  | None =>
      '(r, regs) ← ptrace_getregs pid;
      if r <? 0 then mret r else run_syscall_with regs
  end.
End Syscall.

Definition NR_mmap : Z := 9.
Definition inject_mmap (pid addr length prot flags fd offset : Z) (saved_regs : option user_regs) : M Z :=
  inject_run_syscall pid NR_mmap addr length prot flags fd offset saved_regs.

(** *** inject_run_funcall and inject_run_funcall_nosave *)
Section Funcall.
Context (pid : Z) (codesrc : list byte) (entry : Z) (a1 a2 a3 a4 a5 a6 : Z).
Context (_saved_regs : option user_regs).
(** [entry] is the offset of the entry point in the code. *)
Definition funcall_regs (saved_regs : user_regs) : user_regs :=
  let call_regs := mk_funcall_args saved_regs a1 a2 a3 a4 a5 a6 in
  set_gp RIP (gp call_regs RIP + entry) call_regs.
Definition restore_regs (saved_regs : user_regs) (ret : Z) : M Z :=
  match _saved_regs with
  | None => checked (ptrace_setregs pid saved_regs) (mret ret)
  | Some _ => mret ret
  end.
Definition run_funcall_with (saved_regs : user_regs) : M Z :=
  let rip := gp saved_regs RIP in
  let codelen := round8 (len codesrc) in
  '(r, read) ← read_text pid rip codelen;
  (** A failure is not noticed; the rest of the buffer is uninitialised. *)
  let saved_code := read ++ drop (length read) (uninit (Z.to_nat codelen)) in
  code ← lift (code_buffer codesrc codelen);
  checked (inject_text pid rip code codelen) (
  checked (ptrace_setregs pid (funcall_regs saved_regs)) (
  checked (ptrace_cont pid) (
  checked (wait_trap_only rounds pid) (
  '(r, call_regs) ← ptrace_getregs pid;
  if r <? 0 then mret r else
  checked (inject_text pid rip saved_code codelen) (
  restore_regs saved_regs (s64 (gp call_regs RAX))))))).
(** From "Run the shell code" on. *)
Definition finish_funcall_nosave (saved_regs : user_regs) : M Z :=
  checked (ptrace_cont pid) (
  checked (ptrace_waittrap pid) (
  '(r, call_regs) ← ptrace_getregs pid;
  if r <? 0 then mret r else
  restore_regs saved_regs (s64 (gp call_regs RAX)))).
Definition run_funcall_nosave_with (saved_regs : user_regs) : M Z :=
  let rip := gp saved_regs RIP in
  let codelen := round8 (len codesrc) in
  code ← lift (code_buffer codesrc codelen);
  checked (inject_text pid rip code codelen) (
  checked (ptrace_setregs pid (funcall_regs saved_regs)) (
  finish_funcall_nosave saved_regs)).
Definition with_regs (k : user_regs → M Z) : M Z :=
  match _saved_regs with
  | Some regs => k regs
  | None => '(r, regs) ← ptrace_getregs pid; if r <? 0 then mret r else k regs
  end.
Definition inject_run_funcall : M Z := with_regs run_funcall_with.
Definition inject_run_funcall_nosave : M Z := with_regs run_funcall_nosave_with.
End Funcall.
End Tools.

(** ** A stopped process

    What the requests do to the process [pid]: its memory is mapped bytes, a
    word is eight of them. *)
Class tracee (E : Type) `{Os : ptrace_os E} (pid : Z) := {
  t_regs : E → user_regs;
  t_mem : E → memory;
  peek_law e a v : 0 ≤ v < 2 ^ 64 → word_at (t_mem e) a v → pt_peek pid a e = Ok ((v, 0), e);
  poke_law e a v m : store64 a v (t_mem e) = Ok m →
    ∃ e', pt_poke pid a v e = Ok (0, e') ∧ t_mem e' = m ∧ t_regs e' = t_regs e;
  getregs_law e : pt_getregs pid e = Ok ((0, t_regs e), e);
  setregs_law e u :
    ∃ e', pt_setregs pid u e = Ok (0, e') ∧ t_regs e' = u ∧ t_mem e' = t_mem e;
}.

Section Text.
Context {E : Type} `{Os : ptrace_os E} {pid : Z} `{!tracee E pid}.
Implicit Types e : E.

Lemma take8 (v : list byte) k : length v = (8 * S k)%nat → read_at v 0 8 = Ok (take 8 v).
Proof. intros H. unfold read_at. rewrite bool_decide_true by lia. done. Qed.
Lemma le_bytes_of_8 (v : list byte) : length v = 8%nat → le_bytes 8 (le_Z v) = v.
Proof. intros <-. apply le_bytes_le_Z. Qed.

Lemma poke_loop_spec k : ∀ a (v : list byte) e,
  length v = (8 * k)%nat → mapped (t_mem e) a (Z.of_nat (8 * k)) →
  ∃ e', poke_loop k pid a v e = Ok (0, e') ∧ bytes_at (t_mem e') a v ∧
        same_outside a (Z.of_nat (8 * k)) (t_mem e) (t_mem e') ∧ t_regs e' = t_regs e.
Proof.
  induction k as [|k IH]; intros a v e Hv Hm.
  - exists e. destruct v; [|done]. split_and!; [done|done|apply same_outside_refl|done].
  - cbn [poke_loop]. rewrite (ST_bind_step _ _ e (take 8 v) e) by (unfold lift; by rewrite (take8 v k)).
    assert (length (take 8 v) = 8%nat) as H8 by (rewrite length_take; lia).
    destruct (store64_word (t_mem e) a (le_Z (take 8 v))) as (m & Hst & Hw & Ho).
    { eapply mapped_part; [exact Hm|lia|lia]. }
    destruct (poke_law e a _ m Hst) as (e1 & H1 & Hm1 & Hr1).
    rewrite (ST_bind_step _ _ _ _ _ H1). cbn [Z.ltb Z.compare].
    assert (mapped (t_mem e1) (a + 8) (Z.of_nat (8 * k))) as Hm'.
    { rewrite Hm1. eapply mapped_same; [exact Ho|]. eapply mapped_part; [exact Hm|lia|lia]. }
    destruct (IH (a + 8) (drop 8 v) e1 ltac:(rewrite length_drop; lia) Hm') as (e' & Hrun & Hb & Ho' & Hr').
    exists e'. split_and!; [done| | |congruence].
    + rewrite <-(take_drop 8 v), bytes_at_app, H8. split; [|done].
      unfold word_at in Hw. rewrite le_bytes_of_8 in Hw by done. rewrite <-Hm1 in Hw.
      eapply bytes_at_same; [exact Ho'|exact Hw|]. left. rewrite H8. lia.
    + rewrite Hm1 in Ho'. eapply same_outside_trans; eapply same_outside_weaken; try done; lia.
Qed.

Lemma peek_loop_spec k : ∀ a (v : list byte) e,
  length v = (8 * k)%nat → bytes_at (t_mem e) a v → peek_loop k pid a e = Ok ((0, v), e).
Proof.
  induction k as [|k IH]; intros a v e Hv Hb; [by destruct v|].
  assert (length (take 8 v) = 8%nat) as H8 by (rewrite length_take; lia).
  rewrite <-(take_drop 8 v) in Hb. apply bytes_at_app in Hb as [Hb1 Hb2]. rewrite H8 in Hb2.
  cbn [peek_loop].
  assert (pt_peek pid a e = Ok ((le_Z (take 8 v), 0), e)) as Hp.
  { apply peek_law; [|unfold word_at; by rewrite le_bytes_of_8].
    pose proof (le_Z_range (take 8 v)) as Hr. rewrite H8 in Hr. exact Hr. }
  rewrite (ST_bind_step _ _ _ _ _ Hp). cbn [Z.eqb negb].
  rewrite (ST_bind_step _ _ _ _ _ (IH (a + 8) (drop 8 v) e ltac:(rewrite length_drop; lia) Hb2)).
  rewrite le_bytes_of_8 by done. by rewrite take_drop.
Qed.

Lemma words_length n k : n = Z.of_nat (8 * k) → Z.land n 7 = 0 ∧ Z.to_nat (n / 8) = k.
Proof.
  intros ->. replace (Z.of_nat (8 * k)) with (Z.of_nat k * 8) by lia. split.
  - change 7 with (Z.ones 3). rewrite Z.land_ones by lia. change (2 ^ 3) with 8. apply Z.mod_mul. lia.
  - rewrite Z.div_mul by lia. lia.
Qed.
(** [inject_text] writes all of its bytes and nothing else. *)
Lemma inject_text_spec a (v : list byte) k e :
  length v = (8 * k)%nat → mapped (t_mem e) a (len v) →
  ∃ e', inject_text pid a v (len v) e = Ok (0, e') ∧ bytes_at (t_mem e') a v ∧
        same_outside a (len v) (t_mem e) (t_mem e') ∧ t_regs e' = t_regs e.
Proof.
  intros Hv Hm. unfold len in *. destruct (words_length (Z.of_nat (length v)) k) as [H7 Hk]; [lia|].
  unfold inject_text. rewrite H7, Hk. rewrite (ST_bind_step _ _ e tt e) by done.
  rewrite Hv in *. by apply poke_loop_spec.
Qed.
(** [read_text] reads what is there. *)
Lemma read_text_spec a (v : list byte) k e :
  length v = (8 * k)%nat → bytes_at (t_mem e) a v →
  read_text pid a (len v) e = Ok ((0, v), e).
Proof.
  intros Hv Hb. unfold len. destruct (words_length (Z.of_nat (length v)) k) as [H7 Hk]; [lia|].
  unfold read_text. rewrite H7, Hk. rewrite (ST_bind_step _ _ e tt e) by done. by apply peek_loop_spec.
Qed.
End Text.

(** ** A system call in the process

    The kernel answers a system call with a result and a memory.  Continued at
    [syscall; int3], the process makes the call that its registers say and
    then stops with SIGTRAP. *)
Definition trap_status : Z := 0x57f.
Class syscall_tracee (E : Type) `{Os : ptrace_os E} (pid : Z) `{!tracee E pid} := {
  answer : gregs → memory → Z * memory;
  run_syscall_law e :
    bytes_at (t_mem e) (gp (t_regs e) RIP) shellcode_syscall →
    ∃ e1 e2, pt_cont pid e = Ok (0, e1) ∧ pt_waitpid pid e1 = Ok ((pid, trap_status), e2) ∧
      gp (t_regs e2) RAX = u64 (answer (gp (t_regs e)) (t_mem e)).1 ∧
      t_mem e2 = (answer (gp (t_regs e)) (t_mem e)).2;
}.

Lemma wait_trap_step {E} `{Os : ptrace_os E} n pid (e e' : E) : 0 ≤ pid →
  pt_waitpid pid e = Ok ((pid, trap_status), e') →
  ptrace_waittrap (S n) pid e = Ok (0, e').
Proof.
  intros Hp Hw. unfold ptrace_waittrap. rewrite (ST_bind_step _ _ e (0, trap_status) e'); [done|].
  cbn [wait_loop]. rewrite (ST_bind_step _ _ _ _ _ Hw). by destruct (Z.ltb_spec pid 0); [lia|].
Qed.
Lemma checked_step {E} `{Os : ptrace_os E} (m k : M (E:=E) Z) e r e' :
  m e = Ok (r, e') → checked m k e = if r <? 0 then Ok (r, e') else k e'.
Proof. intros H. unfold checked. rewrite (ST_bind_step _ _ _ _ _ H). by destruct (r <? 0). Qed.
Lemma checked_ok {E} `{Os : ptrace_os E} (m k : M (E:=E) Z) e e' :
  m e = Ok (0, e') → checked m k e = k e'.
Proof. intros H. by rewrite (checked_step _ _ _ _ _ H). Qed.

Section RunSyscall.
Context {E : Type} `{Os : ptrace_os E} {pid : Z} `{!tracee E pid, !syscall_tracee E pid}.
Context (rounds : nat) (uninit : nat → list byte).
Hypothesis Huninit : ∀ n, length (uninit n) = n.
Hypothesis Hpid : 0 ≤ pid.
Context (nr a1 a2 a3 a4 a5 a6 : Z).
Implicit Types e : E.

(** The registers at the call: the arguments, and a stack below the frame. *)
Definition call_regs (u : user_regs) : user_regs :=
  let u := mk_syscall_args u nr a1 a2 a3 a4 a5 a6 in set_gp RSP (gp u RSP - 512) u.

Lemma code_buffer_spec n (src : list byte) : (length src ≤ n)%nat →
  ∃ tail, code_buffer uninit src (Z.of_nat n) = Ok (src ++ tail) ∧ length (src ++ tail) = n.
Proof using Huninit.
  intros Hl. exists (drop (length src) (uninit n)). unfold code_buffer, write_at.
  rewrite Nat2Z.id, bool_decide_true by (rewrite Huninit; lia).
  split; [done|]. rewrite length_app, length_drop, Huninit. lia.
Qed.

(** What the call leaves behind, with [code] the eight bytes at the
    instruction pointer. *)
Record call_done (e : E) (rip : Z) (code : list byte) (regs : user_regs) (r : Z) (e' : E) : Prop := {
  cd_code : bytes_at (t_mem e') rip code;
  cd_call : ∃ m, same_outside rip 8 (t_mem e) m ∧ bytes_at m rip shellcode_syscall ∧ r = s64 (answer (gp regs) m).1 ∧
            ∀ x, ¬ (rip ≤ x < rip + 8) → t_mem e' !! x = (answer (gp regs) m).2 !! x;
}.

(** Up to the injected shell code. *)
Lemma syscall_prepared (saved : option user_regs) u code e :
  bytes_at (t_mem e) (gp u RIP) code → length code = 8%nat →
  ∃ e', run_syscall_with (S rounds) uninit pid nr a1 a2 a3 a4 a5 a6 saved u e =
          finish_syscall (S rounds) pid saved u code 8 e' ∧
    t_regs e' = call_regs u ∧ bytes_at (t_mem e') (gp u RIP) shellcode_syscall ∧
    same_outside (gp u RIP) 8 (t_mem e) (t_mem e').
Proof using Huninit.
  intros Hcode Hl. set (rip := gp u RIP) in *.
  unfold run_syscall_with. cbv zeta. fold rip. change (round8 (len shellcode_syscall)) with (Z.of_nat 8).
  pose proof (read_text_spec rip code 1 e Hl Hcode) as Hread. unfold len in Hread. rewrite Hl in Hread.
  rewrite (ST_bind_step _ _ _ _ _ Hread). cbn [Z.ltb Z.compare]. fold (call_regs u).
  destruct (setregs_law e (call_regs u)) as (e1 & H1 & Hr1 & Hm1).
  rewrite (checked_ok _ _ _ _ H1).
  destruct (code_buffer_spec 8 shellcode_syscall ltac:(simpl; lia)) as (tail & Hbuf & Hbl).
  rewrite (ST_bind_step _ _ e1 (shellcode_syscall ++ tail) e1) by (unfold lift; by rewrite Hbuf).
  destruct (inject_text_spec rip (shellcode_syscall ++ tail) 1 e1 Hbl) as (e2 & H2 & Hb2 & Ho2 & Hr2).
  { unfold len. rewrite Hbl, Hm1. by apply (bytes_mapped _ _ code). }
  unfold len in H2, Ho2. rewrite Hbl in H2, Ho2. rewrite (checked_ok _ _ _ _ H2).
  apply bytes_at_app in Hb2 as [Hb2 _]. rewrite Hm1 in Ho2. exists e2.
  split_and!; [done|by rewrite Hr2|done|done].
Qed.
Lemma finish_syscall_spec (saved : option user_regs) u code e :
  length code = 8%nat →
  t_regs e = call_regs u → bytes_at (t_mem e) (gp u RIP) shellcode_syscall → mapped (t_mem e) (gp u RIP) 8 →
  (∀ m, mapped m (gp u RIP) 8 → mapped (answer (gp (call_regs u)) m).2 (gp u RIP) 8) →
  let res := answer (gp (call_regs u)) (t_mem e) in
  ∃ e', finish_syscall (S rounds) pid saved u code 8 e = Ok (s64 res.1, e') ∧
    bytes_at (t_mem e') (gp u RIP) code ∧ same_outside (gp u RIP) 8 res.2 (t_mem e') ∧
    (saved = None → t_regs e' = u).
Proof using Hpid.
  intros Hl Hr Hb Hm Hmap res. set (rip := gp u RIP) in *. unfold finish_syscall. fold rip.
  destruct (run_syscall_law e) as (e3 & e4 & Hc & Hw & Ha & Hm4); [by rewrite Hr|].
  rewrite Hr in *. fold res in Ha, Hm4.
  rewrite (checked_ok _ _ e e3) by (unfold ptrace_cont; by rewrite (ST_bind_step _ _ _ _ _ Hc)).
  rewrite (checked_ok _ _ e3 e4) by by apply wait_trap_step.
  rewrite (ST_bind_step _ _ e4 (0, t_regs e4) e4) by apply getregs_law. cbn [Z.ltb Z.compare].
  destruct (inject_text_spec rip code 1 e4 Hl) as (e5 & H5 & Hb5 & Ho5 & Hr5).
  { unfold len. rewrite Hl, Hm4. by apply Hmap. }
  unfold len in H5, Ho5. rewrite Hl in H5, Ho5. change (Z.of_nat 8) with 8 in *.
  rewrite (checked_ok _ _ _ _ H5). rewrite Ha, s64_u64, Hm4 in *.
  destruct saved as [s|].
  - exists e5. by split_and!.
  - destruct (setregs_law e5 u) as (e6 & H6 & Hr6 & Hm6). rewrite (checked_ok _ _ _ _ H6).
    exists e6. rewrite Hm6. by split_and!.
Qed.
Lemma run_syscall_with_spec (saved : option user_regs) u code e :
  bytes_at (t_mem e) (gp u RIP) code → length code = 8%nat →
  (∀ m, mapped m (gp u RIP) 8 → mapped (answer (gp (call_regs u)) m).2 (gp u RIP) 8) →
  ∃ r e', run_syscall_with (S rounds) uninit pid nr a1 a2 a3 a4 a5 a6 saved u e = Ok (r, e') ∧
    call_done e (gp u RIP) code (call_regs u) r e' ∧ (saved = None → t_regs e' = u).
Proof using Huninit Hpid.
  intros Hcode Hl Hmap. destruct (syscall_prepared saved u code e Hcode Hl) as (e1 & -> & H1 & H2 & H3).
  assert (mapped (t_mem e1) (gp u RIP) 8) as Hm.
  { eapply mapped_same; [exact H3|]. by apply (bytes_mapped _ _ code 8). }
  destruct (finish_syscall_spec saved u code e1 Hl H1 H2 Hm Hmap) as (e2 & Hrun & Hb & Ho & Hr).
  eexists _, e2. split; [exact Hrun|]. split; [|exact Hr]. split; [exact Hb|].
  exists (t_mem e1). split; [done|]. split; [done|]. split; [done|]. apply Ho.
Qed.

Lemma inject_run_syscall_spec e code (saved : option user_regs) :
  let u := from_option id (t_regs e) saved in
  bytes_at (t_mem e) (gp u RIP) code → length code = 8%nat →
  (∀ m, mapped m (gp u RIP) 8 → mapped (answer (gp (call_regs u)) m).2 (gp u RIP) 8) →
  ∃ r e', inject_run_syscall (S rounds) uninit pid nr a1 a2 a3 a4 a5 a6 saved e = Ok (r, e') ∧
    call_done e (gp u RIP) code (call_regs u) r e' ∧ (saved = None → t_regs e' = t_regs e).
Proof using Huninit Hpid.
  intros u Hcode Hl Hmap. subst u. unfold inject_run_syscall. destruct saved as [s|]; cbn [from_option id] in *.
  - destruct (run_syscall_with_spec (Some s) s code e Hcode Hl Hmap) as (r & e' & H1 & H2 & _).
    by exists r, e'.
  - rewrite (ST_bind_step _ _ _ _ _ (getregs_law e)). cbn [Z.ltb Z.compare].
    destruct (run_syscall_with_spec None (t_regs e) code e Hcode Hl Hmap) as (r & e' & H1 & H2 & H3).
    exists r, e'. split; [done|]. split; [done|]. intros _. by apply H3.
Qed.

(** The registers of an x86-64 system call: the number, the six arguments, a
    stack below the interrupted frame, and everything else as in [u]. *)
Record syscall_convention (u : user_regs) (g : gregs) : Prop := {
  sc_rax : g RAX = u64 nr;
  sc_rdi : g RDI = u64 a1;
  sc_rsi : g RSI = u64 a2;
  sc_rdx : g RDX = u64 a3;
  sc_r10 : g R10 = u64 a4;
  sc_r8 : g R8 = u64 a5;
  sc_r9 : g R9 = u64 a6;
  sc_rsp : g RSP = u64 (gp u RSP - 512);
  sc_rest x : x ∉ [RAX; RDI; RSI; RDX; R10; R8; R9; RSP] → g x = gp u x;
}.
Lemma call_regs_convention u : syscall_convention u (gp (call_regs u)).
Proof.
  split; [reflexivity..|]. intros x Hx. unfold call_regs, mk_syscall_args. cbn [gp set_gp].
  repeat (rewrite fn_lookup_insert_ne by (intros <-; apply Hx; set_solver)). done.
Qed.

(** C29: [inject_run_syscall] makes the call that its arguments say and gives
    the process back as it was.  The kernel sees [syscall; int3] at the
    instruction pointer, the number in RAX and the arguments in RDI, RSI, RDX,
    R10, R8 and R9; its result is returned.  Afterwards the code at the
    instruction pointer is what it was, the rest of the memory is what the
    system call has left, and without saved registers of the caller every
    register is restored. *)
Theorem inject_run_syscall_restores e code (saved : option user_regs) :
  let u := from_option id (t_regs e) saved in
  bytes_at (t_mem e) (gp u RIP) code → length code = 8%nat →
  (∀ g m, syscall_convention u g → mapped m (gp u RIP) 8 → mapped (answer g m).2 (gp u RIP) 8) →
  ∃ r e' g m,
    inject_run_syscall (S rounds) uninit pid nr a1 a2 a3 a4 a5 a6 saved e = Ok (r, e') ∧
    syscall_convention u g ∧
    same_outside (gp u RIP) 8 (t_mem e) m ∧ bytes_at m (gp u RIP) shellcode_syscall ∧
    r = s64 (answer g m).1 ∧
    bytes_at (t_mem e') (gp u RIP) code ∧
    (∀ x, ¬ (gp u RIP ≤ x < gp u RIP + 8) → t_mem e' !! x = (answer g m).2 !! x) ∧
    (saved = None → t_regs e' = t_regs e).
Proof using Huninit Hpid.
  intros u Hcode Hl Hmap.
  assert (∀ m, mapped m (gp u RIP) 8 → mapped (answer (gp (call_regs u)) m).2 (gp u RIP) 8) as Hm
    by (intros m; apply Hmap, call_regs_convention).
  destruct (inject_run_syscall_spec e code saved Hcode Hl Hm) as (r & e' & H1 & [H2 (m & Ho & Hb & Hr & H4)] & H3).
  exists r, e', (gp (call_regs u)), m. split_and!; try done. apply call_regs_convention.
Qed.

(** When the process cannot be continued, the error is returned and the
    process is left with the shell code in place of its own and with the
    registers of the call. *)
Theorem inject_run_syscall_leaves_shellcode e code u r :
  bytes_at (t_mem e) (gp u RIP) code → length code = 8%nat → r < 0 →
  (∀ e', ∃ e'', pt_cont pid e' = Ok (r, e'') ∧ t_mem e'' = t_mem e' ∧ t_regs e'' = t_regs e') →
  ∃ e', inject_run_syscall (S rounds) uninit pid nr a1 a2 a3 a4 a5 a6 (Some u) e = Ok (r, e') ∧
    bytes_at (t_mem e') (gp u RIP) shellcode_syscall ∧ t_regs e' = call_regs u.
Proof using Huninit.
  intros Hcode Hl Hr Hcont. unfold inject_run_syscall.
  destruct (syscall_prepared (Some u) u code e Hcode Hl) as (e1 & -> & H1 & H2 & _).
  destruct (Hcont e1) as (e2 & Hc & Hm2 & Hr2). exists e2. unfold finish_syscall.
  rewrite (checked_step _ _ e1 r e2).
  2:{ unfold ptrace_cont. rewrite (ST_bind_step _ _ _ _ _ Hc). by destruct (Z.ltb_spec r 0); [|lia]. }
  destruct (Z.ltb_spec r 0); [|lia]. split; [done|]. split; [by rewrite Hm2|congruence].
Qed.
End RunSyscall.

(** ** Witnesses: a process whose kernel only knows one call, an anonymous
    private [mmap]. *)
Definition demo_kernel (g : gregs) : Z :=
  if (g RAX =? NR_mmap) && (g RSI =? 4096) && (g R10 =? 0x22) && (g R8 =? u64 (-1)) && (g R9 =? 0)
  then 0x7000 else -22.
Definition demo_tracee : Type := user_regs * memory.
#[local] Instance demo_ptrace : ptrace_os demo_tracee := {
  pt_poke _ a v := fun e =>
    match store64 a v e.2 with Ok m => Ok (0, (e.1, m)) | Fault _ => Ok (-1, e) end;
  pt_peek _ a := fun e =>
    match load64 a e.2 with Ok v => Ok ((v, 0), e) | Fault _ => Ok ((-1, 5), e) end;
  pt_attach _ := mret 0; pt_interrupt _ := mret 0; pt_singlestep _ := mret 0;
  pt_cont _ := fun e => Ok (0, (set_gp RAX (demo_kernel (gp e.1)) e.1, e.2));
  pt_getregs _ := fun e => Ok ((0, e.1), e);
  pt_setregs _ u := fun e => Ok (0, (u, e.2));
  pt_waitpid pid := mret (pid, trap_status);
}.
#[local] Program Instance demo_is_tracee pid : tracee demo_tracee pid := { t_regs e := e.1; t_mem e := e.2 }.
Next Obligation.
  intros pid e a v Hv Hw. cbn -[load64]. rewrite (load64_word _ _ _ Hw). by rewrite u64_small.
Qed.
Next Obligation. intros pid e a v m Hm. cbn -[store64]. rewrite Hm. by eexists. Qed.
Next Obligation. done. Qed.
Next Obligation. intros. by eexists. Qed.
#[local] Program Instance demo_runs pid : syscall_tracee demo_tracee pid := { answer g m := (demo_kernel g, m) }.
Next Obligation. intros pid e _. eexists _, _. split_and!; done. Qed.

Definition demo_text : list byte := map byte_of_Z [0x48; 0x89; 0xe5; 0x90; 0x90; 0xc3; 0x90; 0x90].
Definition demo_memory : memory := list_to_map (imap (fun i b => (0x1000 + Z.of_nat i, b)) demo_text).
Definition demo_user_regs : user_regs := URegs (<[RIP := 0x1000]> (<[RSP := 0x8000]> (fun _ => 3))) [].
Lemma demo_memory_text : bytes_at demo_memory 0x1000 demo_text.
Proof.
  intros i b Hi. do 8 (destruct i as [|i]; [cbn in Hi; injection Hi as <-; by vm_compute|]). done.
Qed.
Definition demo_uninit (n : nat) : list byte := replicate n (byte_of_Z 0xaa).

Lemma inject_run_syscall_restores_witness :
  ∃ e', inject_run_syscall 1 demo_uninit 7 NR_mmap 0 4096 7 0x22 (-1) 0 None (demo_user_regs, demo_memory) =
      Ok (0x7000, e') ∧
    bytes_at e'.2 0x1000 demo_text ∧ e'.1 = demo_user_regs.
Proof.
  destruct (inject_run_syscall_restores (pid := 7) 0 demo_uninit (fun n => length_replicate n _) ltac:(done)
    NR_mmap 0 4096 7 0x22 (-1) 0 (demo_user_regs, demo_memory) demo_text None demo_memory_text eq_refl
    (fun g m _ H => H)) as (r & e' & g & m & H1 & Hg & _ & _ & Hr & Hb & _ & H3).
  exists e'. split; [|split; [exact Hb|exact (H3 eq_refl)]].
  replace 0x7000 with r; [exact H1|]. rewrite Hr. cbn [answer demo_runs fst]. unfold demo_kernel.
  by rewrite (sc_rax _ _ _ _ _ _ _ _ _ Hg), (sc_rsi _ _ _ _ _ _ _ _ _ Hg), (sc_r10 _ _ _ _ _ _ _ _ _ Hg),
    (sc_r8 _ _ _ _ _ _ _ _ _ Hg), (sc_r9 _ _ _ _ _ _ _ _ _ Hg).
Defined.
