(* ===== verification/Loader.v ===== *)
(** * The loader (loader/loader.cpp)

    [load_shared_object] runs in the process that is to be sandboxed, before
    there is a C library: it maps the segments of libmosingar.so, relocates
    the pointers and calls the init functions.  Its arguments are addresses of
    tables in the process's memory ([Machine]); the kernel is an interface. *)

From S2P Require Import Prelude Machine Filter.

(** [struct prog_header] *)
Record prog_header := ProgHeader { offset : Z; addr : Z; file_size : Z; mem_size : Z }.
Definition header_words (h : prog_header) : list Z := [offset h; addr h; file_size h; mem_size h].
Definition sizeof_prog_header : Z := 32.
Definition PG_SZ : Z := 4096.

(** The system calls; a negative result is an error. *)
Class loader_os (E : Type) := {
  lo_mmap : Z → Z → bool → ST E Z;           (** address, length, MAP_FIXED *)
  lo_open : list byte → ST E Z;              (** the path without its NUL *)
  lo_lseek : Z → Z → ST E Z;                 (** SEEK_SET *)
  lo_read : Z → Z → ST E (Z * list byte);
  lo_close : Z → ST E Z;
}.

Record loading (E : Type) := Loading { lmem : memory; lkern : E }.
Arguments Loading {E}. Arguments lmem {E}. Arguments lkern {E}.

Section Loader.
Context {E : Type} `{Os : loader_os E}.
Definition M : Type → Type := ST (loading E).
Definition sys {A} (m : ST E A) : M A := fun p =>
  match m (lkern p) with Ok (a, e) => Ok (a, Loading (lmem p) e) | Fault f => Fault f end.
Definition in_mem {A} (f : memory → outcome (A * memory)) : M A := fun p =>
  match f (lmem p) with Ok (a, m) => Ok (a, Loading m (lkern p)) | Fault e => Fault e end.
Definition load (a : Z) : M Z := in_mem (fun m => v ← load64 a m; Ok (v, m)).
Definition store (a v : Z) : M unit := in_mem (fun m => m ← store64 a v m; Ok (tt, m)).
Definition memory_size (p : loading E) : nat := base.size (lmem p).

(** [mmap] of zeroed, anonymous memory. *)
Definition mmap (a len : Z) (fixed : bool) : M Z :=
  r ← sys (lo_mmap a len fixed);
  (if r <? 0 then mret tt else in_mem (fun m => Ok (tt, map_zeros (Z.to_nat len) r m))) ;;
  mret r.

(** The loader's copy of the system call stub: the address of [__syscall] and
    the distance to [_syscall]; and what an init function does. *)
Context (syscall_stub trampo_sz : Z) (call_init : Z → M unit).

(** The byte loop that fills the trampoline page. *)
Fixpoint copy_bytes (n : nat) (src dst : Z) : M unit :=
  match n with
  | O => mret tt
  | S n =>
      in_mem (fun m => bs ← mem_read 1 src m; m ← mem_write dst bs m; Ok (tt, m)) ;;
      copy_bytes n (src + 1) (dst + 1)
  end.

Definition load_header (headers i : Z) : M prog_header :=
  let p := headers + sizeof_prog_header * i in
  off ← load p; a ← load (p + 8); fsz ← load (p + 16); msz ← load (p + 24);
  mret (ProgHeader (s64 off) (s64 a) (s64 fsz) (s64 msz)).

(** [(addr + mem_size + PG_SZ - 1) & ~(PG_SZ - 1)] *)
Definition map_stop (h : prog_header) : Z := Z.land (addr h + mem_size h + PG_SZ - 1) (Z.lnot (PG_SZ - 1)).
Fixpoint image_size (n : nat) (headers i msz : Z) : M Z :=
  match n with
  | O => mret msz
  | S n =>
      h ← load_header headers i;
      image_size n headers (i + 1) (if msz <? map_stop h then map_stop h else msz)
  end.

(** The loop over the segments; a result below 0 ends the loading. *)
Fixpoint load_segments (n : nat) (headers i map fd : Z) : M Z :=
  match n with
  | O => mret 0
  | S n =>
      h ← load_header headers i;
      let seg_start := map + addr h in
      r ← sys (lo_lseek fd (offset h));
      if r <? 0 then mret r else
      '(r, bytes) ← sys (lo_read fd (file_size h));
      if r <? 0 then mret r else
      in_mem (fun m => m ← mem_write seg_start bytes m; Ok (tt, m)) ;;
      load_segments n headers (i + 1) map fd
  end.

(** [while ( *rela_p)]: pairs of an offset and an addend. *)
Fixpoint relocate (n : nat) (map rela_p : Z) : M unit :=
  match n with
  | O => lift (Fault (Undefined "out of fuel"))
  | S n =>
      off ← load rela_p;
      if off =? 0 then mret tt else
      addend ← load (rela_p + 8);
      store (u64 (map + off)) (u64 (map + addend)) ;;
      relocate n map (rela_p + 16)
  end.
(** [while ( *init_p)] *)
Fixpoint run_inits (n : nat) (map init_p : Z) : M unit :=
  match n with
  | O => lift (Fault (Undefined "out of fuel"))
  | S n =>
      f ← load init_p;
      if f =? 0 then mret tt else
      call_init (u64 (map + f)) ;;
      run_inits n map (init_p + 8)
  end.

Definition path_at (path : Z) : M (list byte) := fun p =>
  let s := string_from (memory_size p) path (lmem p) in
  Ok (take (length s - 1) s, p).

(** Up to the init functions: the result, or the address of the image. *)
Definition load_image (path headers header_num rela : Z) : M (Z + Z) :=
  syscall_tramp ← mmap TRAMPOLINE_ADDR 4096 true;
  copy_bytes (Z.to_nat trampo_sz) syscall_stub syscall_tramp ;;
  name ← path_at path;
  fd ← sys (lo_open name);
  if fd <? 0 then mret (inl fd) else
  h0 ← load_header headers 0;
  if negb (offset h0 =? 0) || negb (addr h0 =? 0) then lift (Fault (Aborted "exit(255)")) else
  msz ← image_size (Z.to_nat header_num) headers 0 0;
  map ← mmap 0 msz false;
  if map <? 0 then mret (inl map) else
  r ← load_segments (Z.to_nat header_num) headers 0 map fd;
  if r <? 0 then mret (inl r) else
  n ← gets memory_size;
  relocate (S n) map rela ;;
  r ← sys (lo_close fd);
  if r <? 0 then mret (inl r) else mret (inr map).
Definition load_shared_object (path headers header_num init_array rela flags : Z) : M Z :=
  r ← load_image path headers header_num rela;
  match r with
  | inl r => mret r
  | inr map =>
      n ← gets memory_size;
      run_inits (S n) map init_array ;;
      mret 0
  end.
End Loader.

(** ** Reference: the image of a file

    What the memory from the image's start on holds: the segments in their
    order over zeroes, and then the relocations in theirs. *)
Definition segment_over (F : list byte) (img : Z → byte) (h : prog_header) : Z → byte := fun x =>
  if bool_decide (addr h ≤ x < addr h + file_size h)
  then default NUL (F !! Z.to_nat (offset h + (x - addr h))) else img x.
Definition segments (F : list byte) (hs : list prog_header) : Z → byte :=
  foldl (segment_over F) (fun _ => NUL) hs.
Definition relocated (map : Z) (img : Z → byte) (r : Z * Z) : Z → byte := fun x =>
  if bool_decide (r.1 ≤ x < r.1 + 8)
  then default NUL (le_bytes 8 (u64 (map + r.2)) !! Z.to_nat (x - r.1)) else img x.
Definition image (F : list byte) (hs : list prog_header) (map : Z) (relas : list (Z * Z)) : Z → byte :=
  foldl (relocated map) (segments F hs) relas.
(** Its size: whole pages up to the end of the last segment. *)
Definition larger (msz : Z) (h : prog_header) : Z := Z.max msz (map_stop h).
Definition image_end (hs : list prog_header) : Z := foldl larger 0 hs.
