(* ===== verification/LoaderSpec.v ===== *)
(** * The loader builds the image of the library

    [load_shared_object] against the reference [image] of [Loader]: what the
    memory holds after the segments have been read and the pointers
    relocated. *)

From S2P Require Import Prelude Machine Filter Loader.

(** ** The library file *)

(** What the kernel promises about the file [F] at [path]: [opened e fd p]
    says that [fd] is this file, positioned at [p]. *)
Class library_file (E : Type) `{Os : loader_os E} (path F : list byte) := {
  opened : E → Z → Z → Prop;
  open_law e : ∃ fd e', lo_open path e = Ok (fd, e') ∧ 0 ≤ fd ∧ opened e' fd 0;
  lseek_law e fd p off : opened e fd p → 0 ≤ off →
    ∃ e', lo_lseek fd off e = Ok (off, e') ∧ opened e' fd off;
  read_law e fd p n : opened e fd p → 0 ≤ p → 0 ≤ n → p + n ≤ Z.of_nat (length F) →
    ∃ e', lo_read fd n e = Ok ((n, take (Z.to_nat n) (drop (Z.to_nat p) F)), e') ∧ opened e' fd (p + n);
  close_law e fd p : opened e fd p → ∃ e', lo_close fd e = Ok (0, e');
}.
(** Where the kernel puts a mapping. *)
Class maps_memory (E : Type) `{Os : loader_os E} (path F : list byte) `{!library_file E path F} (place : Z) := {
  mmap_fixed_law e a len : ∃ e', lo_mmap a len true e = Ok (a, e');
  mmap_law e len : ∃ e', lo_mmap 0 len false e = Ok (place, e') ∧ ∀ fd p, opened e fd p → opened e' fd p;
}.

(** ** Arguments *)
Record header_ok (F : list byte) (h : prog_header) : Prop := {
  ho_offset : 0 ≤ offset h;
  ho_addr : 0 ≤ addr h;
  ho_file : 0 ≤ file_size h ≤ mem_size h;
  ho_in_file : offset h + file_size h ≤ Z.of_nat (length F);
  ho_small : offset h < 2 ^ 62 ∧ addr h < 2 ^ 62 ∧ mem_size h < 2 ^ 62;
}.
Definition rela_ok (msz : Z) (r : Z * Z) : Prop := 0 < r.1 ∧ r.1 + 8 ≤ msz.
Definition rela_words (relas : list (Z * Z)) : list Z := concat (map (fun r => [r.1; r.2]) relas).

Section Steps.
Context {E : Type} `{Os : loader_os E}.
Implicit Types (m : memory) (e : E).

Lemma run_step {A B} (f : M (E:=E) A) (k : A → M (E:=E) B) m e a m' e' :
  f (Loading m e) = Ok (a, Loading m' e') → (f ≫= k) (Loading m e) = k a (Loading m' e').
Proof. apply ST_bind_step. Qed.
Lemma sys_step {A B} (f : ST E A) (k : A → M (E:=E) B) m e a e' :
  f e = Ok (a, e') → (sys f ≫= k) (Loading m e) = k a (Loading m e').
Proof. intros H. apply ST_bind_step. unfold sys. cbn [lmem lkern]. by rewrite H. Qed.
Lemma loading_step {A B} (f : memory → outcome (A * memory)) (k : A → M (E:=E) B) m e a m' :
  f m = Ok (a, m') → (in_mem f ≫= k) (Loading m e) = k a (Loading m' e).
Proof. intros H. apply ST_bind_step. unfold in_mem. cbn [lmem lkern]. by rewrite H. Qed.
Lemma load_step {B} a v (k : Z → M (E:=E) B) m e :
  word_at m a v → (load a ≫= k) (Loading m e) = k (u64 v) (Loading m e).
Proof. intros H. unfold load. apply loading_step. by rewrite (load64_word _ _ _ H). Qed.

Lemma s64_of v : 0 ≤ v < 2 ^ 62 → s64 (u64 v) = v.
Proof. intros H. rewrite s64_u64. apply s64_small. lia. Qed.

Lemma load_header_spec F headers i h m e : header_ok F h →
  words_at m (headers + sizeof_prog_header * i) (header_words h) →
  load_header headers i (Loading m e) = Ok (h, Loading m e).
Proof.
  intros [H1 H2 H3 H4 (H5 & H6 & H7)] Hw. unfold load_header, header_words in *. cbv zeta.
  set (p := headers + sizeof_prog_header * i) in *. rewrite !words_at_cons in Hw.
  destruct Hw as (W1 & W2 & W3 & W4 & _).
  replace (p + 8 + 8) with (p + 16) in * by lia. replace (p + 16 + 8) with (p + 24) in * by lia.
  rewrite (load_step _ _ _ _ _ W1), (load_step _ _ _ _ _ W2), (load_step _ _ _ _ _ W3),
    (load_step _ _ _ _ _ W4).
  rewrite !s64_of by lia. by destruct h.
Qed.

(** The header table from the [i]-th header on. *)
Definition headers_at (m : memory) (headers i : Z) (hs : list prog_header) : Prop :=
  words_at m (headers + sizeof_prog_header * i) (concat (map header_words hs)).
Lemma headers_at_cons m headers i h hs :
  headers_at m headers i (h :: hs) ↔
  words_at m (headers + sizeof_prog_header * i) (header_words h) ∧ headers_at m headers (i + 1) hs.
Proof.
  unfold headers_at. cbn [map concat]. rewrite words_at_app. cbn [header_words length].
  replace (headers + sizeof_prog_header * i + 8 * Z.of_nat 4)
    with (headers + sizeof_prog_header * (i + 1)) by (unfold sizeof_prog_header; lia).
  done.
Qed.

Lemma first_header_spec F headers hs h m e : Forall (header_ok F) hs → hs !! 0%nat = Some h →
  words_at m headers (concat (map header_words hs)) →
  load_header headers 0 (Loading m e) = Ok (h, Loading m e).
Proof.
  destruct hs as [|h' l]; [done|]. intros Hok [= ->] Hw. inversion Hok; subst.
  apply (load_header_spec F); [done|]. cbn [map concat] in Hw. apply words_at_app in Hw as [Hw _].
  by replace (headers + sizeof_prog_header * 0) with headers by lia.
Qed.
Lemma image_size_spec F headers m e hs : ∀ i msz,
  Forall (header_ok F) hs → headers_at m headers i hs →
  image_size (length hs) headers i msz (Loading m e) =
    Ok (foldl larger msz hs, Loading m e).
Proof.
  induction hs as [|h hs IH]; intros i msz Hok Hw; [done|].
  inversion Hok; subst. apply headers_at_cons in Hw as [Hh Hw]. cbn [length image_size foldl].
  rewrite (ST_bind_step _ _ _ _ _ (load_header_spec F headers i h m e ltac:(done) Hh)).
  rewrite (IH (i + 1)) by done. f_equal. f_equal. f_equal.
  unfold larger. destruct (Z.ltb_spec msz (map_stop h)); lia.
Qed.
Lemma image_end_ge hs : ∀ msz h, h ∈ hs → map_stop h ≤ foldl larger msz hs.
Proof.
  assert (∀ hs msz, msz ≤ foldl larger msz hs) as Hge.
  { intros l. induction l as [|h l IH]; intros msz; cbn [foldl]; [lia|].
    specialize (IH (larger msz h)). unfold larger in *. lia. }
  induction hs as [|h hs IH]; intros msz x Hx; [by apply not_elem_of_nil in Hx|].
  apply elem_of_cons in Hx as [->|Hx]; cbn [foldl]; [|by apply IH].
  specialize (Hge hs (larger msz h)). unfold larger in *. lia.
Qed.
Lemma map_stop_ge h : addr h + mem_size h ≤ map_stop h.
Proof.
  unfold map_stop, PG_SZ. set (z := addr h + mem_size h + 4096 - 1).
  change (Z.lnot (4096 - 1)) with (Z.lnot (Z.ones 12)).
  rewrite <-Z.ldiff_land, Z.ldiff_ones_r by lia. rewrite Z.shiftl_mul_pow2, Z.shiftr_div_pow2 by lia.
  pose proof (Z.mod_pos_bound z (2 ^ 12) ltac:(lia)). pose proof (Z.div_mod z (2 ^ 12) ltac:(lia)).
  change (2 ^ 12) with 4096 in *. subst z. lia.
Qed.

(** The memory from [map] on holds the image [img] of [msz] bytes. *)
Definition holds (m : memory) (map msz : Z) (img : Z → byte) : Prop :=
  ∀ x, 0 ≤ x < msz → m !! (map + x) = Some (img x).
Definition outside (map msz x : Z) : Prop := ¬ (map ≤ x < map + msz).
Lemma holds_mapped m map msz img a n : holds m map msz img → map ≤ a → a + n ≤ map + msz → mapped m a n.
Proof. intros Hh Ha Hn x Hx. replace x with (map + (x - map)) by lia. rewrite Hh by lia. by eexists. Qed.

Lemma fresh_image m map msz : holds (map_zeros (Z.to_nat msz) map m) map msz (fun _ => NUL) ∧
  keeps (outside map msz) m (map_zeros (Z.to_nat msz) map m).
Proof.
  split; intros x Hx; rewrite map_zeros_lookup.
  - by rewrite decide_True by lia.
  - unfold outside in Hx. by rewrite decide_False by lia.
Qed.

(** Writing a part of the image. *)
Lemma write_image m map msz img a bs : holds m map msz img → 0 ≤ a → a + Z.of_nat (length bs) ≤ msz →
  ∃ m', mem_write (map + a) bs m = Ok m' ∧
    holds m' map msz (fun x => if bool_decide (a ≤ x < a + Z.of_nat (length bs))
                               then default NUL (bs !! Z.to_nat (x - a)) else img x) ∧
    keeps (outside map msz) m m'.
Proof.
  intros Hh Ha Hn. destruct (mem_write_bytes bs m (map + a)) as (m' & Hw & Hb & Ho & _).
  { eapply holds_mapped; [exact Hh|lia|lia]. }
  exists m'. split; [done|]. split.
  - intros x Hx. case_bool_decide as Hin.
    + destruct (bs !! Z.to_nat (x - a)) as [b|] eqn:Hi.
      * apply Hb in Hi. cbn. rewrite <-Hi. f_equal. lia.
      * apply lookup_ge_None in Hi. lia.
    + rewrite Ho by lia. by apply Hh.
  - intros x Hx. apply Ho. unfold outside in Hx. lia.
Qed.

Section Segments.
Context {path F : list byte} `{!library_file E path F}.
Context (headers map msz : Z) (R : Z → Prop).
Hypothesis HR : ∀ x, R x → outside map msz x.

Lemma load_segments_spec hs : ∀ i fd p img m e,
  Forall (header_ok F) hs → (∀ h, h ∈ hs → map_stop h ≤ msz) →
  headers_at m headers i hs →
  (∀ x, headers + sizeof_prog_header * i ≤ x < headers + sizeof_prog_header * (i + Z.of_nat (length hs)) → R x) →
  opened e fd p → holds m map msz img →
  ∃ m' e' p', load_segments (length hs) headers i map fd (Loading m e) = Ok (0, Loading m' e') ∧
    opened e' fd p' ∧ holds m' map msz (foldl (segment_over F) img hs) ∧ keeps R m m'.
Proof using HR.
  induction hs as [|h hs IH]; intros i fd p img m e Hok Hstop Hw Hin Ho Hh.
  { exists m, e, p. split; [done|]. split; [done|]. split; [done|apply keeps_refl]. }
  pose proof Hok as Hok0. inversion Hok as [|? ? Hho Hoks]; subst.
  pose proof Hw as Hw0. apply headers_at_cons in Hw0 as [Hhd _]. cbn [length load_segments].
  rewrite (ST_bind_step _ _ _ _ _ (load_header_spec F headers i h m e Hho Hhd)).
  destruct Hho as [H1 H2 H3 H4 _].
  destruct (lseek_law e fd p (offset h) Ho H1) as (e1 & Hl & Ho1). cbv zeta.
  rewrite (sys_step _ _ _ _ _ _ Hl). destruct (Z.ltb_spec (offset h) 0) as [Hlt|_]; [lia|].
  destruct (read_law e1 fd (offset h) (file_size h) Ho1 H1 ltac:(lia) H4) as (e2 & Hr & Ho2).
  rewrite (sys_step _ _ _ _ _ _ Hr). destruct (Z.ltb_spec (file_size h) 0) as [Hlt|_]; [lia|].
  set (bytes := take _ _).
  assert (Z.of_nat (length bytes) = file_size h) as Hlen
    by (unfold bytes; rewrite length_take, length_drop; lia).
  pose proof (Hstop h ltac:(by left)) as Hs. pose proof (map_stop_ge h) as Hge.
  destruct (write_image m map msz img (addr h) bytes Hh H2 ltac:(lia)) as (m1 & Hwr & Hh1 & Hk1).
  rewrite (loading_step _ _ m e2 tt m1) by (by rewrite Hwr).
  assert (keeps R m m1) as HkR by (intros x Hx; by apply Hk1, HR).
  assert (holds m1 map msz (segment_over F img h)) as Hh1'.
  { intros x Hx. rewrite Hh1 by done. f_equal. unfold segment_over. rewrite Hlen. case_bool_decide as Hc; [|done].
    unfold bytes. rewrite lookup_take_lt by lia. rewrite lookup_drop. do 2 f_equal. lia. }
  destruct (IH (i + 1) fd (offset h + file_size h) (segment_over F img h) m1 e2) as (m' & e' & p' & Hrun & Hop & Hh' & Hk');
    [done|intros; apply Hstop; by right| |intros x Hx; apply Hin; unfold sizeof_prog_header in *; cbn [length]; lia|done|done|].
  { apply (keeps_words R m m1); [done|by apply headers_at_cons in Hw as [_ Hw]|].
    intros x Hx. apply Hin. assert (length (concat (List.map header_words hs)) = (4 * length hs)%nat) as Hc.
    { clear. induction hs; [done|]. cbn [List.map concat]. rewrite length_app. cbn [header_words length]. lia. }
    rewrite Hc in Hx. unfold sizeof_prog_header in *. cbn [length]. lia. }
  exists m', e', p'. split; [done|]. split; [done|]. split; [done|]. by eapply keeps_trans.
Qed.
End Segments.

Section Relocations.
Context (map msz : Z) (R : Z → Prop).
Hypothesis HR : ∀ x, R x → outside map msz x.
Hypothesis Hmap : 0 ≤ map.
Hypothesis Hend : map + msz < 2 ^ 64.

Lemma relocate_spec relas : ∀ n rela_p img m e,
  Forall (rela_ok msz) relas → words_at m rela_p (rela_words relas ++ [0]) →
  (∀ x, rela_p ≤ x < rela_p + 16 * Z.of_nat (length relas) + 8 → R x) →
  (length relas < n)%nat → holds m map msz img →
  ∃ m', relocate n map rela_p (Loading m e) = Ok (tt, Loading m' e) ∧
    holds m' map msz (foldl (relocated map) img relas) ∧ keeps R m m'.
Proof using HR Hmap Hend.
  induction relas as [|[off add] relas IH]; intros n rela_p img m e Hok Hw Hin Hn Hh;
    (destruct n as [|n]; [simpl in Hn; lia|]); cbn [relocate].
  { apply words_at_cons in Hw as [Hw _]. rewrite (load_step _ _ _ _ _ Hw). exists m.
    split; [done|]. split; [done|apply keeps_refl]. }
  inversion Hok as [|? ? [Hp Hlt] Hoks]; subst. cbn [fst snd] in *.
  unfold rela_words in Hw. cbn [List.map concat app fst snd] in Hw.
  rewrite !words_at_cons in Hw. destruct Hw as (W1 & W2 & Hw).
  rewrite (load_step _ _ _ _ _ W1), u64_small by lia.
  destruct (Z.eqb_spec off 0) as [He|_]; [lia|]. rewrite (load_step _ _ _ _ _ W2).
  unfold store. rewrite (u64_small (map + off)) by lia.
  assert (u64 (map + u64 add) = u64 (map + add)) as -> by apply Zplus_mod_idemp_r.
  destruct (write_image m map msz img off (le_bytes 8 (u64 (map + add))) Hh ltac:(lia)) as (m1 & Hwr & Hh1 & Hk1);
    [rewrite length_le_bytes; lia|].
  rewrite (loading_step _ _ m e tt m1) by (unfold store64; by rewrite Hwr).
  assert (keeps R m m1) as HkR by (intros x Hx; by apply Hk1, HR).
  destruct (IH n (rela_p + 16) (relocated map img (off, add)) m1 e) as (m' & Hrun & Hh' & Hk').
  - done.
  - apply (keeps_words R m m1); [done|by replace (rela_p + 16) with (rela_p + 8 + 8) by lia|].
    intros x Hx. apply Hin. rewrite length_app in Hx. cbn [length] in *.
    assert (length (rela_words relas) = (2 * length relas)%nat) as Hc.
    { clear. induction relas; [done|]. unfold rela_words in *. cbn [List.map concat]. rewrite length_app. cbn [length]. lia. }
    fold (rela_words relas) in Hx. lia.
  - intros x Hx. apply Hin. cbn [length]. lia.
  - cbn [length] in Hn. lia.
  - intros x Hx. rewrite Hh1 by done. by rewrite length_le_bytes.
  - exists m'. split; [done|]. split; [done|]. by eapply keeps_trans.
Qed.
End Relocations.
End Steps.

(** ** load_shared_object *)
Definition text (R : Z → Prop) (m : memory) (a : Z) (bs : list byte) : Prop :=
  bytes_at m a bs ∧ ∀ x, a ≤ x < a + Z.of_nat (length bs) → R x.
Definition table (R : Z → Prop) (m : memory) (a : Z) (ws : list Z) : Prop :=
  words_at m a ws ∧ ∀ x, a ≤ x < a + 8 * Z.of_nat (length ws) → R x.
Lemma text_keeps R m m' a bs : keeps R m m' → text R m a bs → text R m' a bs.
Proof. intros Hk [Hb HR]. split; [by eapply keeps_bytes|done]. Qed.
Lemma table_keeps R m m' a ws : keeps R m m' → table R m a ws → table R m' a ws.
Proof. intros Hk [Hb HR]. split; [by eapply keeps_words|done]. Qed.
Lemma table_weaken (R R' : Z → Prop) m a ws : (∀ x, R x → R' x) → table R m a ws → table R' m a ws.
Proof. intros H [Hw HR]. split; [done|]. intros x Hx. by apply H, HR. Qed.

(** The arguments in memory, where [R] holds. *)
Record arguments (R : Z → Prop) (m : memory) (path headers init rela : Z)
    (s : list byte) (hs : list prog_header) (fs : list Z) (relas : list (Z * Z)) : Prop := {
  ar_path : text R m path (s ++ [NUL]);
  ar_no_nul : NUL ∉ s;
  ar_headers : table R m headers (concat (map header_words hs));
  ar_init : table R m init (fs ++ [0]);
  ar_rela : table R m rela (rela_words relas ++ [0]);
}.
Lemma arguments_keep R m m' path headers init rela s hs fs relas :
  keeps R m m' → arguments R m path headers init rela s hs fs relas →
  arguments R m' path headers init rela s hs fs relas.
Proof.
  intros Hk []. split; [by eapply text_keeps|done|by eapply table_keeps..].
Qed.

Lemma length_header_words hs : length (concat (map header_words hs)) = (4 * length hs)%nat.
Proof. induction hs; [done|]. cbn [map concat]. rewrite length_app. cbn [header_words length]. lia. Qed.
Lemma length_rela_words relas : length (rela_words relas) = (2 * length relas)%nat.
Proof.
  induction relas; [done|]. unfold rela_words in *. cbn [map concat]. rewrite length_app. cbn [length]. lia.
Qed.

Section Pieces.
Context {E : Type} `{Os : loader_os E}.

Lemma copy_bytes_spec bs : ∀ src dst m (e : E),
  bytes_at m src bs → mapped m dst (Z.of_nat (length bs)) →
  src + Z.of_nat (length bs) ≤ dst ∨ dst + Z.of_nat (length bs) ≤ src →
  ∃ m', copy_bytes (length bs) src dst (Loading m e) = Ok (tt, Loading m' e) ∧
    bytes_at m' dst bs ∧ same_outside dst (Z.of_nat (length bs)) m m'.
Proof.
  induction bs as [|b bs IH]; intros src dst m e Hb Hm Hd.
  { exists m. split; [done|]. split; [done|apply same_outside_refl]. }
  cbn [length copy_bytes] in *. apply bytes_at_cons in Hb as [Hb Hbs].
  assert (bytes_at m src [b]) as Hb1 by (apply bytes_at_cons; split; [done|by intros i y]).
  destruct (mem_write_bytes [b] m dst) as (m1 & Hw & Hb2 & Ho); [eapply mapped_part; [exact Hm|lia|cbn; lia]|].
  rewrite (loading_step _ _ m e tt m1).
  2:{ pose proof (mem_read_bytes m [b] src Hb1) as Hr. cbn [length] in Hr. rewrite Hr. ostep. by rewrite Hw. }
  cbn [length] in Ho. change (Z.of_nat 1) with 1 in Ho.
  destruct (IH (src + 1) (dst + 1) m1 e) as (m' & Hrun & Hb' & Ho').
  - eapply bytes_at_same; [exact Ho|exact Hbs|lia].
  - eapply mapped_same; [exact Ho|]. eapply mapped_part; [exact Hm|lia|lia].
  - lia.
  - exists m'. split; [done|]. split.
    + apply bytes_at_cons. apply bytes_at_cons in Hb2 as [Hb2 _]. split; [|done].
      destruct Ho' as [Ho' _]. by rewrite Ho' by lia.
    + eapply same_outside_trans; eapply same_outside_weaken; try done; lia.
Qed.

Lemma mmap_step {B} a len fixed (k : Z → M (E:=E) B) m (e : E) r e' :
  lo_mmap a len fixed e = Ok (r, e') → 0 ≤ r →
  (mmap a len fixed ≫= k) (Loading m e) = k r (Loading (map_zeros (Z.to_nat len) r m) e').
Proof.
  intros H Hr. apply ST_bind_step. unfold mmap. rewrite (sys_step _ _ _ _ _ _ H).
  by destruct (Z.ltb_spec r 0); [lia|].
Qed.
Lemma path_at_spec R m (e : E) path s :
  text R m path (s ++ [NUL]) → NUL ∉ s → path_at path (Loading m e) = Ok (s, Loading m e).
Proof.
  intros [Hb _] Hs. unfold path_at. cbn [lmem].
  rewrite (string_from_bytes m s _ path Hs Hb).
  - rewrite length_app. cbn [length]. by rewrite Nat.add_sub, take_app_length.
  - pose proof (mapped_size m path _ (Nat2Z.is_nonneg _) (bytes_mapped _ _ _ _ Hb eq_refl)) as Hsz.
    rewrite length_app in Hsz. cbn [length] in Hsz. unfold memory_size. cbn [lmem]. lia.
Qed.
End Pieces.

Section Load.
Context {E : Type} `{Os : loader_os E} {s F : list byte} {place : Z}
  `{!library_file E s F} `{!maps_memory E s F place}.
Context (hs : list prog_header) (fs : list Z) (relas : list (Z * Z)).
Let msz := image_end hs.
(** Neither the trampoline page nor the image. *)
Definition elsewhere (x : Z) : Prop := outside TRAMPOLINE_ADDR 4096 x ∧ outside place msz x.
Hypothesis Hheaders : Forall (header_ok F) hs.
Hypothesis Hrelas : Forall (rela_ok msz) relas.
Hypothesis Hplace : 0 ≤ place ∧ place + msz < 2 ^ 64.

(** The image in the new mapping: the segments and the pointers over zeroes. *)
Lemma fill_image_spec m (e : E) fd p headers rela :
  table (outside place msz) m headers (concat (map header_words hs)) →
  table (outside place msz) m rela (rela_words relas ++ [0]) → opened e fd p →
  holds m place msz (fun _ => NUL) →
  ∃ m' e', (r ← load_segments (length hs) headers 0 place fd;
            if r <? 0 then mret (inl r) else
            n ← gets memory_size;
            relocate (S n) place rela ;;
            r ← sys (lo_close fd);
            if r <? 0 then mret (inl r) else mret (inr place)) (Loading m e) =
      Ok (inr (A:=Z) place, Loading m' e') ∧
    holds m' place msz (image F hs place relas) ∧ keeps (outside place msz) m m'.
Proof using Hheaders Hrelas Hplace.
  intros [Hhd HhdR] Hrel Hop Hz.
  assert (∀ x, outside place msz x → outside place msz x) as Hout by done.
  destruct (load_segments_spec headers place msz (outside place msz) Hout hs 0 fd p (fun _ => NUL) m e Hheaders)
    as (m1 & e1 & p1 & H1 & Ho1 & Hh1 & Hk1); [| | |done|done|].
  { intros h Hh. by apply image_end_ge. }
  { unfold headers_at. by replace (headers + sizeof_prog_header * 0) with headers by lia. }
  { intros x Hx. apply HhdR. rewrite length_header_words. unfold sizeof_prog_header in Hx. lia. }
  rewrite (run_step _ _ _ _ _ _ _ H1). cbn [Z.ltb Z.compare].
  pose proof (table_keeps _ _ _ _ _ Hk1 Hrel) as [Hrel1 HrelR].
  pose proof (mapped_size m1 rela _ (Z.mul_nonneg_nonneg 8 _ ltac:(done) (Nat2Z.is_nonneg _)) (words_mapped _ _ _ Hrel1)) as Hsz.
  rewrite length_app, length_rela_words in Hsz, HrelR. cbn [length] in Hsz, HrelR.
  destruct (relocate_spec place msz (outside place msz) Hout ltac:(lia) ltac:(lia) relas (S (memory_size (Loading m1 e1)))
    rela (segments F hs) m1 e1 Hrelas Hrel1) as (m2 & H2 & Hh2 & Hk2);
    [intros x Hx; apply HrelR; lia|unfold memory_size; cbn [lmem]; lia|done|].
  destruct (close_law e1 fd p1 Ho1) as (e2 & H3). exists m2, e2. split.
  - unfold mbind at 1, ST_bind at 1, gets. rewrite (run_step _ _ _ _ _ _ _ H2). by rewrite (sys_step _ _ _ _ _ _ H3).
  - split; [done|by eapply keeps_trans].
Qed.

Context (syscall_stub : Z) (stub : list byte) (call_init : Z → M (E:=E) unit).
Hypothesis Hfirst : ∃ h, hs !! 0%nat = Some h ∧ offset h = 0 ∧ addr h = 0.
Hypothesis Htrampo : ∀ x, TRAMPOLINE_ADDR ≤ x < TRAMPOLINE_ADDR + 4096 → outside place msz x.
Hypothesis Hstub : (length stub ≤ 4096)%nat.

(** The stub is where the loader jumps to for its system calls. *)
Lemma trampoline_spec m (e : E) : text elsewhere m syscall_stub stub →
  ∃ m1 m2 e1, mmap TRAMPOLINE_ADDR 4096 true (Loading m e) = Ok (TRAMPOLINE_ADDR, Loading m1 e1) ∧
    copy_bytes (length stub) syscall_stub TRAMPOLINE_ADDR (Loading m1 e1) = Ok (tt, Loading m2 e1) ∧
    bytes_at m2 TRAMPOLINE_ADDR stub ∧ keeps elsewhere m m2.
Proof using Hstub maps_memory0.
  intros Hst. destruct (mmap_fixed_law e TRAMPOLINE_ADDR 4096) as (e1 & H1).
  set (m1 := map_zeros (Z.to_nat 4096) TRAMPOLINE_ADDR m).
  assert (keeps elsewhere m m1) as Hk1.
  { intros x [Hx _]. unfold m1. rewrite map_zeros_lookup, decide_False; [done|exact Hx]. }
  pose proof (text_keeps _ _ _ _ _ Hk1 Hst) as [Hst1 HstR].
  destruct (copy_bytes_spec stub syscall_stub TRAMPOLINE_ADDR m1 e1 Hst1) as (m2 & H2 & Hb2 & Ho2 & _).
  { intros x Hx. unfold m1. rewrite map_zeros_lookup, decide_True by lia. by eexists. }
  { destruct (decide (length stub = 0%nat)) as [->|Hne]; [lia|].
    destruct (HstR syscall_stub) as [Ht _]; [lia|]. unfold outside in Ht.
    destruct (decide (syscall_stub < TRAMPOLINE_ADDR)) as [Hlt|Hge]; [left|lia].
    destruct (decide (syscall_stub + Z.of_nat (length stub) ≤ TRAMPOLINE_ADDR)) as [|Hn]; [done|].
    destruct (HstR TRAMPOLINE_ADDR) as [Hu _]; unfold outside in *; lia. }
  exists m1, m2, e1. split; [|split; [done|split; [done|]]].
  { unfold mmap. rewrite (sys_step _ _ _ _ _ _ H1). by destruct (Z.ltb_spec TRAMPOLINE_ADDR 0). }
  eapply keeps_trans; [exact Hk1|].
  intros x [Hx _]. apply Ho2. unfold outside in Hx. lia.
Qed.

Lemma load_image_spec m (e : E) path headers init rela :
  arguments elsewhere m path headers init rela s hs fs relas →
  text elsewhere m syscall_stub stub →
  ∃ m' e', load_image syscall_stub (Z.of_nat (length stub)) path headers (Z.of_nat (length hs)) rela
             (Loading m e) = Ok (inr place, Loading m' e') ∧
    holds m' place msz (image F hs place relas) ∧
    bytes_at m' TRAMPOLINE_ADDR stub ∧ keeps elsewhere m m'.
Proof using All.
  intros Hargs Hst. unfold load_image.
  destruct (trampoline_spec m e Hst) as (m0 & m1 & e1 & H1 & H2 & Hb1 & Hk1).
  rewrite (run_step _ _ _ _ _ _ _ H1), (Nat2Z.id (length stub)), (run_step _ _ _ _ _ _ _ H2).
  destruct (arguments_keep _ _ _ _ _ _ _ _ _ _ _ Hk1 Hargs) as [Hpath Hnul Hhd _ Hrel].
  rewrite (run_step _ _ _ _ _ _ _ (path_at_spec _ m1 e1 path s Hpath Hnul)).
  destruct (open_law (path := s) (F := F) e1) as (fd & e2 & H3 & Hfd & Hop).
  rewrite (sys_step _ _ _ _ _ _ H3). destruct (Z.ltb_spec fd 0) as [Hlt|_]; [lia|].
  destruct Hfirst as (h0 & Hh0 & Ho0 & Ha0).
  rewrite (run_step _ _ _ _ _ _ _ (first_header_spec F headers hs h0 m1 e2 Hheaders Hh0 (proj1 Hhd))), Ho0, Ha0.
  cbn [Z.eqb negb orb]. rewrite (Nat2Z.id (length hs)).
  rewrite (run_step _ _ _ _ _ _ _ (image_size_spec F headers m1 e2 hs 0 0 Hheaders ltac:(
    unfold headers_at; replace (headers + sizeof_prog_header * 0) with headers by lia; apply Hhd))).
  fold (image_end hs). fold msz.
  destruct (mmap_law e2 msz) as (e3 & H4 & Hkeep).
  rewrite (mmap_step _ _ _ _ _ _ _ _ H4) by lia. destruct (Z.ltb_spec place 0) as [Hlt|_]; [lia|].
  destruct (fresh_image m1 place msz) as [Hz Hkz].
  assert (∀ x, elsewhere x → outside place msz x) as Hout by (by intros x [_ Hx]).
  destruct (fill_image_spec _ e3 fd 0 headers rela
    (table_keeps _ _ _ _ _ Hkz (table_weaken _ _ _ _ _ Hout Hhd))
    (table_keeps _ _ _ _ _ Hkz (table_weaken _ _ _ _ _ Hout Hrel)) (Hkeep _ _ Hop) Hz)
    as (m2 & e4 & Hrun & Hh2 & Hk2).
  pose proof (keeps_trans _ _ _ _ Hkz Hk2) as Hk12.
  exists m2, e4. split; [exact Hrun|]. split; [done|]. split.
  - eapply keeps_bytes; [exact Hk12|exact Hb1|]. intros x Hx. apply Htrampo. lia.
  - eapply keeps_trans; [exact Hk1|]. intros x Hx. by apply Hk12, Hout.
Qed.

(** The init functions, in the order of their table. *)
Fixpoint call_all (l : list Z) : M (E:=E) unit :=
  match l with [] => mret tt | f :: l => call_init f ;; call_all l end.
Definition init_ok (f : Z) : Prop := 0 < f < 2 ^ 64.

Lemma run_inits_spec l : ∀ n init p, Forall init_ok l → (length l < n)%nat →
  words_at (lmem p) init (l ++ [0]) →
  (∀ f q q', call_init f q = Ok (tt, q') →
    keeps (fun x => init ≤ x < init + 8 * Z.of_nat (length (l ++ [0]))) (lmem q) (lmem q')) →
  run_inits call_init n place init p = call_all (map (fun f => u64 (place + f)) l) p.
Proof using.
  clear. induction l as [|f l IH]; intros n init [m e] Hok Hn Hw Hk;
    (destruct n as [|n]; [by apply Nat.nlt_0_r in Hn|]); cbn [run_inits app map call_all lmem] in *.
  { apply words_at_cons in Hw as [Hw _]. by rewrite (load_step _ _ _ _ _ Hw). }
  inversion Hok as [|? ? Hf Hoks]; subst. unfold init_ok in Hf.
  apply words_at_cons in Hw as [Hw Hws]. rewrite (load_step _ _ _ _ _ Hw), u64_small by lia.
  destruct (Z.eqb_spec f 0) as [He|_]; [lia|]. unfold mbind, ST_bind.
  destruct (call_init (u64 (place + f)) (Loading m e)) as [[[] q']|fl] eqn:Hc; [|done].
  cbn [length] in Hk, Hn. apply IH; [done|lia| |].
  - eapply keeps_words; [by eapply Hk|exact Hws|]. intros x Hx. cbn [lmem]. lia.
  - intros g q1 q2 Hg x Hx. apply (Hk g q1 q2 Hg). lia.
Qed.

Lemma load_shared_object_spec m (e : E) path headers init rela flags :
  arguments elsewhere m path headers init rela s hs fs relas →
  text elsewhere m syscall_stub stub →
  Forall init_ok fs →
  (∀ f q q', call_init f q = Ok (tt, q') →
    keeps (fun x => init ≤ x < init + 8 * Z.of_nat (length (fs ++ [0]))) (lmem q) (lmem q')) →
  ∃ m' e',
    load_shared_object syscall_stub (Z.of_nat (length stub)) call_init path headers
        (Z.of_nat (length hs)) init rela flags (Loading m e) =
      (call_all (map (fun f => u64 (place + f)) fs) ;; mret 0) (Loading m' e') ∧
    holds m' place msz (image F hs place relas) ∧
    bytes_at m' TRAMPOLINE_ADDR stub ∧ keeps elsewhere m m'.
Proof using All.
  intros Hargs Hst Hfs Hcalls.
  destruct (load_image_spec m e path headers init rela Hargs Hst) as (m' & e' & Hrun & Hh & Hb & Hk).
  exists m', e'. split; [|done]. unfold load_shared_object. rewrite (run_step _ _ _ _ _ _ _ Hrun).
  destruct (table_keeps _ _ _ _ _ Hk (ar_init _ _ _ _ _ _ _ _ _ _ Hargs)) as [Hw _].
  unfold mbind at 1, ST_bind at 1, gets. unfold mbind, ST_bind.
  rewrite (run_inits_spec fs) ; [done|done| |exact Hw|exact Hcalls].
  pose proof (mapped_size m' init _ (Z.mul_nonneg_nonneg 8 _ ltac:(done) (Nat2Z.is_nonneg _)) (words_mapped _ _ _ Hw)) as Hsz.
  rewrite length_app in Hsz. cbn [length] in Hsz. unfold memory_size. cbn [lmem]. lia.
Qed.

(** C28: [load_shared_object] builds the image of the library, that is the
    file's segments in their order over zeroed memory with every relocated
    pointer holding the image's address plus its addend, puts the stub of the
    system calls at the trampoline address, writes nothing else, and then
    calls exactly the functions of the init table, in the table's order and at
    their places in the image, and returns 0.  The kernel is any that maps and
    reads files; a call of an init function may stop the process, but does not
    change the init table. *)
Theorem load_shared_object_builds_image m (e : E) path headers init rela flags :
  arguments elsewhere m path headers init rela s hs fs relas →
  text elsewhere m syscall_stub stub →
  Forall init_ok fs →
  (∀ f q q', call_init f q = Ok (tt, q') →
    keeps (fun x => init ≤ x < init + 8 * Z.of_nat (length (fs ++ [0]))) (lmem q) (lmem q')) →
  ∃ m' e',
    load_shared_object syscall_stub (Z.of_nat (length stub)) call_init path headers
        (Z.of_nat (length hs)) init rela flags (Loading m e) =
      (call_all (map (fun f => u64 (place + f)) fs) ;; mret 0) (Loading m' e') ∧
    holds m' place msz (image F hs place relas) ∧
    bytes_at m' TRAMPOLINE_ADDR stub ∧ keeps elsewhere m m'.
Proof using All. exact (load_shared_object_spec m e path headers init rela flags). Qed.
End Load.

(** ** A library of one page *)
Definition demo_file : list byte := map byte_of_Z (seqZ 1 48).
Definition demo_path : list byte := map byte_of_Z [47; 109].
Section Demo.
Context (path : list byte).
Definition demo_os : loader_os Z := {|
  lo_mmap a len fixed := fun p => Ok (if fixed then a else 65536, p);
  lo_open name := fun _ => Ok (if bool_decide (name = path) then 3 else -2, 0);
  lo_lseek fd off := fun _ => Ok (off, off);
  lo_read fd n := fun p => Ok ((n, take (Z.to_nat n) (drop (Z.to_nat p) demo_file)), p + n);
  lo_close fd := fun p => Ok (0, p);
|}.
#[local] Existing Instance demo_os.
Definition demo_library : library_file Z path demo_file.
Proof.
  refine {| opened := fun e _ q => e = q |}.
  - intros e. exists 3, 0. unfold lo_open, demo_os. by rewrite bool_decide_true.
  - intros e fd p off -> Hoff. by exists off.
  - intros e fd p n -> Hp Hn Hle. by exists (p + n).
  - intros e fd p ->. by exists p.
Defined.
#[local] Existing Instance demo_library.
Definition demo_maps : maps_memory Z path demo_file 65536.
Proof. split; [intros e a len; by exists e|intros e len; by exists e]. Defined.
End Demo.
#[local] Existing Instances demo_os demo_library demo_maps.

(** Two segments, a relocated pointer and two init functions; the tables, the
    path and the stub are at 4096. *)
Definition demo_hs : list prog_header := [ProgHeader 0 0 32 64; ProgHeader 32 80 16 16].
Definition demo_words : list Z := concat (map header_words demo_hs) ++ [8; 40; 0] ++ [16; 72; 0].
Definition demo_bytes : list byte :=
  concat (map (le_bytes 8) demo_words) ++ demo_path ++ [NUL] ++ map byte_of_Z [15; 5; 195].
Definition demo_memory : memory := list_to_map (zip (seqZ 4096 (Z.of_nat (length demo_bytes))) demo_bytes).

Lemma demo_elsewhere a n : 4096 ≤ a → a + n ≤ 8192 →
  ∀ x, a ≤ x < a + n → elsewhere (place:=65536) demo_hs x.
Proof.
  intros Ha Hn x Hx. split; unfold outside, TRAMPOLINE_ADDR; [lia|].
  change (image_end demo_hs) with 4096. lia.
Qed.
Lemma demo_arguments : arguments (elsewhere (place:=65536) demo_hs) demo_memory 4208 4096 4184 4160
  demo_path demo_hs [16; 72] [(8, 40)].
Proof.
  split; [|by apply (bool_decide_unpack _); vm_compute|..];
    (split; [|by apply demo_elsewhere]).
  - apply bytes_at_read. by vm_compute.
  - apply words_at_bytes, bytes_at_read. by vm_compute.
  - apply words_at_bytes, bytes_at_read. by vm_compute.
  - apply words_at_bytes, bytes_at_read. by vm_compute.
Qed.

Lemma load_shared_object_builds_image_witness :
  ∃ m' e',
    load_shared_object (E:=Z) (Os:=demo_os demo_path) 4211 3 (fun _ => mret tt) 4208 4096 2 4184 4160 0 (Loading demo_memory 0) =
      (call_all (E:=Z) (fun _ => mret tt) [65552; 65608] ;; mret 0) (Loading m' e') ∧
    holds m' 65536 4096 (image demo_file demo_hs 65536 [(8, 40)]) ∧
    bytes_at m' TRAMPOLINE_ADDR (map byte_of_Z [15; 5; 195]) ∧
    keeps (elsewhere (place:=65536) demo_hs) demo_memory m'.
Proof.
  apply (load_shared_object_builds_image (s:=demo_path) (F:=demo_file) (place:=65536) demo_hs [16; 72] [(8, 40)])
    with (stub := map byte_of_Z [15; 5; 195]).
  - repeat constructor; by vm_compute.
  - repeat constructor; by vm_compute.
  - by vm_compute.
  - by eexists.
  - intros x Hx. unfold outside. change (image_end demo_hs) with 4096. unfold TRAMPOLINE_ADDR in Hx. lia.
  - apply Nat.leb_le. by vm_compute.
  - apply demo_arguments.
  - split; [apply bytes_at_read; by vm_compute|by apply demo_elsewhere].
  - by repeat constructor.
  - by intros f q q' [= ->].
Defined.
