(* ===== verification/FlightDeck.v ===== *)
(** * The flight deck (loader/flightdeck.cpp, shellcode.S)

    [prepare_shellcode] reads libmosingar.so, an ELF file, and lays out one
    block of bytes: the code that calls the loader, the loader's arguments and
    the loader itself.  [scout_takeoff] puts the block into a stopped process
    and runs it.  The file is read through an interface; what [new] returns
    and the compiled code are parameters. *)

From Stdlib Require Import Strings.String.
From S2P Require Import Prelude Machine Loader Ptrace.

Definition str (s : string) : list byte := list_byte_of_string s.

(** The carrier's own system calls; a negative result is an error. *)
Class file_os (E : Type) := {
  fo_open : list byte → ST E Z;
  fo_lseek : Z → Z → ST E Z;                (** SEEK_SET *)
  fo_read : Z → Z → ST E (Z * list byte);
  fo_close : Z → ST E Z;
}.

(** ** ELF structures (elf.h), decoded from their bytes *)
Definition field (off n : nat) (b : list byte) : Z := le_Z (take n (drop off b)).
Record Elf64_Phdr := Phdr { p_type : Z; p_offset : Z; p_vaddr : Z; p_filesz : Z; p_memsz : Z }.
Record Elf64_Shdr := Shdr { sh_name : Z; sh_offset : Z; sh_size : Z; sh_entsize : Z }.
Definition sizeof_Ehdr : Z := 64.
Definition sizeof_Phdr : Z := 56.
Definition sizeof_Dyn : Z := 16.
Definition sizeof_Shdr : Z := 64.
Definition sizeof_Sym : Z := 24.
Definition sizeof_Rela : Z := 24.
Definition e_phoff : list byte → Z := field 32 8.
Definition e_shoff : list byte → Z := field 40 8.
Definition e_phentsize : list byte → Z := field 54 2.
Definition e_phnum : list byte → Z := field 56 2.
Definition e_shentsize : list byte → Z := field 58 2.
Definition e_shnum : list byte → Z := field 60 2.
Definition e_shstrndx : list byte → Z := field 62 2.
Definition decode_phdr (b : list byte) : Elf64_Phdr :=
  Phdr (field 0 4 b) (field 8 8 b) (field 16 8 b) (field 32 8 b) (field 40 8 b).
Definition decode_shdr (b : list byte) : Elf64_Shdr :=
  Shdr (field 0 4 b) (field 24 8 b) (field 32 8 b) (field 56 8 b).
(** [d_tag] and [d_un.d_val]; [st_name] and [st_value]. *)
Definition decode_dyn (b : list byte) : Z * Z := (field 0 8 b, field 8 8 b).
Definition decode_sym (b : list byte) : Z * Z := (field 0 4 b, field 8 8 b).
(** [table[i]], the entries being [size] bytes. *)
Definition entry_at {A} (decode : list byte → A) (size : Z) (table : option (list byte)) (i : Z) : outcome A :=
  match table with
  | Some t => b ← read_at t (size * i) size; Ok (decode b)
  | None => Fault (Undefined "null pointer")
  end.
Definition PT_LOAD : Z := 1.
Definition PT_DYNAMIC : Z := 2.
Definition DT_RELA : Z := 7.
Definition DT_RELASZ : Z := 8.
Definition DT_RELAENT : Z := 9.
Definition DT_INIT_ARRAY : Z := 25.
Definition DT_INIT_ARRAYSZ : Z := 27.
Definition R_X86_64_64 : Z := 1.
Definition R_X86_64_GLOB_DAT : Z := 6.
Definition R_X86_64_RELATIVE : Z := 8.

(** [strcmp(name, s) == 0]; [name] is given without its NUL. *)
Fixpoint strcmp_eq (name s : list byte) : outcome bool :=
  match name, s with
  | _, [] => Fault (Undefined "read outside the buffer")
  | [], b :: _ => Ok (bool_decide (b = NUL))
  | a :: name, b :: s => if decide (a = b) then strcmp_eq name s else Ok false
  end.
(** The loops of [find_section] and [find_dynsym]. *)
Fixpoint find_name (get_name : Z → outcome (list byte)) (n : nat) (i : Z) (name : list byte) : outcome Z :=
  match n with
  | O => Ok (-1)
  | S n =>
      s ← get_name i;
      b ← strcmp_eq name s;
      if (b : bool) then Ok i else find_name get_name n (i + 1) name
  end.

(** ** class ElfParser *)
Record ElfParser := Parser {
  so_fd : Z;
  hdr_valid : bool;
  hdr : list byte;
  phdrs : option (list byte);
  dyns : option (list byte);
  dyn_num : Z;
  shdrs : option (list byte);
  shstrtab : option (list byte);
  shstrtab_bytes : Z;
  dynsym : option (list byte);
  dynsym_num : Z;
  dynstr : option (list byte);
  dynstr_bytes : Z;
}.
Definition p_set_fd v p := Parser v (hdr_valid p) (hdr p) (phdrs p) (dyns p) (dyn_num p) (shdrs p)
  (shstrtab p) (shstrtab_bytes p) (dynsym p) (dynsym_num p) (dynstr p) (dynstr_bytes p).
Definition p_set_hdr b v p := Parser (so_fd p) b v (phdrs p) (dyns p) (dyn_num p) (shdrs p)
  (shstrtab p) (shstrtab_bytes p) (dynsym p) (dynsym_num p) (dynstr p) (dynstr_bytes p).
Definition p_set_phdrs v p := Parser (so_fd p) (hdr_valid p) (hdr p) v (dyns p) (dyn_num p) (shdrs p)
  (shstrtab p) (shstrtab_bytes p) (dynsym p) (dynsym_num p) (dynstr p) (dynstr_bytes p).
Definition p_set_dyns v n p := Parser (so_fd p) (hdr_valid p) (hdr p) (phdrs p) v n (shdrs p)
  (shstrtab p) (shstrtab_bytes p) (dynsym p) (dynsym_num p) (dynstr p) (dynstr_bytes p).
Definition p_set_shdrs v p := Parser (so_fd p) (hdr_valid p) (hdr p) (phdrs p) (dyns p) (dyn_num p) v
  (shstrtab p) (shstrtab_bytes p) (dynsym p) (dynsym_num p) (dynstr p) (dynstr_bytes p).
Definition p_set_shstrtab v n p := Parser (so_fd p) (hdr_valid p) (hdr p) (phdrs p) (dyns p) (dyn_num p) (shdrs p)
  v n (dynsym p) (dynsym_num p) (dynstr p) (dynstr_bytes p).
Definition p_set_dynsym v n p := Parser (so_fd p) (hdr_valid p) (hdr p) (phdrs p) (dyns p) (dyn_num p) (shdrs p)
  (shstrtab p) (shstrtab_bytes p) v n (dynstr p) (dynstr_bytes p).
Definition p_set_dynstr v n p := Parser (so_fd p) (hdr_valid p) (hdr p) (phdrs p) (dyns p) (dyn_num p) (shdrs p)
  (shstrtab p) (shstrtab_bytes p) (dynsym p) (dynsym_num p) v n.

Record deck (E : Type) := Deck { prs : ElfParser; dkern : E }.
Arguments Deck {E}. Arguments prs {E}. Arguments dkern {E}.

Section Parser.
Context {E : Type} `{Os : file_os E}.
(** What [new char[n]] and the uninitialised members hold. *)
Context (uninit : nat → list byte) (junk : Z).
Definition P : Type → Type := ST (deck E).
Definition fsys {A} (m : ST E A) : P A := fun d =>
  match m (dkern d) with Ok (a, e) => Ok (a, Deck (prs d) e) | Fault f => Fault f end.
Definition modp (f : ElfParser → ElfParser) : P unit := modify (fun d => Deck (f (prs d)) (dkern d)).
Definition getp {A} (f : ElfParser → A) : P A := gets (fun d => f (prs d)).
Definition is_null {A} (p : option A) : bool := match p with None => true | _ => false end.
Definition new_bytes (n : Z) : list byte := uninit (Z.to_nat n).

Definition new_ElfParser : ElfParser :=
  Parser (-1) false (new_bytes sizeof_Ehdr) None None 0 None None junk None junk None junk.

(** [_EI(lseek, fd, off, SEEK_SET)]: go on, or return the error. *)
Definition seek (off : Z) (k : P Z) : P Z :=
  fd ← getp so_fd;
  r ← fsys (fo_lseek fd (s64 off));
  if r <? 0 then mret r else k.
(** [read(fd, buf, n)] into a buffer that [store] keeps. *)
Definition read_into (n : Z) (buf : list byte) : P (Z * list byte) :=
  fd ← getp so_fd;
  '(r, bytes) ← fsys (fo_read fd n);
  if r <? 0 then mret (r, buf) else
  buf ← lift (write_at buf 0 bytes);
  mret (r, buf).
(** [_EI(read, fd, buf, n); return 0]. *)
Definition read_table (n : Z) (buf : list byte) (store : list byte → ElfParser → ElfParser) : P Z :=
  modp (store buf) ;;
  '(r, buf) ← read_into n buf;
  modp (store buf) ;;
  if r <? 0 then mret r else mret 0.

Definition elf_open (so_path : list byte) : P Z :=
  fd ← getp so_fd;
  sassert (fd <? 0) "fd < 0" ;;
  fd ← fsys (fo_open so_path);
  modp (p_set_fd fd) ;;
  if fd <? 0 then mret (-1) else mret 0.
Definition parse_header : P Z :=
  p ← getp id;
  sassert (0 <=? so_fd p) "fd >= 0" ;;
  sassert (negb (hdr_valid p)) "!hdr_valid" ;;
  '(r, b) ← read_into sizeof_Ehdr (hdr p);
  modp (p_set_hdr false b) ;;
  if r <? 0 then mret r else
  modp (p_set_hdr true b) ;; mret 0.
Definition parse_prog_headers : P Z :=
  p ← getp id;
  sassert (0 <=? so_fd p) "fd >= 0" ;;
  sassert (hdr_valid p) "hdr_valid" ;;
  sassert (is_null (phdrs p)) "phdrs == nullptr" ;;
  sassert (e_phentsize (hdr p) =? sizeof_Phdr) "hdr.e_phentsize == sizeof(*phdrs)" ;;
  seek (e_phoff (hdr p)) (
  let bytes := e_phentsize (hdr p) * e_phnum (hdr p) in
  read_table bytes (new_bytes bytes) (fun b => p_set_phdrs (Some b))).
Definition get_prog_header_num (p : ElfParser) : outcome Z :=
  cassert (hdr_valid p) "hdr_valid" ;; Ok (e_phnum (hdr p)).
Definition get_prog_header : ElfParser → Z → outcome Elf64_Phdr := fun p =>
  entry_at decode_phdr sizeof_Phdr (phdrs p).

(** The loop of [parse_dyanmic]. *)
Fixpoint parse_dynamic_loop (n : nat) (i : Z) : P Z :=
  match n with
  | O => mret 0
  | S n =>
      p ← getp id;
      phdr ← lift (get_prog_header p i);
      if p_type phdr =? PT_DYNAMIC then
        let bytes := p_filesz phdr in
        let num := s32 (bytes / sizeof_Dyn) in
        modp (p_set_dyns None num) ;;
        sassert (bytes mod sizeof_Dyn =? 0) "(bytes % sizeof(Elf64_Dyn)) == 0" ;;
        let buf := new_bytes (sizeof_Dyn * num) in
        modp (p_set_dyns (Some buf) num) ;;
        seek (p_offset phdr) (read_table bytes buf (fun b => p_set_dyns (Some b) num))
      else parse_dynamic_loop n (i + 1)
  end.
Definition parse_dyanmic : P Z :=
  p ← getp id;
  sassert (0 <=? so_fd p) "fd >= 0" ;;
  sassert (negb (is_null (phdrs p))) "phdrs" ;;
  sassert (is_null (dyns p)) "dyns == nullptr" ;;
  sassert (dyn_num p =? 0) "dyn_num == 0" ;;
  n ← lift (get_prog_header_num p);
  parse_dynamic_loop (Z.to_nat n) 0.

Definition parse_sect_headers : P Z :=
  p ← getp id;
  sassert (0 <=? so_fd p) "fd >= 0" ;;
  sassert (hdr_valid p) "hdr_valid" ;;
  sassert (is_null (shdrs p)) "shdrs == nullptr" ;;
  sassert (e_shentsize (hdr p) =? sizeof_Shdr) "hdr.e_shentsize == sizeof(*shdrs)" ;;
  seek (e_shoff (hdr p)) (
  let bytes := e_shentsize (hdr p) * e_shnum (hdr p) in
  read_table bytes (new_bytes bytes) (fun b => p_set_shdrs (Some b))).
Definition get_sect_header_num (p : ElfParser) : outcome Z :=
  cassert (hdr_valid p) "hdr_valid" ;; Ok (e_shnum (hdr p)).
Definition get_sect_header : ElfParser → Z → outcome Elf64_Shdr := fun p =>
  entry_at decode_shdr sizeof_Shdr (shdrs p).

Definition parse_shstrtab : P Z :=
  p ← getp id;
  sassert (negb (is_null (shdrs p))) "shdrs" ;;
  sassert (hdr_valid p) "hdr_valid" ;;
  sassert (is_null (shstrtab p)) "shstrtab == nullptr" ;;
  shdr ← lift (get_sect_header p (e_shstrndx (hdr p)));
  let buf := new_bytes (sh_size shdr) in
  let n := u32 (sh_size shdr) in
  modp (p_set_shstrtab (Some buf) n) ;;
  seek (sh_offset shdr) (read_table (sh_size shdr) buf (fun b => p_set_shstrtab (Some b) n)).
(** The characters at a pointer into a table. *)
Definition chars (t : option (list byte)) (off : Z) : outcome (list byte) :=
  match t with Some t => Ok (drop (Z.to_nat off) t) | None => Fault (Undefined "null pointer") end.
Definition get_sect_name (p : ElfParser) (ndx : Z) : outcome (list byte) :=
  n ← get_sect_header_num p;
  cassert (ndx <? n) "ndx < get_sect_header_num()" ;;
  shdr ← get_sect_header p ndx;
  cassert (sh_name shdr <? shstrtab_bytes p) "shdr->sh_name < get_shstrtab_size()" ;;
  chars (shstrtab p) (sh_name shdr).
Definition find_section (p : ElfParser) (name : string) : outcome Z :=
  n ← get_sect_header_num p;
  find_name (get_sect_name p) (Z.to_nat n) 0 (str name).

(** The assertions of [parse_dynsym] and [parse_dynstr]. *)
Definition tables_parsed (p : ElfParser) : P unit :=
  sassert (hdr_valid p) "hdr_valid" ;;
  sassert (negb (is_null (shdrs p))) "shdrs" ;;
  sassert (negb (is_null (shstrtab p))) "shstrtab".
Definition parse_dynsym : P Z :=
  p ← getp id;
  tables_parsed p ;;
  ndx ← lift (find_section p ".dynsym");
  sassert (0 <=? ndx) "dynsym_ndx >= 0" ;;
  shdr ← lift (get_sect_header p ndx);
  sassert (sh_entsize shdr =? sizeof_Sym) "shdr->sh_entsize == sizeof(Elf64_Sym)" ;;
  let num := s32 (sh_size shdr / sh_entsize shdr) in
  let buf := new_bytes (sizeof_Sym * num) in
  modp (p_set_dynsym (Some buf) num) ;;
  seek (sh_offset shdr) (read_table (sh_size shdr) buf (fun b => p_set_dynsym (Some b) num)).
Definition get_dynsym_num (p : ElfParser) : Z := u32 (dynsym_num p).
Definition get_dynsym : ElfParser → Z → outcome (Z * Z) := fun p =>
  entry_at decode_sym sizeof_Sym (dynsym p).
Definition parse_dynstr : P Z :=
  p ← getp id;
  tables_parsed p ;;
  ndx ← lift (find_section p ".dynstr");
  sassert (0 <=? ndx) "dynstr_ndx >= 0" ;;
  shdr ← lift (get_sect_header p ndx);
  let buf := new_bytes (sh_size shdr) in
  modp (p_set_dynstr (Some buf) (dynstr_bytes p)) ;;
  seek (sh_offset shdr) (
  r ← read_table (sh_size shdr) buf (fun b => p_set_dynstr (Some b) (dynstr_bytes p));
  if r <? 0 then mret r else
  p ← getp id;
  modp (p_set_dynstr (dynstr p) (s32 (sh_size shdr))) ;;
  mret 0).
Definition get_dynsym_name (p : ElfParser) (ndx : Z) : outcome (list byte) :=
  cassert (ndx <? get_dynsym_num p) "ndx < get_dynsym_num()" ;;
  sym ← get_dynsym p ndx;
  cassert (sym.1 <? u32 (dynstr_bytes p)) "sym->st_name < get_dynstr_size()" ;;
  chars (dynstr p) sym.1.
Definition find_dynsym (p : ElfParser) (name : string) : outcome Z :=
  find_name (get_dynsym_name p) (Z.to_nat (get_dynsym_num p)) 0 (str name).

(** The eight calls at the start of [prepare_shellcode]; their results are
    ignored. *)
Definition parse_all (so_path : list byte) : P unit :=
  elf_open so_path ;; parse_header ;; parse_prog_headers ;; parse_dyanmic ;;
  parse_sect_headers ;; parse_shstrtab ;; parse_dynsym ;; parse_dynstr ;; mret tt.
(** [~ElfParser] *)
Definition elf_close : P unit :=
  fd ← getp so_fd;
  if 0 <=? fd then fsys (fo_close fd) ;; mret tt else mret tt.
End Parser.

(** ** prepare_shellcode: what it takes from the file *)
Definition libmosingar_so_path : list byte := str "../sandbox/libmosingar.so".
Definition words_bytes (ws : list Z) : list byte := concat (map (le_bytes 8) ws).

Section Prepare.
Context {E : Type} `{Os : file_os E} (uninit : nat → list byte).
Abbreviation P := (P (E:=E)).

(** The [PT_LOAD] program headers; [long] members of unsigned values. *)
Fixpoint load_headers (n : nat) (i : Z) (p : ElfParser) : outcome (list prog_header) :=
  match n with
  | O => Ok []
  | S n =>
      h ← get_prog_header p i;
      hs ← load_headers n (i + 1) p;
      Ok (if p_type h =? PT_LOAD
          then ProgHeader (s64 (p_offset h)) (s64 (p_vaddr h)) (s64 (p_filesz h)) (s64 (p_memsz h)) :: hs
          else hs)
  end.
Fixpoint mem_to_file_offset (phdrs : list prog_header) (a : Z) : outcome Z :=
  match phdrs with
  | [] => Fault (Aborted "fail to mapping the address to file offset")
  | h :: hs =>
      if (addr h <=? a) && (a <? addr h + mem_size h) then Ok (offset h + a - addr h)
      else mem_to_file_offset hs a
  end.
Definition get_dynamic : ElfParser → Z → outcome (Z * Z) := fun p =>
  entry_at decode_dyn sizeof_Dyn (dyns p).

(** A read or seek that fails makes [prepare_shellcode] return a null pointer:
    [None]. *)
Definition null_on_error {A} (r : Z) (k : P (option A)) : P (option A) :=
  if r <? 0 then mret None else k.
Definition seek_null {A} (off : Z) (k : P (option A)) : P (option A) :=
  fd ← getp so_fd;
  r ← fsys (fo_lseek fd off);
  null_on_error r k.

(** The bytes of [init_array], with the null pointer at the end; without an
    init array there are none. *)
Definition read_init_array (off byts : Z) : P (option (list byte)) :=
  sassert (byts mod 8 =? 0) "init_array_bytes % sizeof(void*) == 0" ;;
  let num := byts / 8 in
  seek_null off (
  '(r, buf) ← read_into byts (new_bytes uninit (8 * (num + 1)));
  null_on_error r (
  buf ← lift (write_at buf (8 * num) (le_bytes 8 0));
  bytes ← lift (read_at buf 0 (u32 (byts + 8)));
  mret (Some bytes))).
Fixpoint init_array_loop (n : nat) (i : Z) (phdrs : list prog_header) (off byts : Z) : P (option (list byte)) :=
  match n with
  | O => mret (Some [])
  | S n =>
      p ← getp id;
      dyn ← lift (get_dynamic p i);
      off ← (if dyn.1 =? DT_INIT_ARRAY then lift (mem_to_file_offset phdrs (s64 dyn.2)) else mret off);
      let byts := if dyn.1 =? DT_INIT_ARRAYSZ then u32 dyn.2 else byts in
      if (off =? 0) || (byts =? 0) then init_array_loop n (i + 1) phdrs off byts
      else read_init_array off byts
  end.

(** [rela_offset], [rela_entsize] and [rela_elf_bytes], which have no initial
    value. *)
Record rela_info := RelaInfo { rela_offset : option Z; rela_entsize : option Z; rela_elf_bytes : option Z }.
Definition rela_tag (phdrs : list prog_header) (dyn : Z * Z) (ri : rela_info) : outcome rela_info :=
  if dyn.1 =? DT_RELA then
    off ← mem_to_file_offset phdrs (s64 dyn.2);
    Ok (RelaInfo (Some (u32 off)) (rela_entsize ri) (rela_elf_bytes ri))
  else if dyn.1 =? DT_RELAENT then Ok (RelaInfo (rela_offset ri) (Some (u32 dyn.2)) (rela_elf_bytes ri))
  else if dyn.1 =? DT_RELASZ then Ok (RelaInfo (rela_offset ri) (rela_entsize ri) (Some (u32 dyn.2)))
  else Ok ri.
Fixpoint rela_loop (n : nat) (i : Z) (phdrs : list prog_header) (p : ElfParser) (ri : rela_info) : outcome rela_info :=
  match n with
  | O => Ok ri
  | S n => dyn ← get_dynamic p i; ri ← rela_tag phdrs dyn ri; rela_loop n (i + 1) phdrs p ri
  end.
Definition initialised (v : option Z) : outcome Z :=
  match v with Some v => Ok v | None => Fault (Undefined "uninitialised variable") end.

(** The pair of words that a relocation becomes; [ent] is an [Elf64_Rela]. *)
Definition rela_pair (p : ElfParser) (ent : list byte) : outcome (Z * Z) :=
  let r_offset := field 0 8 ent in
  let r_info := field 8 8 ent in
  let rela_type := Z.land 0xffffffff r_info in
  cassert ((rela_type =? R_X86_64_RELATIVE) || (rela_type =? R_X86_64_GLOB_DAT) || (rela_type =? R_X86_64_64))
    "rela_type == R_X86_64_RELATIVE || rela_type == R_X86_64_GLOB_DAT || rela_type == R_X86_64_64" ;;
  if rela_type =? R_X86_64_RELATIVE then Ok (r_offset, field 16 8 ent)
  else sym ← get_dynsym p (Z.shiftr r_info 32); Ok (r_offset, sym.2).
(** [rela_ent] is one variable that every round reads into. *)
Fixpoint read_relas (n : nat) (ent : list byte) : P (option (list (Z * Z))) :=
  match n with
  | O => mret (Some [])
  | S n =>
      '(r, ent) ← read_into sizeof_Rela ent;
      null_on_error r (
      p ← getp id;
      pair ← lift (rela_pair p ent);
      rest ← read_relas n ent;
      mret ((fun l => pair :: l) <$> rest))
  end.
Definition rela_words_of (l : list (Z * Z)) : list Z := concat (map (fun r => [r.1; r.2]) l).
(** The relocation that makes [global_flags] the sum of the flags and the
    address of [global_flags]. *)
Definition flags_pair (global_flags st_value : Z) : Z * Z := (st_value, u64 (global_flags + st_value)).

Record parsed := Parsed { load_hdrs : list prog_header; init_bytes : list byte; rela_tbl : list Z }.
Definition parse_library (global_flags : Z) : P (option parsed) :=
  p ← getp id;
  num ← lift (get_prog_header_num p);
  phdrs ← lift (load_headers (Z.to_nat num) 0 p);
  inits ← init_array_loop (Z.to_nat (dyn_num p)) 0 phdrs 0 0;
  match inits with None => mret None | Some inits =>
  ri ← lift (rela_loop (Z.to_nat (dyn_num p)) 0 phdrs p (RelaInfo None None None));
  entsize ← lift (initialised (rela_entsize ri));
  sassert (entsize =? sizeof_Rela) "rela_entsize == sizeof(Elf64_Rela)" ;;
  byts ← lift (initialised (rela_elf_bytes ri));
  sassert (byts mod entsize =? 0) "rela_elf_bytes % rela_entsize == 0" ;;
  off ← lift (initialised (rela_offset ri));
  seek_null off (
  relas ← read_relas (Z.to_nat (byts / entsize)) (new_bytes uninit sizeof_Rela);
  match relas with None => mret None | Some relas =>
  ndx ← lift (find_dynsym p "global_flags");
  sassert (0 <=? ndx) "global_flags_ndx >= 0" ;;
  sym ← lift (get_dynsym p ndx);
  mret (Some (Parsed phdrs inits (rela_words_of (relas ++ [flags_pair global_flags sym.2]) ++ [0])))
  end)
  end.
End Prepare.

(** ** The layout of the shellcode *)

(** [shellcode_funcall_trap]: two [nop], [call *.L1(%rip)], [int3], the
    assembler's padding and [.L1], the pointer to the entry point. *)
Definition shellcode_funcall_trap (pad : list byte) : list byte :=
  map byte_of_Z [0x90; 0x90; 0xff; 0x15; 8; 0; 0; 0; 0xcc] ++ pad ++ le_bytes 8 0.

(** [struct trapped_shellcode]; the pointers are addresses, and [code] are the
    bytes at [code_at]. *)
Record trapped_shellcode := Trapped {
  sc_size : Z;
  code : list byte;
  code_at : Z;
  base : Z;
  so_path : Z;
  headers : Z;
  header_num : Z;
  init_funcs : Z;
  rela : Z;
}.

Section Layout.
(** The compiled loader: the bytes from [loader_start] to [loader_end], and
    the offset of [load_shared_object]; and the address that [new] returns. *)
Context (uninit : nat → list byte) (trap loader : list byte) (entry_off code_addr : Z).
Definition flen (l : list byte) : Z := Z.of_nat (length l).

(** The size is computed in an [int], rounded up after each part. *)
Definition add_part (size : Z) (part : list byte) : Z := round8 (s32 (size + flen part)).
(** [memcpy(code + pos, part, n); pos += n; ROUND8(pos)]. *)
Definition put_part (part : list byte) (st : list byte * Z) : outcome (list byte * Z) :=
  c ← write_at st.1 st.2 part; Ok (c, add_part st.2 part).

Definition path_part : list byte := libmosingar_so_path ++ [NUL].
Definition headers_part (p : parsed) : list byte := words_bytes (concat (map header_words (load_hdrs p))).
Definition code_parts (p : parsed) : list (list byte) :=
  [trap; path_part; headers_part p; init_bytes p; words_bytes (rela_tbl p); loader].
Definition code_size (p : parsed) : Z := foldl add_part 0 (code_parts p).
Definition layout (p : parsed) : outcome trapped_shellcode :=
  let size := code_size p in
  s0 ← put_part trap (uninit (Z.to_nat size), 0);
  s1 ← put_part path_part s0;
  s2 ← put_part (headers_part p) s1;
  s3 ← put_part (init_bytes p) s2;
  s4 ← put_part (words_bytes (rela_tbl p)) s3;
  let entry := code_addr + s4.2 + entry_off in
  c ← write_at s4.1 s4.2 loader;
  c ← write_at c (flen trap - 8) (le_bytes 8 entry);
  Ok (Trapped size c code_addr 0 (code_addr + s0.2) (code_addr + s1.2) (Z.of_nat (length (load_hdrs p)))
        (code_addr + s2.2) (code_addr + s3.2)).

(** [trapped_shellcode::relocate] *)
Definition rptr (sc : trapped_shellcode) (begin ptr : Z) : Z := u64 (begin + (ptr - code_at sc)).
Definition relocate_shellcode (begin : Z) (sc : trapped_shellcode) : outcome trapped_shellcode :=
  cassert (base sc =? 0) "base == nullptr" ;;
  entry ← read_at (code sc) (flen trap - 8) 8;
  c ← write_at (code sc) (flen trap - 8) (le_bytes 8 (rptr sc begin (le_Z entry)));
  Ok (Trapped (sc_size sc) c (code_at sc) begin (rptr sc begin (so_path sc)) (rptr sc begin (headers sc))
        (header_num sc) (rptr sc begin (init_funcs sc)) (rptr sc begin (rela sc))).
End Layout.

(** ** prepare_shellcode and scout_takeoff *)
Section Takeoff.
Context {E : Type} `{Fs : file_os E} `{Os : ptrace_os E}.
Context (rounds : nat) (uninit : nat → list byte) (junk : Z).
Context (trap loader : list byte) (entry_off code_addr : Z).

(** [None] is a null pointer. *)
Definition prepare_shellcode (global_flags : Z) : ST E (option trapped_shellcode) := fun e =>
  '(sc, d) ← (parse_all uninit libmosingar_so_path ;;
              p ← parse_library uninit global_flags;
              sc ← match p with
                   | Some p => lift (Some <$> layout uninit trap loader entry_off code_addr p)
                   | None => mret None
                   end;
              elf_close ;;
              mret sc) (Deck (new_ElfParser uninit junk) e);
  Ok (sc, dkern d).

(** Whole pages, with room for a stack. *)
Definition request_size (size : Z) : Z := Z.land (size + 16384 + 4095) (Z.lnot 4095).
Definition takeoff_regs (saved_regs : user_regs) (at_ size : Z) : user_regs :=
  let top := at_ + request_size size in
  set_gp RBP top (set_gp RSP top (set_gp RIP at_ saved_regs)).
(** From the first use of [shellcode] on. *)
Definition inject_shellcode (pid : Z) (shellcode : trapped_shellcode) (saved_regs : user_regs) : ST E Z :=
  let size := request_size (sc_size shellcode) in
  at_ ← inject_mmap rounds uninit pid 0 size 7 0x22 (-1) 0 (Some saved_regs);
  sc ← lift (relocate_shellcode trap at_ shellcode);
  inject_run_funcall_nosave rounds uninit pid (code sc) 2
    (so_path sc) (headers sc) (header_num sc) (init_funcs sc) (rela sc) 0
    (Some (takeoff_regs saved_regs at_ (sc_size sc))) ;;
  ptrace_setregs pid saved_regs.
Definition scout_takeoff (pid global_flags : Z) : ST E Z :=
  sc ← prepare_shellcode global_flags;
  '(_, saved_regs) ← ptrace_getregs pid;
  match sc with
  | None => lift (Fault (Undefined "null pointer"))
  | Some sc => inject_shellcode pid sc saved_regs
  end.
End Takeoff.
