(* ===== verification/FlightSpec.v ===== *)
(** * The shellcode is what the loader expects

    The block that [prepare_shellcode] lays out, relocated and injected at an
    address, holds the arguments of [load_shared_object] in the form
    [LoaderSpec.arguments], for which the loader has been proved; and the flags
    of the Command Center arrive in [global_flags] of the loaded library. *)

From S2P Require Import Prelude Machine Filter Scout Loader LoaderSpec Ptrace FlightDeck.

(** ** A part of a buffer *)
Definition bytes_in (c : list byte) (q : Z) (l : list byte) : Prop :=
  0 ≤ q ∧ ∀ i b, l !! i = Some b → c !! (Z.to_nat q + i)%nat = Some b.

Lemma bytes_in_at m a c q l : bytes_at m a c → bytes_in c q l → bytes_at m (a + q) l.
Proof.
  intros Hm [Hq Hl] i b Hi. apply Hl, Hm in Hi. rewrite <-Hi. f_equal. lia.
Qed.
Lemma bytes_in_prefix c q l k : bytes_in c q l → bytes_in c q (take k l).
Proof. intros [Hq H]. split; [done|]. intros i b [Hi _]%lookup_take_Some. by apply H. Qed.
Lemma write_at_in c pos src : 0 ≤ pos → pos + flen src ≤ flen c →
  ∃ c', write_at c pos src = Ok c' ∧ flen c' = flen c ∧ bytes_in c' pos src ∧
    ∀ q l, bytes_in c q l → q + flen l ≤ pos ∨ pos + flen src ≤ q → bytes_in c' q l.
Proof.
  unfold flen. intros Hp Hn. unfold write_at. rewrite bool_decide_true by lia. eexists. split; [done|].
  assert (length (take (Z.to_nat pos) c) = Z.to_nat pos) as Ht by (rewrite length_take; lia).
  split; [rewrite !length_app, Ht, length_drop; lia|]. split.
  - split; [done|]. intros i b Hi. pose proof (lookup_lt_Some _ _ _ Hi).
    rewrite lookup_app_r by lia. rewrite Ht, lookup_app_l by lia. rewrite <-Hi. f_equal. lia.
  - intros q l [Hq Hl] Hd. split; [done|]. intros i b Hi. pose proof (lookup_lt_Some _ _ _ Hi).
    apply Hl in Hi. destruct Hd as [Hd|Hd].
    + rewrite lookup_app_l, lookup_take_lt by lia. done.
    + rewrite lookup_app_r, Ht, lookup_app_r by lia. rewrite lookup_drop. rewrite <-Hi. f_equal. lia.
Qed.
Lemma read_at_part c pos l : bytes_in c pos l → pos + flen l ≤ flen c → read_at c pos (flen l) = Ok l.
Proof.
  unfold flen. intros [Hp Hl] Hn. unfold read_at. rewrite bool_decide_true by lia. f_equal.
  apply list_eq. intros i. rewrite Nat2Z.id. destruct (decide (i < length l)%nat) as [Hi|Hi].
  - rewrite lookup_take_lt by done. rewrite lookup_drop.
    destruct (l !! i) as [b|] eqn:Hb; [by apply Hl|]. apply lookup_ge_None in Hb. lia.
  - rewrite lookup_take_ge by lia. symmetry. apply lookup_ge_None. lia.
Qed.

(** The parts that have been laid out, below [pos]. *)
Definition laid (c : list byte) (pos : Z) (done_ : list (Z * list byte)) : Prop :=
  0 ≤ pos ∧ Forall (fun d => bytes_in c d.1 d.2 ∧ d.1 + flen d.2 ≤ pos) done_.
Lemma add_part_eq pos part : 0 ≤ pos → pos + flen part < 2 ^ 31 →
  pos + flen part ≤ add_part pos part < pos + flen part + 8.
Proof.
  unfold add_part, flen. intros Hp Hn. rewrite s32_small by lia. apply round8_spec.
Qed.
Lemma put_part_spec c pos done_ part : laid c pos done_ →
  add_part pos part ≤ flen c → pos + flen part < 2 ^ 31 →
  ∃ c', put_part part (c, pos) = Ok (c', add_part pos part) ∧ flen c' = flen c ∧
    laid c' (add_part pos part) (done_ ++ [(pos, part)]).
Proof.
  intros [Hp Hd] Hn Hb. pose proof (add_part_eq pos part Hp Hb) as Ha.
  destruct (write_at_in c pos part Hp ltac:(lia)) as (c' & Hw & Hl & Hin & Hk).
  exists c'. unfold put_part. cbn [fst snd]. rewrite Hw. split; [done|]. split; [done|].
  assert (0 ≤ flen part) as Hpos by (unfold flen; lia). split; [lia|].
  apply Forall_app. split; [|repeat constructor; cbn [fst snd]; [by apply Hin|by apply Hin|apply Ha]].
  eapply list.Forall_impl; [exact Hd|]. intros [q l] [Hq Hle]. cbn [fst snd] in *. split; [apply Hk; [done|lia]|lia].
Qed.

Lemma words_bytes_app a b : words_bytes (a ++ b) = words_bytes a ++ words_bytes b.
Proof. unfold words_bytes. by rewrite map_app, concat_app. Qed.
Lemma length_words_bytes ws : length (words_bytes ws) = (8 * length ws)%nat.
Proof. induction ws as [|w ws IH]; [done|]. unfold words_bytes in *. cbn [map concat]. rewrite length_app, length_le_bytes, IH. cbn [length]. lia. Qed.

(** ** The layout *)
Section Layout.
Context (uninit : nat → list byte) (pad loader : list byte) (entry_off code_addr : Z).
Let trap := shellcode_funcall_trap pad.

(** A library as [parse_library] describes it. *)
Record describes (p : parsed) (hs : list prog_header) (fs : list Z) (relas : list (Z * Z)) : Prop := {
  de_headers : load_hdrs p = hs;
  de_inits : init_bytes p = words_bytes (fs ++ [0]);
  de_rela : rela_tbl p = rela_words_of relas ++ [0];
}.
Abbreviation parts := (code_parts trap loader).
Abbreviation total := (code_size trap loader).
Definition offset_of (p : parsed) (k : nat) : Z := foldl add_part 0 (take k (parts p)).
(** The offset of the loader's code. *)
Definition loader_at (p : parsed) : Z := offset_of p 5.

(** Each part begins where the part before it has ended, rounded up. *)
Lemma foldl_add_part ps : ∀ pos,
  Forall (fun l => flen l < 2 ^ 27) ps → 0 ≤ pos → pos + 2 ^ 28 * Z.of_nat (length ps) < 2 ^ 31 →
  pos ≤ foldl add_part pos ps ≤ pos + 2 ^ 28 * Z.of_nat (length ps).
Proof using.
  clear. induction ps as [|part ps IH]; intros pos Hps Hp Hb; cbn [foldl length] in *; [lia|].
  inversion Hps as [|? ? Hl Hls]; subst. pose proof (add_part_eq pos part Hp ltac:(lia)) as Ha.
  assert (0 ≤ flen part) by (unfold flen; lia).
  specialize (IH (add_part pos part) Hls ltac:(lia) ltac:(lia)). lia.
Qed.
Lemma offsets p k part : Forall (fun l => flen l < 2 ^ 27) (parts p) → parts p !! k = Some part →
  0 ≤ offset_of p k ∧ offset_of p k + flen part < 2 ^ 31 ∧
  offset_of p (S k) = add_part (offset_of p k) part ∧
  offset_of p k + flen part ≤ offset_of p (S k) ≤ total p.
Proof using.
  intros HF Hk. unfold offset_of, code_size. set (ps := parts p) in *.
  assert (length ps = 6%nat) as Hn by done.
  pose proof (lookup_lt_Some _ _ _ Hk) as Hlt.
  assert (take (S k) ps = take k ps ++ [part]) as Htake by by apply take_S_r.
  assert (foldl add_part 0 ps = foldl add_part (foldl add_part 0 (take (S k) ps)) (drop (S k) ps)) as Hdrop
    by (rewrite <-foldl_app; by rewrite take_drop).
  rewrite Htake, foldl_app in Hdrop |- *. cbn [foldl] in Hdrop |- *. set (o := foldl add_part 0 (take k ps)) in *.
  assert (flen part < 2 ^ 27) as Hpart by (by apply (Forall_lookup_1 _ _ _ _ HF Hk)).
  assert (0 ≤ o ≤ 2 ^ 28 * Z.of_nat (length (take k ps))) as Ho.
  { apply foldl_add_part; [by apply Forall_take|done|]. rewrite length_take. lia. }
  rewrite length_take in Ho. pose proof (add_part_eq o part ltac:(lia) ltac:(lia)) as Ha.
  assert (add_part o part ≤ foldl add_part (add_part o part) (drop (S k) ps)).
  { assert (0 ≤ flen part) by (unfold flen; lia).
    apply foldl_add_part; [by apply Forall_drop|lia|rewrite length_drop; lia]. }
  rewrite Hdrop. lia.
Qed.

Lemma lay_part p k part c done_ : Forall (fun l => flen l < 2 ^ 27) (parts p) → parts p !! k = Some part →
  flen c = total p → laid c (offset_of p k) done_ →
  ∃ c', put_part part (c, offset_of p k) = Ok (c', offset_of p (S k)) ∧ flen c' = total p ∧
    laid c' (offset_of p (S k)) (done_ ++ [(offset_of p k, part)]).
Proof using.
  intros HF Hk Hc Hd. destruct (offsets p k part HF Hk) as (H0 & H1 & H2 & H3).
  destruct (put_part_spec c _ done_ part Hd ltac:(lia) H1) as (c' & Hput & Hl & Hd').
  rewrite H2. exists c'. split; [done|]. split; [lia|done].
Qed.

(** The part at [offset_of p k], in memory. *)
Lemma part_text R m at_ c p k part : bytes_at m at_ c → (∀ x, at_ ≤ x < at_ + total p → R x) →
  Forall (fun l => flen l < 2 ^ 27) (parts p) → parts p !! k = Some part →
  bytes_in c (offset_of p k) part → text R m (at_ + offset_of p k) part.
Proof using.
  intros Hm HR HF Hk Hin. split; [by eapply bytes_in_at|]. intros x Hx. apply HR.
  destruct (offsets p k part HF Hk) as (H1 & _ & _ & H2). unfold flen in *. lia.
Qed.
Lemma text_table R m a ws : text R m a (words_bytes ws) → table R m a ws.
Proof using.
  intros [Hb HR]. split; [by apply words_at_bytes|]. intros x Hx. apply HR.
  rewrite length_words_bytes. lia.
Qed.

Hypothesis Huninit : ∀ n, length (uninit n) = n.
Hypothesis Hpad : length pad = 7%nat.

Lemma flen_trap : flen trap = 24.
Proof using Hpad. unfold flen, trap, shellcode_funcall_trap. rewrite !length_app, Hpad. done. Qed.
Lemma total_ge p : Forall (fun l => flen l < 2 ^ 27) (parts p) → 24 ≤ total p.
Proof using Hpad.
  intros HF. destruct (offsets p 0 trap HF eq_refl) as (H0 & _ & _ & H1). rewrite flen_trap in H1. lia.
Qed.
Lemma flen_take16 : flen (take 16 trap) = 16.
Proof using Hpad. pose proof flen_trap as H. unfold flen in *. rewrite length_take. lia. Qed.

(** All but the pointer at the end of [shellcode_funcall_trap]. *)
Definition has_parts (p : parsed) (c : list byte) : Prop :=
  bytes_in c 0 (take 16 trap) ∧
  ∀ k part, (0 < k)%nat → parts p !! k = Some part → bytes_in c (offset_of p k) part.
(** A shellcode for [p] whose pointers are for code at [b]. *)
Record laid_out (p : parsed) (b : Z) (sc : trapped_shellcode) : Prop := {
  lo_size : sc_size sc = total p;
  lo_length : flen (code sc) = total p;
  lo_path : so_path sc = b + offset_of p 1;
  lo_headers : headers sc = b + offset_of p 2;
  lo_num : header_num sc = Z.of_nat (length (load_hdrs p));
  lo_init : init_funcs sc = b + offset_of p 3;
  lo_rela : FlightDeck.rela sc = b + offset_of p 4;
  lo_entry : bytes_in (code sc) 16 (le_bytes 8 (b + loader_at p + entry_off));
  lo_parts : has_parts p (code sc);
}.
Lemma part_after p k part : Forall (fun l => flen l < 2 ^ 27) (parts p) → (0 < k)%nat →
  parts p !! k = Some part → 24 ≤ offset_of p k.
Proof using Hpad.
  intros HF Hk. revert part. induction k as [|[|k] IH]; intros part Hp; [lia| |].
  - destruct (offsets p 0 trap HF eq_refl) as (H0 & _ & _ & H1). rewrite flen_trap in H1. lia.
  - destruct (parts p !! S k) as [q|] eqn:Hq; [|apply lookup_lt_Some in Hp; apply lookup_ge_None in Hq; lia].
    specialize (IH ltac:(lia) q eq_refl). destruct (offsets p (S k) q HF Hq) as (_ & _ & _ & H1).
    assert (0 ≤ flen q) by (unfold flen; lia). lia.
Qed.
Lemma entry_write p c v : Forall (fun l => flen l < 2 ^ 27) (parts p) → 24 ≤ flen c → has_parts p c →
  ∃ c', write_at c (flen trap - 8) (le_bytes 8 v) = Ok c' ∧ flen c' = flen c ∧
    bytes_in c' 16 (le_bytes 8 v) ∧ has_parts p c'.
Proof using Hpad.
  intros HF Hc [Hs Hp]. rewrite flen_trap. change (24 - 8) with 16.
  assert (flen (le_bytes 8 v) = 8) as H8 by (unfold flen; by rewrite length_le_bytes).
  destruct (write_at_in c 16 (le_bytes 8 v) ltac:(done) ltac:(lia)) as (c' & Hw & Hl & Hin & Hk).
  exists c'. split; [done|]. split; [done|]. split; [done|]. split.
  - apply Hk; [done|]. rewrite flen_take16. lia.
  - intros k part H0 Hpk. apply Hk; [by apply Hp|]. pose proof (part_after p k part HF H0 Hpk). lia.
Qed.

Lemma layout_spec p : Forall (fun l => flen l < 2 ^ 27) (parts p) →
  ∃ sc, layout uninit trap loader entry_off code_addr p = Ok sc ∧
    code_at sc = code_addr ∧ base sc = 0 ∧ laid_out p code_addr sc.
Proof using Huninit Hpad.
  intros HF. destruct (offsets p 0 trap HF eq_refl) as (Hp0 & _ & _ & Htot). rewrite flen_trap in Htot.
  assert (flen (uninit (Z.to_nat (total p))) = total p) as Hl0 by (unfold flen in *; rewrite Huninit; lia).
  assert (laid (uninit (Z.to_nat (total p))) (offset_of p 0) []) as Hd0 by (by split).
  destruct (lay_part p 0 trap _ _ HF eq_refl Hl0 Hd0) as (c1 & H1 & Hl1 & Hd1).
  destruct (lay_part p 1 path_part _ _ HF eq_refl Hl1 Hd1) as (c2 & H2 & Hl2 & Hd2).
  destruct (lay_part p 2 (headers_part p) _ _ HF eq_refl Hl2 Hd2) as (c3 & H3 & Hl3 & Hd3).
  destruct (lay_part p 3 (init_bytes p) _ _ HF eq_refl Hl3 Hd3) as (c4 & H4 & Hl4 & Hd4).
  destruct (lay_part p 4 (words_bytes (rela_tbl p)) _ _ HF eq_refl Hl4 Hd4) as (c5 & H5 & Hl5 & [_ Hd5]).
  unfold layout. rewrite (outcome_bind_step _ _ _ H1), (outcome_bind_step _ _ _ H2),
    (outcome_bind_step _ _ _ H3), (outcome_bind_step _ _ _ H4), (outcome_bind_step _ _ _ H5). cbn [fst snd].
  destruct (offsets p 5 loader HF eq_refl) as (Hp5 & _ & _ & Hle5).
  destruct (write_at_in c5 (offset_of p 5) loader Hp5 ltac:(lia)) as (c6 & H6 & Hl6 & Hin6 & Hk6).
  rewrite (outcome_bind_step _ _ _ H6). cbn [app] in Hd5. rewrite !list.Forall_cons in Hd5. cbn [fst snd] in Hd5.
  destruct Hd5 as (D0 & D1 & D2 & D3 & D4 & _).
  assert (has_parts p c6) as Hparts.
  { split; [apply bytes_in_prefix, Hk6; [apply D0|left; apply D0]|].
    intros k part Hk Hp. destruct k as [|[|[|[|[|[|k]]]]]]; [lia|..|done]; injection Hp as <-; [..|exact Hin6];
      (apply Hk6; [first [apply D1|apply D2|apply D3|apply D4]|left; first [apply D1|apply D2|apply D3|apply D4]]). }
  destruct (entry_write p c6 (code_addr + offset_of p 5 + entry_off) HF ltac:(lia) Hparts)
    as (c7 & Hw7 & Hl7 & Hin7 & [Hs7 Hp7]).
  rewrite (outcome_bind_step _ _ _ Hw7). eexists. split; [reflexivity|]. split; [done|]. split; [done|].
  split; cbn [sc_size code so_path headers header_num init_funcs FlightDeck.rela]; done || lia.
Qed.

(** [relocate] moves every pointer to the new place. *)
Lemma relocate_shellcode_spec p at_ sc : Forall (fun l => flen l < 2 ^ 27) (parts p) →
  0 ≤ code_addr ∧ code_addr + total p < 2 ^ 64 → 0 ≤ at_ ∧ at_ + total p < 2 ^ 64 →
  0 ≤ entry_off ≤ flen loader → code_at sc = code_addr → base sc = 0 → laid_out p code_addr sc →
  ∃ sc', relocate_shellcode trap at_ sc = Ok sc' ∧ laid_out p at_ sc'.
Proof using Hpad.
  intros HF Hca Hat Hentry Hcode Hbase [Hsz Hlen Hpath Hhd Hnum Hin Hre He Hparts].
  assert (∀ x, 0 ≤ x ≤ total p → rptr sc at_ (code_addr + x) = at_ + x) as Hptr.
  { intros x Hx. unfold rptr. rewrite Hcode, u64_small by lia. lia. }
  assert (∀ k part, parts p !! k = Some part → 0 ≤ offset_of p k ∧ offset_of p k + flen part ≤ total p) as Hoff.
  { intros k part Hk. destruct (offsets p k part HF Hk) as (H1 & _ & _ & H2). lia. }
  assert (0 ≤ loader_at p ∧ loader_at p + flen loader ≤ total p) as H5 by exact (Hoff 5%nat loader eq_refl).
  destruct (Hoff 0%nat trap eq_refl) as [H0 H0']. rewrite flen_trap in H0'.
  assert (∀ k part, parts p !! k = Some part → rptr sc at_ (code_addr + offset_of p k) = at_ + offset_of p k) as Hk.
  { intros k part Hk. apply Hptr. destruct (Hoff k part Hk). unfold flen in *. lia. }
  pose proof (read_at_part _ _ _ He) as Hrd.
  replace (flen (le_bytes 8 (code_addr + loader_at p + entry_off))) with 8 in Hrd
    by (unfold flen; by rewrite length_le_bytes).
  destruct (entry_write p (code sc) (at_ + loader_at p + entry_off) HF ltac:(lia) Hparts)
    as (c & Hw & Hl & Hin' & Hp').
  unfold relocate_shellcode. rewrite Hbase, flen_trap. cbn [Z.eqb cassert].
  rewrite (outcome_bind_step _ (Ok tt) tt eq_refl). change (24 - 8) with 16. rewrite (outcome_bind_step _ _ _ (Hrd ltac:(lia))), le_Z_le_bytes.
  change (_ mod 256 ^ Z.of_nat 8) with (u64 (code_addr + loader_at p + entry_off)).
  rewrite u64_small, <-Z.add_assoc, Hptr, Z.add_assoc by lia. rewrite flen_trap in Hw. change (24 - 8) with 16 in Hw.
  rewrite (outcome_bind_step _ _ _ Hw). eexists. split; [reflexivity|].
  split; cbn [sc_size code so_path headers header_num init_funcs FlightDeck.rela]; try done; [lia|..].
  - rewrite Hpath. by apply (Hk 1%nat path_part).
  - rewrite Hhd. by apply (Hk 2%nat (headers_part p)).
  - rewrite Hin. by apply (Hk 3%nat (init_bytes p)).
  - rewrite Hre. by apply (Hk 4%nat (words_bytes (rela_tbl p))).
Qed.

(** What the shellcode is for the process: the loader's arguments, and the code
    that calls the loader. *)
Record ready (R : Z → Prop) (m : memory) (at_ : Z) (p : parsed) (sc : trapped_shellcode)
    (hs : list prog_header) (fs : list Z) (relas : list (Z * Z)) : Prop := {
  rd_arguments : arguments R m (so_path sc) (headers sc) (init_funcs sc) (FlightDeck.rela sc)
    libmosingar_so_path hs fs relas;
  rd_num : header_num sc = Z.of_nat (length hs);
  rd_call : text R m at_ (take 16 trap);
  rd_entry : word_at m (at_ + 16) (at_ + loader_at p + entry_off);
  rd_loader : text R m (at_ + loader_at p) loader;
}.
Lemma laid_out_ready p sc at_ hs fs relas R m : Forall (fun l => flen l < 2 ^ 27) (parts p) →
  describes p hs fs relas → laid_out p at_ sc → bytes_at m at_ (code sc) →
  (∀ x, at_ ≤ x < at_ + total p → R x) → ready R m at_ p sc hs fs relas.
Proof using Hpad.
  intros HF [Hhs Hfs Hrel] [Hsz Hlen Hpath Hhd Hnum Hin Hre He [Hs Hparts]] Hm HR.
  assert (∀ k part, (0 < k)%nat → parts p !! k = Some part → text R m (at_ + offset_of p k) part) as Hpart.
  { intros k part H0 Hk. eapply part_text; [exact Hm|exact HR|exact HF|exact Hk|by apply Hparts]. }
  split; [split| | | |].
  - rewrite Hpath. by apply (Hpart 1%nat path_part); [lia|].
  - apply (bool_decide_unpack _). by vm_compute.
  - rewrite Hhd, <-Hhs. apply text_table. by apply (Hpart 2%nat (headers_part p)); [lia|].
  - rewrite Hin. apply text_table. rewrite <-Hfs. by apply (Hpart 3%nat (init_bytes p)); [lia|].
  - rewrite Hre. apply text_table. change (rela_words relas) with (rela_words_of relas).
    rewrite <-Hrel. by apply (Hpart 4%nat (words_bytes (rela_tbl p))); [lia|].
  - by rewrite Hnum, Hhs.
  - replace at_ with (at_ + 0) by lia. split; [by eapply bytes_in_at|].
    destruct (offsets p 0 trap HF eq_refl) as (H0 & _ & _ & H1). rewrite flen_trap in H1.
    pose proof flen_take16 as H16. unfold flen in H16. rewrite H16. intros x Hx. apply HR. lia.
  - eapply bytes_in_at; [exact Hm|exact He].
  - by apply (Hpart 5%nat loader); [lia|].
Qed.
End Layout.

(** ** The injection *)
Lemma total_words trap loader p : code_size trap loader p mod 8 = 0.
Proof.
  unfold code_size, code_parts. cbn [foldl]. unfold add_part at 1. apply round8_spec.
Qed.
(** [request_size] has room for the shellcode and for a stack. *)
Lemma request_size_room n : n + 16384 ≤ request_size n.
Proof.
  unfold request_size. change 4095 with (2 ^ 12 - 1). rewrite land_lnot_pow2 by lia.
  pose proof (Z.div_mod (n + 16384 + (2 ^ 12 - 1)) (2 ^ 12) ltac:(lia)).
  pose proof (Z.mod_pos_bound (n + 16384 + (2 ^ 12 - 1)) (2 ^ 12) ltac:(lia)). lia.
Qed.

Section Injection.
Context {E : Type} `{Os : ptrace_os E} {pid : Z} `{!tracee E pid, !syscall_tracee E pid}.
Context (rounds : nat) (uninit : nat → list byte).
Hypothesis Huninit : ∀ n, length (uninit n) = n.

(** Writing the code and setting the registers of the call. *)
Lemma funcall_prepared (c : list byte) entry a1 a2 a3 a4 a5 a6 u e :
  len c mod 8 = 0 → mapped (t_mem e) (gp u RIP) (len c) →
  ∃ e', inject_run_funcall_nosave (S rounds) uninit pid c entry a1 a2 a3 a4 a5 a6 (Some u) e =
      finish_funcall_nosave (S rounds) pid (Some u) u e' ∧
    t_regs e' = funcall_regs entry a1 a2 a3 a4 a5 a6 u ∧
    bytes_at (t_mem e') (gp u RIP) c ∧ same_outside (gp u RIP) (len c) (t_mem e) (t_mem e').
Proof using Huninit.
  intros H8 Hm. unfold inject_run_funcall_nosave, with_regs, run_funcall_nosave_with. cbv zeta.
  rewrite (round8_id _ H8).
  assert (code_buffer uninit c (len c) = Ok c) as Hbuf.
  { destruct (code_buffer_spec uninit Huninit (length c) c ltac:(lia)) as (tail & Hb & Hl).
    unfold len. rewrite Hb. rewrite length_app in Hl. destruct tail; [by rewrite app_nil_r|simpl in Hl; lia]. }
  rewrite (ST_bind_step _ _ e c e) by (unfold lift; by rewrite Hbuf).
  destruct (inject_text_spec (gp u RIP) c (Z.to_nat (len c / 8)) e) as (e1 & H1 & Hb1 & Ho1 & Hr1); [|done|].
  { pose proof (Z.div_mod (len c) 8 ltac:(lia)) as Hd. unfold len in *.
    pose proof (Z.div_pos (Z.of_nat (length c)) 8 ltac:(lia) ltac:(lia)). lia. }
  rewrite (checked_ok _ _ _ _ H1).
  destruct (setregs_law e1 (funcall_regs entry a1 a2 a3 a4 a5 a6 u)) as (e2 & H2 & Hr2 & Hm2).
  rewrite (checked_ok _ _ _ _ H2). exists e2. rewrite Hm2. done.
Qed.

Context (pad loader : list byte) (entry_off code_addr : Z).
Hypothesis Hpid : 0 ≤ pid.
Hypothesis Hpad : length pad = 7%nat.
Let trap := shellcode_funcall_trap pad.
Abbreviation total := (code_size trap loader).

(** The registers with which the loader is called: its six arguments, the
    instruction pointer behind the two [nop]s and a fresh stack. *)
Record loader_call (sc : trapped_shellcode) (at_ top : Z) (u : user_regs) : Prop := {
  lc_rip : gp u RIP = u64 (at_ + 2);
  lc_rsp : gp u RSP = u64 top;
  lc_rdi : gp u RDI = u64 (so_path sc);
  lc_rsi : gp u RSI = u64 (headers sc);
  lc_rdx : gp u RDX = u64 (header_num sc);
  lc_rcx : gp u RCX = u64 (init_funcs sc);
  lc_r8 : gp u R8 = u64 (FlightDeck.rela sc);
  lc_r9 : gp u R9 = 0;
}.
Lemma loader_call_regs sc u at_ size : 0 ≤ at_ < 2 ^ 64 →
  loader_call sc at_ (at_ + request_size size)
    (funcall_regs 2 (so_path sc) (headers sc) (header_num sc) (init_funcs sc) (FlightDeck.rela sc) 0
      (takeoff_regs u at_ size)).
Proof using.
  intros H. split; try reflexivity. cbn. rewrite (u64_small at_) by done. reflexivity.
Qed.

Context (p : parsed) (hs : list prog_header) (fs : list Z) (relas : list (Z * Z)) (saved : user_regs) (at_ : Z).
Abbreviation mmap_regs := (call_regs NR_mmap 0 (request_size (total p)) 7 0x22 (-1) 0 saved).
Hypothesis Hsmall : Forall (fun l => flen l < 2 ^ 27) (code_parts trap loader p).
Hypothesis Hdescr : describes p hs fs relas.
Hypothesis Hcode_addr : 0 ≤ code_addr ∧ code_addr + total p < 2 ^ 64.
Hypothesis Hat : 0 ≤ at_ ∧ at_ + request_size (total p) < 2 ^ 63.
Hypothesis Hentry : 0 ≤ entry_off ≤ flen loader.
(** The kernel maps zeroed memory at [at_], apart from the program's code. *)
Hypothesis Hmmap : ∀ m, (answer (gp mmap_regs) m).1 = at_ ∧
  (answer (gp mmap_regs) m).2 = map_zeros (Z.to_nat (request_size (total p))) at_ m.
Hypothesis Hapart : gp saved RIP + 8 ≤ at_ ∨ at_ + total p ≤ gp saved RIP.

Lemma mmap_injected e old : bytes_at (t_mem e) (gp saved RIP) old → length old = 8%nat →
  ∃ e', inject_mmap (S rounds) uninit pid 0 (request_size (total p)) 7 0x22 (-1) 0 (Some saved) e = Ok (at_, e') ∧
    bytes_at (t_mem e') (gp saved RIP) old ∧ mapped (t_mem e') at_ (total p).
Proof using All.
  intros Hcode Hl. pose proof (request_size_room (total p)) as Hroom.
  pose proof (total_ge pad loader Hpad p Hsmall) as Htot. fold trap in Htot.
  destruct (run_syscall_with_spec rounds uninit Huninit Hpid NR_mmap 0 (request_size (total p)) 7 0x22 (-1) 0
    (Some saved) saved old e Hcode Hl) as (r & e' & Hrun & [Hc (m & _ & _ & Hr & Hm)] & _).
  { intros m Hm. destruct (Hmmap m) as [_ ->]. by apply map_zeros_keeps. }
  destruct (Hmmap m) as [Ha Hz]. rewrite Ha, s64_small in Hr by lia. subst r.
  exists e'. split; [unfold inject_mmap, inject_run_syscall; exact Hrun|]. split; [done|]. intros x Hx.
  destruct (decide (gp saved RIP ≤ x < gp saved RIP + 8)) as [Hin|Hout].
  - apply (bytes_mapped _ _ old 8 Hc Hl). lia.
  - rewrite (Hm x Hout), Hz. refine (map_zeros_mapped _ _ _ at_ (total p) _ _ x Hx); lia.
Qed.

(** C27: [scout_takeoff] after [prepare_shellcode]: the stopped process gets
    memory for the shellcode and a stack of at least 16 KiB, the shellcode
    relocated to that memory, and the registers of a call of the loader with
    the addresses of the arguments there; the code at its instruction pointer
    is what it was.  Then the process runs, and after that its registers are
    set to those it had. *)
Theorem shellcode_injected e old :
  bytes_at (t_mem e) (gp saved RIP) old → length old = 8%nat →
  ∃ sc sc' e',
    layout uninit trap loader entry_off code_addr p = Ok sc ∧
    inject_shellcode (S rounds) uninit trap pid sc saved e =
      (finish_funcall_nosave (S rounds) pid (Some (takeoff_regs saved at_ (total p))) (takeoff_regs saved at_ (total p)) ;;
       ptrace_setregs pid saved) e' ∧
    loader_call sc' at_ (at_ + request_size (total p)) (t_regs e') ∧
    total p + 16384 ≤ request_size (total p) ∧
    ready pad loader entry_off (fun x => at_ ≤ x < at_ + total p) (t_mem e') at_ p sc' hs fs relas ∧
    bytes_at (t_mem e') (gp saved RIP) old.
Proof using All.
  intros Hcode Hl. pose proof (request_size_room (total p)) as Hroom.
  pose proof (total_ge pad loader Hpad p Hsmall) as Htot. fold trap in Htot.
  destruct (layout_spec uninit pad loader entry_off code_addr Huninit Hpad p Hsmall)
    as (sc & Hlay & Hca & Hb & Hlaid). exists sc.
  destruct (mmap_injected e old Hcode Hl) as (e1 & H1 & Hc1 & Hm1).
  assert (0 ≤ at_ ∧ at_ + total p < 2 ^ 64) as Hat' by lia.
  destruct (relocate_shellcode_spec pad loader entry_off code_addr Hpad p at_ sc Hsmall Hcode_addr Hat'
    Hentry Hca Hb Hlaid) as (sc' & Hrel & Hlaid'). fold trap in Hrel. exists sc'.
  assert (sc_size sc = total p) as Hsz by exact (lo_size _ _ _ _ _ _ Hlaid).
  assert (sc_size sc' = total p) as Hsz' by exact (lo_size _ _ _ _ _ _ Hlaid').
  assert (len (code sc') = total p) as Hlen by exact (lo_length _ _ _ _ _ _ Hlaid').
  assert (gp (takeoff_regs saved at_ (total p)) RIP = at_) as Hrip by (apply u64_small; lia).
  unfold inject_shellcode. cbv zeta. rewrite Hsz, (ST_bind_step _ _ _ _ _ H1).
  rewrite (ST_bind_step _ _ e1 sc' e1) by (unfold lift; by rewrite Hrel). rewrite Hsz'.
  destruct (funcall_prepared (code sc') 2 (so_path sc') (headers sc') (header_num sc')
    (init_funcs sc') (FlightDeck.rela sc') 0 (takeoff_regs saved at_ (total p)) e1) as (e2 & H2 & Hr2 & Hb2 & Ho2).
  { rewrite Hlen. apply total_words. }
  { by rewrite Hlen, Hrip. }
  rewrite Hrip, Hlen in *. exists e2. split; [exact Hlay|]. split; [unfold mbind, ST_bind; by rewrite H2|].
  split; [rewrite Hr2; apply loader_call_regs; lia|]. split; [exact Hroom|]. split.
  - by apply (laid_out_ready pad loader entry_off Hpad p sc' at_ hs fs relas).
  - eapply bytes_at_same; [exact Ho2|exact Hc1|]. rewrite Hl. lia.
Qed.
End Injection.

(** ** The flags arrive *)
Lemma flags_value place v flags : u64 (place + u64 (flags + v)) = u64 (place + v + flags).
Proof. unfold u64. rewrite Zplus_mod_idemp_r. f_equal. lia. Qed.
Lemma flags_in_image F hs place msz relas v flags m : rela_ok msz (flags_pair flags v) →
  holds m place msz (image F hs place (relas ++ [flags_pair flags v])) →
  load64 (place + v) m = Ok (u64 (place + v + flags)).
Proof.
  intros [Hv Hmsz] Hh. cbn [flags_pair fst] in *. rewrite <-flags_value.
  assert (word_at m (place + v) (u64 (place + u64 (flags + v)))) as Hw.
  { intros i b Hi. pose proof (lookup_lt_Some _ _ _ Hi) as Hlt. rewrite length_le_bytes in Hlt.
    replace (place + v + Z.of_nat i) with (place + (v + Z.of_nat i)) by lia. rewrite Hh by lia.
    unfold image. rewrite foldl_app. cbn [foldl]. unfold relocated at 1. cbn [flags_pair fst snd].
    rewrite bool_decide_true by lia. replace (Z.to_nat (v + Z.of_nat i - v)) with i by lia. by rewrite Hi. }
  rewrite (load64_word _ _ _ Hw). f_equal. apply u64_small, u64_range.
Qed.
Lemma flags_recovered a flags : u64 (u64 (a + flags) - a) = u64 (u64 flags - 0).
Proof. unfold u64. rewrite Zminus_mod_idemp_l, Z.sub_0_r, Z.mod_mod by lia. f_equal. lia. Qed.
Lemma bootstrap_flags {E2} `{!scout_os E2} st vt a flags init (q : process E2) :
  global_flags q = u64 (a + flags) →
  bootstrap st vt a init q = bootstrap st vt 0 init (set_flags (u64 flags) q).
Proof.
  intros Hq. unfold bootstrap. etransitivity; [apply (ST_bind_step _ _ _ tt _ eq_refl)|].
  symmetry. etransitivity; [apply (ST_bind_step _ _ _ tt _ eq_refl)|].
  cbn [set_flags global_flags ctx mem sct_sock td_syscall_trampo td_vfork_trampo bridge kern].
  by rewrite Hq, flags_recovered.
Qed.

(** *** From the shellcode to the scout *)
Section Loaded.
Context {E : Type} `{Os : loader_os E} {F : list byte} {place : Z}
  `{!library_file E libmosingar_so_path F} `{!maps_memory E libmosingar_so_path F place}.
Context (hs : list prog_header) (fs : list Z) (relas : list (Z * Z)) (flags v : Z).
Let msz := image_end hs.
Let all_relas := relas ++ [flags_pair flags v].
Context (pad loader : list byte) (entry_off : Z).
Context (syscall_stub : Z) (stub : list byte) (call_init : Z → Loader.M (E:=E) unit).
Hypothesis Hheaders : Forall (header_ok F) hs.
Hypothesis Hrelas : Forall (rela_ok msz) all_relas.
Hypothesis Hplace : 0 ≤ place ∧ place + msz < 2 ^ 64.
Hypothesis Hfirst : ∃ h, hs !! 0%nat = Some h ∧ offset h = 0 ∧ addr h = 0.
Hypothesis Htrampo : ∀ x, TRAMPOLINE_ADDR ≤ x < TRAMPOLINE_ADDR + 4096 → outside place msz x.
Hypothesis Hstub : (length stub ≤ 4096)%nat.

(** C26: the whole take-off.  When the loader is called on a shellcode that has
    been laid out for a library and for the flags of the Command Center, it
    builds the library's image and calls its init functions; [global_flags] of
    the library, at [v], is then the flags plus its own address, and the
    constructor of [bootstrap] is the one that starts with the flags
    themselves. *)
Theorem flags_reach_scout m (e : E) at_ p sc :
  ready pad loader entry_off (elsewhere (place:=place) hs) m at_ p sc hs fs all_relas →
  text (elsewhere (place:=place) hs) m syscall_stub stub → Forall init_ok fs →
  (∀ f q q', call_init f q = Ok (tt, q') →
    keeps (fun x => init_funcs sc ≤ x < init_funcs sc + 8 * Z.of_nat (length (fs ++ [0]))) (lmem q) (lmem q')) →
  ∃ m' e',
    load_shared_object syscall_stub (Z.of_nat (length stub)) call_init (so_path sc) (headers sc)
        (header_num sc) (init_funcs sc) (FlightDeck.rela sc) 0 (Loading m e) =
      (call_all call_init (map (fun f => u64 (place + f)) fs) ;; mret 0) (Loading m' e') ∧
    holds m' place msz (image F hs place all_relas) ∧
    load64 (place + v) m' = Ok (u64 (place + v + flags)) ∧
    ∀ E2 (Os2 : scout_os E2) st vt tinit (q : process E2), global_flags q = u64 (place + v + flags) →
      bootstrap st vt (place + v) tinit q = bootstrap st vt 0 tinit (set_flags (u64 flags) q).
Proof using All.
  intros [Hargs Hnum _ _ _] Hst Hfs Hcalls. rewrite Hnum.
  destruct (load_shared_object_spec hs fs all_relas Hheaders Hrelas Hplace syscall_stub stub call_init
    Hfirst Htrampo Hstub m e _ _ _ _ 0 Hargs Hst Hfs Hcalls) as (m' & e' & Hrun & Hh & _ & _).
  exists m', e'. split; [exact Hrun|]. split; [exact Hh|]. split.
  - eapply flags_in_image; [|exact Hh]. apply Forall_app in Hrelas as [_ Hl]. by inversion Hl.
  - intros. by apply bootstrap_flags.
Qed.
End Loaded.

(** ** Witnesses: the library of [LoaderSpec] in a small process *)
Definition demo_pad : list byte := replicate 7 (byte_of_Z 0x90).
Definition demo_loader : list byte := map byte_of_Z [0x55; 0x0f; 0x05; 0x5d; 0xc3].
Definition demo_relas : list (Z * Z) := [(8, 40)] ++ [flags_pair 3 48].
Definition demo_parsed : parsed :=
  Parsed demo_hs (words_bytes ([16; 72] ++ [0])) (rela_words_of demo_relas ++ [0]).
Definition demo_fill (n : nat) : list byte := replicate n NUL.
Definition demo_trap : list byte := shellcode_funcall_trap demo_pad.
Lemma demo_fill_length n : length (demo_fill n) = n.
Proof. apply length_replicate. Qed.
Lemma demo_small : Forall (fun l => flen l < 2 ^ 27) (code_parts demo_trap demo_loader demo_parsed).
Proof. repeat constructor; by vm_compute. Qed.
Lemma demo_describes : describes demo_parsed demo_hs [16; 72] demo_relas.
Proof. by split. Qed.

(** A process in which [mmap] returns 0x10000 and every other call 0. *)
Definition demo_answer (g : gregs) (m : memory) : Z * memory :=
  if g RAX =? NR_mmap then (0x10000, map_zeros (Z.to_nat (g RSI)) 0x10000 m) else (0, m).
Definition mapping_tracee : Type := user_regs * memory.
#[local] Instance mapping_ptrace : ptrace_os mapping_tracee := {
  pt_poke _ a v := fun e =>
    match store64 a v e.2 with Ok m => Ok (0, (e.1, m)) | Fault _ => Ok (-1, e) end;
  pt_peek _ a := fun e =>
    match load64 a e.2 with Ok v => Ok ((v, 0), e) | Fault _ => Ok ((-1, 5), e) end;
  pt_attach _ := mret 0; pt_interrupt _ := mret 0; pt_singlestep _ := mret 0;
  pt_cont _ := fun e =>
    Ok (0, (set_gp RAX (demo_answer (gp e.1) e.2).1 e.1, (demo_answer (gp e.1) e.2).2));
  pt_getregs _ := fun e => Ok ((0, e.1), e);
  pt_setregs _ u := fun e => Ok (0, (u, e.2));
  pt_waitpid pid := mret (pid, trap_status);
}.
#[local] Program Instance mapping_is_tracee pid : tracee mapping_tracee pid := { t_regs e := e.1; t_mem e := e.2 }.
Next Obligation.
  intros pid e a v Hv Hw. cbn -[load64]. rewrite (load64_word _ _ _ Hw). by rewrite u64_small.
Qed.
Next Obligation. intros pid e a v m Hm. cbn -[store64]. rewrite Hm. by eexists. Qed.
Next Obligation. done. Qed.
Next Obligation. intros. by eexists. Qed.
#[local] Program Instance mapping_runs pid : syscall_tracee mapping_tracee pid := { answer := demo_answer }.
Next Obligation. intros pid e _. eexists _, _. split_and!; done. Qed.

Lemma shellcode_injected_witness :
  ∃ sc sc' e',
    layout demo_fill demo_trap demo_loader 0 0x555000 demo_parsed = Ok sc ∧
    inject_shellcode 1 demo_fill demo_trap 7 sc Ptrace.demo_user_regs (Ptrace.demo_user_regs, Ptrace.demo_memory) =
      (finish_funcall_nosave 1 7 (Some (takeoff_regs Ptrace.demo_user_regs 0x10000 192))
         (takeoff_regs Ptrace.demo_user_regs 0x10000 192) ;;
       ptrace_setregs 7 Ptrace.demo_user_regs) e' ∧
    loader_call sc' 0x10000 (0x10000 + 20480) e'.1 ∧ 192 + 16384 ≤ 20480 ∧
    ready demo_pad demo_loader 0 (fun x => 0x10000 ≤ x < 0x10000 + 192) e'.2 0x10000 demo_parsed sc' demo_hs [16; 72] demo_relas ∧
    bytes_at e'.2 0x1000 Ptrace.demo_text.
Proof.
  change 20480 with (request_size (code_size demo_trap demo_loader demo_parsed)).
  change 192 with (code_size demo_trap demo_loader demo_parsed).
  refine (shellcode_injected (pid := 7) 0 demo_fill demo_fill_length demo_pad demo_loader 0 0x555000 _ _
    demo_parsed demo_hs [16; 72] demo_relas Ptrace.demo_user_regs 0x10000 demo_small demo_describes _ _ _ _ _
    (Ptrace.demo_user_regs, Ptrace.demo_memory) Ptrace.demo_text _ _).
  - done.
  - done.
  - by vm_compute.
  - by vm_compute.
  - by vm_compute.
  - by split.
  - left. by vm_compute.
  - exact Ptrace.demo_memory_text.
  - done.
Defined.

(** The shellcode at 0x1000, and the library's image at 0x10000. *)
Fixpoint code_memory (at_ : Z) (c : list byte) : memory :=
  match c with [] => ∅ | b :: c => <[at_ := b]> (code_memory (at_ + 1) c) end.
Lemma code_memory_at c : ∀ at_, bytes_at (code_memory at_ c) at_ c.
Proof.
  induction c as [|b c IH]; intros at_; [by intros i y|]. cbn [code_memory].
  apply bytes_at_cons. split; [by rewrite lookup_insert_eq|].
  intros i y Hi. rewrite lookup_insert_ne by lia. by apply IH.
Qed.
Lemma demo_ready : ∃ sc m,
  ready demo_pad demo_loader 0 (elsewhere (place:=65536) demo_hs) m 4096 demo_parsed sc demo_hs [16; 72] demo_relas.
Proof.
  destruct (layout_spec demo_fill demo_pad demo_loader 0 0x555000 demo_fill_length eq_refl demo_parsed demo_small)
    as (sc & _ & Hca & Hb & Hlaid).
  destruct (relocate_shellcode_spec demo_pad demo_loader 0 0x555000 eq_refl demo_parsed 4096 sc demo_small)
    as (sc' & _ & Hlaid'); [by vm_compute|by vm_compute|by vm_compute|done|done|done|].
  exists sc', (code_memory 4096 (code sc')).
  apply laid_out_ready; [done|exact demo_small|exact demo_describes|done|apply code_memory_at|].
  change (code_size (shellcode_funcall_trap demo_pad) demo_loader demo_parsed) with 192.
  by apply demo_elsewhere.
Qed.
Lemma demo_first : ∃ h, demo_hs !! 0%nat = Some h ∧ offset h = 0 ∧ addr h = 0.
Proof. by eexists. Qed.
Lemma demo_trampoline x : TRAMPOLINE_ADDR ≤ x < TRAMPOLINE_ADDR + 4096 → outside 65536 (image_end demo_hs) x.
Proof. intros Hx. unfold outside. change (image_end demo_hs) with 4096. unfold TRAMPOLINE_ADDR in Hx. lia. Qed.

Lemma flags_reach_scout_witness : ∃ sc m m' e',
  load_shared_object (E:=Z) (Os:=LoaderSpec.demo_os libmosingar_so_path)
      (4096 + loader_at demo_pad demo_loader demo_parsed) 5 (fun _ => mret tt) (so_path sc) (headers sc) (header_num sc)
      (init_funcs sc) (FlightDeck.rela sc) 0 (Loading m 0) =
    (call_all (E:=Z) (fun _ => mret tt) [65552; 65608] ;; mret 0) (Loading m' e') ∧
  load64 (65536 + 48) m' = Ok (u64 (65536 + 48 + 3)).
Proof.
  destruct demo_ready as (sc & m & Hr).
  destruct (flags_reach_scout (E:=Z) (Os:=demo_os libmosingar_so_path) (F:=demo_file) (place:=65536)
    (library_file0:=demo_library _) (maps_memory0:=demo_maps _) demo_hs [16; 72] [(8, 40)] 3 48 demo_pad
    demo_loader 0 (4096 + loader_at demo_pad demo_loader demo_parsed) demo_loader (fun _ p => Ok (tt, p)))
    with (m:=m) (e:=0) (at_:=4096) (p:=demo_parsed) (sc:=sc)
    as (m' & e' & H1 & _ & H2 & _).
  - repeat constructor; by vm_compute.
  - repeat constructor; by vm_compute.
  - by vm_compute.
  - exact demo_first.
  - exact demo_trampoline.
  - apply Nat.leb_le. by vm_compute.
  - exact Hr.
  - exact (rd_loader _ _ _ _ _ _ _ _ _ _ _ Hr).
  - by repeat constructor.
  - by intros f q q' [= ->].
  - exists sc, m, m', e'. split; [exact H1|exact H2].
Defined.
