(* ===== verification/Exec.v ===== *)
(** * execve and the sandbox (cmdcenter::handle_exec)

    A sandboxed program that calls execve loses the scout with its old memory.
    The Command Center follows the call as a tracer and puts a scout into the
    new program before it lets it go.  Here [handle_exec] runs on the tracing
    tools of [Ptrace] and the flight deck of [FlightDeck]; what ptrace(2) and
    waitpid(2) do to the process is a class of laws, and the theorem follows
    the process through every outcome of every call. *)

From S2P Require Import Prelude Machine Ptrace FlightDeck.
From S2P Require Import TinyPack Message Bridge CmdCenter Rpc.

(** A process as the kernel shows it to its tracer.  [program] numbers the
    programs it has executed; [traceexec] is PTRACE_O_TRACEEXEC.  Nobody is
    told when a free process executes a program. *)
Inductive process :=
| Free (program : nat)
| Attaching (program : nat)
| Stopped (program : nat) (traceexec : bool)
| Running (program : nat) (traceexec : bool)
| Gone.
Definition held (p : process) : Prop := ∀ n, p ≠ Free n.

(** The two requests that [Ptrace] does not wrap. *)
Class exec_os (E : Type) := {
  pt_setoptions : Z → Z → ST E Z;
  pt_detach : Z → ST E Z;
}.

(** The tools [handle_exec] calls are those of ptracetools.cpp and
    flightdeck.cpp. *)
#[export] Instance tracing_tools {E} `{Os : ptrace_os E} `{Ex : exec_os E} `{Fs : file_os E}
    (rounds : nat) (uninit : nat → list byte) (junk : Z) (trap loader : list byte) (entry_off code_addr : Z) :
  tracer E := {
  ptrace_attach := Ptrace.ptrace_attach rounds;
  ptrace_setoptions := pt_setoptions;
  ptrace_cont := Ptrace.ptrace_cont;
  ptrace_waittrap := Ptrace.ptrace_waittrap rounds;
  ptrace_stepi := Ptrace.ptrace_stepi rounds;
  ptrace_detach := pt_detach;
  scout_takeoff := FlightDeck.scout_takeoff rounds uninit junk trap loader entry_off code_addr;
}.

(** ** The kernel *)
Definition event (status : Z) : Z := Z.land (Z.shiftr status 16) 0xff.

(** What waitpid may report and what it means for the process: an error, its
    end, or a stop.  With the option, an execve is an event of its own; without
    it a plain SIGTRAP, as any other signal may be.  The process waits for the
    Command Center's reply while it is being attached. *)
Inductive waited : process → Z → Z → process → Prop :=
| wait_error p r st : r < 0 → waited p r st p
| wait_end p r st : 0 ≤ r → WIFEXITED st || WIFSIGNALED st = true → waited p r st Gone
| wait_attached n r st : 0 ≤ r → WIFSTOPPED st = true → event st = 0 → waited (Attaching n) r st (Stopped n false)
| wait_signal n t r st : 0 ≤ r → WIFSTOPPED st = true → event st = 0 → waited (Running n t) r st (Stopped n t)
| wait_exec n r st : 0 ≤ r → stopped_by SIGTRAP st = true → event st = PTRACE_EVENT_EXEC →
    waited (Running n true) r st (Stopped (S n) true)
| wait_plain_exec n r st : 0 ≤ r → stopped_by SIGTRAP st = true → event st = 0 →
    waited (Running n false) r st (Stopped (S n) false).

(** A request works on a stopped process only ([PTRACE_ATTACH]: on a free one);
    one that fails changes nothing. *)
Definition requested (p : process) (r : Z) (p' : process) (f : nat → bool → process) : Prop :=
  r < 0 ∧ p' = p ∨ 0 ≤ r ∧ ∃ n t, p = Stopped n t ∧ p' = f n t.

Class exec_laws (E : Type) `{Cc : cc_os E} `{Os : ptrace_os E} `{Ex : exec_os E} `{Fs : file_os E} (pid : Z) := {
  process_of : E → process;
  attach_law e : ∃ r e', pt_attach pid e = Ok (r, e') ∧
    (r < 0 ∧ process_of e' = process_of e ∨ 0 ≤ r ∧ ∃ n, process_of e = Free n ∧ process_of e' = Attaching n);
  setoptions_law o e : ∃ r e', pt_setoptions pid o e = Ok (r, e') ∧
    requested (process_of e) r (process_of e') (fun n _ => Stopped n (o =? PTRACE_O_TRACEEXEC));
  cont_law e : ∃ r e', pt_cont pid e = Ok (r, e') ∧ requested (process_of e) r (process_of e') Running;
  step_law e : ∃ r e', pt_singlestep pid e = Ok (r, e') ∧ requested (process_of e) r (process_of e') Running;
  detach_law e : ∃ r e', pt_detach pid e = Ok (r, e') ∧ requested (process_of e) r (process_of e') (fun n _ => Free n);
  waitpid_law e : ∃ r st e', pt_waitpid pid e = Ok ((r, st), e') ∧ waited (process_of e) r st (process_of e');
  sendmsg_law sock bytes ints e :
    ∃ r e', sendmsg sock bytes ints e = Ok (r, e') ∧ process_of e' = process_of e;
  (** The rest does not start or stop the process. *)
  peek_same a e v e' : pt_peek pid a e = Ok (v, e') → process_of e' = process_of e;
  poke_same a v e r e' : pt_poke pid a v e = Ok (r, e') → process_of e' = process_of e;
  getregs_same e v e' : pt_getregs pid e = Ok (v, e') → process_of e' = process_of e;
  setregs_same u e r e' : pt_setregs pid u e = Ok (r, e') → process_of e' = process_of e;
  open_same p e r e' : fo_open p e = Ok (r, e') → process_of e' = process_of e;
  lseek_same fd o e r e' : fo_lseek fd o e = Ok (r, e') → process_of e' = process_of e;
  read_same fd n e r e' : fo_read fd n e = Ok (r, e') → process_of e' = process_of e;
  close_same fd e r e' : fo_close fd e = Ok (r, e') → process_of e' = process_of e;
}.

Section Exec.
Context {E : Type} `{Laws : exec_laws E pid}.
Context (malloc : Z → list byte).
Hypothesis malloc_length : ∀ n, 0 ≤ n → Z.of_nat (length (malloc n)) = n.
Context (rounds : nat) (uninit : nat → list byte) (junk : Z) (trap loader : list byte) (entry_off code_addr : Z).
#[local] Instance tools : tracer E := tracing_tools (S rounds) uninit junk trap loader entry_off code_addr.
Implicit Types e : E.

(** *** The tools do not let the process go *)
Definition stays (e e' : E) : Prop := held (process_of e) → held (process_of e').
#[local] Instance stays_preorder : PreOrder stays.
Proof using. split; [intros e H; exact H|intros e1 e2 e3 H1 H2 H; apply H2, H1, H]. Qed.
Definition deck_stays (d d' : deck E) : Prop := stays (dkern d) (dkern d').
#[local] Instance deck_stays_preorder : PreOrder deck_stays.
Proof using. split; [intros e H; exact H|intros e1 e2 e3 H1 H2 H; apply H2, H1, H]. Qed.

Lemma waited_held p r st p' : waited p r st p' → held p → held p'.
Proof using. by destruct 1. Qed.
Lemma requested_held p r p' f : requested p r p' f → (∀ n t, held (f n t)) → held p → held p'.
Proof using. intros [[_ ->]|(_ & n & t & _ & ->)] Hf H; [done|apply Hf]. Qed.

Lemma stays_same {A} (m : ST E A) :
  (∀ e a e', m e = Ok (a, e') → process_of e' = process_of e) → preserves stays m.
Proof using. intros Hm e a e' H. unfold stays. by rewrite (Hm _ _ _ H). Qed.
Lemma stays_peek a : preserves stays (pt_peek pid a).
Proof using. apply stays_same. intros. by eapply peek_same. Qed.
Lemma stays_poke a v : preserves stays (pt_poke pid a v).
Proof using. apply stays_same. intros. by eapply poke_same. Qed.
Lemma stays_getregs : preserves stays (pt_getregs pid).
Proof using. apply stays_same. intros. by eapply getregs_same. Qed.
Lemma stays_setregs u : preserves stays (pt_setregs pid u).
Proof using. apply stays_same. intros. by eapply setregs_same. Qed.
Lemma stays_cont : preserves stays (pt_cont pid).
Proof using.
  intros e r e' H. destruct (cont_law e) as (r' & e1 & H1 & Hr). rewrite H1 in H. injection H as <- <-.
  intros Hh. by eapply requested_held.
Qed.
Lemma stays_waitpid : preserves stays (pt_waitpid pid).
Proof using.
  intros e [r st] e' H. destruct (waitpid_law e) as (r' & st' & e1 & H1 & Hw). rewrite H1 in H. injection H as <- <- <-.
  intros Hh. by eapply waited_held.
Qed.
Lemma stays_file {A} (m : ST E A) :
  (∀ e a e', m e = Ok (a, e') → process_of e' = process_of e) → preserves deck_stays (FlightDeck.fsys m).
Proof using.
  intros Hm d a d' H. unfold FlightDeck.fsys in H. destruct (m (dkern d)) as [[b e']|] eqn:Hb; [|done].
  injection H as <- <-. by apply (stays_same m Hm _ _ _ Hb).
Qed.
Lemma stays_open p : preserves deck_stays (FlightDeck.fsys (fo_open p)).
Proof using. apply stays_file. intros. by eapply open_same. Qed.
Lemma stays_lseek fd o : preserves deck_stays (FlightDeck.fsys (fo_lseek fd o)).
Proof using. apply stays_file. intros. by eapply lseek_same. Qed.
Lemma stays_read fd n : preserves deck_stays (FlightDeck.fsys (fo_read fd n)).
Proof using. apply stays_file. intros. by eapply read_same. Qed.
Lemma stays_close fd : preserves deck_stays (FlightDeck.fsys (fo_close fd)).
Proof using. apply stays_file. intros. by eapply close_same. Qed.
Lemma stays_getp {A} (f : ElfParser → A) : preserves deck_stays (getp f).
Proof using. unfold getp. apply preserves_gets, _. Qed.
Lemma stays_modp f : preserves deck_stays (modp f).
Proof using. unfold modp. apply preserves_modify. intros d H. exact H. Qed.
#[local] Hint Resolve stays_preorder deck_stays_preorder stays_peek stays_poke stays_getregs stays_setregs
  stays_cont stays_waitpid stays_open stays_lseek stays_read stays_close stays_getp stays_modp : preserve.

Lemma stays_wait_loop n sig : preserves stays (wait_loop n sig pid).
Proof using. induction n as [|n IH]; cbn [wait_loop]; preserve. Qed.
Lemma stays_peek_loop n : ∀ a, preserves stays (peek_loop n pid a).
Proof using. induction n as [|n IH]; intros a; cbn [peek_loop]; preserve. Qed.
Lemma stays_poke_loop n : ∀ a v, preserves stays (poke_loop n pid a v).
Proof using. induction n as [|n IH]; intros a v; cbn [poke_loop]; preserve. Qed.
#[local] Hint Resolve stays_wait_loop stays_peek_loop stays_poke_loop : preserve.

Lemma stays_inject_shellcode sc u :
  preserves stays (inject_shellcode (S rounds) uninit trap pid sc u).
Proof using.
  unfold inject_shellcode, inject_mmap, inject_run_syscall, run_syscall_with, finish_syscall,
    inject_run_funcall_nosave, with_regs, run_funcall_nosave_with, finish_funcall_nosave, restore_regs, checked,
    read_text, inject_text, Ptrace.ptrace_cont, Ptrace.ptrace_waittrap, ptrace_getregs, ptrace_setregs.
  preserve.
Qed.
Lemma stays_seek o k : preserves deck_stays k → preserves deck_stays (seek o k).
Proof using. intros Hk. unfold seek. preserve. Qed.
Lemma stays_seek_null {A} o (k : P (E:=E) (option A)) : preserves deck_stays k → preserves deck_stays (seek_null o k).
Proof using. intros Hk. unfold seek_null, null_on_error. preserve. Qed.
Lemma stays_read_into n buf : preserves deck_stays (read_into n buf).
Proof using. unfold read_into. preserve. Qed.
#[local] Hint Resolve stays_read_into : preserve.
Lemma stays_read_table n buf f : preserves deck_stays (read_table n buf f).
Proof using. unfold read_table. preserve. Qed.
#[local] Hint Resolve stays_read_table stays_seek stays_seek_null : preserve.

Lemma stays_dynamic_loop n : ∀ i, preserves deck_stays (parse_dynamic_loop uninit n i).
Proof using. induction n as [|n IH]; intros i; cbn [parse_dynamic_loop]; preserve. Qed.
Lemma stays_init_loop n : ∀ i hs o b, preserves deck_stays (init_array_loop uninit n i hs o b).
Proof using.
  induction n as [|n IH]; intros i hs o b; cbn [init_array_loop]; unfold read_init_array; preserve; unfold null_on_error; preserve.
Qed.
Lemma stays_read_relas n : ∀ b, preserves deck_stays (read_relas n b).
Proof using. induction n as [|n IH]; intros b; cbn [read_relas]; unfold null_on_error; preserve. Qed.
#[local] Hint Resolve stays_dynamic_loop stays_init_loop stays_read_relas : preserve.

Lemma stays_parse_all p : preserves deck_stays (parse_all uninit p).
Proof using.
  unfold parse_all, elf_open, parse_header, parse_prog_headers, parse_dyanmic, parse_sect_headers, parse_shstrtab,
    parse_dynsym, parse_dynstr, tables_parsed. preserve.
Qed.
Lemma stays_parse_library flags : preserves deck_stays (parse_library uninit flags).
Proof using. unfold parse_library. preserve; unfold null_on_error; preserve. Qed.
Lemma stays_elf_close : preserves deck_stays elf_close.
Proof using. unfold elf_close. preserve. Qed.
#[local] Hint Resolve stays_parse_all stays_parse_library stays_elf_close stays_inject_shellcode : preserve.

(** So a process that is traced when [scout_takeoff] starts is traced when it
    returns. *)
Lemma takeoff_stays flags : preserves stays (tools.(scout_takeoff) pid flags).
Proof using.
  cbn [scout_takeoff tools tracing_tools]. unfold FlightDeck.scout_takeoff, ptrace_getregs.
  assert (preserves stays (prepare_shellcode uninit junk trap loader entry_off code_addr flags)) as Hp; [|preserve].
  intros e sc e' H. unfold prepare_shellcode in H.
  apply outcome_bind_Ok in H as ([sc' d] & H & [= <- <-]).
  match type of H with ?m ?d0 = _ => assert (preserves deck_stays m) as Hd by preserve; exact (Hd _ _ _ H) end.
Qed.

(** *** Waiting *)
Lemma stopped_status sig st : stopped_by sig st = true → WIFSTOPPED st = true.
Proof using. unfold stopped_by. by intros [H _]%andb_prop. Qed.
Lemma stopped_alive st : WIFSTOPPED st = true → WIFEXITED st = false ∧ WIFSIGNALED st = false.
Proof using.
  unfold WIFSTOPPED, WIFEXITED, WIFSIGNALED, WTERMSIG. intros H%Z.eqb_eq.
  assert (Z.land st 0x7f = 0x7f) as ->; [|done].
  change 0x7f with (Z.land 0xff 0x7f) at 1. by rewrite Z.land_assoc, H.
Qed.

(** One round is enough: waitpid reports ends and stops only. *)
Lemma wait_loop_spec n sig e : ∃ r r0 st e',
  wait_loop (S n) sig pid e = Ok ((r, st), e') ∧ waited (process_of e) r0 st (process_of e') ∧
  (r < 0 ∨ r = 0 ∧ 0 ≤ r0 ∧ stopped_by sig st = true).
Proof using.
  destruct (waitpid_law e) as (r0 & st & e' & H & Hw). cbn [wait_loop].
  rewrite (ST_bind_step _ _ _ _ _ H). destruct (Z.ltb_spec r0 0) as [|Hr0].
  { exists r0, r0, st, e'. split_and!; [done..|by left]. }
  destruct (WIFEXITED st || WIFSIGNALED st) eqn:Hend.
  { exists (-1), r0, st, e'. split_and!; [|done|by left]. apply orb_prop in Hend as [->| ->]; [done|]. by destruct (WIFEXITED st). }
  assert (WIFSTOPPED st = true) as Hst
    by (inversion Hw; subst; try done; try lia; try congruence; by eapply stopped_status).
  apply orb_false_elim in Hend as [-> ->].
  unfold stopped_by. rewrite Hst. destruct (WSTOPSIG st =? sig) eqn:Hs; cbn [andb negb].
  - exists 0, r0, st, e'. split_and!; [done..|]. right. split_and!; [done..|]. by rewrite Hst, Hs.
  - exists (-1), r0, st, e'. split_and!; [done..|by left].
Qed.

Lemma cc_step {A B} (m : ST E A) (k : A → CmdCenter.M (E:=E) B) c e a e' :
  m e = Ok (a, e') → (os m ≫= k) (c, e) = k a (c, e').
Proof using. intros H. apply ST_bind_step. unfold os. cbn [snd fst]. by rewrite H. Qed.
Lemma cc_fault {A B} (m : ST E A) (k : A → CmdCenter.M (E:=E) B) c e f :
  m e = Fault f → (os m ≫= k) (c, e) = Fault f.
Proof using. intros H. unfold mbind, ST_bind, os. cbn [snd fst]. by rewrite H. Qed.

Lemma attach_spec e n : process_of e = Free n → ∃ r e', Ptrace.ptrace_attach (S rounds) pid e = Ok (r, e') ∧
  (r < 0 ∧ (∀ m, process_of e' = Free m → m = n) ∨ r = 0 ∧ process_of e' = Stopped n false).
Proof using.
  intros P. unfold Ptrace.ptrace_attach, ptrace_waitstop.
  destruct (attach_law e) as (r & e1 & H1 & Hr). rewrite (ST_bind_step _ _ _ _ _ H1). rewrite P in Hr.
  destruct Hr as [[Hr P1]|(Hr & m & [= <-] & P1)].
  { rewrite (proj2 (Z.ltb_lt r 0)) by done. exists r, e1. split; [done|]. left. split; [done|]. rewrite P1. by intros m [= ->]. }
  rewrite (proj2 (Z.ltb_ge r 0)) by done.
  destruct (wait_loop_spec rounds SIGSTOP e1) as (r2 & r0 & st & e2 & H2 & Hw & Hr2).
  rewrite (ST_bind_step _ _ _ _ _ H2). exists r2, e2. split; [done|]. rewrite P1 in Hw.
  destruct Hr2 as [Hr2|(-> & Hr0 & Hst)].
  { left. split; [done|]. inversion Hw; subst; congruence. }
  right. split; [done|]. pose proof (stopped_alive _ (stopped_status _ _ Hst)) as [He Hs].
  inversion Hw; subst; [lia|by rewrite He, Hs in *|done].
Qed.

Lemma waittrap_spec e n t : process_of e = Running n t ∨ process_of e = Stopped n t →
  ∃ r e', Ptrace.ptrace_waittrap (S rounds) pid e = Ok (r, e') ∧
    (r < 0 ∧ held (process_of e') ∨
     r = 0 ∧ process_of e' = Stopped n t ∨
     r = 0 ∧ t = false ∧ process_of e' = Stopped (S n) false ∨
     r = PTRACE_EVENT_EXEC ∧ t = true ∧ process_of e' = Stopped (S n) true).
Proof using.
  intros P. unfold Ptrace.ptrace_waittrap.
  destruct (wait_loop_spec rounds SIGTRAP e) as (r2 & r0 & st & e2 & H2 & Hw & Hr2).
  rewrite (ST_bind_step _ _ _ _ _ H2).
  destruct Hr2 as [Hr2|(-> & Hr0 & Hst)].
  { rewrite (proj2 (Z.ltb_lt r2 0)) by done. exists r2, e2. split; [done|]. left. split; [done|].
    eapply waited_held; [exact Hw|]. by destruct P as [-> | ->]. }
  exists (event st), e2. split; [done|]. pose proof (stopped_alive _ (stopped_status _ _ Hst)) as [He Hs].
  destruct P as [P|P]; rewrite P in Hw; inversion Hw; subst; try lia; try (by rewrite He, Hs in *); right.
  - left. split; congruence.
  - right; right. split_and!; congruence.
  - right; left. split_and!; congruence.
Qed.

Lemma reply_law sock c e :
  ∃ r e', CmdCenter.send_msg_packer malloc sock (TinyPack.field tt (Int 1)) (-1) (-1) (c, e) = Ok (r, (c, e')) ∧
    process_of e' = process_of e.
Proof using Laws malloc_length.
  assert (b_ok (TinyPack.field tt (Int 1))) as Hb by by repeat split.
  destruct (sendmsg_law sock (message (TinyPack.field tt (Int 1))) [] e) as (r & e' & Hs & Hp). exists r, e'. split; [|done].
  unfold CmdCenter.send_msg_packer. rewrite (pack_size_prefix_spec malloc malloc_length) by (done || rewrite length_int_wire; lia). mstep.
  rewrite get_size_prefix_spec by (done || rewrite length_int_wire; lia). mstep. fold (message (TinyPack.field tt (Int 1))).
  unfold os. cbn [fst snd]. rewrite (send_msg_ints _ _ _ _ _ []); [by rewrite Hs| |done]. rewrite length_message. lia.
Qed.

(** The end of [handle_exec]: the process is let go, or stays with its tracer. *)
Lemma released c e : held (process_of e) →
  ∃ ok c' e', (r ← os (ptrace_setoptions pid 0); if r <? 0 then mret false else
               modc (set_sigchld_ignore false) ;; r ← os (ptrace_detach pid); mret (negb (r <? 0)))
                (c, e) = Ok (ok, (c', e')) ∧
    (ok = false ∧ held (process_of e') ∨
     ok = true ∧ sigchld_ignore c' = false ∧ ∃ n t, process_of e = Stopped n t ∧ process_of e' = Free n).
Proof using Laws.
  intros Hh. destruct (setoptions_law 0 e) as (r & e1 & H1 & Hr). rewrite (cc_step _ _ _ _ _ _ H1).
  destruct Hr as [[Hr P1]|(Hr & n & t & P & P1)].
  { rewrite (proj2 (Z.ltb_lt r 0)) by done. exists false, c, e1. rewrite P1. auto. }
  rewrite (proj2 (Z.ltb_ge r 0)) by done.
  rewrite (ST_bind_step _ _ _ tt (set_sigchld_ignore false c, e1)) by done.
  destruct (detach_law e1) as (r2 & e2 & H2 & Hr2). rewrite (cc_step _ _ _ _ _ _ H2).
  exists (negb (r2 <? 0)), (set_sigchld_ignore false c), e2. split; [done|]. rewrite P1 in Hr2.
  destruct Hr2 as [[Hr2 P2]|(Hr2 & n2 & t2 & [= <- <-] & P2)].
  - rewrite (proj2 (Z.ltb_lt r2 0)) by done. left. by rewrite P2.
  - rewrite (proj2 (Z.ltb_ge r2 0)) by done. right. split_and!; [done..|]. by exists n, t.
Qed.

(** PTRACE_SETOPTIONS has failed for the attached process. *)
Definition options_refused e : Prop := ∃ e1 r e2,
  Ptrace.ptrace_attach (S rounds) pid e = Ok (0, e1) ∧ pt_setoptions pid PTRACE_O_TRACEEXEC e1 = Ok (r, e2) ∧ r < 0.
(** [scout_takeoff] has reported success: it was called for a process stopped
    by an execve, and the program of the process is now [n]. *)
Definition vetted (n : nat) : Prop := ∃ m e r e' t,
  process_of e = Stopped m true ∧
  FlightDeck.scout_takeoff (S rounds) uninit junk trap loader entry_off code_addr pid FLAG_FILTER_INSTALLED e = Ok (r, e') ∧
  0 ≤ r ∧ process_of e' = Stopped n t.

(** The part after the wait, for an execve that has been seen. *)
Lemma new_program c e m : process_of e = Stopped m true →
  match (ok ← (r ← os (ptrace_stepi pid); if r <? 0 then mret false else
               r ← os (scout_takeoff pid FLAG_FILTER_INSTALLED); mret (negb (r <? 0)));
         if negb ok then mret false else
         r ← os (ptrace_setoptions pid 0); if r <? 0 then mret false else
         modc (set_sigchld_ignore false) ;; r ← os (ptrace_detach pid); mret (negb (r <? 0))) (c, e) with
  | Ok (ok, (c', e')) =>
      ok = false ∧ held (process_of e') ∨
      ok = true ∧ sigchld_ignore c' = false ∧ ∃ n, vetted n ∧ process_of e' = Free n
  | Fault f => ∃ m e1, process_of e1 = Stopped m true ∧
      FlightDeck.scout_takeoff (S rounds) uninit junk trap loader entry_off code_addr pid FLAG_FILTER_INSTALLED e1 = Fault f
  end.
Proof using Laws.
  intros P. destruct (step_law e) as (r & e1 & H1 & Hr).
  assert (∃ r2 e2, Ptrace.ptrace_stepi (S rounds) pid e = Ok (r2, e2) ∧
    (r2 < 0 ∧ held (process_of e2) ∨ 0 ≤ r2 ∧ ∃ m, process_of e2 = Stopped m true)) as (r2 & e2 & H2 & Hr2).
  { unfold Ptrace.ptrace_stepi. rewrite (ST_bind_step _ _ _ _ _ H1). rewrite P in Hr.
    destruct Hr as [[Hr P1]|(Hr & n & t & [= <- <-] & P1)].
    { rewrite (proj2 (Z.ltb_lt r 0)) by done. exists r, e1. split; [done|]. left. by rewrite P1. }
    rewrite (proj2 (Z.ltb_ge r 0)) by done.
    destruct (waittrap_spec e1 m true (or_introl P1)) as (r2 & e2 & H2 & Hr2). exists r2, e2. split; [done|].
    destruct Hr2 as [?|[[-> P2]|[(_ & ? & _)|(-> & _ & P2)]]]; [by left|right; split; [lia|eauto]|done|right; split; [by vm_compute|eauto]]. }
  unfold mbind at 1, ST_bind at 1. rewrite (cc_step _ _ _ _ _ _ H2).
  destruct Hr2 as [[Hr2 P2]|(Hr2 & m2 & P2)].
  { rewrite (proj2 (Z.ltb_lt r2 0)) by done. cbn. by left. }
  rewrite (proj2 (Z.ltb_ge r2 0)) by done.
  destruct (FlightDeck.scout_takeoff (S rounds) uninit junk trap loader entry_off code_addr pid FLAG_FILTER_INSTALLED e2)
    as [[r3 e3]|f] eqn:H3; [|rewrite (cc_fault _ _ _ _ _ H3); eauto].
  rewrite (cc_step _ _ _ _ _ _ H3). cbn [mret ST_ret].
  assert (held (process_of e3)) as P3 by (apply (takeoff_stays _ _ _ _ H3); by rewrite P2).
  destruct (Z.ltb_spec r3 0) as [|Hr3]; [by left|]. cbn [negb].
  destruct (released c e3 P3) as (ok & c' & e' & -> & [?|(-> & Hc & n & t & Pn & P')]); [by left|right].
  split_and!; [done..|]. exists n. split; [|done]. by exists m2, e2, r3, e3, t.
Qed.

(** C24: an execve does not take a program out of the sandbox.  Whatever the
    kernel answers to each request, [handle_exec] comes to an end (unless
    [scout_takeoff] itself does not), and a process that is then free runs the
    program it ran before, or one for which [scout_takeoff] has reported
    success while it was stopped by the execve (its report is the result of
    the last ptrace_setregs, flightdeck.cpp:614).  The exception is proved to be
    the only one: PTRACE_SETOPTIONS, whose result is not looked at, has failed.
    When success is reported, the process goes on and SIGCHLD counts again. *)
Theorem exec_keeps_sandbox sock c e n :
  process_of e = Free n →
  match handle_exec malloc pid sock (c, e) with
  | Ok (ok, (c', e')) =>
      (ok = true → sigchld_ignore c' = false ∧ ∃ m, process_of e' = Free m) ∧
      (∀ m, process_of e' = Free m → m = n ∨ vetted m ∨ options_refused e)
  | Fault f => ∃ m e1, process_of e1 = Stopped m true ∧
      FlightDeck.scout_takeoff (S rounds) uninit junk trap loader entry_off code_addr pid FLAG_FILTER_INSTALLED e1 = Fault f
  end.
Proof using Laws malloc_length.
  intros P. unfold handle_exec.
  destruct (attach_spec e n P) as (r1 & e1 & H1 & Hr1). rewrite (cc_step _ _ _ _ _ _ H1).
  destruct Hr1 as [[Hr1 P1]|(-> & P1)].
  { rewrite (proj2 (Z.ltb_lt r1 0)) by done. split; [done|]. left. by apply P1. }
  cbn [Z.ltb Z.compare].
  destruct (setoptions_law PTRACE_O_TRACEEXEC e1) as (r2 & e2 & H2 & Hr2). rewrite (cc_step _ _ _ _ _ _ H2).
  assert (∃ t, process_of e2 = Stopped n t ∧ (t = false → options_refused e)) as (t & P2 & Ht).
  { rewrite P1 in Hr2. destruct Hr2 as [[Hr2 P2]|(_ & m & t & [= <- <-] & P2)].
    - exists false. split; [done|]. intros _. by exists e1, r2, e2.
    - exists true. split; [done|]. done. }
  destruct (cont_law e2) as (r3 & e3 & H3 & Hr3).
  assert (∃ r, Ptrace.ptrace_cont pid e2 = Ok (r, e3)) as (r3' & H3').
  { unfold Ptrace.ptrace_cont. rewrite (ST_bind_step _ _ _ _ _ H3). destruct (r3 <? 0); eauto. }
  rewrite (cc_step _ _ _ _ _ _ H3').
  assert (process_of e3 = Running n t ∨ process_of e3 = Stopped n t) as P3.
  { rewrite P2 in Hr3. destruct Hr3 as [[_ ->]|(_ & ? & ? & [= <- <-] & ->)]; auto. }
  destruct (reply_law sock c e3) as (r4 & e4 & H4 & P4). rewrite (ST_bind_step _ _ _ _ _ H4).
  rewrite <-P4 in P3. destruct (r4 <? 0).
  { split; [done|]. intros m Hm. destruct P3 as [P3|P3]; congruence. }
  destruct (waittrap_spec e4 n t P3) as (evt & e5 & H5 & Hevt). rewrite (cc_step _ _ _ _ _ _ H5).
  destruct Hevt as [[Hneg P5]|[[-> P5]|[(-> & -> & P5)|(-> & -> & P5)]]].
  - rewrite (proj2 (Z.ltb_lt evt 0)) by done. split; [done|]. intros m Hm. by destruct (P5 m).
  - change (0 <? 0) with false. cbv iota. rewrite (ST_bind_step _ _ _ true (c, e5)) by done. cbn [negb].
    destruct (released c e5 ltac:(by rewrite P5)) as (ok & c' & e' & -> & [(-> & Hh)|(-> & Hc & m & t' & Pm & P')]).
    { split; [done|]. intros m Hm. by destruct (Hh m). }
    split; [eauto|]. intros m' Hm'. left. congruence.
  - change (0 <? 0) with false. cbv iota. rewrite (ST_bind_step _ _ _ true (c, e5)) by done. cbn [negb].
    destruct (released c e5 ltac:(by rewrite P5)) as (ok & c' & e' & -> & [(-> & Hh)|(-> & Hc & m & t' & Pm & P')]).
    { split; [done|]. intros m Hm. by destruct (Hh m). }
    split; [eauto|]. intros m' Hm'. right; right. by apply Ht.
  - change (PTRACE_EVENT_EXEC <? 0) with false. cbv iota.
    change (PTRACE_EVENT_EXEC =? PTRACE_EVENT_EXEC) with true. cbv iota.
    pose proof (new_program c e5 (S n) P5) as H6.
    match goal with |- context [match ?m (c, e5) with _ => _ end] => destruct (m (c, e5)) as [[ok [c' e']]|f] eqn:H7 end; [|done].
    destruct H6 as [(-> & Hh)|(-> & Hc & m & Hv & P')].
    { split; [done|]. intros m Hm. by destruct (Hh m). }
    split; [eauto|]. intros m' Hm'. right; left. congruence.
Qed.
End Exec.

(** ** Witness: a small library, and a kernel that does what it is asked *)
Definition nuls (n : nat) : list byte := replicate n NUL.
Definition le_words (ws : list Z) : list byte := concat (map (le_bytes 8) ws).
Definition elf_phdr (type off size : Z) : list byte :=
  le_bytes 4 type ++ nuls 4 ++ le_words [off; off; off; size; size; 0].
Definition elf_shdr (name off size entsize : Z) : list byte :=
  le_bytes 4 name ++ nuls 20 ++ le_words [off; size] ++ nuls 16 ++ le_bytes 8 entsize.
(** A program header and a dynamic table with one relocation, the symbol
    [global_flags], and the tables of strings and sections. *)
Definition demo_library : list byte :=
  nuls 32 ++ le_words [64; 320] ++ nuls 6 ++ concat (map (le_bytes 2) [56; 2; 64; 4; 1]) ++
  elf_phdr PT_LOAD 0 576 ++ elf_phdr PT_DYNAMIC 176 48 ++
  le_words [DT_RELA; 224; DT_RELASZ; 24; DT_RELAENT; 24] ++ le_words [8; R_X86_64_RELATIVE; 40] ++
  le_bytes 4 1 ++ nuls 4 ++ le_words [256; 8] ++
  NUL :: str "global_flags" ++ nuls 3 ++
  NUL :: str ".dynsym" ++ NUL :: str ".dynstr" ++ NUL :: str ".shstrtab" ++ nuls 6 ++
  elf_shdr 0 0 0 0 ++ elf_shdr 17 288 27 0 ++ elf_shdr 1 248 24 24 ++ elf_shdr 9 272 14 0.

(** The process and the position in the library's file.  The program executes
    another one, once. *)
Definition demo_world : Type := process * Z.
Definition demo_request (f : nat → bool → process) : ST demo_world Z := fun e =>
  Ok (match e.1 with Stopped n t => (0, (f n t, e.2)) | _ => (-1, e) end).
Definition exec_status : Z := 0x4057f.
Definition demo_wait : ST demo_world (Z * Z) := fun e =>
  Ok (match e.1 with
      | Attaching n => ((7, 0x137f), (Stopped n false, e.2))
      | Running 0 true => ((7, exec_status), (Stopped 1 true, e.2))
      | Running 0 false => ((7, trap_status), (Stopped 1 false, e.2))
      | Running n t => ((7, trap_status), (Stopped n t, e.2))
      | _ => ((-1, 0), e)
      end).
#[local] Instance calm_sockets : sockets demo_world := {
  sendmsg _ b _ := mret (Z.of_nat (length b)); recvmsg _ _ _ := mret RecvErr }.
#[local] Instance calm_files : files demo_world := {
  os_close _ := mret 0; os_openat _ _ _ _ := mret (-1, 2); os_access _ _ := mret (-1, 2);
  os_fstat _ := mret (-1, 9, Stat []); os_stat _ := mret (-1, 2, Stat []); os_lstat _ := mret (-1, 2, Stat []);
  os_readlink _ _ := mret (-1, 2, []); os_unlink _ := mret (-1, 2) }.
#[local] Instance calm_os : cc_os demo_world := {
  epoll_create1 := mret 3; epoll_ctl _ _ _ := mret 0; epoll_wait _ := mret (WaitEvents []); os_send _ _ := mret 4 }.
#[local] Instance calm_ptrace : ptrace_os demo_world := {
  pt_poke _ _ _ := mret 0; pt_peek _ _ := mret (0, 0);
  pt_attach _ := fun e => Ok (match e.1 with Free n => (0, (Attaching n, e.2)) | _ => (-1, e) end);
  pt_interrupt _ := mret (-1);
  pt_cont _ := demo_request Running; pt_singlestep _ := demo_request Running;
  pt_getregs _ := mret (0, demo_user_regs); pt_setregs _ _ := mret 0;
  pt_waitpid _ := demo_wait;
}.
#[local] Instance calm_exec : exec_os demo_world := {
  pt_setoptions _ o := demo_request (fun n _ => Stopped n (o =? PTRACE_O_TRACEEXEC));
  pt_detach _ := demo_request (fun n _ => Free n);
}.
#[local] Instance library_on_disk : file_os demo_world := {
  fo_open _ := fun e => Ok (9, (e.1, 0)); fo_lseek _ o := fun e => Ok (o, (e.1, o));
  fo_read _ n := fun e =>
    let b := take (Z.to_nat n) (drop (Z.to_nat e.2) demo_library) in
    Ok ((Z.of_nat (length b), b), (e.1, e.2 + Z.of_nat (length b)));
  fo_close _ := mret 0;
}.

Lemma demo_requested f e : ∃ r e', demo_request f e = Ok (r, e') ∧ requested e.1 r e'.1 f.
Proof.
  destruct e as [p k]. unfold demo_request. cbn [fst snd].
  destruct p; do 2 eexists; (split; [reflexivity|]); try (by left); right; split; [lia|eauto].
Qed.
#[local] Program Instance calm_laws : exec_laws demo_world 7 := { process_of e := e.1 }.
Next Obligation. intros [p k]. destruct p; do 2 eexists; (split; [reflexivity|]); try (by left); right; split; [lia|eauto]. Qed.
Next Obligation. intros o e. apply (demo_requested _ e). Qed.
Next Obligation. intros e. apply (demo_requested _ e). Qed.
Next Obligation. intros e. apply (demo_requested _ e). Qed.
Next Obligation. intros e. apply (demo_requested _ e). Qed.
Next Obligation.
  intros [p k]. destruct p as [n|n|n t|[|n] [|]|]; do 3 eexists; (split; [reflexivity|]); cbn [fst];
    try (by apply wait_error); by constructor.
Qed.
Next Obligation. intros. by do 2 eexists. Qed.
Next Obligation. intros *. intros [=]. by subst. Qed.
Next Obligation. intros *. intros [=]. by subst. Qed.
Next Obligation. intros *. intros [=]. by subst. Qed.
Next Obligation. intros *. intros [=]. by subst. Qed.
Next Obligation. intros *. intros [=]. by subst. Qed.
Next Obligation. intros *. intros [=]. by subst. Qed.
Next Obligation. intros *. intros [=]. by subst. Qed.
Next Obligation. intros *. intros [=]. by subst. Qed.

(** The scout takes off from the library, and the new program goes on. *)
Lemma exec_keeps_sandbox_witness :
  let uninit n := nuls n in
  let trap := shellcode_funcall_trap (nuls 7) in
  let takeoff := FlightDeck.scout_takeoff (E:=demo_world) 1 uninit 0 trap [] 0 0x555000 in
  ∃ c' k, handle_exec (Tr:=tracing_tools 1 uninit 0 trap [] 0 0x555000) demo_malloc 7 5 (new_cmdcenter 3, (Free 0, 0)) =
      Ok (true, (c', (Free 1, k))) ∧
    ∃ m e r e' t, e.1 = Stopped m true ∧ takeoff 7 FLAG_FILTER_INSTALLED e = Ok (r, e') ∧ 0 ≤ r ∧ e'.1 = Stopped 1 t.
Proof.
  intros uninit trap takeoff.
  pose proof (exec_keeps_sandbox (Laws:=calm_laws) demo_malloc demo_malloc_length 0 uninit 0 trap [] 0 0x555000
    5 (new_cmdcenter 3) (Free 0, 0) 0 eq_refl) as H.
  destruct (handle_exec _ _ _ _) as [[ok [c' e']]|f] eqn:Hrun; [|by vm_compute in Hrun].
  exists c', e'.2.
  assert (ok = true ∧ e'.1 = Free 1) as [-> He] by (vm_compute in Hrun; by injection Hrun as <- <- <-).
  split. { destruct e' as [p k]. cbn in He. by subst p. }
  destruct H as [_ H]. destruct (H 1%nat He) as [?|[Hv|(e1 & r & e2 & H1 & H2 & Hr)]]; [done|exact Hv|].
  exfalso. vm_compute in H1. injection H1 as <-. vm_compute in H2. injection H2 as <- _. lia.
Defined.

(** When PTRACE_SETOPTIONS fails, the program that has been executed is taken
    for the old one and let go, although no scout has been put into it. *)
Theorem exec_unseen :
  let deaf := {| pt_setoptions _ o := fun e : demo_world => if o =? PTRACE_O_TRACEEXEC then Ok (-1, e) else Ok (0, e);
                 pt_detach _ := demo_request (fun n _ => Free n) |} in
  handle_exec (Tr:=tracing_tools (Ex:=deaf) 1 nuls 0 (nuls 24) [] 0 0x555000) demo_malloc 7 5 (new_cmdcenter 3, (Free 0, 0)) =
    Ok (true, (new_cmdcenter 3, (Free 1, 0))).
Proof. by vm_compute. Qed.
